(* ===== verification/_CoqProject ===== *)
-Q . S2P
Prelude.v
CoreTypes.v
Slots.v
Bitmap.v
Metadata.v
Channel.v
Sync.v
Cancel.v
Kprint.v
Memory.v
ReadyQueue.v
QueuePool.v
TimerHeap.v
Config.v
Arch.v
Parking.v
Sched.v
SchedPool.v
Facade.v
KsvcTypes.v
KsvcRouter.v
KsvcRing.v
KsvcRingPool.v
KsvcUring.v
KsvcPool.v
KsvcDispatch.v
KsvcReactor.v
KsvcKmod.v
Gerror.v
GerrorErrno.v
ConnSlab.v
KernelIo.v
Echo.v
Httpd.v
HttpdRun.v
GvtHttpd.v
StreamServers.v
Programs.v
Launch.v
Smoke.v
Wrkr.v
