(* ===== verification/Prelude.v ===== *)
(** * gvthread: a verification development

    gvthread is a user-space thread runtime in Rust.  GVThreads are stackful
    threads that worker OS threads run one at a time; they yield, block, sleep
    and communicate without entering the kernel.  KSVC is its I/O service: system
    calls of GVThreads go through rings to io_uring or to a pool of threads.  This
    library models the crates [gvthread-core], [gvthread-runtime] and their
    facade [gvthread], the error crate [gerror], the four crates of KSVC, its
    kernel module, and the servers and the load generator built on them, as Rocq
    definitions translated from the source, and proves what makes them correct,
    or where they are not, the run that shows it.

    ** The program

    [gvthread-core] has the data the runtime shares: ids, states and priorities;
    the slot allocator that hands out ids; bitmaps of ready GVThreads; the
    metadata page at the start of every slot; channels, a spin lock and a mutex;
    cancellation tokens.  [gvthread-runtime] has the machinery: one reserved
    address range cut into slots (metadata, stack, guard page); a ready queue
    with a local queue per worker, a global one and work stealing; timers; the
    assembly of the context switch; and the scheduler, which puts them together.
    [spawn] takes a slot from the allocator, activates its memory, prepares a
    context and queues the id.  A worker pops an id, switches to it and, when it
    comes back, queues it again, parks it or recycles its slot, according to the
    state byte in its metadata.  Wakers and the timer thread set that byte and
    queue parked ids again.

    [ksvc-core] has the entries and traits of the I/O service, [ksvc-module] their
    implementations: a router that assigns system calls to tiers, rings in memory
    shared with the kernel module, an io_uring back end, a worker pool.
    [ksvc-executor] is the dispatcher that moves entries from the submit ring to
    the back ends and answers to the completion ring.  [ksvc-gvthread] lets
    GVThreads block on I/O, through one shared reactor or through a ring per
    worker that the worker loop polls.  The kernel module in [src/kmod] allocates
    the rings and the page of process data and maps them.

    The programs in [src/cmd] use the crates: an HTTP and an echo server that
    are event loops over one io_uring, two HTTP servers with one GVThread per
    connection, the servers on tokio and in Go they are compared with, the load
    generator that measures them, examples and benchmarks of the runtime, and a
    smoke test of the I/O service and the kernel module.

    ** The files

    - [Prelude]: machine integers with their wrap-around, results, panics
      ([outcome]), vectors, reachability of a step relation, thread pools
      (interleavings of atomic steps) and the lemmas and tactics all files share.
    - [CoreTypes]: [gvthread-core/src/lib.rs], [id.rs], [state.rs], [error.rs].
    - [Slots]: [slot.rs]; [SlotAllocator] are the methods, [SlotPool] their
      atomic steps.
    - [Bitmap]: [bitmap.rs]; [ReadyBitmap], [ReadyBitmaps], and [ClaimPool] with
      the atomic steps.
    - [Metadata]: [metadata.rs]; the records, their methods, and [Layout].
    - [Channel]: [channel.rs]; [ChannelInner] and [ChannelPool].
    - [Sync]: [spinlock.rs] and [mutex.rs].
    - [Cancel]: [cancel.rs] and [env.rs].
    - [Kprint]: [kprint.rs]: settings, thread-local ids and the bytes of a line.
    - [Memory]: [gvthread-runtime/src/memory]; [MemoryRegion] over the class
      [VirtualMemory] of what the kernel promises, with the instance [FlatVM].
    - [ReadyQueue]: [ready_queue]; the class [ReadyQueue] is the trait with its
      laws, [SimpleQueue] the implementation, which is an instance.
    - [QueuePool]: its operations and parking as atomic steps of concurrent
      workers and other threads, with the condition variable.
    - [TimerHeap]: [timer/entry.rs], [timer/impls], [timer/registry.rs],
      [timer/worker.rs], over the class [BinaryHeap] of the standard library.
    - [Config]: [build.rs] and [config].
    - [Arch]: [arch/x86_64/mod.rs], instruction by instruction.
    - [Parking]: [parking]: the futex parker and the fallback, as atomic steps.
    - [Sched]: [scheduler.rs], [tls.rs], [worker.rs] and the sleep queue and
      timer loop of [timer/mod.rs], as functions on the state of the process.
    - [SchedPool]: the same operations as atomic steps of concurrent workers,
      GVThreads, timer thread and other threads, against the class [ReadyQueue].
    - [Facade]: [gvthread/src/lib.rs]: the [Runtime] handle.
    - [KsvcTypes]: [ksvc-core] and the small parts of [ksvc-module]
      ([heap_buffers.rs], [eventfd_notifier.rs]); the traits are the classes
      [SyscallRouter], [IoBackend], [WorkerPool], [Notifier], [CompletionSink],
      [BufferProvider].
    - [KsvcRouter]: [probe_router.rs].
    - [KsvcRing]: [ksvc_sys.rs], [submit_ring.rs], [ring_completion.rs] and the
      rings of [ksvc-executor]; [KsvcRingPool] the submit ring as atomic steps.
    - [KsvcUring]: [basic_iouring.rs], over the class [IoUring] for the crate of
      that name and the kernel, with the instance [Loopback].
    - [KsvcPool]: [fixed_pool.rs], over the class [ArrayQueue] of crossbeam.
    - [KsvcDispatch]: the dispatcher loop and [instance.rs].
    - [KsvcReactor]: [reactor.rs], [worker_reactor.rs], [syscall.rs], [net.rs].
    - [KsvcKmod]: [src/kmod] over the class [Kernel], with the instance
      [FlatKernel], and [mmap_shared_page.rs].
    - [Gerror]: the crate [gerror]: codes, call sites, metrics, contexts, errors
      and conversions, and what its macros expand to; [GerrorErrno]: the variant
      of errors and conversions in [codes], with an errno.
    - [ConnSlab]: the connection slab, the correlation ids and the actions that
      the two io_uring servers share; [KernelIo]: the kernel under them.
    - [Echo]: [cmd/echo/rust/ksvc], its handlers and all its runs.
    - [Httpd]: [cmd/httpd/rust/ksvc], the parser, the handlers, the event loop;
      [HttpdRun]: all its runs against [KernelIo].
    - [Launch]: how both start: settings, sockets, threads, and the way of their
      requests through [KsvcRouter] and [KsvcUring].
    - [GvtHttpd]: [cmd/httpd/rust/gvthread0] and [gvthread1].
    - [StreamServers]: [cmd/httpd/rust/tokio], [cmd/echo/rust/tokio],
      [cmd/httpd/go] and [cmd/echo/go], on one scripted stream.
    - [Programs]: [cmd/gvt]: the playground, the stress test and the basic
      example ([Workload] has their interleavings), the channel example and the
      channel benchmark.
    - [Smoke]: [cmd/smoke/ksvc]: the client of [KsvcKmod], [KsvcRouter],
      [KsvcUring] and [KsvcPool].
    - [Wrkr]: [cmd/wrkr/rust/wrkr].

    A record stands for a struct, an inductive type for an enum, a definition or
    fixpoint with the source's name for each function.  A function that may
    panic returns an [outcome]; one that may fail returns a [Result] with the
    source's error.  State is passed explicitly.  A clock reading, the result of
    a system call, a code address or a closure is an argument.

    ** What the theorems show

    - Exclusion and conservation.  Slot ids are owned once ([slot_ids_partition],
      [allocate_exhaustion]); a bit of the bitmap is claimed at most as often as
      it is set ([claims_bounded_by_sets]); the ready queue returns what was put
      into it ([ready_queue_conserves]), in every interleaving
      ([queue_conserves_ids], [queue_never_stuck]); locks exclude
      ([spinlock_mutual_exclusion], [mutex_mutual_exclusion]); and a GVThread is
      at most in one place, with one worker, and never forgotten, in every
      interleaving where wakers do not overtake the worker
      ([scheduler_exclusive]).
    - The races that are left.  A wake between the store of [Blocked] and the
      end of the switch runs a GVThread twice ([early_wake_breaks_exclusion]), a
      sleep can lose its wake-up ([sleep_can_lose_wakeup]), an old sleep entry
      wakes the next user of a slot ([stale_entry_wakes_successor],
      [generation_restarts]), a receiver can see a closed channel before its
      last message ([recv_closed_with_message]).  These are runs of the step
      relation, found by executing a schedule.
    - Functional behaviour on every branch: [spawn_spec], [scheduler_start_spec],
      [scheduler_lifecycle], [process_sleep_queue_spec], [preempt_watch_spec],
      [poll_expired_fires_due], [cancelled_timer_does_not_fire],
      [timer_handles_unique], [activate_slot_spec], [find_and_claim_by_priority],
      [channel_fifo], [channel_closed_iff], [cancel_reaches_descendants].
    - Refinement: the bitmap implements a finite set ([bitmap_refines_set]), the
      atomic steps of [allocate] its function ([allocate_steps]), the steps of
      the scheduler its functions ([steps_refine_functions]), the queue the laws
      of its trait (the instance [simple_ready_queue]), the steps of the queue
      its operations ([pop_steps_refine], [push_steps_refine]).
    - Memory and machine code: slots are disjoint and guards stay closed
      ([guard_pages_never_accessible]), but an overflowing stack meets the
      metadata page first ([stack_overflow_hits_metadata]); the layout of the
      metadata is the one the assembly uses ([metadata_layout]); a context switch
      is transparent to its caller ([context_switch_roundtrip]), enters a new
      GVThread correctly ([first_activation]) and the forced restore writes below
      the stack pointer ([forced_restore_spec]).
    - Round trips and liveness: [config_file_roundtrip], [global_queue_served],
      [lone_gvthread_not_stolen], [calculate_sleep_bounds].
    - No worker sleeps over work: when all of them wait in the ready queue and
      nobody is in the middle of a push, the queues are empty
      ([queue_no_stranded_work]).
    - Parking: a wake-up is never lost, in any interleaving
      ([futex_no_lost_wakeup], [fallback_no_lost_wakeup]), but the counts of
      woken threads are not exact ([futex_wake_counts_twice],
      [fallback_wake_all_misses]).
    - The runtime handle: workers run from the one successful start to the next
      shutdown ([runtime_life]), and a second [block_on] has none
      ([block_on_twice]).
    - Errors: call sites are coded without loss ([site_id_roundtrip]); the
      counters count what was raised ([counters_refine], [errors_counted]) except
      at sites of users ([user_sites_not_counted]); a build without debugging
      behaves alike ([production_build_agrees]); conversions
      ([from_io_classifies], [io_roundtrip_loses_errno], [into_context_preserves]).
      The variant with an errno keeps it ([errno_roundtrip]) until it is wrapped
      ([wrapping_keeps_source]), takes codes from kinds ([errno_code_from_kind])
      and otherwise extends the errors in use ([errno_variant_agrees]).
      The lines of the debug log are those of [klog_line], and settings made too
      early are lost ([early_settings_lost]).
    - The servers.  For every behaviour of clients and kernel, the event loops
      do not panic, have one request in flight per connection and account for
      their descriptors ([httpd_runs_safely], [httpd_descriptors_accounted],
      [httpd_owned_descriptors_open], [echo_runs_safely]); requests are parsed,
      files confined and responses delivered ([parse_request_spec],
      [file_paths_confined], [response_delivered]); the echo server returns what
      it got ([echo_answers_exactly], [echo_invents_nothing]); the handler of a
      GVThread answers each request once ([gvt_connection_serves]).  Where they
      fail: [httpd_reset_leaks_file], [path_without_slash_leaves_directory],
      [pipelined_request_lost], [echo_short_send_drops],
      [gvt_pipelined_request_lost].  Their requests reach the kernel as what they
      mean ([requests_reach_ring]), and their threads share the connections
      ([launch_shares]).
    - The servers on other runtimes: those with a buffer answer alike on every
      stream ([buffered_servers_agree]), the Go server answers every request
      ([go_answers_every_request]), also those the others lose
      ([pipelining_tells_servers_apart]), and the echo servers return the same
      bytes ([echo_servers_agree]).
    - The programs: under every interleaving they report what they mean to
      ([programs_report]) and end ([programs_terminate]); the channel benchmark
      and example ([bench_channel_spec], [channel_example_spec]).  The smoke test
      passes on the models of the module, of the router, of the io_uring back end
      and of the pool ([smoke_kmod_spec], [smoke_routing_spec],
      [smoke_succeeds]), and takes late answers for others ([smoke_wait_spec],
      [smoke_mixes_up_answers]).
    - The load generator: totals and latencies are those of the connections
      ([phase_accounts]), statistics are of measured values
      ([compute_stats_spec], [percentile_indices]), round trips end but are not
      checked ([roundtrip_ends], [roundtrip_accepts_anything]), and text is read
      back ([escape_roundtrip], [echo_addr_roundtrip], [parse_args_result]).
    - The I/O service.  The routing table is the classification its comments
      describe ([router_classifies]); the submit ring is a bounded queue
      ([submit_ring_refines_queue]), also under concurrency if the consumer reads
      only what was written ([submit_ring_fifo]); the completion ring publishes
      what was pushed ([completion_ring_publishes]); the pool loses no request but
      those it drops on purpose ([pool_conserves_requests]); a turn of the
      dispatcher answers everything it finds ([turn_answers_everything]); results
      reach exactly the GVThreads that wait for them ([reactor_delivers],
      [worker_turn_serves_io]); the wrappers' arguments arrive in the kernel
      ([wrappers_reach_kernel]); draining and sending end ([shutdown_terminates],
      [send_all_terminates]).
    - Its defects, each with the input or run that shows it: entries published
      before they are written ([consumer_reads_unwritten_slot]), completions lost
      or never published ([poll_loses_completion], [sink_publishes_nothing],
      [full_ring_drops_answer], [pool_drops_result]), rings read in the wrong
      place ([executor_reads_header_page]), calls refused or mistranslated
      ([dispatcher_refuses_io_uring], [translation_coverage]), GVThreads that
      block for ever ([refused_submit_blocks_forever], [early_answer_is_lost],
      [send_all_spins_on_zero]), panics ([cancel_completion_panics]) and abandoned
      work ([shutdown_abandons_work]).
    - The kernel module: what is allocated is freed, once
      ([device_gives_everything_back], [create_all_or_nothing]), unless two
      requests race ([concurrent_create_leaks]); a created ring is accepted and
      every slot of it is mapped ([created_ring_usable]); a mapping shows only
      pages of its instance ([mmap_maps_own_pages]); both sides agree on layouts
      and data ([kernel_layouts_agree], [shared_page_roundtrip]) but not on the
      counters ([shared_page_counters_misread]).

    ** Bounds and fuel

    Integers are [Z] reduced to their width where the source wraps.  [usize] is
    64 bits.  Fuel appears where a loop is not structural, and is shown to be
    enough: [poll_loop] and [process_loop] take one turn more than the heap has
    entries, since every turn removes one; the drain of an io_uring takes one
    turn more than it has completions; [send_all] one turn per byte and retry;
    a connection of [GvtHttpd] or [StreamServers] one turn per piece received; a
    round trip of [Wrkr] one read per byte.
    [send] and [recv], [try_push] and the loops of servers, which may run for
    ever, take the number of retries or the list of what happens between turns
    as an argument.  Thread pools have any
    number of threads.  Interleavings are sequentially consistent; the weaker
    orders that the source asks of some atomics are not modelled.

    ** What is not modelled

    Formatted output ([Debug], [Display] of most types, the statistics printed
    by the programs); trait declarations without bodies; OS thread creation,
    which is taken to succeed; the signal functions and the aarch64 back end,
    which are stubs; the kernel module's test, the preemption example (endless
    loops against the clock), and the Go servers over HTTP libraries; set-up of
    listening sockets where the runtime does it; signal handlers; the HTTP
    clients of the load generator, which are libraries; the Python and shell
    scripts that build, run and tabulate benchmarks.  The time a thread spends
    blocked in [io_uring_enter] has no counterpart in the functions of
    [KsvcReactor]. *)

From stdpp Require Export base tactics list numbers gmap sets strings relations sorting.
From Stdlib Require Export ZArith Lia.

Open Scope Z_scope.

(** ** Machine integers

    A [w]-bit unsigned integer is a [Z] kept in [0, 2^w).  [wrap w] is the
    reduction the hardware performs; [x +[w] y] and [x -[w] y] are Rust's
    [wrapping_add]/[fetch_add] and [wrapping_sub]/[fetch_sub]. *)

Declare Scope rust_scope.
Delimit Scope rust_scope with rust.

Definition wrap (w x : Z) : Z := x `mod` 2 ^ w.

Notation "x +[ w ] y" := (wrap w (x + y)) (at level 50, w at level 0, left associativity) : rust_scope.
Notation "x -[ w ] y" := (wrap w (x - y)) (at level 50, w at level 0, left associativity) : rust_scope.
Notation "x *[ w ] y" := (wrap w (x * y)) (at level 40, w at level 0, left associativity) : rust_scope.
Open Scope rust_scope.

Definition U8_MAX : Z := 2 ^ 8 - 1.
Definition U32_MAX : Z := 2 ^ 32 - 1.
Definition U64_MAX : Z := 2 ^ 64 - 1.

(** [usize] is 64 bits on the two targets the runtime has code for. *)
Definition USIZE_MAX : Z := U64_MAX.

Definition in_u (w x : Z) : Prop := 0 ≤ x < 2 ^ w.

(** [a.saturating_sub(b)] on an unsigned type. *)
Definition saturating_sub (a b : Z) : Z := Z.max 0 (a - b).

(** [!x] on [u64]. *)
Definition u64_not (x : Z) : Z := U64_MAX - x.

(** ** Results and panics *)

(** [Result<A, E>]. *)
Inductive Result (A E : Type) : Type :=
| Ok (v : A)
| Err (e : E).
Arguments Ok {A E} v.
Arguments Err {A E} e.

Definition is_ok {A E} (r : Result A E) : bool :=
  match r with Ok _ => true | Err _ => false end.

(** A computation that may panic (index out of bounds, [expect] on an error,
    division by zero). *)
Inductive outcome (A : Type) : Type :=
| Ret (v : A)
| Panic.
Arguments Ret {A} v.
Arguments Panic {A}.

#[export] Instance outcome_ret : MRet outcome := λ A, Ret.
#[export] Instance outcome_bind : MBind outcome :=
  λ A B f m, match m with Ret v => f v | Panic => Panic end.

(** [v[i]] and [v[i] = x] on a slice of length [length v]: out of range panics. *)
Definition index {A} (v : list A) (i : Z) : outcome A :=
  match (if i <? 0 then None else v !! Z.to_nat i) with Some x => Ret x | None => Panic end.
Definition index_set {A} (v : list A) (i : Z) (x : A) : outcome (list A) :=
  if (0 <=? i) && (i <? Z.of_nat (length v)) then Ret (<[Z.to_nat i := x]> v) else Panic.

(** A [for] loop over [l] whose body may panic. *)
Fixpoint fold_outcome {A B} (f : B → A → outcome B) (b : B) (l : list A) : outcome B :=
  match l with
  | [] => Ret b
  | x :: l' => b' ← f b x; fold_outcome f b' l'
  end.

#[export] Instance Result_eq_dec {A E} `{EqDecision A, EqDecision E} : EqDecision (Result A E).
Proof. solve_decision. Defined.

(** ** [Vec] and [VecDeque]

    Both are lists; a [Vec] used as a stack pops its last element, a
    [VecDeque] pops its first. *)

Section Vectors.
Context {A : Type}.

Definition push_back (v : list A) (x : A) : list A := v ++ [x].

Definition vec_pop (v : list A) : option (A * list A) :=
  match last v with
  | Some x => Some (x, take (pred (length v)) v)
  | None => None
  end.

Definition pop_front (v : list A) : option (A * list A) :=
  match v with
  | [] => None
  | x :: v' => Some (x, v')
  end.

Lemma vec_pop_snoc v x : vec_pop (v ++ [x]) = Some (x, v).
Proof.
  unfold vec_pop. rewrite last_snoc, length_app. simpl.
  replace (pred (length v + 1)) with (length v) by lia.
  by rewrite take_app_length.
Qed.

Lemma vec_pop_Some v x v' : vec_pop v = Some (x, v') → v = v' ++ [x].
Proof.
  destruct v as [|y v _] using rev_ind; [done|].
  rewrite vec_pop_snoc. by intros [= -> ->].
Qed.

Lemma vec_pop_None v : vec_pop v = None → v = [].
Proof.
  destruct v as [|y v _] using rev_ind; [done|]. by rewrite vec_pop_snoc.
Qed.

Lemma pop_front_Some v x v' : pop_front v = Some (x, v') → v = x :: v'.
Proof. by destruct v; intros [= -> ->]. Qed.

Lemma pop_front_None v : pop_front v = None → v = [].
Proof. by destruct v. Qed.
End Vectors.

Lemma length_filter_ext {A} (P Q : A → Prop) `{!∀ x, Decision (P x), !∀ x, Decision (Q x)} l :
  (∀ x, x ∈ l → P x ↔ Q x) → length (filter P l) = length (filter Q l).
Proof.
  induction l as [|x l IH]; intros HPQ; [done|].
  rewrite !filter_cons. assert (IH' := IH ltac:(set_solver)).
  specialize (HPQ x ltac:(set_solver)). repeat case_decide; simpl; naive_solver.
Qed.

Lemma list_filter_iff_in {A} (P Q : A → Prop) `{!∀ x, Decision (P x), !∀ x, Decision (Q x)} (l : list A) :
  (∀ x, x ∈ l → P x ↔ Q x) → filter P l = filter Q l.
Proof.
  induction l as [|x l IH]; intros HPQ; [done|].
  rewrite !filter_cons. rewrite IH by set_solver.
  specialize (HPQ x ltac:(set_solver)). repeat case_decide; naive_solver.
Qed.

Lemma list_filter_all {A} (P : A → Prop) `{!∀ x, Decision (P x)} (l : list A) :
  (∀ x, x ∈ l → P x) → filter P l = l.
Proof.
  induction l as [|x l IH]; intros HP; [done|]. rewrite filter_cons, decide_True by set_solver.
  by rewrite IH by set_solver.
Qed.

Lemma list_filter_none {A} (P : A → Prop) `{!∀ x, Decision (P x)} (l : list A) :
  (∀ x, x ∈ l → ¬ P x) → filter P l = [].
Proof.
  induction l as [|x l IH]; intros HP; [done|]. rewrite filter_cons, decide_False by set_solver.
  apply IH. set_solver.
Qed.

Lemma length_filter_fmap {A B} (f : A → B) (P : B → Prop) `{!∀ x, Decision (P x)} l :
  length (filter P (f <$> l)) = length (filter (λ x, P (f x)) l).
Proof.
  induction l as [|x l IH]; [done|]. rewrite fmap_cons, !filter_cons.
  case_decide; simpl; by rewrite IH.
Qed.

Lemma index_Ret {A} (v : list A) i x :
  index v i = Ret x ↔ 0 ≤ i ∧ v !! Z.to_nat i = Some x.
Proof. unfold index. destruct (Z.ltb_spec i 0); [|destruct (v !! _)]; naive_solver lia. Qed.

Lemma index_set_Ret {A} (v : list A) i x :
  0 ≤ i < Z.of_nat (length v) → index_set v i x = Ret (<[Z.to_nat i := x]> v).
Proof. intros. unfold index_set. case_match; [done|lia]. Qed.

Lemma index_is_Ret {A} (v : list A) i :
  0 ≤ i < Z.of_nat (length v) → ∃ x, index v i = Ret x ∧ v !! Z.to_nat i = Some x.
Proof.
  intros Hi. destruct (lookup_lt_is_Some_2 v (Z.to_nat i)) as [x Hx]; [lia|].
  exists x. split; [|done]. apply index_Ret. split; [lia|done].
Qed.

(** ** Reachability

    Interleavings are paths of a step relation; an invariant is a predicate
    that the initial state has and every step keeps. *)

Section Reachability.
Context {S : Type} (step : S → S → Prop).

Definition reachable (init : S → Prop) (s : S) : Prop :=
  ∃ s0, init s0 ∧ rtc step s0 s.

Lemma rtc_invariant (I : S → Prop) s s' :
  (∀ x y, I x → step x y → I y) → rtc step s s' → I s → I s'.
Proof. intros Hstep Hr. induction Hr; eauto. Qed.

Lemma reachable_invariant (init I : S → Prop) s :
  (∀ x, init x → I x) → (∀ x y, I x → step x y → I y) → reachable init s → I s.
Proof. intros Hi Hs (s0 & H0 & Hr). eapply rtc_invariant; eauto. Qed.
End Reachability.

(** ** Thread pools

    Concurrent components are modelled as a pool: a shared state and one
    local state (program counter with its local variables) per thread.  A step
    of the pool is an atomic step of any one of its threads, so the paths of
    [pool_step] are all the sequentially consistent interleavings. *)

Section Pool.
Context {Sh L : Type}.

Inductive pool_step (tstep : Sh → L → Sh → L → Prop) : Sh * list L → Sh * list L → Prop :=
| pool_step_intro sh l sh' l' l1 l2 :
    tstep sh l sh' l' → pool_step tstep (sh, l1 ++ l :: l2) (sh', l1 ++ l' :: l2).

Lemma pool_step_at (tstep : Sh → L → Sh → L → Prop) sh ls i l sh' l' :
  ls !! i = Some l → tstep sh l sh' l' → pool_step tstep (sh, ls) (sh', <[i := l']> ls).
Proof.
  intros Hi Ht. pose proof (lookup_lt_Some _ _ _ Hi) as Hlen.
  rewrite (insert_take_drop _ _ _ Hlen).
  rewrite <- (take_drop_middle ls i l Hi) at 1. by constructor.
Qed.

(** The steps of one thread that runs alone. *)
Definition solo_step (tstep : Sh → L → Sh → L → Prop) (x y : Sh * L) : Prop :=
  tstep x.1 x.2 y.1 y.2.

Lemma pool_solo (tstep : Sh → L → Sh → L → Prop) ls i x y :
  ls !! i = Some x.2 → rtc (solo_step tstep) x y →
  rtc (pool_step tstep) (x.1, ls) (y.1, <[i := y.2]> ls).
Proof.
  intros Hi Hr. revert ls Hi. induction Hr as [x|x y z Hxy _ IH]; intros ls Hi.
  - by rewrite list_insert_id.
  - pose proof (lookup_lt_Some _ _ _ Hi). eapply rtc_l; [by eapply pool_step_at|].
    rewrite <- (list_insert_insert_eq ls i z.2 y.2). apply IH. by apply list_lookup_insert_eq.
Qed.

(** A thread that runs a whole operation alone and is back where it was. *)
Lemma pool_solo_loop (tstep : Sh → L → Sh → L → Prop) ls i sh p sh' :
  ls !! i = Some p → rtc (solo_step tstep) (sh, p) (sh', p) →
  rtc (pool_step tstep) (sh, ls) (sh', ls).
Proof. intros Hi Hr. apply (pool_solo _ ls i) in Hr; [|done]. simpl in Hr. by rewrite list_insert_id in Hr. Qed.

Lemma pool_step_length (tstep : Sh → L → Sh → L → Prop) s s' :
  pool_step tstep s s' → length (snd s') = length (snd s).
Proof. intros []. simpl. by rewrite !length_app. Qed.
End Pool.

(** What the threads of a pool hold, collected. *)
Section Collect.
Context {L A : Type} (f : L → list A).

Definition collect (ls : list L) : list A := ls ≫= f.

Lemma collect_middle l1 l l2 : collect (l1 ++ l :: l2) ≡ₚ f l ++ collect (l1 ++ l2).
Proof. unfold collect. rewrite !bind_app, bind_cons, !(assoc (++)). by rewrite (comm (++) (l1 ≫= f)). Qed.

Lemma elem_of_collect x ls : x ∈ collect ls ↔ ∃ l, l ∈ ls ∧ x ∈ f l.
Proof. unfold collect. rewrite list_elem_of_bind. naive_solver. Qed.

Lemma collect_nil ls : (∀ l, l ∈ ls → f l = []) → collect ls = [].
Proof.
  induction ls as [|l ls IH]; intros H; [done|].
  unfold collect in *. rewrite bind_cons, (H l) by set_solver. apply IH. set_solver.
Qed.

(** Replacing one element replaces what it holds. *)
Lemma collect_insert ls i x :
  ls !! i = Some x →
  ∃ rest, collect ls ≡ₚ f x ++ rest ∧ ∀ y, collect (<[i := y]> ls) ≡ₚ f y ++ rest.
Proof.
  intros Hi. exists (collect (take i ls ++ drop (S i) ls)). split.
  - rewrite <- (take_drop_middle ls i x Hi) at 1. by rewrite collect_middle.
  - intros y. rewrite insert_take_drop by (by eapply lookup_lt_Some). by rewrite collect_middle.
Qed.
End Collect.

Section SumOver.
Context {L : Type} (f : L → Z).

Definition sum_over (ls : list L) : Z := foldr (λ l a, f l + a) 0 ls.

Lemma sum_over_app l1 l2 : sum_over (l1 ++ l2) = sum_over l1 + sum_over l2.
Proof. induction l1; simpl; lia. Qed.

Lemma sum_over_middle l1 l l2 : sum_over (l1 ++ l :: l2) = f l + sum_over (l1 ++ l2).
Proof. rewrite !sum_over_app. simpl. lia. Qed.

Lemma sum_over_zero ls : (∀ l, l ∈ ls → f l = 0) → sum_over ls = 0.
Proof.
  induction ls as [|l ls IH]; intros H; simpl; [done|].
  rewrite (H l), IH by set_solver. done.
Qed.

Lemma sum_over_nonneg ls : (∀ l, l ∈ ls → 0 ≤ f l) → 0 ≤ sum_over ls.
Proof.
  induction ls as [|l ls IH]; intros H; simpl; [done|].
  assert (0 ≤ f l) by (apply H; set_solver).
  assert (0 ≤ sum_over ls) by (apply IH; set_solver). lia.
Qed.
End SumOver.

Lemma sum_over_le {L} (f g : L → Z) ls : (∀ l, f l ≤ g l) → sum_over f ls ≤ sum_over g ls.
Proof. intros H. induction ls as [|l ls IH]; simpl; [done|]. specialize (H l). lia. Qed.

(** ** Lemmas on machine integers *)

Create HintDb ints.

Lemma wrap_range w x : 0 ≤ w → 0 ≤ wrap w x < 2 ^ w.
Proof. intros. apply Z.mod_pos_bound. lia. Qed.

Lemma wrap_small w x : in_u w x → wrap w x = x.
Proof. apply Z.mod_small. Qed.

Lemma wrap_mod w k p : 0 ≤ k ≤ w → wrap w p `mod` 2 ^ k = p `mod` 2 ^ k.
Proof.
  intros Hk. unfold wrap. apply Z.mod_mod_divide.
  exists (2 ^ (w - k)). rewrite <- Z.pow_add_r by lia. f_equal. lia.
Qed.

Lemma wrap_wrap w x : 0 ≤ w → wrap w (wrap w x) = wrap w x.
Proof. intros. apply wrap_small, wrap_range. lia. Qed.

Lemma wrap_in_u w x : 0 ≤ w → in_u w (wrap w x).
Proof. apply wrap_range. Qed.

Lemma wrap_add_l w x y : wrap w (wrap w x + y) = wrap w (x + y).
Proof. apply Zplus_mod_idemp_l. Qed.

Lemma wrap_sub_l w x y : wrap w (wrap w x - y) = wrap w (x - y).
Proof. apply Zminus_mod_idemp_l. Qed.

Lemma wrap_sub_r w x y : wrap w (x - wrap w y) = wrap w (x - y).
Proof. apply Zminus_mod_idemp_r. Qed.

#[export] Hint Resolve wrap_in_u : ints.

(** ** Lemmas on bits *)

Lemma in_u_bits_high w v i : in_u w v → w ≤ i → Z.testbit v i = false.
Proof.
  intros [H0 Hw] Hi. destruct (decide (v = 0)) as [->|]; [apply Z.bits_0|].
  apply Z.bits_above_log2; [done|]. apply Z.lt_le_trans with w; [|done].
  apply Z.log2_lt_pow2; lia.
Qed.

Lemma in_u_of_bits w v : 0 ≤ w → 0 ≤ v → (∀ i, w ≤ i → Z.testbit v i = false) → in_u w v.
Proof.
  intros Hw Hv Hb. split; [done|]. destruct (decide (v = 0)) as [->|]; [lia|].
  apply Z.log2_lt_pow2; [lia|]. destruct (Z.lt_ge_cases (Z.log2 v) w) as [|Hge]; [done|].
  specialize (Hb _ Hge). rewrite Z.bit_log2 in Hb by lia. done.
Qed.

Lemma in_u_bits_0 w v : in_u w v → (∀ i, 0 ≤ i < w → Z.testbit v i = false) → v = 0.
Proof.
  intros Hv Hb. apply Z.bits_inj'. intros i Hi. rewrite Z.bits_0.
  destruct (Z.lt_ge_cases i w); [apply Hb; lia|by eapply in_u_bits_high].
Qed.

Lemma testbit_mask b i : 0 ≤ b → 0 ≤ i → Z.testbit (Z.shiftl 1 b) i = bool_decide (i = b).
Proof.
  intros Hb Hi. rewrite Z.shiftl_1_l. case_bool_decide as E.
  - subst. by apply Z.pow2_bits_true.
  - apply Z.pow2_bits_false. lia.
Qed.

Lemma in_u_mask w b : 0 ≤ b < w → in_u w (Z.shiftl 1 b).
Proof. intros Hb. rewrite Z.shiftl_1_l. split; [lia|]. apply Z.pow_lt_mono_r; lia. Qed.

Lemma u64_not_bits m i : in_u 64 m → 0 ≤ i → Z.testbit (u64_not m) i = (i <? 64) && negb (Z.testbit m i).
Proof.
  intros Hm Hi. unfold u64_not, U64_MAX. change (2 ^ 64 - 1) with (Z.ones 64).
  rewrite Z.sub_nocarry_ldiff.
  - rewrite Z.ldiff_spec, Z.testbit_ones_nonneg by lia. done.
  - apply Z.bits_inj'. intros j Hj.
    rewrite Z.ldiff_spec, Z.testbit_ones_nonneg, Z.bits_0 by lia.
    destruct (Z.ltb_spec j 64); [apply andb_false_r|].
    by rewrite (in_u_bits_high 64) by done.
Qed.

Lemma in_u_lor w a b : 0 ≤ w → in_u w a → in_u w b → in_u w (Z.lor a b).
Proof.
  intros Hw Ha Hb. apply in_u_of_bits; [done|apply Z.lor_nonneg; split; [apply Ha|apply Hb]|].
  intros i Hi. by rewrite Z.lor_spec, (in_u_bits_high w a), (in_u_bits_high w b).
Qed.

Lemma in_u_land w a b : 0 ≤ w → in_u w a → in_u w (Z.land a b).
Proof.
  intros Hw Ha. apply in_u_of_bits; [done|apply Z.land_nonneg; left; apply Ha|].
  intros i Hi. by rewrite Z.land_spec, (in_u_bits_high w a).
Qed.

Lemma in_u_lxor w a b : 0 ≤ w → in_u w a → in_u w b → in_u w (Z.lxor a b).
Proof.
  intros Hw Ha Hb. apply in_u_of_bits; [done|apply Z.lxor_nonneg; split; intros; [apply Hb|apply Ha]|].
  intros i Hi. by rewrite Z.lxor_spec, (in_u_bits_high w a), (in_u_bits_high w b).
Qed.

#[export] Hint Resolve in_u_mask in_u_lor in_u_land in_u_lxor : ints.

(** ** Tactics *)

(** Split conjunctions and equalities of the context, run [simpl] on record
    projections, and try linear arithmetic. *)
Ltac record_simpl := cbn [fst snd] in *; simpl in *; simplify_eq/=.
Ltac split_and_solve := repeat split; try done; try lia.

(** Rewrites facts about a pool around the thread that moves. *)
Ltac pool_simpl :=
  cbn [fst snd] in *;
  repeat match goal with
  | H : context [sum_over _ (_ ++ _ :: _)] |- _ => rewrite sum_over_middle in H
  | |- context [sum_over _ (_ ++ _ :: _)] => rewrite sum_over_middle
  | H : context [collect _ (_ ++ _ :: _)] |- _ => rewrite collect_middle in H
  | |- context [collect _ (_ ++ _ :: _)] => rewrite collect_middle
  | H : Forall _ (_ ++ _ :: _) |- _ => rewrite Forall_app, Forall_cons in H
  | |- Forall _ (_ ++ _ :: _) => rewrite Forall_app, Forall_cons
  end; simpl in *.

(** One step of a thread running alone, by the named constructor. *)
Tactic Notation "solo_by" uconstr(c) :=
  eapply (rtc_l _ _ (_, _)); [unfold solo_step; simpl; eapply c; eauto; first [lia | vm_compute; done]|].

(** One step of thread [i] of a concrete pool, by the named constructor. *)
Tactic Notation "pool_by" constr(i) uconstr(c) :=
  eapply (rtc_l _ _ (_, _));
    [eapply (pool_step_at _ _ _ i); [reflexivity|eapply c; eauto; first [lia | vm_compute; done | set_solver]]
    |cbv [insert list_insert]; simpl].

(** Permutations of appended lists, by counting the occurrences of each element. *)
Lemma perm_counts {A} `{EqDecision A} (l k : list A) :
  l ≡ₚ k ↔ ∀ x, count_occ (λ x y, decide (x = y)) l x = count_occ (λ x y, decide (x = y)) k x.
Proof. apply (Permutation_count_occ (λ x y, decide (x = y))). Qed.

Ltac perm_solver :=
  rewrite perm_counts in *; intros ?z;
  repeat match goal with H : ∀ x, count_occ _ _ x = _ |- _ => specialize (H z) end;
  repeat match goal with
  | |- context [count_occ _ (_ ++ _) _] => rewrite count_occ_app
  | H : context [count_occ _ (_ ++ _) _] |- _ => rewrite count_occ_app in H
  | |- context [count_occ _ [] _] => rewrite count_occ_nil
  | H : context [count_occ _ [] _] |- _ => rewrite count_occ_nil in H
  | |- context [count_occ _ (?x :: ?l) _] =>
      lazymatch l with [] => fail | _ => change (x :: l) with ([x] ++ l) end
  | H : context [count_occ _ (?x :: ?l) _] |- _ =>
      lazymatch l with [] => fail | _ => change (x :: l) with ([x] ++ l) in H end
  end; lia.
