(* ===== verification/CoreTypes.v ===== *)
(** * Core types: identifiers, states, priorities and errors

    Models [gvthread-core/src/id.rs], [state.rs] and [error.rs], and the
    constants of [gvthread-core/src/lib.rs].  A [GVThreadId] is the [u32] it
    wraps, with [u32::MAX] for "no GVThread"; the two enums carry the
    discriminants of the source's [repr(u8)]. *)

From stdpp Require Import pretty.
From S2P Require Import Prelude.

(** ** Layout constants (lib.rs, module [constants], default features) *)
Module Constants.
Definition SLOT_SIZE : Z := 16 * 1024.
Definition GUARD_SIZE : Z := 4096.
Definition METADATA_SIZE : Z := 4096.
Definition STACK_SIZE : Z := SLOT_SIZE - METADATA_SIZE - GUARD_SIZE.
Definition MAX_WORKERS : Z := 64.
Definition DEFAULT_MAX_GVTHREADS : Z := 65536.
Definition GVTHREAD_NONE : Z := U32_MAX.
Definition CACHE_LINE_SIZE : Z := 64.
End Constants.

(** ** [GVThreadId] *)
Module GVThreadId.
Definition NONE : Z := U32_MAX.
Definition new (id : Z) : Z := id.
Definition as_u32 (id : Z) : Z := id.
Definition as_usize (id : Z) : Z := id.
Definition is_none (id : Z) : bool := id =? U32_MAX.
Definition is_some (id : Z) : bool := negb (id =? U32_MAX).
Definition to_option (id : Z) : option Z := if is_none id then None else Some id.
Definition default : Z := NONE.

(** [impl Debug] and [impl Display]. *)
Definition debug (id : Z) : string :=
  if is_none id then "GVThreadId(NONE)" else "GVThreadId(" +:+ pretty id +:+ ")".
Definition display (id : Z) : string :=
  if is_none id then "none" else pretty id.
End GVThreadId.

(** ** [GVThreadState] *)
Module GVThreadState.
Inductive t : Type :=
| Created
| Ready
| Running
| Blocked
| Preempted
| Finished
| Cancelled.

#[global] Instance t_eq_dec : EqDecision t.
Proof. solve_decision. Defined.

Definition is_runnable (s : t) : bool := match s with Ready => true | _ => false end.
Definition is_terminated (s : t) : bool :=
  match s with Finished | Cancelled => true | _ => false end.
Definition needs_full_restore (s : t) : bool :=
  match s with Preempted => true | _ => false end.

(** [impl From<GVThreadState> for u8]: the discriminant. *)
Definition to_u8 (s : t) : Z :=
  match s with
  | Created => 0
  | Ready => 1
  | Running => 2
  | Blocked => 3
  | Preempted => 4
  | Finished => 5
  | Cancelled => 6
  end.

(** [impl From<u8> for GVThreadState]. *)
Definition from_u8 (v : Z) : t :=
  match v with
  | 0 => Created
  | 1 => Ready
  | 2 => Running
  | 3 => Blocked
  | 4 => Preempted
  | 5 => Finished
  | 6 => Cancelled
  | _ => Created
  end.

Lemma state_from_to_u8 s : from_u8 (to_u8 s) = s.
Proof. by destruct s. Qed.
End GVThreadState.

(** ** [Priority] *)
Module Priority.
Inductive t : Type :=
| Critical
| High
| Normal
| Low.

#[global] Instance t_eq_dec : EqDecision t.
Proof. solve_decision. Defined.

Definition COUNT : Z := 4.

(** [self as usize], [self as u8]: the discriminant. *)
Definition as_index (p : t) : Z :=
  match p with Critical => 0 | High => 1 | Normal => 2 | Low => 3 end.
Definition to_u8 (p : t) : Z := as_index p.

Definition from_index (idx : Z) : option t :=
  match idx with
  | 0 => Some Critical
  | 1 => Some High
  | 2 => Some Normal
  | 3 => Some Low
  | _ => None
  end.

Definition iter : list t := [Critical; High; Normal; Low].
Definition default : t := Normal.

(** [impl From<u8> for Priority]: invalid bytes become [Normal]. *)
Definition from_u8 (v : Z) : t :=
  match v with
  | 0 => Critical
  | 1 => High
  | 2 => Normal
  | 3 => Low
  | _ => Normal
  end.

Definition display (p : t) : string :=
  match p with
  | Critical => "CRITICAL"
  | High => "HIGH"
  | Normal => "NORMAL"
  | Low => "LOW"
  end.

Lemma prio_from_to_u8 p : from_u8 (to_u8 p) = p.
Proof. by destruct p. Qed.
End Priority.

(** ** Errors *)
Module SchedError.
Inductive MemoryError : Type :=
| AllocationFailed
| ProtectionFailed
| AdviseFailed
| MemAlreadyInitialized
| TooManySlots
| InvalidSlot.

Inductive WorkerError : Type :=
| SpawnFailed
| Panicked
| AffinityFailed
| SignalSetupFailed.

Inductive t : Type :=
| Cancelled
| Timeout
| ChannelClosed
| ChannelFull
| ChannelEmpty
| NoSlotsAvailable
| GVThreadNotFound
| InvalidState
| NotInitialized
| AlreadyInitialized
| MemoryErr (e : MemoryError)
| WorkerErr (e : WorkerError)
| PlatformError (code : Z).

#[global] Instance MemoryError_eq_dec : EqDecision MemoryError.
Proof. solve_decision. Defined.
#[global] Instance WorkerError_eq_dec : EqDecision WorkerError.
Proof. solve_decision. Defined.
#[global] Instance t_eq_dec : EqDecision t.
Proof. solve_decision. Defined.

(** The two [From] conversions that [?] and [.into()] use. *)
Definition from_memory (e : MemoryError) : t := MemoryErr e.
Definition from_worker (e : WorkerError) : t := WorkerErr e.

Definition display_memory (e : MemoryError) : string :=
  match e with
  | AllocationFailed => "memory allocation failed"
  | ProtectionFailed => "memory protection change failed"
  | AdviseFailed => "memory advise failed"
  | MemAlreadyInitialized => "memory region already initialized"
  | TooManySlots => "too many slots requested"
  | InvalidSlot => "invalid slot ID"
  end.

Definition display_worker (e : WorkerError) : string :=
  match e with
  | SpawnFailed => "failed to spawn worker thread"
  | Panicked => "worker thread panicked"
  | AffinityFailed => "failed to set thread affinity"
  | SignalSetupFailed => "signal setup failed"
  end.

Definition display (e : t) : string :=
  match e with
  | Cancelled => "operation cancelled"
  | Timeout => "operation timed out"
  | ChannelClosed => "channel closed"
  | ChannelFull => "channel full"
  | ChannelEmpty => "channel empty"
  | NoSlotsAvailable => "no GVThread slots available"
  | GVThreadNotFound => "GVThread not found"
  | InvalidState => "invalid GVThread state"
  | NotInitialized => "scheduler not initialized"
  | AlreadyInitialized => "scheduler already initialized"
  | MemoryErr e => "memory error: " +:+ display_memory e
  | WorkerErr e => "worker error: " +:+ display_worker e
  | PlatformError code => "platform error: " +:+ pretty code
  end.

(** [TrySendError<T>(pub T)] and [TryRecvError]. *)
Inductive TrySendError (T : Type) : Type := TrySend (v : T).
Arguments TrySend {T} v.
Inductive TryRecvError : Type := TryRecv.
Definition display_try_send {T} (e : TrySendError T) : string := "channel full".
Definition display_try_recv (e : TryRecvError) : string := "channel empty".
End SchedError.

Abbreviation SchedResult A := (Result A SchedError.t).

(** ** Properties *)

Lemma is_none_spec id : GVThreadId.is_none id = true ↔ id = GVThreadId.NONE.
Proof. unfold GVThreadId.is_none, GVThreadId.NONE. lia. Qed.

(** State and priority encodings: a state or priority stored
    as a byte in the metadata is read back unchanged; a byte outside the
    range of the enum is read as [Created], respectively [Normal]; the index
    of a priority is its position in [Priority::iter] and [from_index] accepts
    exactly the indices below [COUNT]. *)
Theorem byte_encodings_roundtrip :
  (∀ s, GVThreadState.from_u8 (GVThreadState.to_u8 s) = s) ∧
  (∀ p, Priority.from_u8 (Priority.to_u8 p) = p) ∧
  (∀ v, 6 < v → GVThreadState.from_u8 v = GVThreadState.Created) ∧
  (∀ v, 3 < v → Priority.from_u8 v = Priority.Normal) ∧
  (∀ p, Priority.from_index (Priority.as_index p) = Some p) ∧
  (∀ p, Priority.iter !! Z.to_nat (Priority.as_index p) = Some p) ∧
  (∀ i, is_Some (Priority.from_index i) ↔ 0 ≤ i < Priority.COUNT).
Proof.
  split_and!; try (by intros []).
  - intros [|v|v] Hv; try done. do 3 (destruct v as [v|v|]; try done; try lia).
  - intros [|v|v] Hv; try done. do 2 (destruct v as [v|v|]; try done; try lia).
  - intros i. unfold Priority.COUNT. split.
    + intros [p Hp]. destruct (decide (0 ≤ i < 4)); [done|].
      destruct i as [|i|i]; try done. repeat (destruct i as [i|i|]; try done; try lia).
    + intros Hi. assert (i = 0 ∨ i = 1 ∨ i = 2 ∨ i = 3) as [->|[->|[->| ->]]] by lia; eauto.
Qed.
