(* ===== verification/Slots.v ===== *)
(** * Slot allocator

    Models [gvthread-core/src/slot.rs].  [Module SlotAllocator] has the struct
    and one definition per method, as a thread running alone executes them.
    [Module SlotPool] has the same methods as atomic steps (lock, pop, load,
    compare-exchange, counter updates) of a pool of threads, where any thread
    may release any id that some allocation has returned. *)

From S2P Require Import Prelude CoreTypes.

Module SlotAllocator.
Record t : Type := mk {
  free_stack : list Z;
  next_fresh : Z;
  max_slots : Z;
  allocated_count : Z
}.

(** [max_slots as u32] truncates. *)
Definition new (max_slots : Z) : t :=
  {| free_stack := [];
     next_fresh := 0;
     max_slots := wrap 32 max_slots;
     allocated_count := 0 |}.

(** [allocate]: pop the free stack, or else claim [next_fresh]; the
    compare-exchange of a thread running alone succeeds. *)
Definition allocate (a : t) : SchedResult Z * t :=
  match vec_pop (free_stack a) with
  | Some (id, free) =>
      (Ok (GVThreadId.new id),
       {| free_stack := free;
          next_fresh := next_fresh a;
          max_slots := max_slots a;
          allocated_count := allocated_count a +[32] 1 |})
  | None =>
      let current := next_fresh a in
      if max_slots a <=? current then (Err SchedError.NoSlotsAvailable, a)
      else
        (Ok (GVThreadId.new current),
         {| free_stack := free_stack a;
            next_fresh := current +[32] 1;
            max_slots := max_slots a;
            allocated_count := allocated_count a +[32] 1 |})
  end.

Definition release (a : t) (id : Z) : t :=
  if GVThreadId.is_none id then a
  else
    {| free_stack := push_back (free_stack a) (GVThreadId.as_u32 id);
       next_fresh := next_fresh a;
       max_slots := max_slots a;
       allocated_count := allocated_count a -[32] 1 |}.

(** [release_batch]: the loop pushes the ids that are not [NONE], the counter
    is decreased by the length of the whole batch. *)
Definition release_batch (a : t) (ids : list Z) : t :=
  match ids with
  | [] => a
  | _ =>
      {| free_stack :=
           foldl (λ free id, if negb (GVThreadId.is_none id)
                             then push_back free (GVThreadId.as_u32 id) else free)
                 (free_stack a) ids;
         next_fresh := next_fresh a;
         max_slots := max_slots a;
         allocated_count := allocated_count a -[32] wrap 32 (Z.of_nat (length ids)) |}
  end.

Definition fresh_remaining (a : t) : Z := saturating_sub (max_slots a) (next_fresh a).
Definition free_stack_size (a : t) : Z := Z.of_nat (length (free_stack a)).
Definition is_valid (a : t) (id : Z) : bool :=
  negb (GVThreadId.is_none id) && (GVThreadId.as_u32 id <? max_slots a).
End SlotAllocator.

(** ** The methods as atomic steps of a thread pool *)
Module SlotPool.
Import SlotAllocator.

(** The struct together with the state of the spin lock of [free_stack], and
    the ids that allocations have returned and that have not been given to a
    release yet (owned by the program). *)
Record shared : Type := Shared {
  alloc : SlotAllocator.t;
  locked : bool;
  live : list Z
}.

(** Where a thread is.  [Popped] and [Pushed] are inside the critical
    section; [Claimed] has won the compare-exchange. *)
Inductive pc : Type :=
| Idle
| AllocLock
| Popped (id : Z)
| Load
| Cas (current : Z)
| Claimed (id : Z)
| RelLock (id : Z)
| Pushed.

Definition set_free (a : t) (f : list Z) : t :=
  mk f (next_fresh a) (max_slots a) (allocated_count a).
Definition set_fresh (a : t) (n : Z) : t :=
  mk (free_stack a) n (max_slots a) (allocated_count a).
Definition set_count (a : t) (c : Z) : t :=
  mk (free_stack a) (next_fresh a) (max_slots a) c.

Inductive tstep : shared → pc → shared → pc → Prop :=
| call_allocate sh :
    tstep sh Idle sh AllocLock
| alloc_pop a lv id f :
    vec_pop (free_stack a) = Some (id, f) →
    tstep (Shared a false lv) AllocLock (Shared (set_free a f) true lv) (Popped id)
| alloc_pop_empty a lv :
    vec_pop (free_stack a) = None →
    tstep (Shared a false lv) AllocLock (Shared a false lv) Load
| alloc_popped_count a lv id :
    tstep (Shared a true lv) (Popped id)
          (Shared (set_count a (allocated_count a +[32] 1)) false (id :: lv)) Idle
| alloc_load_full a lk lv :
    max_slots a <= next_fresh a →
    tstep (Shared a lk lv) Load (Shared a lk lv) Idle
| alloc_load a lk lv :
    next_fresh a < max_slots a →
    tstep (Shared a lk lv) Load (Shared a lk lv) (Cas (next_fresh a))
| alloc_cas a lk lv :
    tstep (Shared a lk lv) (Cas (next_fresh a))
          (Shared (set_fresh a (next_fresh a +[32] 1)) lk lv) (Claimed (next_fresh a))
| alloc_cas_retry a lk lv c :
    (** another thread moved [next_fresh], or the weak exchange failed
        spuriously *)
    tstep (Shared a lk lv) (Cas c) (Shared a lk lv) Load
| alloc_claimed_count a lk lv id :
    tstep (Shared a lk lv) (Claimed id)
          (Shared (set_count a (allocated_count a +[32] 1)) lk (id :: lv)) Idle
| call_release a lk lv id lv' :
    lv ≡ₚ id :: lv' →
    tstep (Shared a lk lv) Idle (Shared a lk lv') (RelLock id)
| release_none sh id :
    GVThreadId.is_none id = true →
    tstep sh (RelLock id) sh Idle
| release_push a lv id :
    GVThreadId.is_none id = false →
    tstep (Shared a false lv) (RelLock id)
          (Shared (set_free a (push_back (free_stack a) id)) true lv) Pushed
| release_count a lv :
    tstep (Shared a true lv) Pushed
          (Shared (set_count a (allocated_count a -[32] 1)) false lv) Idle.

Definition init (max_slots : Z) (s : shared * list pc) : Prop :=
  ∃ n, s = (Shared (new max_slots) false [], replicate n Idle).

Abbreviation step := (pool_step tstep).

(** The id a thread holds between taking it from the allocator and handing it
    over (or the reverse). *)
Definition holds (p : pc) : list Z :=
  match p with Popped id | Claimed id | RelLock id => [id] | _ => [] end.

(** How far [allocated_count] lags behind the ids that are out of the
    allocator because of this thread. *)
Definition lag (p : pc) : Z :=
  match p with Popped _ | Claimed _ => 0 | RelLock _ | Pushed => 1 | _ => 0 end.

(** The lock of [free_stack] is held by exactly the threads in a critical
    section. *)
Definition in_cs (p : pc) : Z := match p with Popped _ | Pushed => 1 | _ => 0 end.

(** A thread about to compare-exchange has seen a value below [max_slots];
    no id is the sentinel. *)
Definition pc_ok (a : t) (p : pc) : Prop :=
  match p with Cas c => c < max_slots a | _ => True end.

Record inv (s : shared * list pc) : Prop := {
  inv_ids : live s.1 ++ collect holds s.2 ++ free_stack (alloc s.1)
            ≡ₚ seqZ 0 (next_fresh (alloc s.1));
  inv_fresh : 0 ≤ next_fresh (alloc s.1) ≤ max_slots (alloc s.1);
  inv_max : in_u 32 (max_slots (alloc s.1));
  inv_count : allocated_count (alloc s.1)
              = wrap 32 (Z.of_nat (length (live s.1)) + sum_over lag s.2);
  inv_lock : sum_over in_cs s.2 = if locked s.1 then 1 else 0;
  inv_pcs : Forall (pc_ok (alloc s.1)) s.2
}.

Lemma slot_inv_init m s : init m s → inv s.
Proof.
  intros [n ->]. assert (Hidle : ∀ l, l ∈ replicate n Idle → l = Idle).
  { intros l Hl. by apply elem_of_replicate in Hl as [? _]. }
  assert (H32 := wrap_range 32 m).
  constructor; simpl.
  - by rewrite collect_nil by (by intros l ->%Hidle).
  - lia.
  - apply H32. lia.
  - by rewrite sum_over_zero by (by intros l ->%Hidle).
  - by rewrite sum_over_zero by (by intros l ->%Hidle).
  - apply Forall_forall. by intros l ->%Hidle.
Qed.

(** Ids that are accounted for are below [max_slots], so never [NONE]. *)
Lemma slot_id_range s id :
  inv s → id ∈ live s.1 ++ collect holds s.2 ++ free_stack (alloc s.1) →
  0 ≤ id < next_fresh (alloc s.1) ∧ GVThreadId.is_none id = false.
Proof.
  intros Hinv Hid. rewrite (inv_ids _ Hinv), elem_of_seqZ in Hid.
  pose proof (inv_fresh _ Hinv). pose proof (inv_max _ Hinv).
  unfold in_u, GVThreadId.is_none, U32_MAX in *. lia.
Qed.

Lemma slot_ids_step s s' : inv s → step s s' →
  live s'.1 ++ collect holds s'.2 ++ free_stack (alloc s'.1) ≡ₚ seqZ 0 (next_fresh (alloc s'.1)).
Proof.
  intros Hinv Hstep. pose proof (λ id, slot_id_range s id Hinv) as Hrange.
  pose proof (inv_ids _ Hinv) as Hids. pose proof (inv_fresh _ Hinv) as Hfresh.
  pose proof (inv_max _ Hinv) as Hmax. pose proof (inv_pcs _ Hinv) as Hpcs.
  destruct Hstep as [sh p sh' p' l1 l2 Hstep].
  destruct Hstep; pool_simpl; try done.
  - match goal with H : vec_pop _ = _ |- _ => apply vec_pop_Some in H; rewrite H in Hids end.
    rewrite <- Hids. solve_Permutation.
  - rewrite <- Hids. solve_Permutation.
  - destruct Hpcs as (_ & Hc & _). rewrite wrap_small by (unfold in_u in *; lia).
    rewrite seqZ_app, <- Hids by lia.
    replace (seqZ _ 1) with [next_fresh a] by (by rewrite Z.add_0_l). solve_Permutation.
  - rewrite <- Hids. solve_Permutation.
  - match goal with H : lv ≡ₚ _ |- _ => rewrite <- Hids, H end. solve_Permutation.
  - edestruct (Hrange id) as [_ Hn]; [pool_simpl; set_solver|congruence].
  - rewrite <- Hids. unfold push_back. solve_Permutation.
Qed.

Lemma slot_inv_step s s' : inv s → step s s' → inv s'.
Proof.
  intros Hinv Hstep. pose proof (λ id, slot_id_range s id Hinv) as Hrange.
  constructor; [by eapply slot_ids_step|..];
    destruct Hinv as [Hids Hfresh Hmax Hcount Hlock Hpcs];
    destruct Hstep as [sh p sh' p' l1 l2 Hstep].
  - destruct Hstep; pool_simpl; try done.
    destruct Hpcs as (_ & Hc & _). rewrite wrap_small by (unfold in_u in *; lia). lia.
  - destruct Hstep; exact Hmax.
  - destruct Hstep; pool_simpl; try done.
    all: rewrite ?Hcount, ?wrap_add_l, ?wrap_sub_l; try (f_equal; lia).
    + match goal with H : lv ≡ₚ _ |- _ => rewrite H end. simpl. f_equal. lia.
    + edestruct (Hrange id) as [_ Hn]; [pool_simpl; set_solver|congruence].
  - destruct Hstep; pool_simpl; repeat case_match; try lia.
  - destruct Hstep; pool_simpl; naive_solver.
Qed.

Lemma slot_reachable_inv m s : reachable step (init m) s → inv s.
Proof. apply reachable_invariant; eauto using slot_inv_init, slot_inv_step. Qed.
End SlotPool.

(** ** Properties *)

(** C2: In every interleaving of allocations and releases by any number of
    threads, the ids owned by the program, the ids threads are carrying and
    the ids on the free stack are together exactly the ids handed out so far,
    each once: no id is owned twice, no owned id is free, none is lost, and
    every owned id is a valid slot index. *)
Theorem slot_ids_partition m s :
  reachable SlotPool.step (SlotPool.init m) s →
  let a := SlotPool.alloc s.1 in
  let out := SlotPool.live s.1 ++ collect SlotPool.holds s.2 in
  out ++ SlotAllocator.free_stack a ≡ₚ seqZ 0 (SlotAllocator.next_fresh a) ∧
  NoDup (out ++ SlotAllocator.free_stack a) ∧
  Forall (λ id, SlotAllocator.is_valid a id = true) out.
Proof.
  intros Hr a out. apply SlotPool.slot_reachable_inv in Hr as Hinv.
  assert (Hp : out ++ SlotAllocator.free_stack a ≡ₚ seqZ 0 (SlotAllocator.next_fresh a)).
  { unfold out. rewrite <- (assoc (++)). apply (SlotPool.inv_ids _ Hinv). }
  split_and!; [done|rewrite Hp; apply NoDup_seqZ|].
  apply Forall_forall. intros id Hid.
  destruct (SlotPool.slot_id_range s id Hinv) as [Hlt Hn]; [set_solver|].
  pose proof (SlotPool.inv_fresh _ Hinv).
  unfold SlotAllocator.is_valid, GVThreadId.as_u32. rewrite Hn. simpl. unfold a. lia.
Qed.

(** A thread that runs [allocate] without interference makes exactly the
    transition of the function [allocate]: from any state with the lock free
    it returns to its caller with the allocator in [allocate]'s state, and an
    id becomes owned exactly when the result is [Ok]. *)
Theorem allocate_steps a lv ls i :
  ls !! i = Some SlotPool.Idle →
  let '(r, a') := SlotAllocator.allocate a in
  rtc SlotPool.step
    (SlotPool.Shared a false lv, ls)
    (SlotPool.Shared a' false (match r with Ok id => id :: lv | Err _ => lv end), ls).
Proof.
  intros Hi. unfold SlotAllocator.allocate.
  destruct (vec_pop _) as [[id f]|] eqn:Hpop; [|destruct (Z.leb_spec (SlotAllocator.max_slots a) (SlotAllocator.next_fresh a))].
  all: eapply pool_solo_loop; [exact Hi|].
  - solo_by SlotPool.call_allocate. solo_by SlotPool.alloc_pop.
    solo_by SlotPool.alloc_popped_count. constructor.
  - solo_by SlotPool.call_allocate. solo_by SlotPool.alloc_pop_empty.
    solo_by SlotPool.alloc_load_full. constructor.
  - solo_by SlotPool.call_allocate. solo_by SlotPool.alloc_pop_empty.
    solo_by SlotPool.alloc_load. solo_by SlotPool.alloc_cas.
    solo_by SlotPool.alloc_claimed_count. constructor.
Qed.

Lemma allocate_steps_witness :
  rtc SlotPool.step
    (SlotPool.Shared (SlotAllocator.mk [0] 2 2 1) false [1], [SlotPool.Idle])
    (SlotPool.Shared (SlotAllocator.mk [] 2 2 2) false [0; 1], [SlotPool.Idle]).
Proof. exact (allocate_steps (SlotAllocator.mk [0] 2 2 1) [1] [SlotPool.Idle] 0 eq_refl). Defined.

(** A thread that runs [release] on an owned id without interference
    makes the transition of the function [release], and the id is no longer
    owned. *)
Theorem release_steps a id lv ls i :
  ls !! i = Some SlotPool.Idle →
  rtc SlotPool.step
    (SlotPool.Shared a false (id :: lv), ls)
    (SlotPool.Shared (SlotAllocator.release a id) false lv, ls).
Proof.
  intros Hi. unfold SlotAllocator.release. destruct (GVThreadId.is_none id) eqn:Hn.
  all: eapply pool_solo_loop; [exact Hi|].
  - solo_by SlotPool.call_release. solo_by SlotPool.release_none. constructor.
  - solo_by SlotPool.call_release. solo_by SlotPool.release_push.
    solo_by SlotPool.release_count. constructor.
Qed.

Lemma release_steps_witness :
  rtc SlotPool.step
    (SlotPool.Shared (SlotAllocator.mk [] 2 2 2) false [0; 1], [SlotPool.Idle])
    (SlotPool.Shared (SlotAllocator.mk [0] 2 2 1) false [1], [SlotPool.Idle]).
Proof. exact (release_steps (SlotAllocator.mk [] 2 2 2) 0 [1] [SlotPool.Idle] 0 eq_refl). Defined.

(** A run used by the witnesses: one thread allocates one of four slots. *)
Definition slot_demo : SlotPool.shared * list SlotPool.pc :=
  (SlotPool.Shared (SlotAllocator.mk [] 1 4 1) false [0], [SlotPool.Idle]).

Lemma slot_demo_reachable : reachable SlotPool.step (SlotPool.init 4) slot_demo.
Proof.
  eexists. split; [by exists 1%nat|].
  eapply (pool_solo_loop _ _ 0); [done|].
  solo_by SlotPool.call_allocate. solo_by SlotPool.alloc_pop_empty.
  solo_by SlotPool.alloc_load. solo_by SlotPool.alloc_cas.
  solo_by SlotPool.alloc_claimed_count. constructor.
Qed.

Lemma slot_ids_partition_witness : NoDup ([0] ++ []).
Proof. destruct (slot_ids_partition 4 slot_demo slot_demo_reachable) as (_ & H & _). exact H. Defined.

(** In every state the threads can reach in which no operation is under
    way, [allocated_count] is the number of owned ids, and [allocate] fails
    with [NoSlotsAvailable] exactly when all [max_slots] slots are owned; it
    never fails while a slot is free. *)
Theorem allocate_exhaustion m s :
  reachable SlotPool.step (SlotPool.init m) s →
  Forall (λ p, p = SlotPool.Idle) s.2 →
  let a := SlotPool.alloc s.1 in
  let owned := Z.of_nat (length (SlotPool.live s.1)) in
  SlotAllocator.allocated_count a = owned ∧
  ((SlotAllocator.allocate a).1 = Err SchedError.NoSlotsAvailable
   ↔ owned = SlotAllocator.max_slots a) ∧
  owned ≤ SlotAllocator.max_slots a.
Proof.
  intros Hr Hidle. apply SlotPool.slot_reachable_inv in Hr as [Hids Hfresh Hmax Hcount _ _].
  destruct s as [[a lk lv] ls]. simpl in *. rewrite Forall_forall in Hidle.
  rewrite collect_nil in Hids by (by intros l ->%Hidle).
  rewrite sum_over_zero, Z.add_0_r in Hcount by (by intros l ->%Hidle).
  assert (Hlen := Permutation_length Hids). rewrite length_app, length_seqZ in Hlen. simpl in Hlen.
  unfold in_u in Hmax. split_and!; [|split|lia].
  - rewrite Hcount. apply wrap_small. unfold in_u. lia.
  - unfold SlotAllocator.allocate. destruct (vec_pop _) as [[]|] eqn:Hpop; [done|].
    apply vec_pop_None in Hpop. rewrite Hpop in Hlen. simpl in Hlen.
    case_match; [lia|done].
  - intros Hall. unfold SlotAllocator.allocate.
    destruct (vec_pop _) as [[id f]|] eqn:Hpop.
    + apply vec_pop_Some in Hpop. rewrite Hpop, length_app in Hlen. simpl in Hlen. lia.
    + case_match; [done|lia].
Qed.

Lemma allocate_exhaustion_witness :
  SlotAllocator.allocated_count (SlotPool.alloc slot_demo.1) = 1.
Proof. apply (allocate_exhaustion 4 slot_demo slot_demo_reachable). by repeat constructor. Defined.

(** Slot reuse is last-in first-out: an id that has just been released is
    the one the next [allocate] returns, and the pair of calls restores the
    allocator exactly, whatever its free stack holds. *)
Theorem release_allocate_roundtrip a id :
  id ≠ GVThreadId.NONE → in_u 32 (SlotAllocator.allocated_count a) →
  SlotAllocator.allocate (SlotAllocator.release a id) = (Ok id, a).
Proof.
  intros Hid Hc. unfold SlotAllocator.release.
  destruct (GVThreadId.is_none id) eqn:Hn; [by apply is_none_spec in Hn|].
  unfold SlotAllocator.allocate. simpl. unfold push_back. rewrite vec_pop_snoc.
  destruct a as [f n mx c]. simpl in *. do 2 f_equal.
  rewrite wrap_add_l. replace (c - 1 + 1) with c by lia. by apply wrap_small.
Qed.

Lemma release_allocate_roundtrip_witness :
  SlotAllocator.allocate (SlotAllocator.release (SlotAllocator.mk [3; 1] 5 8 3) 0)
  = (Ok 0, SlotAllocator.mk [3; 1] 5 8 3).
Proof. apply (release_allocate_roundtrip (SlotAllocator.mk [3; 1] 5 8 3) 0); [done|unfold in_u; simpl; lia]. Defined.

(** The number of [NONE] ids in a batch. *)
Definition count_none (ids : list Z) : Z :=
  sum_over (λ id, if GVThreadId.is_none id then 1 else 0) ids.

Lemma foldl_release a ids :
  in_u 32 (SlotAllocator.allocated_count a) →
  foldl SlotAllocator.release a ids =
  SlotAllocator.mk
    (foldl (λ free id, if negb (GVThreadId.is_none id)
                       then push_back free (GVThreadId.as_u32 id) else free)
           (SlotAllocator.free_stack a) ids)
    (SlotAllocator.next_fresh a) (SlotAllocator.max_slots a)
    (wrap 32 (SlotAllocator.allocated_count a - (Z.of_nat (length ids) - count_none ids))).
Proof.
  revert a. induction ids as [|id ids IH]; intros a Hc; simpl.
  - rewrite Z.sub_0_r, wrap_small by done. by destruct a.
  - rewrite IH; unfold SlotAllocator.release; destruct (GVThreadId.is_none id); simpl;
      rewrite ?wrap_sub_l; auto with ints lia; f_equal; f_equal; unfold count_none; lia.
Qed.

(** [release_batch] has the effect of [release] on each id in turn, but
    counts the [NONE] ids it does not push: each one in the batch takes one
    more off [allocated_count] than the individual releases do.  Without
    [NONE] in the batch the two agree. *)
Theorem release_batch_spec a ids :
  in_u 32 (SlotAllocator.allocated_count a) →
  let each := foldl SlotAllocator.release a ids in
  SlotAllocator.release_batch a ids =
  SlotAllocator.mk (SlotAllocator.free_stack each) (SlotAllocator.next_fresh each)
    (SlotAllocator.max_slots each) (SlotAllocator.allocated_count each -[32] count_none ids).
Proof.
  intros Hc each. unfold each. rewrite foldl_release by done. simpl. rewrite wrap_sub_l.
  destruct ids as [|id ids].
  - simpl. rewrite !Z.sub_0_r, wrap_small by done. by destruct a.
  - unfold SlotAllocator.release_batch. rewrite wrap_sub_r. f_equal. f_equal. lia.
Qed.

Lemma release_batch_spec_witness :
  SlotAllocator.allocated_count
    (SlotAllocator.release_batch (SlotAllocator.mk [] 1 4 1) [0; GVThreadId.NONE]) = U32_MAX.
Proof. rewrite (release_batch_spec (SlotAllocator.mk [] 1 4 1) [0; GVThreadId.NONE]); [done|unfold in_u; simpl; lia]. Defined.
