(* ===== verification/Bitmap.v ===== *)
(** * Ready bitmaps

    Models [gvthread-core/src/bitmap.rs].  [Module ReadyBitmap] is one
    priority level: 64-bit blocks with one bit per GVThread.  Its abstract
    contents are a finite set of ids ([abs]), and each operation is proved to
    refine the corresponding set operation.  [Module ReadyBitmaps] is the four
    levels with the per-worker xorshift state.  [Module ClaimPool] has [set],
    [clear] and the claim loop as atomic steps of concurrent threads. *)

From S2P Require Import Prelude CoreTypes.

Definition BITS_PER_BLOCK : Z := 64.

(** [u64::trailing_zeros] and [u64::count_ones]. *)
Definition bit_set (v i : Z) : Prop := Z.testbit v i = true.
#[global] Instance bit_set_dec v i : Decision (bit_set v i).
Proof. unfold bit_set. apply _. Defined.

Definition trailing_zeros (v : Z) : Z :=
  match list_find (bit_set v) (seqZ 0 64) with Some (_, i) => i | None => 64 end.
Definition count_ones (v : Z) : Z := Z.of_nat (length (filter (bit_set v) (seqZ 0 64))).

Module ReadyBitmap.
Record t : Type := mk {
  blocks : list Z;
  num_blocks : Z;
  max_id : Z
}.

Definition set_blocks (b : t) (bs : list Z) : t := mk bs (num_blocks b) (max_id b).

(** The [usize] addition is checked in debug builds; it cannot overflow for a
    size that fits in memory. *)
Definition new (max_gvthreads : Z) : t :=
  let num_blocks := (max_gvthreads + BITS_PER_BLOCK - 1) / BITS_PER_BLOCK in
  mk (replicate (Z.to_nat num_blocks) 0) num_blocks (wrap 32 max_gvthreads).

Definition set (b : t) (id : Z) : outcome t :=
  let idx := GVThreadId.as_usize id in
  if max_id b <=? idx then Ret b
  else
    let block_idx := idx / BITS_PER_BLOCK in
    let bit_idx := idx mod BITS_PER_BLOCK in
    let mask := Z.shiftl 1 bit_idx in
    v ← index (blocks b) block_idx;
    bs ← index_set (blocks b) block_idx (Z.lor v mask);
    Ret (set_blocks b bs).

Definition clear (b : t) (id : Z) : outcome t :=
  let idx := GVThreadId.as_usize id in
  if max_id b <=? idx then Ret b
  else
    let block_idx := idx / BITS_PER_BLOCK in
    let bit_idx := idx mod BITS_PER_BLOCK in
    let mask := u64_not (Z.shiftl 1 bit_idx) in
    v ← index (blocks b) block_idx;
    bs ← index_set (blocks b) block_idx (Z.land v mask);
    Ret (set_blocks b bs).

Definition is_set (b : t) (id : Z) : outcome bool :=
  let idx := GVThreadId.as_usize id in
  if max_id b <=? idx then Ret false
  else
    let block_idx := idx / BITS_PER_BLOCK in
    let bit_idx := idx mod BITS_PER_BLOCK in
    let mask := Z.shiftl 1 bit_idx in
    v ← index (blocks b) block_idx;
    Ret (negb (Z.land v mask =? 0)).

(** [try_claim_from_block]: the iteration of a thread running alone. *)
Definition try_claim_from_block (b : t) (block_idx : Z) : outcome (option Z * t) :=
  current ← index (blocks b) block_idx;
  if current =? 0 then Ret (None, b)
  else
    let bit_idx := trailing_zeros current in
    let mask := Z.shiftl 1 bit_idx in
    bs ← index_set (blocks b) block_idx (Z.land current (u64_not mask));
    Ret (Some bit_idx, set_blocks b bs).

(** The [for i in 0..num_blocks] scan of [find_and_claim]. *)
Fixpoint scan (b : t) (start_block : Z) (steps : list Z) : outcome (option Z * t) :=
  match steps with
  | [] => Ret (None, b)
  | i :: steps' =>
      let block_idx := (start_block + i) mod num_blocks b in
      block_val ← index (blocks b) block_idx;
      if block_val =? 0 then scan b start_block steps'
      else
        r ← try_claim_from_block b block_idx;
        match r with
        | (Some bit_idx, b') =>
            let gvthread_idx := block_idx * BITS_PER_BLOCK + bit_idx in
            Ret (Some (GVThreadId.new (wrap 32 gvthread_idx)), b')
        | (None, b') => scan b' start_block steps'
        end
  end.

(** [start_hint % self.num_blocks] panics when there is no block. *)
Definition find_and_claim (b : t) (start_hint : Z) : outcome (option Z * t) :=
  if num_blocks b =? 0 then Panic
  else scan b (start_hint mod num_blocks b) (seqZ 0 (num_blocks b)).

Definition any_ready (b : t) : bool := existsb (λ v, negb (v =? 0)) (blocks b).
Definition count_ready (b : t) : Z := foldl (λ count v, count + count_ones v) 0 (blocks b).

(** ** Abstract contents *)

Definition bit (bs : list Z) (x : Z) : Prop :=
  match bs !! Z.to_nat (x / 64) with Some v => bit_set v (x mod 64) | None => False end.
#[global] Instance bit_dec bs x : Decision (bit bs x).
Proof. unfold bit. destruct (bs !! _); apply _. Defined.

Definition elems (b : t) : list Z :=
  filter (bit (blocks b)) (seqZ 0 (64 * Z.of_nat (length (blocks b)))).
Definition abs (b : t) : gset Z := list_to_set (elems b).

(** Well-formedness: every block is a [u64], there are [num_blocks] of them,
    they cover the ids below [max_id], and no other bit is set. *)
Record wf (b : t) : Prop := {
  wf_len : Z.of_nat (length (blocks b)) = num_blocks b;
  wf_u64 : Forall (in_u 64) (blocks b);
  wf_cover : 0 ≤ max_id b ≤ 64 * num_blocks b;
  wf_max : in_u 32 (max_id b);
  wf_bits : ∀ x, 0 ≤ x → bit (blocks b) x → x < max_id b
}.
End ReadyBitmap.

Module ReadyBitmaps.
Record t : Type := mk {
  bitmaps : list ReadyBitmap.t;
  worker_rng : list Z
}.

Definition new (max_gvthreads num_workers : Z) : t :=
  mk [ReadyBitmap.new max_gvthreads; ReadyBitmap.new max_gvthreads;
      ReadyBitmap.new max_gvthreads; ReadyBitmap.new max_gvthreads]
     (replicate (Z.to_nat num_workers) 12345).

Definition set_ready (s : t) (id : Z) (priority : Priority.t) : outcome t :=
  b ← index (bitmaps s) (Priority.as_index priority);
  b' ← ReadyBitmap.set b id;
  bs ← index_set (bitmaps s) (Priority.as_index priority) b';
  Ret (mk bs (worker_rng s)).

Definition clear_ready (s : t) (id : Z) (priority : Priority.t) : outcome t :=
  b ← index (bitmaps s) (Priority.as_index priority);
  b' ← ReadyBitmap.clear b id;
  bs ← index_set (bitmaps s) (Priority.as_index priority) b';
  Ret (mk bs (worker_rng s)).

(** The xorshift update of a worker's random state. *)
Definition xorshift (x : Z) : Z :=
  let x := Z.lxor x (wrap 64 (Z.shiftl x 13)) in
  let x := Z.lxor x (Z.shiftr x 7) in
  Z.lxor x (wrap 64 (Z.shiftl x 17)).

(** The start hint of a worker, and the updated random states. *)
Definition next_hint (rng : list Z) (worker_id : Z) : Z * list Z :=
  match (if worker_id <? 0 then None else rng !! Z.to_nat worker_id) with
  | Some x => let x' := xorshift x in (x', <[Z.to_nat worker_id := x']> rng)
  | None => (0, rng)
  end.

(** [self.bitmaps[p].find_and_claim(hint)], with the updated level stored. *)
Definition claim_at (bs : list ReadyBitmap.t) (p : Priority.t) (hint : Z) :
    outcome (option Z * list ReadyBitmap.t) :=
  b ← index bs (Priority.as_index p);
  r ← ReadyBitmap.find_and_claim b hint;
  bs' ← index_set bs (Priority.as_index p) r.2;
  Ret (r.1, bs').

Fixpoint claim_first (bs : list ReadyBitmap.t) (ps : list Priority.t) (hint : Z) :
    outcome (option (Z * Priority.t) * list ReadyBitmap.t) :=
  match ps with
  | [] => Ret (None, bs)
  | p :: ps' =>
      r ← claim_at bs p hint;
      match r with
      | (Some id, bs') => Ret (Some (id, p), bs')
      | (None, bs') => claim_first bs' ps' hint
      end
  end.

Definition find_and_claim (s : t) (worker_id : Z) (low_priority_only : bool) :
    outcome (option (Z * Priority.t) * t) :=
  let '(start_hint, rng) := next_hint (worker_rng s) worker_id in
  r ← claim_first (bitmaps s)
        (if low_priority_only then [Priority.Low] else Priority.iter) start_hint;
  Ret (r.1, mk r.2 rng).

Definition any_ready (s : t) : bool := existsb ReadyBitmap.any_ready (bitmaps s).
Definition any_ready_at (s : t) (priority : Priority.t) : outcome bool :=
  b ← index (bitmaps s) (Priority.as_index priority); Ret (ReadyBitmap.any_ready b).
Definition total_ready (s : t) : Z :=
  foldl (λ n b, n + ReadyBitmap.count_ready b) 0 (bitmaps s).
End ReadyBitmaps.

(** ** One level refines a finite set *)
Section OneLevel.
Import ReadyBitmap.
Implicit Types (b : ReadyBitmap.t) (bs : list Z).

Lemma bit_lookup bs x : bit bs x → ∃ v, bs !! Z.to_nat (x / 64) = Some v ∧ bit_set v (x mod 64).
Proof. unfold bit. case_match; naive_solver. Qed.

Lemma elem_of_abs b x : x ∈ abs b ↔ 0 ≤ x ∧ bit (blocks b) x.
Proof.
  unfold abs, elems. rewrite elem_of_list_to_set, list_elem_of_filter, elem_of_seqZ.
  split; [naive_solver|]. intros [Hx Hb]. split_and!; [done|done|].
  apply bit_lookup in Hb as (v & Hv & _). apply lookup_lt_Some in Hv.
  pose proof (Z.div_pos x 64). pose proof (Z.mod_pos_bound x 64).
  pose proof (Z.div_mod x 64). lia.
Qed.

Lemma bit_insert bs k v x :
  (k < length bs)%nat →
  bit (<[k := v]> bs) x ↔
  if decide (Z.to_nat (x / 64) = k) then bit_set v (x mod 64) else bit bs x.
Proof.
  intros Hk. unfold bit. case_decide as E.
  - subst. by rewrite list_lookup_insert_eq.
  - by rewrite list_lookup_insert_ne.
Qed.

(** An id is determined by its block and its bit. *)
Lemma id_split x k i : 0 ≤ k → 0 ≤ i < 64 → (x / 64 = k ∧ x mod 64 = i) ↔ x = k * 64 + i.
Proof.
  intros Hk Hi. split; [|intros ->].
  - intros [<- <-]. pose proof (Z.div_mod x 64). lia.
  - split; [rewrite Z.div_add_l, Z.div_small; lia|].
    rewrite Z.add_comm, Z_mod_plus_full. apply Z.mod_small. lia.
Qed.

(** Storing a block: what is required for well-formedness and what becomes of
    the contents. *)
Lemma wf_store b k v' :
  wf b → 0 ≤ k < num_blocks b → in_u 64 v' →
  (∀ i, 0 ≤ i < 64 → bit_set v' i → k * 64 + i < max_id b) →
  ∃ b', index_set (blocks b) k v' = Ret (blocks b') ∧ b' = set_blocks b (blocks b') ∧ wf b' ∧
        ∀ x, x ∈ abs b' ↔ 0 ≤ x ∧ if decide (x / 64 = k) then bit_set v' (x mod 64) else x ∈ abs b.
Proof.
  intros [Hlen Hu Hcover Hmax Hbits] Hk Hv' Hcond.
  assert (Hb : ∀ x, 0 ≤ x → bit (<[Z.to_nat k := v']> (blocks b)) x ↔
    if decide (x / 64 = k) then bit_set v' (x mod 64) else bit (blocks b) x).
  { intros x Hx. rewrite bit_insert by lia. pose proof (Z.div_pos x 64).
    repeat case_decide; try done; lia. }
  exists (set_blocks b (<[Z.to_nat k := v']> (blocks b))). split_and!.
  - by rewrite index_set_Ret by lia.
  - done.
  - constructor; simpl; [by rewrite length_insert|by apply Forall_insert|done|done|].
    intros x Hx. rewrite Hb by done. case_decide as E; [|by apply Hbits].
    pose proof (Z.mod_pos_bound x 64). pose proof (Z.div_mod x 64).
    intros Hset. apply Hcond in Hset; lia.
  - intros x. rewrite elem_of_abs. simpl. split.
    + intros [Hx Hbit]. split; [done|]. rewrite Hb in Hbit by done.
      case_decide; [done|]. by apply elem_of_abs.
    + intros [Hx Hbit]. split; [done|]. rewrite Hb by done.
      case_decide; [done|]. by apply elem_of_abs in Hbit as [_ ?].
Qed.

(** The block an id below [max_id] lives in. *)
Lemma wf_block b id :
  wf b → 0 ≤ id < max_id b →
  0 ≤ id / 64 < num_blocks b ∧ 0 ≤ id mod 64 < 64 ∧
  ∃ v, index (blocks b) (id / 64) = Ret v ∧ in_u 64 v ∧
       (bit_set v (id mod 64) ↔ id ∈ abs b) ∧
       ∀ i, 0 ≤ i < 64 → bit_set v i ↔ id / 64 * 64 + i ∈ abs b.
Proof.
  intros [Hlen Hu Hcover Hmax Hbits] Hid. pose proof (Z.mod_pos_bound id 64).
  assert (Hdiv : 0 ≤ id / 64 < num_blocks b).
  { split; [apply Z.div_pos; lia|]. apply Z.div_lt_upper_bound; lia. }
  split_and!; try lia. destruct (index_is_Ret (blocks b) (id / 64)) as (v & Hv & Hlook); [lia|].
  assert (Hall : ∀ i, 0 ≤ i < 64 → bit_set v i ↔ id / 64 * 64 + i ∈ abs b).
  { intros i Hi. rewrite elem_of_abs. unfold bit.
    destruct (proj2 (id_split (id / 64 * 64 + i) (id / 64) i ltac:(lia) Hi) eq_refl) as [-> ->].
    rewrite Hlook. pose proof (Z.div_pos id 64). naive_solver lia. }
  exists v. split_and!; [done| | |done].
  - by eapply Forall_lookup_1 in Hlook.
  - rewrite Hall by lia. pose proof (Z.div_mod id 64). by replace (id / 64 * 64 + id mod 64) with id by lia.
Qed.

Lemma wf_new n : 0 ≤ n → wf (new n) ∧ abs (new n) = ∅.
Proof.
  intros Hn. unfold new, BITS_PER_BLOCK.
  assert (Hnb : n ≤ 64 * ((n + 64 - 1) / 64)).
  { pose proof (Z.div_mod (n + 64 - 1) 64). pose proof (Z.mod_pos_bound (n + 64 - 1) 64). lia. }
  assert (Hempty : ∀ x, ¬ bit (replicate (Z.to_nat ((n + 64 - 1) / 64)) 0) x).
  { intros x Hx. apply bit_lookup in Hx as (v & Hv & Hset).
    apply lookup_replicate in Hv as [-> _]. unfold bit_set in Hset. by rewrite Z.bits_0 in Hset. }
  split.
  - pose proof (wrap_range 32 n). pose proof (Z.div_pos (n + 64 - 1) 64).
    assert (wrap 32 n ≤ n) by (apply Z.mod_le; lia).
    constructor; simpl; [rewrite length_replicate; lia| |lia|by apply wrap_in_u|].
    + apply Forall_replicate. unfold in_u. lia.
    + intros x _ Hx. by apply Hempty in Hx.
  - apply set_eq. intros x. rewrite elem_of_abs. simpl. set_solver.
Qed.

Lemma set_spec b id :
  wf b → 0 ≤ id →
  ∃ b', set b id = Ret b' ∧ wf b' ∧ max_id b' = max_id b ∧ num_blocks b' = num_blocks b ∧
        abs b' = if decide (id < max_id b) then {[id]} ∪ abs b else abs b.
Proof.
  intros Hwf Hid. unfold set, GVThreadId.as_usize, BITS_PER_BLOCK.
  destruct (Z.leb_spec (max_id b) id) as [Hge|Hlt].
  { exists b. split_and!; try done. case_decide; [lia|done]. }
  destruct (wf_block b id Hwf) as (Hk & Hi & v & -> & Hv & Hbit & Hall); [done|].
  destruct (wf_store b (id / 64) (Z.lor v (Z.shiftl 1 (id mod 64)))) as (b' & Hset & Heq & Hwf' & Habs);
    [done|done|auto with ints lia| |].
  { intros i Hi' Hor. unfold bit_set in Hor. rewrite Z.lor_spec, testbit_mask in Hor by lia.
    apply orb_true_iff in Hor as [Hor|Hor%bool_decide_eq_true].
    - apply Hall in Hor; [|done]. apply elem_of_abs in Hor as [? ?]. by apply Hwf.
    - pose proof (Z.div_mod id 64). lia. }
  exists b'. simpl. rewrite Hset. simpl. split_and!; [by rewrite Heq at 2|done|by rewrite Heq|by rewrite Heq|].
  rewrite decide_True by done. apply set_eq. intros x. rewrite Habs, elem_of_union, elem_of_singleton.
  pose proof (Z.mod_pos_bound x 64). pose proof (id_split x (id / 64) (id mod 64)) as Hsplit.
  pose proof (id_split x (id / 64) (x mod 64)) as Hsplit2. pose proof (Z.div_mod id 64).
  pose proof (elem_of_abs b x). case_decide as E; [|naive_solver lia].
  unfold bit_set. rewrite Z.lor_spec, orb_true_iff, testbit_mask, bool_decide_eq_true by lia.
  fold (bit_set v (x mod 64)). rewrite Hall by lia.
  replace (id / 64 * 64 + x mod 64) with x by lia. naive_solver lia.
Qed.

(** Clearing bit [i] of block [k]: the id leaves the set. *)
Lemma clear_bit_spec b k i v :
  wf b → 0 ≤ k < num_blocks b → 0 ≤ i < 64 → index (blocks b) k = Ret v →
  ∃ b', index_set (blocks b) k (Z.land v (u64_not (Z.shiftl 1 i))) = Ret (blocks b') ∧
        b' = set_blocks b (blocks b') ∧ wf b' ∧ abs b' = abs b ∖ {[k * 64 + i]}.
Proof.
  intros Hwf Hk Hi Hv. apply index_Ret in Hv as [_ Hv].
  assert (Hu : in_u 64 v) by (eapply Forall_lookup_1 in Hv; [done|apply Hwf]).
  assert (Hmem : ∀ x, 0 ≤ x → x / 64 = k → x ∈ abs b ↔ bit_set v (x mod 64)).
  { intros x Hx <-. rewrite elem_of_abs. unfold bit. rewrite Hv. naive_solver. }
  assert (Hbits : ∀ j, 0 ≤ j < 64 → bit_set (Z.land v (u64_not (Z.shiftl 1 i))) j ↔ bit_set v j ∧ j ≠ i).
  { intros j Hj. unfold bit_set. rewrite Z.land_spec, u64_not_bits, testbit_mask by auto with ints lia.
    rewrite !andb_true_iff, negb_true_iff, bool_decide_eq_false. naive_solver lia. }
  destruct (wf_store b k (Z.land v (u64_not (Z.shiftl 1 i)))) as (b' & Hset & Heq & Hwf' & Habs);
    [done|done|auto with ints lia| |].
  { intros j Hj [Hb _]%Hbits; [|done]. apply Hwf; [lia|].
    destruct (proj2 (id_split (k * 64 + j) k j ltac:(lia) Hj) eq_refl) as [Hd Hm].
    unfold bit. by rewrite Hd, Hm, Hv. }
  exists b'. split_and!; [done|done|done|]. apply set_eq. intros x.
  rewrite Habs, elem_of_difference, elem_of_singleton.
  pose proof (Z.mod_pos_bound x 64). pose proof (id_split x k i ltac:(lia) Hi).
  pose proof (elem_of_abs b x). case_decide as E; [|naive_solver].
  rewrite Hbits by lia. specialize (Hmem x). naive_solver.
Qed.

Lemma clear_spec b id :
  wf b → 0 ≤ id →
  ∃ b', clear b id = Ret b' ∧ wf b' ∧ max_id b' = max_id b ∧ num_blocks b' = num_blocks b ∧
        abs b' = abs b ∖ {[id]}.
Proof.
  intros Hwf Hid. unfold clear, GVThreadId.as_usize, BITS_PER_BLOCK.
  destruct (Z.leb_spec (max_id b) id) as [Hge|Hlt].
  { exists b. split_and!; try done. apply set_eq. intros x.
    rewrite elem_of_difference, elem_of_singleton. split; [|naive_solver]. intros Hx. split; [done|].
    intros ->. apply elem_of_abs in Hx as [_ Hx]. apply Hwf in Hx; lia. }
  destruct (wf_block b id Hwf) as (Hk & Hi & v & Hv & _ & _ & _); [done|].
  destruct (clear_bit_spec b (id / 64) (id mod 64) v) as (b' & Hset & Heq & Hwf' & Habs); try done.
  rewrite Hv. simpl. rewrite Hset. simpl. exists b'.
  split_and!; [by rewrite Heq at 2|done|by rewrite Heq|by rewrite Heq|].
  rewrite Habs. pose proof (Z.div_mod id 64). do 2 f_equal. lia.
Qed.

Lemma land_mask_0 v i : 0 ≤ i → Z.land v (Z.shiftl 1 i) = 0 ↔ ¬ bit_set v i.
Proof.
  intros Hi. unfold bit_set. split.
  - intros H0 Ht. assert (Hb : Z.testbit (Z.land v (Z.shiftl 1 i)) i = true).
    { rewrite Z.land_spec, testbit_mask, Ht by lia. by rewrite bool_decide_eq_true_2. }
    by rewrite H0, Z.bits_0 in Hb.
  - intros Ht%not_true_is_false. apply Z.bits_inj'. intros j Hj.
    rewrite Z.land_spec, testbit_mask, Z.bits_0 by lia.
    case_bool_decide; subst; [by rewrite Ht|apply andb_false_r].
Qed.

Lemma is_set_spec b id : wf b → 0 ≤ id → is_set b id = Ret (bool_decide (id ∈ abs b)).
Proof.
  intros Hwf Hid. unfold is_set, GVThreadId.as_usize, BITS_PER_BLOCK.
  destruct (Z.leb_spec (max_id b) id) as [Hge|Hlt].
  { rewrite bool_decide_eq_false_2; [done|]. intros [_ Hx]%elem_of_abs. apply Hwf in Hx; lia. }
  destruct (wf_block b id Hwf) as (Hk & Hi & v & -> & Hu & Hbit & _); [done|]. simpl. f_equal.
  pose proof (land_mask_0 v (id mod 64) ltac:(lia)) as H0.
  case_bool_decide; [apply negb_true_iff, Z.eqb_neq|apply negb_false_iff, Z.eqb_eq]; naive_solver.
Qed.

Lemma trailing_zeros_spec v :
  in_u 64 v → v ≠ 0 →
  0 ≤ trailing_zeros v < 64 ∧ bit_set v (trailing_zeros v) ∧
  ∀ j, 0 ≤ j < trailing_zeros v → ¬ bit_set v j.
Proof.
  intros Hu Hv. unfold trailing_zeros. destruct (list_find _ _) as [[n i]|] eqn:Hf.
  - apply list_find_Some in Hf as (Hn & Hset & Hmin). apply lookup_seqZ in Hn as [-> Hn].
    split_and!; [lia|lia|done|]. intros j Hj. apply (Hmin (Z.to_nat j)); [|lia].
    apply lookup_seqZ. lia.
  - apply list_find_None in Hf. destruct Hv. apply (in_u_bits_0 64); [done|].
    intros i Hi. rewrite Forall_forall in Hf. apply not_true_is_false, Hf, elem_of_seqZ. lia.
Qed.

(** The id a scan from block [start] finds first: the lowest set bit of the
    first non-empty block. *)
Lemma scan_spec b start steps :
  wf b → 0 < num_blocks b →
  ∃ r b', scan b start steps = Ret (r, b') ∧ wf b' ∧
    max_id b' = max_id b ∧ num_blocks b' = num_blocks b ∧
    match r with
    | Some id => id ∈ abs b ∧ abs b' = abs b ∖ {[id]}
    | None => b' = b ∧ ∀ i, i ∈ steps → index (blocks b) ((start + i) mod num_blocks b) = Ret 0
    end.
Proof.
  intros Hwf Hn. induction steps as [|i steps IH]; simpl.
  { exists None, b. split_and!; try done. set_solver. }
  set (k := (start + i) mod num_blocks b).
  assert (Hk : 0 ≤ k < num_blocks b) by (apply Z.mod_pos_bound; lia).
  destruct (index_is_Ret (blocks b) k) as (v & Hv & Hlook); [rewrite (wf_len _ Hwf); lia|].
  assert (Hu : in_u 64 v) by (eapply Forall_lookup_1 in Hlook; [done|apply Hwf]).
  rewrite Hv. simpl. destruct (Z.eqb_spec v 0) as [->|Hv0].
  - destruct IH as (r & b' & -> & Hwf' & Hm & Hnb & Hr). exists r, b'. split_and!; try done.
    destruct r; [done|]. destruct Hr as [-> Hr]. split; [done|].
    intros j [->|Hj]%elem_of_cons; [done|by apply Hr].
  - destruct (trailing_zeros_spec v Hu Hv0) as (Hi & Hset & _).
    destruct (clear_bit_spec b k (trailing_zeros v) v) as (b' & Hst & Heq & Hwf' & Habs); try done.
    unfold try_claim_from_block. rewrite Hv. simpl. destruct (Z.eqb_spec v 0) as [|_]; [done|].
    rewrite Hst. simpl. unfold BITS_PER_BLOCK, GVThreadId.new.
    assert (Hin : k * 64 + trailing_zeros v ∈ abs b).
    { apply elem_of_abs. split; [lia|]. unfold bit.
      destruct (proj2 (id_split (k * 64 + trailing_zeros v) k _ ltac:(lia) Hi) eq_refl) as [-> ->].
      by rewrite Hlook. }
    assert (Hlt : k * 64 + trailing_zeros v < max_id b).
    { apply elem_of_abs in Hin as [? ?]. by apply Hwf. }
    pose proof (wf_max _ Hwf). rewrite wrap_small by (unfold in_u in *; lia).
    rewrite <- Heq. exists (Some (k * 64 + trailing_zeros v)), b'. split_and!; [done|done|by rewrite Heq|by rewrite Heq|done|done].
Qed.

Lemma find_and_claim_spec b hint :
  wf b → 0 < num_blocks b →
  ∃ r b', find_and_claim b hint = Ret (r, b') ∧ wf b' ∧
    max_id b' = max_id b ∧ num_blocks b' = num_blocks b ∧
    match r with
    | Some id => id ∈ abs b ∧ abs b' = abs b ∖ {[id]}
    | None => b' = b ∧ abs b = ∅
    end.
Proof.
  intros Hwf Hn. unfold find_and_claim. destruct (Z.eqb_spec (num_blocks b) 0) as [|_]; [lia|].
  destruct (scan_spec b (hint mod num_blocks b) (seqZ 0 (num_blocks b)) Hwf Hn)
    as (r & b' & -> & Hwf' & Hm & Hnb & Hr).
  exists r, b'. split_and!; try done. destruct r; [done|]. destruct Hr as [-> Hr]. split; [done|].
  apply set_eq. intros x. rewrite elem_of_abs. split; [|set_solver]. intros [Hx Hb].
  apply bit_lookup in Hb as (v & Hv & Hset). pose proof (lookup_lt_Some _ _ _ Hv) as Hlt.
  rewrite <- (wf_len _ Hwf) in Hr, Hn. set (n := Z.of_nat (length (blocks b))) in *.
  assert (Hd : 0 ≤ x / 64 < n) by (unfold n; pose proof (Z.div_pos x 64); lia).
  specialize (Hr ((x / 64 - hint) mod n)). rewrite Zplus_mod_idemp_r, Zplus_mod_idemp_l in Hr.
  replace (hint + (x / 64 - hint)) with (x / 64) in Hr by lia. rewrite (Z.mod_small (x / 64)) in Hr by lia.
  pose proof (Z.mod_pos_bound (x / 64 - hint) n).
  apply index_Ret in Hr as [_ Hr0]; [|apply elem_of_seqZ; lia]. simplify_eq.
  unfold bit_set in Hset. by rewrite Z.bits_0 in Hset.
Qed.

Lemma count_ones_shift v m :
  count_ones v = Z.of_nat (length (filter (λ x, bit_set v (x - m)) (seqZ m 64))).
Proof.
  unfold count_ones. f_equal. replace (seqZ m 64) with (Z.add m <$> seqZ 0 64).
  - rewrite length_filter_fmap. apply length_filter_ext. intros x _.
    by replace (m + x - m) with x by lia.
  - rewrite fmap_add_seqZ. by rewrite Z.add_0_r.
Qed.

Lemma count_ready_elems bs nb mx :
  count_ready (mk bs nb mx) = Z.of_nat (length (elems (mk bs nb mx))).
Proof.
  unfold count_ready, elems. simpl. induction bs as [|v bs IH] using rev_ind; [done|].
  rewrite foldl_app, IH, length_app. simpl.
  set (n := Z.of_nat (length bs)).
  replace (64 * Z.of_nat (length bs + 1)) with (64 * n + 64) by (unfold n; lia).
  rewrite seqZ_app, filter_app, length_app, Nat2Z.inj_add by (unfold n; lia). f_equal.
  - f_equal. apply length_filter_ext. intros x Hx%elem_of_seqZ. unfold bit.
    rewrite lookup_app_l by (unfold n in Hx; pose proof (Z.div_lt_upper_bound x 64 n); lia). done.
  - rewrite (count_ones_shift v (64 * n)), Z.add_0_l. f_equal. symmetry.
    apply length_filter_ext. intros x Hx%elem_of_seqZ. unfold bit.
    destruct (proj2 (id_split x n (x - 64 * n) ltac:(unfold n; lia) ltac:(lia)) ltac:(lia)) as [-> ->].
    unfold n. by rewrite Nat2Z.id, list_lookup_middle by done.
Qed.

Lemma count_ready_spec b : count_ready b = Z.of_nat (size (abs b)).
Proof.
  destruct b as [bs nb mx]. rewrite count_ready_elems. unfold abs.
  rewrite size_list_to_set; [done|]. apply NoDup_filter, NoDup_seqZ.
Qed.

Lemma any_ready_spec b : wf b → any_ready b = bool_decide (abs b ≠ ∅).
Proof.
  intros Hwf. unfold any_ready. apply eq_true_iff_eq. rewrite existsb_exists, bool_decide_eq_true.
  split.
  - intros (v & Hin & Hv). apply list_elem_of_In, list_elem_of_lookup in Hin as [k Hk].
    apply negb_true_iff, Z.eqb_neq in Hv.
    assert (Hu : in_u 64 v) by (eapply Forall_lookup_1 in Hk; [done|apply Hwf]).
    destruct (trailing_zeros_spec v Hu Hv) as (Hi & Hset & _).
    intros He. cut (Z.of_nat k * 64 + trailing_zeros v ∈ abs b); [set_solver|].
    apply elem_of_abs. split; [lia|]. unfold bit.
    destruct (proj2 (id_split _ (Z.of_nat k) _ ltac:(lia) Hi) eq_refl) as [-> ->].
    by rewrite Nat2Z.id, Hk.
  - intros [x Hx]%set_choose_L. apply elem_of_abs in Hx as [_ (v & Hv & Hset)%bit_lookup].
    exists v. split; [by eapply list_elem_of_In, list_elem_of_lookup_2|].
    apply negb_true_iff, Z.eqb_neq. intros ->. unfold bit_set in Hset. by rewrite Z.bits_0 in Hset.
Qed.
End OneLevel.

(** ** Four levels *)
Section Levels.
Import ReadyBitmaps.

Definition level (bs : list ReadyBitmap.t) (p : Priority.t) : gset Z :=
  match bs !! Z.to_nat (Priority.as_index p) with
  | Some b => ReadyBitmap.abs b
  | None => ∅
  end.

Definition wf_levels (bs : list ReadyBitmap.t) : Prop :=
  length bs = 4%nat ∧ Forall (λ b, ReadyBitmap.wf b ∧ 0 < ReadyBitmap.num_blocks b) bs.

Lemma as_index_inj p q : Priority.as_index p = Priority.as_index q → p = q.
Proof. by destruct p, q. Qed.

Lemma as_index_bound p : 0 ≤ Priority.as_index p < 4.
Proof. by destruct p. Qed.

Lemma wf_level bs p :
  wf_levels bs →
  ∃ b, index bs (Priority.as_index p) = Ret b ∧ bs !! Z.to_nat (Priority.as_index p) = Some b ∧
       ReadyBitmap.wf b ∧ 0 < ReadyBitmap.num_blocks b.
Proof.
  intros [Hlen Hall]. pose proof (as_index_bound p).
  destruct (index_is_Ret bs (Priority.as_index p)) as (b & Hb & Hl); [lia|].
  exists b. split_and!; [done|done|..]; by eapply (Forall_lookup_1 _ _ _ _ Hall) in Hl as [??].
Qed.

(** Replacing one level. *)
Lemma level_store bs p b' :
  wf_levels bs → ReadyBitmap.wf b' → 0 < ReadyBitmap.num_blocks b' →
  ∃ bs', index_set bs (Priority.as_index p) b' = Ret bs' ∧ wf_levels bs' ∧
         ∀ q, level bs' q = if decide (q = p) then ReadyBitmap.abs b' else level bs q.
Proof.
  intros [Hlen Hall] Hwf Hn. pose proof (as_index_bound p).
  exists (<[Z.to_nat (Priority.as_index p) := b']> bs). split_and!.
  - apply index_set_Ret. lia.
  - split; [by rewrite length_insert|by apply Forall_insert].
  - intros q. unfold level. case_decide as E.
    + subst. rewrite list_lookup_insert_eq by lia. done.
    + rewrite list_lookup_insert_ne; [done|]. intros Hq. apply E, as_index_inj.
      pose proof (as_index_bound q). lia.
Qed.

Lemma claim_at_spec bs p hint :
  wf_levels bs →
  ∃ r bs', claim_at bs p hint = Ret (r, bs') ∧ wf_levels bs' ∧
    match r with
    | Some id => id ∈ level bs p ∧
        ∀ q, level bs' q = if decide (q = p) then level bs p ∖ {[id]} else level bs q
    | None => bs' = bs ∧ level bs p = ∅
    end.
Proof.
  intros Hwf. destruct (wf_level bs p Hwf) as (b & Hb & Hl & Hwfb & Hn).
  destruct (find_and_claim_spec b hint Hwfb Hn) as (r & b' & Hf & Hwf' & _ & Hnb & Hr).
  destruct (level_store bs p b' Hwf Hwf') as (bs' & Hst & Hwfs & Hlev); [lia|].
  unfold claim_at. rewrite Hb. simpl. rewrite Hf. simpl. rewrite Hst. simpl.
  exists r, bs'. split_and!; [done|done|].
  assert (Hp : level bs p = ReadyBitmap.abs b) by (unfold level; by rewrite Hl).
  destruct r as [id|].
  - rewrite Hp. destruct Hr as [? Hr]. split; [done|]. intros q. by rewrite Hlev, Hr.
  - destruct Hr as [-> Hr]. rewrite Hp. split; [|done].
    pose proof (as_index_bound p). destruct Hwf as [Hlen _].
    rewrite index_set_Ret in Hst by lia. simplify_eq. by rewrite list_insert_id.
Qed.

Lemma claim_first_spec bs ps hint :
  wf_levels bs →
  ∃ r bs', claim_first bs ps hint = Ret (r, bs') ∧ wf_levels bs' ∧
    match r with
    | Some (id, p) =>
        (∃ ps1 ps2, ps = ps1 ++ p :: ps2 ∧ ∀ q, q ∈ ps1 → level bs q = ∅) ∧
        id ∈ level bs p ∧
        ∀ q, level bs' q = if decide (q = p) then level bs p ∖ {[id]} else level bs q
    | None => bs' = bs ∧ ∀ q, q ∈ ps → level bs q = ∅
    end.
Proof.
  intros Hwf. induction ps as [|p ps IH]; simpl.
  { exists None, bs. split_and!; try done. set_solver. }
  destruct (claim_at_spec bs p hint Hwf) as (r & bs' & -> & Hwf' & Hr). simpl.
  destruct r as [id|].
  - exists (Some (id, p)), bs'. split_and!; try done; [|apply Hr..].
    exists [], ps. split; [done|set_solver].
  - destruct Hr as [-> Hp]. destruct IH as (r & bs' & -> & Hwf'' & Hr).
    exists r, bs'. split_and!; try done. destruct r as [[id q]|].
    + destruct Hr as ((ps1 & ps2 & -> & H1) & Hr). split; [|done].
      exists (p :: ps1), ps2. set_solver.
    + destruct Hr as [-> Hr]. set_solver.
Qed.

Lemma priority_order ps1 p ps2 q :
  Priority.iter = ps1 ++ p :: ps2 → Priority.as_index q < Priority.as_index p → q ∈ ps1.
Proof.
  intros Heq Hlt. assert (Hi : Priority.iter !! length ps1 = Some p).
  { rewrite Heq. by apply list_lookup_middle. }
  assert (Hq : Priority.iter !! Z.to_nat (Priority.as_index q) = Some q) by (by destruct q).
  assert (Hp : length ps1 = Z.to_nat (Priority.as_index p)).
  { do 4 (destruct ps1 as [|? ps1]; [by destruct p; simplify_eq/=|simpl in Hi]); done. }
  rewrite Heq, lookup_app_l in Hq by (destruct q, p; simpl in *; lia).
  by eapply list_elem_of_lookup_2.
Qed.
End Levels.

(** ** The worker's random state *)
Section Xorshift.
Lemma shl_xor_nonzero x k :
  in_u 64 x → Z.gcd (2 ^ 64) (2 ^ k - 1) = 1 → 0 ≤ k →
  Z.lxor x (wrap 64 (Z.shiftl x k)) = 0 → x = 0.
Proof.
  intros [H0 Hx] Hprime Hk Hxor. apply Z.lxor_eq in Hxor. rewrite Z.shiftl_mul_pow2 in Hxor by done.
  assert (Hdiv : (2 ^ 64 | (2 ^ k - 1) * x)).
  { exists (x * 2 ^ k / 2 ^ 64). unfold wrap in Hxor. pose proof (Z.div_mod (x * 2 ^ k) (2 ^ 64)). lia. }
  apply Z.gauss in Hdiv; [|done]. destruct Hdiv as [q ->]. nia.
Qed.

Lemma shr_xor_nonzero x k : 0 ≤ x → 0 < k → Z.lxor x (Z.shiftr x k) = 0 → x = 0.
Proof.
  intros H0 Hk Hxor. apply Z.lxor_eq in Hxor. rewrite Z.shiftr_div_pow2 in Hxor by lia.
  destruct (decide (x = 0)); [done|].
  assert (x / 2 ^ k < x); [|lia]. apply Z.div_lt; [lia|]. apply Z.pow_gt_1; lia.
Qed.

Lemma in_u_shiftr x k : in_u 64 x → 0 ≤ k → in_u 64 (Z.shiftr x k).
Proof.
  intros [H0 Hx] Hk. rewrite Z.shiftr_div_pow2 by done. split; [apply Z.div_pos; lia|].
  apply Z.div_lt_upper_bound; nia.
Qed.
#[local] Hint Resolve in_u_shiftr : ints.

Lemma xorshift_spec x :
  in_u 64 x → x ≠ 0 → in_u 64 (ReadyBitmaps.xorshift x) ∧ ReadyBitmaps.xorshift x ≠ 0.
Proof.
  intros Hx Hne. unfold ReadyBitmaps.xorshift.
  set (y := Z.lxor x _). set (z := Z.lxor y _).
  assert (Hy : in_u 64 y) by (apply in_u_lxor; auto with ints lia).
  assert (Hz : in_u 64 z) by (apply in_u_lxor; auto with ints lia).
  split; [apply in_u_lxor; auto with ints lia|].
  intros H. apply shl_xor_nonzero in H; [|done|done|lia].
  apply shr_xor_nonzero in H; [|apply Hy|lia].
  apply shl_xor_nonzero in H; [done|done|done|lia].
Qed.
End Xorshift.

(** ** Concurrent claims *)
Module ClaimPool.
Import ReadyBitmap.

(** The level, with the history of the ids that were set, cleared and
    claimed. *)
Record shared : Type := Shared {
  bm : ReadyBitmap.t;
  sets : list Z;
  clears : list Z;
  claims : list Z
}.

(** Inside [find_and_claim]: [Scan start i] is at the top of the [for] loop,
    [Try start i] at the top of the claim loop for that block, [Cas] before
    the compare-exchange. *)
Inductive pc : Type :=
| Idle
| Scan (start i : Z)
| Try (start i : Z)
| Cas (start i current : Z).

Definition block_at (b : ReadyBitmap.t) (start i : Z) : Z := (start + i) mod num_blocks b.

Inductive tstep : shared → pc → shared → pc → Prop :=
| do_set b b' ss cs ks id :
    0 ≤ id → set b id = Ret b' →
    tstep (Shared b ss cs ks) Idle (Shared b' (id :: ss) cs ks) Idle
| do_clear b b' ss cs ks id :
    0 ≤ id → clear b id = Ret b' →
    tstep (Shared b ss cs ks) Idle (Shared b' ss (id :: cs) ks) Idle
| call_find sh hint :
    num_blocks (bm sh) ≠ 0 →
    tstep sh Idle sh (Scan (hint mod num_blocks (bm sh)) 0)
| scan_end sh start i :
    num_blocks (bm sh) ≤ i → tstep sh (Scan start i) sh Idle
| scan_empty sh start i :
    i < num_blocks (bm sh) → index (blocks (bm sh)) (block_at (bm sh) start i) = Ret 0 →
    tstep sh (Scan start i) sh (Scan start (i + 1))
| scan_nonempty sh start i v :
    i < num_blocks (bm sh) → index (blocks (bm sh)) (block_at (bm sh) start i) = Ret v → v ≠ 0 →
    tstep sh (Scan start i) sh (Try start i)
| try_empty sh start i :
    index (blocks (bm sh)) (block_at (bm sh) start i) = Ret 0 →
    tstep sh (Try start i) sh (Scan start (i + 1))
| try_load sh start i v :
    index (blocks (bm sh)) (block_at (bm sh) start i) = Ret v → v ≠ 0 →
    tstep sh (Try start i) sh (Cas start i v)
| try_cas b ss cs ks start i v bs' :
    index (blocks b) (block_at b start i) = Ret v →
    index_set (blocks b) (block_at b start i)
      (Z.land v (u64_not (Z.shiftl 1 (trailing_zeros v)))) = Ret bs' →
    tstep (Shared b ss cs ks) (Cas start i v)
      (Shared (set_blocks b bs') ss cs
         (wrap 32 (block_at b start i * BITS_PER_BLOCK + trailing_zeros v) :: ks)) Idle
| try_cas_retry sh start i v :
    tstep sh (Cas start i v) sh (Try start i).

Abbreviation step := (pool_step tstep).

Definition init (max_gvthreads : Z) (s : shared * list pc) : Prop :=
  ∃ n, s = (Shared (new max_gvthreads) [] [] [], replicate n Idle).

Definition occ (id : Z) (l : list Z) : nat := length (filter (λ x, x = id) l).

Definition pc_ok (p : pc) : Prop := match p with Cas _ _ v => v ≠ 0 | _ => True end.

Record inv (s : shared * list pc) : Prop := {
  inv_wf : wf (bm s.1);
  inv_occ : ∀ id, (occ id (claims s.1) + (if decide (id ∈ abs (bm s.1)) then 1 else 0)
                   ≤ occ id (sets s.1))%nat;
  inv_kept : ∀ id, id ∈ sets s.1 → id < max_id (bm s.1) →
             id ∈ abs (bm s.1) ∨ id ∈ clears s.1 ∨ id ∈ claims s.1;
  inv_pcs : Forall pc_ok s.2
}.

Lemma claim_inv_init m s : 0 ≤ m → init m s → inv s.
Proof.
  intros Hm [n ->]. destruct (wf_new m Hm) as [Hwf Habs]. constructor; simpl; [done|..].
  - intros id. rewrite Habs. case_decide; [set_solver|done].
  - set_solver.
  - by apply Forall_replicate.
Qed.

Lemma occ_cons id x l : occ id (x :: l) = ((if decide (x = id) then 1 else 0) + occ id l)%nat.
Proof. unfold occ. rewrite filter_cons. by case_decide. Qed.

(** The successful compare-exchange takes one set bit. *)
Lemma cas_spec b start i v bs' :
  wf b → v ≠ 0 → index (blocks b) (block_at b start i) = Ret v →
  index_set (blocks b) (block_at b start i)
    (Z.land v (u64_not (Z.shiftl 1 (trailing_zeros v)))) = Ret bs' →
  let id := wrap 32 (block_at b start i * BITS_PER_BLOCK + trailing_zeros v) in
  wf (set_blocks b bs') ∧ id ∈ abs b ∧ abs (set_blocks b bs') = abs b ∖ {[id]}.
Proof.
  intros Hwf Hv Hidx Hset. set (k := block_at b start i) in *. simpl.
  pose proof (proj1 (index_Ret _ _ _) Hidx) as [Hk0 Hlook].
  assert (Hk : 0 ≤ k < num_blocks b) by (apply lookup_lt_Some in Hlook; rewrite <- (wf_len _ Hwf); lia).
  assert (Hu : in_u 64 v) by (eapply Forall_lookup_1 in Hlook; [done|apply Hwf]).
  destruct (trailing_zeros_spec v Hu Hv) as (Hi & Hbit & _).
  destruct (clear_bit_spec b k (trailing_zeros v) v) as (b' & Hst & Heq & Hwf' & Habs); try done.
  rewrite Hst in Hset. simplify_eq. rewrite <- Heq.
  assert (Hin : k * 64 + trailing_zeros v ∈ abs b).
  { apply elem_of_abs. split; [lia|]. unfold bit.
    destruct (proj2 (id_split _ k _ ltac:(lia) Hi) eq_refl) as [-> ->]. by rewrite Hlook. }
  assert (Hlt : k * 64 + trailing_zeros v < max_id b).
  { apply elem_of_abs in Hin as [? ?]. by apply Hwf. }
  pose proof (wf_max _ Hwf). unfold BITS_PER_BLOCK. rewrite wrap_small by (unfold in_u in *; lia). done.
Qed.

Lemma claim_inv_step s s' : inv s → step s s' → inv s'.
Proof.
  intros [Hwf Hocc Hkept Hpcs] Hstep. destruct Hstep as [sh p sh' p' l1 l2 Hstep].
  pool_simpl. destruct Hpcs as (H1 & Hp & H2).
  destruct Hstep as [b b' ss cs ks id Hid Hset|b b' ss cs ks id Hid Hclr| | | | | | 
    |b ss cs ks start i v bs' Hidx Hset|]; simpl in *.
  - destruct (set_spec b id Hwf Hid) as (b2 & Hb2 & Hwf2 & Hm & _ & Habs).
    rewrite Hset in Hb2. injection Hb2 as <-.
    constructor; simpl; [done|..]; [| |by pool_simpl].
    + intros x. specialize (Hocc x). rewrite occ_cons, Habs. repeat case_decide; set_solver by lia.
    + intros x Hx. rewrite Hm, Habs. specialize (Hkept x). case_decide; set_solver.
  - destruct (clear_spec b id Hwf Hid) as (b2 & Hb2 & Hwf2 & Hm & _ & Habs).
    rewrite Hclr in Hb2. injection Hb2 as <-.
    constructor; simpl; [done|..]; [| |by pool_simpl].
    + intros x. specialize (Hocc x). rewrite Habs. repeat case_decide; set_solver by lia.
    + intros x Hx. rewrite Hm, Habs. intros Hlt. destruct (Hkept x Hx Hlt) as [?|?];
        destruct (decide (x = id)); set_solver.
  - constructor; simpl; try done. by pool_simpl.
  - constructor; simpl; try done. by pool_simpl.
  - constructor; simpl; try done. by pool_simpl.
  - constructor; simpl; try done. by pool_simpl.
  - constructor; simpl; try done. by pool_simpl.
  - constructor; simpl; try done. by pool_simpl.
  - destruct (cas_spec b start i v bs' Hwf Hp Hidx Hset) as (Hwf2 & Hin & Habs).
    constructor; simpl; [done|..]; [| |by pool_simpl].
    + intros x. specialize (Hocc x). rewrite occ_cons, Habs. repeat case_decide; set_solver by lia.
    + intros x Hx Hlt. rewrite Habs. set (y := wrap 32 _). destruct (Hkept x Hx Hlt) as [?|?];
        destruct (decide (x = y)); set_solver.
  - constructor; simpl; try done. by pool_simpl.
Qed.

Lemma claim_reachable_inv m s : 0 ≤ m → reachable step (init m) s → inv s.
Proof. intros Hm. apply reachable_invariant; eauto using claim_inv_init, claim_inv_step. Qed.
End ClaimPool.

(** ** Properties *)



(** [ReadyBitmaps::find_and_claim] schedules by priority and claims
    exactly one GVThread.  It always returns; when it returns an id, the id
    was ready at the returned priority, is removed from that level and from no
    other, and every higher level was empty (for a low-priority worker only
    the [Low] level is looked at); when it returns [None] nothing changed and
    no GVThread the worker may take was ready. *)
Theorem find_and_claim_by_priority s worker_id low :
  wf_levels (ReadyBitmaps.bitmaps s) →
  ∃ r s', ReadyBitmaps.find_and_claim s worker_id low = Ret (r, s') ∧
  wf_levels (ReadyBitmaps.bitmaps s') ∧
  let before := level (ReadyBitmaps.bitmaps s) in
  let after := level (ReadyBitmaps.bitmaps s') in
  match r with
  | Some (id, p) =>
      id ∈ before p ∧ (low = true → p = Priority.Low) ∧
      (low = false → ∀ q, Priority.as_index q < Priority.as_index p → before q = ∅) ∧
      ∀ q, after q = if decide (q = p) then before p ∖ {[id]} else before q
  | None =>
      ReadyBitmaps.bitmaps s' = ReadyBitmaps.bitmaps s ∧ before Priority.Low = ∅ ∧
      (low = false → ∀ q, before q = ∅)
  end.
Proof.
  intros Hwf. unfold ReadyBitmaps.find_and_claim.
  destruct (ReadyBitmaps.next_hint _ _) as [hint rng].
  destruct (claim_first_spec (ReadyBitmaps.bitmaps s)
    (if low then [Priority.Low] else Priority.iter) hint Hwf) as (r & bs' & -> & Hwf' & Hr).
  eexists r, _. split_and!; [done|done|]. simpl. destruct r as [[id p]|].
  - destruct Hr as ((ps1 & ps2 & Hps & Hbefore) & Hid & Hafter). split_and!; try done.
    + intros ->. destruct ps1 as [|? [|]]; by simplify_eq/=.
    + intros -> q Hq. eapply Hbefore, priority_order; eauto.
  - destruct Hr as [-> Hr]. split_and!; [done| |].
    + apply Hr. destruct low; set_solver.
    + intros -> q. apply Hr. destruct q; set_solver.
Qed.

(** A state with one [Normal] and one [Low] GVThread ready, for witnesses. *)
Definition bitmaps_demo : ReadyBitmaps.t :=
  ReadyBitmaps.mk
    [ReadyBitmap.new 100; ReadyBitmap.new 100;
     ReadyBitmap.mk [0; 64] 2 100; ReadyBitmap.mk [1; 0] 2 100] [12345].

Lemma bitmaps_demo_wf : wf_levels (ReadyBitmaps.bitmaps bitmaps_demo).
Proof.
  destruct (wf_new 100) as [Hwf _]; [lia|].
  destruct (set_spec (ReadyBitmap.new 100) 70 Hwf) as (b & Hb & Hwfb & _); [lia|].
  destruct (set_spec (ReadyBitmap.new 100) 0 Hwf) as (c & Hc & Hwfc & _); [lia|].
  vm_compute in Hb, Hc. injection Hb as <-. injection Hc as <-.
  split; [done|]. by repeat (apply Forall_cons; split; [split; [assumption|done]|]).
Qed.

Lemma find_and_claim_by_priority_witness :
  ∃ s', ReadyBitmaps.find_and_claim bitmaps_demo 0 false = Ret (Some (70, Priority.Normal), s') ∧
        level (ReadyBitmaps.bitmaps bitmaps_demo) Priority.High = ∅ ∧
        level (ReadyBitmaps.bitmaps s') Priority.Low = {[0]}.
Proof.
  destruct (find_and_claim_by_priority bitmaps_demo 0 false bitmaps_demo_wf) as (r & s' & H & _ & Hr).
  assert (Hc := H). vm_compute in Hc. injection Hc as <- <-.
  eexists. split; [exact H|]. destruct Hr as (_ & _ & Hhigh & Hafter). split.
  - by apply Hhigh.
  - rewrite Hafter. by vm_compute.
Defined.

(** Concurrent claims.  However [set], [clear] and the load and
    compare-exchange steps of [find_and_claim] of any number of threads
    interleave, an id is claimed at most as often as it was set (so two
    workers never claim one wake-up), and an id that was set and neither
    cleared nor claimed since the start is still ready: no wake-up is lost. *)
Theorem claims_bounded_by_sets m s :
  0 ≤ m → reachable ClaimPool.step (ClaimPool.init m) s →
  ∀ id,
  (ClaimPool.occ id (ClaimPool.claims s.1) ≤ ClaimPool.occ id (ClaimPool.sets s.1))%nat ∧
  (id ∈ ClaimPool.sets s.1 → id < ReadyBitmap.max_id (ClaimPool.bm s.1) →
   id ∉ ClaimPool.clears s.1 → id ∉ ClaimPool.claims s.1 →
   id ∈ ReadyBitmap.abs (ClaimPool.bm s.1)).
Proof.
  intros Hm Hr id. apply ClaimPool.claim_reachable_inv in Hr; [|done].
  pose proof (ClaimPool.inv_occ _ Hr id). pose proof (ClaimPool.inv_kept _ Hr id).
  split; [lia|naive_solver].
Qed.

(** One thread sets id 3 and claims it. *)
Definition claim_demo : ClaimPool.shared * list ClaimPool.pc :=
  (ClaimPool.Shared (ReadyBitmap.mk [0; 0] 2 100) [3] [] [3], [ClaimPool.Idle]).

Lemma claim_demo_reachable : reachable ClaimPool.step (ClaimPool.init 100) claim_demo.
Proof.
  eexists. split; [by exists 1%nat|]. eapply (pool_solo_loop _ _ 0); [done|].
  solo_by (ClaimPool.do_set _ (ReadyBitmap.mk [8; 0] 2 100) _ _ _ 3).
  solo_by (ClaimPool.call_find _ 0).
  solo_by (ClaimPool.scan_nonempty _ 0 0 8).
  solo_by (ClaimPool.try_load _ 0 0 8).
  solo_by (ClaimPool.try_cas _ _ _ _ 0 0 8 [0; 0]).
  constructor.
Qed.

Lemma claims_bounded_by_sets_witness :
  (ClaimPool.occ 3 (ClaimPool.claims claim_demo.1) ≤ ClaimPool.occ 3 (ClaimPool.sets claim_demo.1))%nat.
Proof. exact (proj1 (claims_bounded_by_sets 100 claim_demo ltac:(lia) claim_demo_reachable 3)). Defined.

(** The random state of a worker never gets stuck: from the seed the
    constructor installs, every xorshift update is a non-zero 64-bit value
    (zero is the one value the update maps to itself). *)
Theorem worker_rng_never_zero k :
  let x := Nat.iter k ReadyBitmaps.xorshift 12345 in
  in_u 64 x ∧ x ≠ 0.
Proof.
  induction k as [|k [IHu IH0]]; simpl; [unfold in_u; lia|]. by apply xorshift_spec.
Qed.
