(* ===== verification/Metadata.v ===== *)
(** * GVThread and worker metadata

    Models [gvthread-core/src/metadata.rs]: the saved register sets, the
    metadata record at the start of every slot and the per-worker state, with
    every method, and the [repr(C)] layout rule that the assembly of
    [arch/x86_64] relies on. *)

From S2P Require Import Prelude CoreTypes.

Definition WORKER_STATE_SIZE : Z := Constants.CACHE_LINE_SIZE.
Definition VOLUNTARY_SAVE_SIZE : Z := 64.
Definition FORCED_SAVE_SIZE : Z := 256.

(** ** [VoluntarySavedRegs] *)
Module VoluntarySavedRegs.
Record t : Type := mk {
  rsp : Z; rip : Z; rbx : Z; rbp : Z;
  r12 : Z; r13 : Z; r14 : Z; r15 : Z
}.
Definition default : t := mk 0 0 0 0 0 0 0 0.
End VoluntarySavedRegs.

(** ** [ForcedSavedRegs] *)
Module ForcedSavedRegs.
Record t : Type := mk {
  rax : Z; rbx : Z; rcx : Z; rdx : Z;
  rsi : Z; rdi : Z; rbp : Z; rsp : Z;
  r8 : Z; r9 : Z; r10 : Z; r11 : Z;
  r12 : Z; r13 : Z; r14 : Z; r15 : Z;
  rip : Z; rflags : Z;
  cs : Z; ss : Z;
  fpu_state_ptr : Z;
  padding : list Z
}.
Definition default : t := mk 0 0 0 0 0 0 0 0 0 0 0 0 0 0 0 0 0 0 0 0 0 (replicate 11 0).
End ForcedSavedRegs.

(** ** [GVThreadMetadata] *)
Module GVThreadMetadata.
Record t : Type := mk {
  preempt_flag : Z;
  cancelled : Z;
  state : Z;
  priority : Z;
  gvthread_id : Z;
  parent_id : Z;
  worker_id : Z;
  entry_fn : Z;
  entry_arg : Z;
  result_ptr : Z;
  generation : Z;
  sleep_flag : Z;
  wake_time_ns : Z;
  reserved : list Z;
  voluntary_regs : VoluntarySavedRegs.t;
  forced_regs : ForcedSavedRegs.t
}.

Definition new : t :=
  {| preempt_flag := 0;
     cancelled := 0;
     state := GVThreadState.to_u8 GVThreadState.Created;
     priority := Priority.to_u8 Priority.Normal;
     gvthread_id := Constants.GVTHREAD_NONE;
     parent_id := Constants.GVTHREAD_NONE;
     worker_id := Constants.GVTHREAD_NONE;
     entry_fn := 0;
     entry_arg := 0;
     result_ptr := 0;
     generation := 0;
     sleep_flag := 0;
     wake_time_ns := 0;
     reserved := replicate 8 0;
     voluntary_regs := VoluntarySavedRegs.mk 0 0 0 0 0 0 0 0;
     forced_regs := ForcedSavedRegs.mk 0 0 0 0 0 0 0 0 0 0 0 0 0 0 0 0 0 0 0 0 0 (replicate 11 0) |}.

(** What a slot reads as when the kernel has supplied a zero page: not [new],
    since the three ids and the priority differ. *)
Definition zeroed : t :=
  mk 0 0 0 0 0 0 0 0 0 0 0 0 0 (replicate 8 0) VoluntarySavedRegs.default ForcedSavedRegs.default.

(** [init]: the fields that are not named keep their values; [generation] is
    a wrapping [fetch_add]. *)
Definition init (m : t) (id parent : Z) (prio : Priority.t) : t :=
  {| preempt_flag := 0;
     cancelled := 0;
     state := GVThreadState.to_u8 GVThreadState.Created;
     priority := Priority.to_u8 prio;
     gvthread_id := GVThreadId.as_u32 id;
     parent_id := GVThreadId.as_u32 parent;
     worker_id := Constants.GVTHREAD_NONE;
     entry_fn := entry_fn m;
     entry_arg := entry_arg m;
     result_ptr := result_ptr m;
     generation := generation m +[32] 1;
     sleep_flag := sleep_flag m;
     wake_time_ns := wake_time_ns m;
     reserved := reserved m;
     voluntary_regs := voluntary_regs m;
     forced_regs := forced_regs m |}.

(** Stores to single fields. *)
Definition with_preempt_flag (m : t) (v : Z) : t :=
  mk v (cancelled m) (state m) (priority m) (gvthread_id m) (parent_id m) (worker_id m)
     (entry_fn m) (entry_arg m) (result_ptr m) (generation m) (sleep_flag m) (wake_time_ns m)
     (reserved m) (voluntary_regs m) (forced_regs m).
Definition with_cancelled (m : t) (v : Z) : t :=
  mk (preempt_flag m) v (state m) (priority m) (gvthread_id m) (parent_id m) (worker_id m)
     (entry_fn m) (entry_arg m) (result_ptr m) (generation m) (sleep_flag m) (wake_time_ns m)
     (reserved m) (voluntary_regs m) (forced_regs m).
Definition with_state (m : t) (v : Z) : t :=
  mk (preempt_flag m) (cancelled m) v (priority m) (gvthread_id m) (parent_id m) (worker_id m)
     (entry_fn m) (entry_arg m) (result_ptr m) (generation m) (sleep_flag m) (wake_time_ns m)
     (reserved m) (voluntary_regs m) (forced_regs m).
Definition with_worker_id (m : t) (v : Z) : t :=
  mk (preempt_flag m) (cancelled m) (state m) (priority m) (gvthread_id m) (parent_id m) v
     (entry_fn m) (entry_arg m) (result_ptr m) (generation m) (sleep_flag m) (wake_time_ns m)
     (reserved m) (voluntary_regs m) (forced_regs m).
Definition with_entry (m : t) (fn arg : Z) : t :=
  mk (preempt_flag m) (cancelled m) (state m) (priority m) (gvthread_id m) (parent_id m) (worker_id m)
     fn arg (result_ptr m) (generation m) (sleep_flag m) (wake_time_ns m)
     (reserved m) (voluntary_regs m) (forced_regs m).
Definition with_sleep (m : t) (flag wake : Z) : t :=
  mk (preempt_flag m) (cancelled m) (state m) (priority m) (gvthread_id m) (parent_id m) (worker_id m)
     (entry_fn m) (entry_arg m) (result_ptr m) (generation m) flag wake
     (reserved m) (voluntary_regs m) (forced_regs m).
Definition with_voluntary_regs (m : t) (r : VoluntarySavedRegs.t) : t :=
  mk (preempt_flag m) (cancelled m) (state m) (priority m) (gvthread_id m) (parent_id m) (worker_id m)
     (entry_fn m) (entry_arg m) (result_ptr m) (generation m) (sleep_flag m) (wake_time_ns m)
     (reserved m) r (forced_regs m).

(** Accessors. *)
Definition get_state (m : t) : GVThreadState.t := GVThreadState.from_u8 (state m).
Definition set_state (m : t) (s : GVThreadState.t) : t := with_state m (GVThreadState.to_u8 s).
Definition get_priority (m : t) : Priority.t := Priority.from_u8 (priority m).
Definition is_preempt_requested (m : t) : bool := negb (preempt_flag m =? 0).
Definition request_preempt (m : t) : t := with_preempt_flag m 1.
Definition clear_preempt (m : t) : t := with_preempt_flag m 0.
Definition is_cancelled (m : t) : bool := negb (cancelled m =? 0).
Definition request_cancel (m : t) : t := with_cancelled m 1.
Definition get_id (m : t) : Z := GVThreadId.new (gvthread_id m).
Definition get_generation (m : t) : Z := generation m.
End GVThreadMetadata.

(** ** [WorkerState] *)
Module WorkerState.
Record t : Type := mk {
  current_gthread : Z;
  activity_counter : Z;
  run_start_ns : Z;
  last_activity_ns : Z;
  thread_id : Z;
  is_parked : bool;
  is_low_priority : bool;
  worker_index : Z
}.

Definition new : t :=
  {| current_gthread := Constants.GVTHREAD_NONE;
     activity_counter := 0;
     run_start_ns := 0;
     last_activity_ns := 0;
     thread_id := 0;
     is_parked := true;
     is_low_priority := false;
     worker_index := 0 |}.

(** [thread_id] is not reset. *)
Definition init (w : t) (index : Z) (low : bool) : t :=
  {| current_gthread := Constants.GVTHREAD_NONE;
     activity_counter := 0;
     run_start_ns := 0;
     last_activity_ns := 0;
     thread_id := thread_id w;
     is_parked := true;
     is_low_priority := low;
     worker_index := index |}.

Definition start_running (w : t) (gvthread_id now_ns : Z) : t :=
  mk (GVThreadId.as_u32 gvthread_id) 0 now_ns now_ns (thread_id w) false
     (is_low_priority w) (worker_index w).
Definition stop_running (w : t) : t :=
  mk Constants.GVTHREAD_NONE (activity_counter w) (run_start_ns w) (last_activity_ns w)
     (thread_id w) (is_parked w) (is_low_priority w) (worker_index w).
Definition record_activity (w : t) (now_ns : Z) : t :=
  mk (current_gthread w) (activity_counter w +[32] 1) (run_start_ns w) now_ns
     (thread_id w) (is_parked w) (is_low_priority w) (worker_index w).
Definition get_current_gthread (w : t) : Z := GVThreadId.new (current_gthread w).
Definition is_idle (w : t) : bool := current_gthread w =? Constants.GVTHREAD_NONE.
End WorkerState.

(** ** [repr(C)] layout

    Each field is placed at the next multiple of its alignment; the size is
    rounded up to the alignment of the struct. *)
Module Layout.
Record field : Type := Field { fname : string; fsize : Z; falign : Z }.

Definition align_up (off a : Z) : Z := (off + a - 1) / a * a.

Fixpoint place (off : Z) (fs : list field) : list (string * Z) * Z :=
  match fs with
  | [] => ([], off)
  | f :: fs' =>
      let o := align_up off (falign f) in
      let '(rest, fin) := place (o + fsize f) fs' in
      ((fname f, o) :: rest, fin)
  end.

Definition offsets (fs : list field) : list (string * Z) := (place 0 fs).1.
Definition struct_align (attr : Z) (fs : list field) : Z :=
  foldr (λ f a, Z.max (falign f) a) attr fs.
Definition size_of (attr : Z) (fs : list field) : Z :=
  align_up (place 0 fs).2 (struct_align attr fs).

Definition u8 (n : string) : field := Field n 1 1.
Definition u32 (n : string) : field := Field n 4 4.
Definition u64 (n : string) : field := Field n 8 8.
Definition bytes (n : string) (len : Z) : field := Field n len 1.

Definition voluntary_fields : list field :=
  [u64 "rsp"; u64 "rip"; u64 "rbx"; u64 "rbp"; u64 "r12"; u64 "r13"; u64 "r14"; u64 "r15"].

Definition forced_fields : list field :=
  [u64 "rax"; u64 "rbx"; u64 "rcx"; u64 "rdx"; u64 "rsi"; u64 "rdi"; u64 "rbp"; u64 "rsp";
   u64 "r8"; u64 "r9"; u64 "r10"; u64 "r11"; u64 "r12"; u64 "r13"; u64 "r14"; u64 "r15";
   u64 "rip"; u64 "rflags"; u64 "cs"; u64 "ss"; u64 "fpu_state_ptr";
   Field "_padding" (11 * 8) 8].

Definition metadata_fields : list field :=
  [u8 "preempt_flag"; u8 "cancelled"; u8 "state"; u8 "priority";
   u32 "gvthread_id"; u32 "parent_id"; u32 "worker_id";
   u64 "entry_fn"; u64 "entry_arg"; u64 "result_ptr";
   u32 "generation"; u32 "sleep_flag"; u64 "wake_time_ns"; bytes "_reserved" 8;
   Field "voluntary_regs" (size_of 1 voluntary_fields) (struct_align 1 voluntary_fields);
   Field "forced_regs" (size_of 1 forced_fields) (struct_align 1 forced_fields)].

Definition worker_fields : list field :=
  [u32 "current_gthread"; u32 "activity_counter"; u64 "run_start_ns"; u64 "last_activity_ns";
   u64 "thread_id"; u8 "is_parked"; u8 "is_low_priority"; u8 "worker_index"; bytes "_padding" 29].
End Layout.

(** ** Lemmas *)
Section MetadataFacts.
Import GVThreadMetadata.

Lemma get_set_state m s : get_state (set_state m s) = s.
Proof. apply GVThreadState.state_from_to_u8. Qed.

Lemma get_state_init m id parent p : get_state (init m id parent p) = GVThreadState.Created.
Proof. done. Qed.

Lemma get_priority_init m id parent p : get_priority (init m id parent p) = p.
Proof. apply Priority.prio_from_to_u8. Qed.

Lemma generation_set_state m s : generation (set_state m s) = generation m.
Proof. done. Qed.
End MetadataFacts.

Create Rewrite HintDb metadata.
#[export] Hint Rewrite get_set_state get_state_init get_priority_init generation_set_state : metadata.

Section LayoutFacts.
Import Layout.

Lemma align_up_spec off a :
  0 < a → off ≤ align_up off a < off + a ∧ (a | align_up off a).
Proof.
  intros Ha. unfold align_up. split; [|by eexists].
  pose proof (Z.div_mod (off + a - 1) a). pose proof (Z.mod_pos_bound (off + a - 1) a). lia.
Qed.

(** Where [place] puts the fields of any struct: aligned, in order, apart. *)
Lemma place_spec off fs os fin :
  Forall (λ f, 0 < falign f ∧ 0 ≤ fsize f) fs → place off fs = (os, fin) →
  off ≤ fin ∧ length os = length fs ∧
  ∀ i f n o, fs !! i = Some f → os !! i = Some (n, o) →
    n = fname f ∧ (falign f | o) ∧ off ≤ o ∧ o + fsize f ≤ fin ∧
    ∀ j n' o', (i < j)%nat → os !! j = Some (n', o') → o + fsize f ≤ o'.
Proof.
  revert off os fin. induction fs as [|f fs IH]; intros off os fin Hok Hp; simpl in Hp.
  { simplify_eq. split_and!; [lia|done|]. intros i f n o Hf. by rewrite lookup_nil in Hf. }
  apply Forall_cons in Hok as [[Ha Hs] Hok].
  destruct (place _ fs) as [rest fin'] eqn:Hrest. simplify_eq/=.
  destruct (IH _ _ _ Hok Hrest) as (Hle & Hlen & Hall).
  destruct (align_up_spec off (falign f) Ha) as [Hoff Hdiv].
  split_and!; [lia|by f_equal|]. intros [|i] g n o Hg Ho; simplify_eq/=.
  - split_and!; [done|done|lia|lia|]. intros [|j] n' o' Hj Hj'; [lia|]. simpl in Hj'.
    destruct (lookup_lt_is_Some_2 fs j) as [h Hh].
    { rewrite <- Hlen. by eapply lookup_lt_Some. }
    by destruct (Hall j h n' o' Hh Hj') as (_ & _ & ? & _).
  - destruct (Hall i g n o Hg Ho) as (-> & ? & ? & ? & Hj). split_and!; [done|done|lia|lia|].
    intros [|j] n' o' Hij Hj'; [lia|]. eapply (Hj j); [lia|done].
Qed.
End LayoutFacts.

(** ** Properties *)

(** The compiled layout of the metadata structs is the one the source
    documents and the assembly uses.  [repr(C)] puts every field of
    [GVThreadMetadata] at the offset of the documented table, with
    [voluntary_regs] at 0x40 and [forced_regs] at 0x80; the struct fits in the
    metadata page; the register blocks and [WorkerState] have the sizes the
    compile-time assertions demand; and no two fields overlap. *)
Theorem metadata_layout :
  Layout.offsets Layout.metadata_fields =
    [("preempt_flag", 0x00); ("cancelled", 0x01); ("state", 0x02); ("priority", 0x03);
     ("gvthread_id", 0x04); ("parent_id", 0x08); ("worker_id", 0x0C);
     ("entry_fn", 0x10); ("entry_arg", 0x18); ("result_ptr", 0x20);
     ("generation", 0x28); ("sleep_flag", 0x2C); ("wake_time_ns", 0x30); ("_reserved", 0x38);
     ("voluntary_regs", 0x40); ("forced_regs", 0x80)] ∧
  Layout.offsets Layout.voluntary_fields =
    [("rsp", 0x00); ("rip", 0x08); ("rbx", 0x10); ("rbp", 0x18);
     ("r12", 0x20); ("r13", 0x28); ("r14", 0x30); ("r15", 0x38)] ∧
  Layout.offsets Layout.worker_fields =
    [("current_gthread", 0x00); ("activity_counter", 0x04); ("run_start_ns", 0x08);
     ("last_activity_ns", 0x10); ("thread_id", 0x18); ("is_parked", 0x20);
     ("is_low_priority", 0x21); ("worker_index", 0x22); ("_padding", 0x23)] ∧
  Layout.size_of 64 Layout.metadata_fields = 384 ∧
  Layout.size_of 64 Layout.metadata_fields ≤ Constants.METADATA_SIZE ∧
  Layout.size_of 1 Layout.voluntary_fields = VOLUNTARY_SAVE_SIZE ∧
  Layout.size_of 1 Layout.forced_fields = FORCED_SAVE_SIZE ∧
  Layout.size_of 64 Layout.worker_fields = WORKER_STATE_SIZE ∧
  ∀ i j f n o n' o',
    Layout.metadata_fields !! i = Some f →
    Layout.offsets Layout.metadata_fields !! i = Some (n, o) →
    Layout.offsets Layout.metadata_fields !! j = Some (n', o') →
    (i < j)%nat → o + Layout.fsize f ≤ o'.
Proof.
  split_and!; try (vm_compute; reflexivity); [vm_compute; discriminate|].
  intros i j f n o n' o' Hf Ho Ho' Hij.
  unfold Layout.offsets in *.
  destruct (Layout.place 0 Layout.metadata_fields) as [os fin] eqn:Hp.
  eapply place_spec in Hp as (_ & _ & Hall).
  - by eapply (Hall i f n o Hf Ho).
  - by repeat (apply Forall_cons; split; [split; vm_compute; done|]).
Qed.

(** Starting a GVThread in a used slot.  [init] leaves the GVThread
    [Created], uncancelled, with no preemption pending, no worker, its own id,
    parent and priority, and a generation one higher (modulo 2^32), so a
    generation read before a reuse differs from the one after it; it keeps the
    sleep flag, the entry point and the saved registers of the previous user. *)
Theorem metadata_init_spec m id parent p :
  in_u 32 (GVThreadMetadata.generation m) →
  let m' := GVThreadMetadata.init m id parent p in
  GVThreadMetadata.get_state m' = GVThreadState.Created ∧
  GVThreadMetadata.get_priority m' = p ∧
  GVThreadMetadata.get_id m' = id ∧
  GVThreadMetadata.parent_id m' = parent ∧
  GVThreadMetadata.is_cancelled m' = false ∧
  GVThreadMetadata.is_preempt_requested m' = false ∧
  GVThreadMetadata.worker_id m' = Constants.GVTHREAD_NONE ∧
  GVThreadMetadata.get_generation m' ≠ GVThreadMetadata.get_generation m ∧
  in_u 32 (GVThreadMetadata.get_generation m') ∧
  GVThreadMetadata.sleep_flag m' = GVThreadMetadata.sleep_flag m ∧
  GVThreadMetadata.voluntary_regs m' = GVThreadMetadata.voluntary_regs m.
Proof.
  intros Hg m'. subst m'. autorewrite with metadata. split_and!; try done; simpl; [|auto with ints lia].
  unfold in_u, wrap in *. destruct (decide (GVThreadMetadata.generation m = 2 ^ 32 - 1)) as [E|E].
  - unfold GVThreadMetadata.get_generation. simpl. rewrite E. by vm_compute.
  - unfold GVThreadMetadata.get_generation. simpl. rewrite Z.mod_small; lia.
Qed.

Lemma metadata_init_spec_witness :
  GVThreadMetadata.get_generation
    (GVThreadMetadata.init GVThreadMetadata.new 7 GVThreadId.NONE Priority.High) ≠ 0.
Proof. apply (metadata_init_spec GVThreadMetadata.new 7 GVThreadId.NONE Priority.High). by unfold in_u. Defined.
