(* ===== verification/Channel.v ===== *)
(** * Bounded channel

    Models [gvthread-core/src/channel.rs].  [Module ChannelInner] has the
    shared state and one definition per method, as a caller running alone
    executes it ([send] and [recv] spin, so they take a bound on the number of
    retries).  [Module ChannelPool] has the same methods as the critical
    sections of threads that clone, move, use and drop handles, with the
    history of the messages pushed and popped. *)

From S2P Require Import Prelude CoreTypes.

Module ChannelInner.
Section ChannelInner.
Context {T : Type}.

Record t : Type := mk {
  buffer : list T;
  capacity : Z;
  send_waiters : list Z;
  recv_waiters : list Z;
  closed : bool;
  sender_count : Z;
  receiver_count : Z
}.

(** [channel(capacity)]: one sender and one receiver. *)
Definition channel (capacity : Z) : t := mk [] capacity [] [] false 1 1.

Definition set_buffer (c : t) (b : list T) : t :=
  mk b (capacity c) (send_waiters c) (recv_waiters c) (closed c) (sender_count c) (receiver_count c).
Definition set_closed (c : t) : t :=
  mk (buffer c) (capacity c) (send_waiters c) (recv_waiters c) true (sender_count c) (receiver_count c).
Definition set_send_waiters (c : t) (w : list Z) : t :=
  mk (buffer c) (capacity c) w (recv_waiters c) (closed c) (sender_count c) (receiver_count c).
Definition set_recv_waiters (c : t) (w : list Z) : t :=
  mk (buffer c) (capacity c) (send_waiters c) w (closed c) (sender_count c) (receiver_count c).
Definition set_sender_count (c : t) (n : Z) : t :=
  mk (buffer c) (capacity c) (send_waiters c) (recv_waiters c) (closed c) n (receiver_count c).
Definition set_receiver_count (c : t) (n : Z) : t :=
  mk (buffer c) (capacity c) (send_waiters c) (recv_waiters c) (closed c) (sender_count c) n.

Definition len (c : t) : Z := Z.of_nat (length (buffer c)).
Definition is_empty (c : t) : bool := match buffer c with [] => true | _ => false end.
Definition is_closed (c : t) : bool := closed c.

Definition try_send_inner (c : t) (value : T) : Result () (SchedError.TrySendError T) * t :=
  if capacity c <=? len c then (Err (SchedError.TrySend value), c)
  else (Ok (), set_buffer c (push_back (buffer c) value)).

(** The popped waiter is not scheduled (a TODO of the source). *)
Definition wake_receiver (c : t) : t :=
  match pop_front (recv_waiters c) with
  | Some (_, w) => set_recv_waiters c w
  | None => c
  end.
Definition wake_sender (c : t) : t :=
  match pop_front (send_waiters c) with
  | Some (_, w) => set_send_waiters c w
  | None => c
  end.

Definition try_send (c : t) (value : T) : Result () (SchedError.TrySendError T) * t :=
  if closed c then (Err (SchedError.TrySend value), c)
  else
    match try_send_inner c value with
    | (Ok u, c') => (Ok u, wake_receiver c')
    | (Err e, c') => (Err e, c')
    end.

(** [send]: the recursive retry is bounded by [fuel]; [None] means that it is
    still spinning. *)
Fixpoint send (fuel : nat) (c : t) (value : T) : option (SchedResult () * t) :=
  match fuel with
  | O => None
  | S fuel' =>
      if closed c then Some (Err SchedError.ChannelClosed, c)
      else
        match try_send_inner c value with
        | (Ok _, c') => Some (Ok (), wake_receiver c')
        | (Err (SchedError.TrySend returned_value), c') =>
            match try_send_inner c' returned_value with
            | (Ok _, c'') => Some (Ok (), wake_receiver c'')
            | (Err (SchedError.TrySend v), c'') => send fuel' c'' v
            end
        end
  end.

Definition try_recv_inner (c : t) : Result T SchedError.TryRecvError * t :=
  match pop_front (buffer c) with
  | Some (v, b) => (Ok v, set_buffer c b)
  | None => (Err SchedError.TryRecv, c)
  end.

Definition try_recv (c : t) : Result T SchedError.TryRecvError * t :=
  match try_recv_inner c with
  | (Ok v, c') => (Ok v, wake_sender c')
  | (Err e, c') => (Err e, c')
  end.

Fixpoint recv (fuel : nat) (c : t) : option (SchedResult T * t) :=
  match fuel with
  | O => None
  | S fuel' =>
      match try_recv_inner c with
      | (Ok v, c') => Some (Ok v, wake_sender c')
      | (Err _, c') =>
          if sender_count c' =? 0 then Some (Err SchedError.ChannelClosed, c') else recv fuel' c'
      end
  end.

Definition clone_sender (c : t) : t := set_sender_count c (sender_count c + 1).
Definition clone_receiver (c : t) : t := set_receiver_count c (receiver_count c + 1).

Definition drop_sender (c : t) : t :=
  let c := set_sender_count c (sender_count c - 1) in
  if sender_count c =? 0 then set_recv_waiters (set_closed c) [] else c.
Definition drop_receiver (c : t) : t :=
  let c := set_receiver_count c (receiver_count c - 1) in
  if receiver_count c =? 0 then set_send_waiters (set_closed c) [] else c.
End ChannelInner.
Arguments t : clear implicits.
End ChannelInner.

(** ** Threads sharing a channel *)
Module ChannelPool.
Import ChannelInner.
Section ChannelPool.
Context {T : Type}.

(** The channel, the state of the locks that a [drop] holds across several
    updates, the handles that are being moved between threads, and the
    messages pushed and popped so far, oldest first. *)
Record shared : Type := Shared {
  chan : ChannelInner.t T;
  s_lock : bool;
  r_lock : bool;
  transit_s : Z;
  transit_r : Z;
  sent : list T;
  received : list T
}.

Inductive act : Type :=
| Idle
| SendCheck (v : T)
| SendPush (v : T)
| SendRetry (v : T)
| SendWake
| TrySendCheck (v : T)
| TrySendPush (v : T)
| RecvPop
| RecvCount
| RecvClosed
| RecvWake
| TryRecvPop
| DropSenderClose
| DropSenderWake
| DropReceiverClose
| DropReceiverWake.

(** A thread: the handles it owns and what it is doing. *)
Record thread : Type := Thread { senders : Z; receivers : Z; doing : act }.

Definition with_chan (sh : shared) (c : ChannelInner.t T) : shared :=
  Shared c (s_lock sh) (r_lock sh) (transit_s sh) (transit_r sh) (sent sh) (received sh).
Definition with_locks (sh : shared) (s r : bool) : shared :=
  Shared (chan sh) s r (transit_s sh) (transit_r sh) (sent sh) (received sh).
Definition with_transit (sh : shared) (s r : Z) : shared :=
  Shared (chan sh) (s_lock sh) (r_lock sh) s r (sent sh) (received sh).

Inductive tstep : shared → thread → shared → thread → Prop :=
(** handles *)
| st_clone_sender sh ns nr :
    0 < ns → s_lock sh = false →
    tstep sh (Thread ns nr Idle) (with_chan sh (clone_sender (chan sh))) (Thread (ns + 1) nr Idle)
| st_clone_receiver sh ns nr :
    0 < nr → r_lock sh = false →
    tstep sh (Thread ns nr Idle) (with_chan sh (clone_receiver (chan sh))) (Thread ns (nr + 1) Idle)
| st_give_sender sh ns nr :
    0 < ns →
    tstep sh (Thread ns nr Idle) (with_transit sh (transit_s sh + 1) (transit_r sh)) (Thread (ns - 1) nr Idle)
| st_take_sender sh ns nr :
    0 < transit_s sh →
    tstep sh (Thread ns nr Idle) (with_transit sh (transit_s sh - 1) (transit_r sh)) (Thread (ns + 1) nr Idle)
| st_give_receiver sh ns nr :
    0 < nr →
    tstep sh (Thread ns nr Idle) (with_transit sh (transit_s sh) (transit_r sh + 1)) (Thread ns (nr - 1) Idle)
| st_take_receiver sh ns nr :
    0 < transit_r sh →
    tstep sh (Thread ns nr Idle) (with_transit sh (transit_s sh) (transit_r sh - 1)) (Thread ns (nr + 1) Idle)
(** dropping a handle *)
| st_drop_sender sh ns nr :
    0 < ns → s_lock sh = false → sender_count (chan sh) - 1 ≠ 0 →
    tstep sh (Thread ns nr Idle)
      (with_chan sh (set_sender_count (chan sh) (sender_count (chan sh) - 1))) (Thread (ns - 1) nr Idle)
| st_drop_last_sender sh ns nr :
    0 < ns → s_lock sh = false → sender_count (chan sh) - 1 = 0 →
    tstep sh (Thread ns nr Idle)
      (with_locks (with_chan sh (set_sender_count (chan sh) (sender_count (chan sh) - 1))) true (r_lock sh))
      (Thread (ns - 1) nr DropSenderClose)
| st_drop_sender_close sh ns nr :
    tstep sh (Thread ns nr DropSenderClose) (with_chan sh (set_closed (chan sh))) (Thread ns nr DropSenderWake)
| st_drop_sender_wake sh ns nr :
    tstep sh (Thread ns nr DropSenderWake)
      (with_locks (with_chan sh (set_recv_waiters (chan sh) [])) false (r_lock sh)) (Thread ns nr Idle)
| st_drop_receiver sh ns nr :
    0 < nr → r_lock sh = false → receiver_count (chan sh) - 1 ≠ 0 →
    tstep sh (Thread ns nr Idle)
      (with_chan sh (set_receiver_count (chan sh) (receiver_count (chan sh) - 1))) (Thread ns (nr - 1) Idle)
| st_drop_last_receiver sh ns nr :
    0 < nr → r_lock sh = false → receiver_count (chan sh) - 1 = 0 →
    tstep sh (Thread ns nr Idle)
      (with_locks (with_chan sh (set_receiver_count (chan sh) (receiver_count (chan sh) - 1))) (s_lock sh) true)
      (Thread ns (nr - 1) DropReceiverClose)
| st_drop_receiver_close sh ns nr :
    tstep sh (Thread ns nr DropReceiverClose) (with_chan sh (set_closed (chan sh))) (Thread ns nr DropReceiverWake)
| st_drop_receiver_wake sh ns nr :
    tstep sh (Thread ns nr DropReceiverWake)
      (with_locks (with_chan sh (set_send_waiters (chan sh) [])) (s_lock sh) false) (Thread ns nr Idle)
(** [send] and [try_send] *)
| st_call_send sh ns nr v :
    0 < ns → tstep sh (Thread ns nr Idle) sh (Thread ns nr (SendCheck v))
| st_call_try_send sh ns nr v :
    0 < ns → tstep sh (Thread ns nr Idle) sh (Thread ns nr (TrySendCheck v))
| st_send_closed sh ns nr v :
    closed (chan sh) = true → tstep sh (Thread ns nr (SendCheck v)) sh (Thread ns nr Idle)
| st_send_open sh ns nr v :
    closed (chan sh) = false → tstep sh (Thread ns nr (SendCheck v)) sh (Thread ns nr (SendPush v))
| st_try_send_closed sh ns nr v :
    closed (chan sh) = true → tstep sh (Thread ns nr (TrySendCheck v)) sh (Thread ns nr Idle)
| st_try_send_open sh ns nr v :
    closed (chan sh) = false → tstep sh (Thread ns nr (TrySendCheck v)) sh (Thread ns nr (TrySendPush v))
| st_push c sl rl ts tr sn rc ns nr v c' p :
    p ∈ [SendPush v; SendRetry v; TrySendPush v] →
    try_send_inner c v = (Ok (), c') →
    tstep (Shared c sl rl ts tr sn rc) (Thread ns nr p)
          (Shared c' sl rl ts tr (sn ++ [v]) rc) (Thread ns nr SendWake)
| st_push_full sh ns nr v e c' p p' :
    (p, p') ∈ [(SendPush v, SendRetry v); (SendRetry v, SendCheck v); (TrySendPush v, Idle)] →
    try_send_inner (chan sh) v = (Err e, c') →
    tstep sh (Thread ns nr p) (with_chan sh c') (Thread ns nr p')
| st_send_wake sh ns nr :
    tstep sh (Thread ns nr SendWake) (with_chan sh (wake_receiver (chan sh))) (Thread ns nr Idle)
(** [recv] and [try_recv] *)
| st_call_recv sh ns nr :
    0 < nr → tstep sh (Thread ns nr Idle) sh (Thread ns nr RecvPop)
| st_call_try_recv sh ns nr :
    0 < nr → tstep sh (Thread ns nr Idle) sh (Thread ns nr TryRecvPop)
| st_pop c sl rl ts tr sn rc ns nr v c' p :
    p ∈ [RecvPop; TryRecvPop] → try_recv_inner c = (Ok v, c') →
    tstep (Shared c sl rl ts tr sn rc) (Thread ns nr p)
          (Shared c' sl rl ts tr sn (rc ++ [v])) (Thread ns nr RecvWake)
| st_pop_empty sh ns nr e c' p p' :
    (p, p') ∈ [(RecvPop, RecvCount); (TryRecvPop, Idle)] →
    try_recv_inner (chan sh) = (Err e, c') →
    tstep sh (Thread ns nr p) (with_chan sh c') (Thread ns nr p')
| st_recv_closed sh ns nr :
    s_lock sh = false → sender_count (chan sh) = 0 →
    tstep sh (Thread ns nr RecvCount) sh (Thread ns nr RecvClosed)
| st_recv_retry sh ns nr :
    s_lock sh = false → sender_count (chan sh) ≠ 0 →
    tstep sh (Thread ns nr RecvCount) sh (Thread ns nr RecvPop)
| st_recv_return sh ns nr :
    (** [recv] returns [Err(ChannelClosed)] to its caller *)
    tstep sh (Thread ns nr RecvClosed) sh (Thread ns nr Idle)
| st_recv_wake sh ns nr :
    tstep sh (Thread ns nr RecvWake) (with_chan sh (wake_sender (chan sh))) (Thread ns nr Idle).

Definition step := pool_step tstep.

(** The creator of the channel owns both handles; any number of other threads. *)
Definition init (cap : Z) (s : shared * list thread) : Prop :=
  ∃ n, s = (Shared (channel cap) false false 0 0 [] [], Thread 1 1 Idle :: replicate n (Thread 0 0 Idle)).

(** ** Invariant *)

Definition dropping_s (l : thread) : Z :=
  match doing l with DropSenderClose | DropSenderWake => 1 | _ => 0 end.
Definition dropping_r (l : thread) : Z :=
  match doing l with DropReceiverClose | DropReceiverWake => 1 | _ => 0 end.
Definition closing_s (l : thread) : Z := match doing l with DropSenderClose => 1 | _ => 0 end.
Definition closing_r (l : thread) : Z := match doing l with DropReceiverClose => 1 | _ => 0 end.
Definition saw_closed (l : thread) : Z := match doing l with RecvClosed => 1 | _ => 0 end.

(** A thread inside a method owns the handle it was called on. *)
Definition thread_ok (l : thread) : Prop :=
  0 ≤ senders l ∧ 0 ≤ receivers l ∧
  match doing l with
  | SendCheck _ | SendPush _ | SendRetry _ | TrySendCheck _ | TrySendPush _ => 0 < senders l
  | RecvPop | RecvCount | TryRecvPop => 0 < receivers l
  | _ => True
  end.

Record inv (s : shared * list thread) : Prop := {
  inv_fifo : received s.1 ++ buffer (chan s.1) = sent s.1;
  inv_cap : len (chan s.1) ≤ capacity (chan s.1);
  inv_s : sender_count (chan s.1) = sum_over senders s.2 + transit_s s.1;
  inv_r : receiver_count (chan s.1) = sum_over receivers s.2 + transit_r s.1;
  inv_transit : 0 ≤ transit_s s.1 ∧ 0 ≤ transit_r s.1;
  inv_threads : Forall thread_ok s.2;
  inv_s_lock : sum_over dropping_s s.2 = if s_lock s.1 then 1 else 0;
  inv_r_lock : sum_over dropping_r s.2 = if r_lock s.1 then 1 else 0;
  inv_locked : (s_lock s.1 = true → sender_count (chan s.1) = 0) ∧
               (r_lock s.1 = true → receiver_count (chan s.1) = 0);
  inv_closed : closed (chan s.1) = true →
               sender_count (chan s.1) = 0 ∨ receiver_count (chan s.1) = 0;
  inv_closed_s : sender_count (chan s.1) = 0 → closed (chan s.1) = true ∨ sum_over closing_s s.2 = 1;
  inv_closed_r : receiver_count (chan s.1) = 0 → closed (chan s.1) = true ∨ sum_over closing_r s.2 = 1;
  inv_saw : 0 < sum_over saw_closed s.2 → sender_count (chan s.1) = 0
}.

Lemma chan_inv_init cap s : 0 ≤ cap → init cap s → inv s.
Proof.
  intros Hcap [n ->].
  assert (Hrep : ∀ l, l ∈ replicate n (Thread 0 0 Idle) → l = Thread 0 0 Idle).
  { intros l Hl. by apply elem_of_replicate in Hl as [? _]. }
  assert (Hsum : ∀ f : thread → Z, f (Thread 0 0 Idle) = 0 → sum_over f (replicate n (Thread 0 0 Idle)) = 0).
  { intros f Hf. apply sum_over_zero. by intros l ->%Hrep. }
  constructor; simpl; rewrite ?Hsum by done; unfold len; simpl; try done; try lia.
  apply Forall_cons. split; [unfold thread_ok; simpl; lia|].
  apply Forall_forall. intros l ->%Hrep. done.
Qed.

(** Sums over the threads that do not move. *)
Lemma sums_rest l1 l2 :
  Forall thread_ok l1 → Forall thread_ok l2 →
  0 ≤ sum_over senders (l1 ++ l2) ∧ 0 ≤ sum_over receivers (l1 ++ l2) ∧
  0 ≤ sum_over closing_s (l1 ++ l2) ≤ sum_over dropping_s (l1 ++ l2) ∧
  0 ≤ sum_over closing_r (l1 ++ l2) ≤ sum_over dropping_r (l1 ++ l2) ∧
  0 ≤ sum_over saw_closed (l1 ++ l2).
Proof.
  intros H1 H2. assert (Hall : ∀ l, l ∈ l1 ++ l2 → thread_ok l).
  { rewrite Forall_forall in H1, H2. set_solver. }
  split_and!; try (apply sum_over_nonneg; intros l Hl; specialize (Hall l Hl)).
  all: try (apply sum_over_le; intros l).
  1,2: by unfold thread_ok in Hall; destruct_and?.
  all: unfold closing_s, closing_r, dropping_s, dropping_r, saw_closed; destruct (doing l); lia.
Qed.

(** What the two buffer operations do. *)
Lemma try_send_inner_Ok c (v : T) c' :
  try_send_inner c v = (Ok (), c') → len c < capacity c ∧ c' = set_buffer c (buffer c ++ [v]).
Proof. unfold try_send_inner. destruct (Z.leb_spec (capacity c) (len c)); naive_solver. Qed.

Lemma try_send_inner_Err c (v : T) e c' : try_send_inner c v = (Err e, c') → c' = c ∧ capacity c ≤ len c.
Proof. unfold try_send_inner. destruct (Z.leb_spec (capacity c) (len c)); naive_solver. Qed.

Lemma try_recv_inner_Ok c (v : T) c' :
  try_recv_inner c = (Ok v, c') → ∃ b, buffer c = v :: b ∧ c' = set_buffer c b.
Proof. unfold try_recv_inner. destruct (buffer c); naive_solver. Qed.

Lemma try_recv_inner_Err (c : ChannelInner.t T) e c' : try_recv_inner c = (Err e, c') → c' = c ∧ buffer c = [].
Proof. unfold try_recv_inner. destruct (buffer c); naive_solver. Qed.

Lemma wake_receiver_same (c : ChannelInner.t T) :
  ∃ w, wake_receiver c = set_recv_waiters c w.
Proof. unfold wake_receiver. destruct c as [b cp sw [|x rw] cl sc rc]; eauto; by exists []. Qed.

Lemma wake_sender_same (c : ChannelInner.t T) :
  ∃ w, wake_sender c = set_send_waiters c w.
Proof. unfold wake_sender. destruct c as [b cp [|x sw] rw cl sc rc]; eauto; by exists []. Qed.

Ltac chan_step_cases :=
  repeat match goal with
  | H : try_send_inner _ _ = (Ok _, _) |- _ => apply try_send_inner_Ok in H as [? ->]
  | H : try_send_inner _ _ = (Err _, _) |- _ => apply try_send_inner_Err in H as [-> ?]
  | H : try_recv_inner _ = (Ok _, _) |- _ => apply try_recv_inner_Ok in H as (? & ? & ->)
  | H : try_recv_inner _ = (Err _, _) |- _ => apply try_recv_inner_Err in H as [-> ?]
  | |- context [wake_receiver ?c] => destruct (wake_receiver_same c) as [? ->]
  | |- context [wake_sender ?c] => destruct (wake_sender_same c) as [? ->]
  | H : _ ∈ _ :: _ |- _ => rewrite elem_of_cons in H; destruct H as [H|H]
  | H : _ ∈ [] |- _ => by apply elem_of_nil in H
  | H : (_, _) = (_, _) |- _ => injection H as -> ->
  end; subst.

Lemma chan_inv_step s s' : inv s → step s s' → inv s'.
Proof.
  intros [Hfifo Hcap Hs Hr Htr Hthr Hsl Hrl Hlk Hcl Hcs Hcr Hsaw] Hstep.
  destruct Hstep as [sh l sh' l' l1 l2 Hstep]. pool_simpl.
  destruct Hthr as (Hl1 & Hl & Hl2). destruct (sums_rest l1 l2 Hl1 Hl2) as (? & ? & ? & ? & ?).
  unfold thread_ok in Hl.
  destruct Hstep; chan_step_cases; simpl in *.
  all: constructor; simpl; pool_simpl; try done; try (split_and!; done || lia).
  all: try tauto.
  all: unfold dropping_s, dropping_r, closing_s, closing_r, saw_closed, thread_ok in *; simpl in *.
  all: try (destruct (s_lock sh), (r_lock sh); simpl in *; intuition lia).
  all: try (split_and!; done || lia).
  all: unfold len in *; simpl in *.
  all: rewrite ?length_app, ?(assoc (++)), ?Hfifo; simpl; try done; try lia.
  all: match goal with H : buffer _ = _ :: _ |- _ => rewrite H in Hfifo, Hcap end.
  all: simpl in *; try lia; by rewrite <- (assoc (++)).
Qed.

Lemma chan_reachable_inv cap (s : shared * list thread) : 0 ≤ cap → reachable step (init cap) s → inv s.
Proof. intros Hcap. apply reachable_invariant; eauto using chan_inv_init, chan_inv_step. Qed.

(** Without a sender handle nothing is pushed and no sender handle appears. *)
Lemma no_sender_step s s' :
  inv s → step s s' → sender_count (chan s.1) = 0 →
  sent s'.1 = sent s.1 ∧ sender_count (chan s'.1) = 0.
Proof.
  intros [_ _ Hs _ Htr Hthr _ _ _ _ _ _ _] Hstep H0.
  destruct Hstep as [sh l sh' l' l1 l2 Hstep]. pool_simpl.
  destruct Hthr as (Hl1 & Hl & Hl2). destruct (sums_rest l1 l2 Hl1 Hl2) as (? & _).
  unfold thread_ok in Hl. destruct Hstep; chan_step_cases; simpl in *; try done; lia.
Qed.

Lemma no_sender_rtc s s' :
  inv s → rtc step s s' → sender_count (chan s.1) = 0 →
  sent s'.1 = sent s.1 ∧ sender_count (chan s'.1) = 0.
Proof.
  intros Hinv Hr. revert Hinv. induction Hr as [|x y z Hxy _ IH]; intros Hinv H0; [done|].
  destruct (no_sender_step x y Hinv Hxy H0) as [He Hy].
  destruct IH as [He' Hz]; [by eapply chan_inv_step|done|]. by rewrite He', He.
Qed.

Lemma saw_closed_pos (s : shared * list thread) l : l ∈ s.2 → doing l = RecvClosed → 0 < sum_over saw_closed s.2.
Proof.
  intros [l1 [l2 Hl]]%list_elem_of_split Hd. rewrite Hl, sum_over_middle.
  unfold saw_closed at 1. rewrite Hd.
  assert (0 ≤ sum_over saw_closed (l1 ++ l2)); [|lia].
  apply sum_over_nonneg. intros x _. unfold saw_closed. destruct (doing x); lia.
Qed.
End ChannelPool.
Arguments shared : clear implicits.
Arguments act : clear implicits.
Arguments thread : clear implicits.
End ChannelPool.

(** ** Properties *)

(** C35: The channel is a bounded FIFO queue under every interleaving of any
    number of threads that send, receive, clone, move and drop handles: the
    messages received so far followed by the buffered ones are exactly the
    messages whose [send] or [try_send] succeeded, in the order of their
    insertion; none is lost, duplicated or reordered, and the buffer never
    holds more than [capacity] messages. *)
Theorem channel_fifo {T} cap (s : ChannelPool.shared T * list (ChannelPool.thread T)) :
  0 ≤ cap → reachable ChannelPool.step (ChannelPool.init cap) s →
  let c := ChannelPool.chan s.1 in
  ChannelPool.received s.1 ++ ChannelInner.buffer c = ChannelPool.sent s.1 ∧
  ChannelInner.len c ≤ ChannelInner.capacity c.
Proof. intros Hcap Hr. by apply ChannelPool.chan_reachable_inv in Hr as [? ? _ _ _ _ _ _ _ _ _ _ _]. Qed.

(** The run of the witnesses: thread 0 moves the receiver to thread 1, which
    finds the buffer empty; thread 0 then sends a message and drops the last
    sender; thread 1 goes on and sees no sender left. *)
Definition chan_race : ChannelPool.shared Z * list (ChannelPool.thread Z) :=
  (ChannelPool.Shared (ChannelInner.mk [42] 1 [] [] true 0 1) false false 0 0 [42] [],
   [ChannelPool.Thread 0 0 ChannelPool.Idle; ChannelPool.Thread 0 1 ChannelPool.RecvClosed]).

Lemma chan_race_reachable : reachable ChannelPool.step (ChannelPool.init 1) chan_race.
Proof.
  eexists. split; [by exists 1%nat|]. unfold chan_race, ChannelPool.step. simpl.
  pool_by 0%nat ChannelPool.st_give_receiver. pool_by 1%nat ChannelPool.st_take_receiver.
  pool_by 1%nat ChannelPool.st_call_recv.
  pool_by 1%nat (ChannelPool.st_pop_empty _ _ _ SchedError.TryRecv _ _ ChannelPool.RecvCount).
  pool_by 0%nat (ChannelPool.st_call_send _ _ _ 42). pool_by 0%nat ChannelPool.st_send_open.
  pool_by 0%nat (ChannelPool.st_push _ _ _ _ _ _ _ _ _ 42). pool_by 0%nat ChannelPool.st_send_wake.
  pool_by 0%nat ChannelPool.st_drop_last_sender. pool_by 0%nat ChannelPool.st_drop_sender_close.
  pool_by 0%nat ChannelPool.st_drop_sender_wake. pool_by 1%nat ChannelPool.st_recv_closed.
  constructor.
Qed.

Lemma channel_fifo_witness :
  ChannelPool.received chan_race.1 ++ ChannelInner.buffer (ChannelPool.chan chan_race.1) = [42].
Proof. exact (proj1 (channel_fifo 1 chan_race ltac:(lia) chan_race_reachable)). Defined.

(** The [closed] flag is exact: whenever no drop of a last handle is in
    progress, the channel is closed exactly when one side has no handle left,
    and the two counters are the numbers of handles that exist. *)
Theorem channel_closed_iff {T} cap (s : ChannelPool.shared T * list (ChannelPool.thread T)) :
  0 ≤ cap → reachable ChannelPool.step (ChannelPool.init cap) s →
  ChannelPool.s_lock s.1 = false → ChannelPool.r_lock s.1 = false →
  let c := ChannelPool.chan s.1 in
  (ChannelInner.closed c = true ↔ ChannelInner.sender_count c = 0 ∨ ChannelInner.receiver_count c = 0) ∧
  ChannelInner.sender_count c = sum_over ChannelPool.senders s.2 + ChannelPool.transit_s s.1 ∧
  ChannelInner.receiver_count c = sum_over ChannelPool.receivers s.2 + ChannelPool.transit_r s.1.
Proof.
  intros Hcap Hr Hsl Hrl.
  apply ChannelPool.chan_reachable_inv in Hr as [_ _ Hs Hrc _ Hthr Hds Hdr _ Hcl Hcs Hcr _]; [|done].
  rewrite Hsl in Hds. rewrite Hrl in Hdr.
  destruct (ChannelPool.sums_rest [] s.2) as (_ & _ & ? & ? & _); [constructor|done|]. simpl in *.
  split_and!; [|done|done]. split; [done|]. intros [Hz|Hz]; [destruct (Hcs Hz)|destruct (Hcr Hz)]; done || lia.
Qed.

Lemma channel_closed_iff_witness :
  ChannelInner.closed (ChannelPool.chan chan_race.1) = true ↔
  ChannelInner.sender_count (ChannelPool.chan chan_race.1) = 0 ∨
  ChannelInner.receiver_count (ChannelPool.chan chan_race.1) = 0.
Proof. exact (proj1 (channel_closed_iff 1 chan_race ltac:(lia) chan_race_reachable eq_refl eq_refl)). Defined.

(** When [recv] returns [Err(ChannelClosed)] the decision is final: no
    sender handle exists any more, and however the run goes on no message is
    ever pushed again. *)
Theorem recv_closed_is_final {T} cap (s : ChannelPool.shared T * list (ChannelPool.thread T)) l :
  0 ≤ cap → reachable ChannelPool.step (ChannelPool.init cap) s →
  l ∈ s.2 → ChannelPool.doing l = ChannelPool.RecvClosed →
  ChannelInner.sender_count (ChannelPool.chan s.1) = 0 ∧
  ∀ s', rtc ChannelPool.step s s' →
    ChannelPool.sent s'.1 = ChannelPool.sent s.1 ∧
    ChannelInner.sender_count (ChannelPool.chan s'.1) = 0.
Proof.
  intros Hcap Hr Hl Hd. apply ChannelPool.chan_reachable_inv in Hr as Hinv; [|done].
  assert (H0 := ChannelPool.inv_saw _ Hinv (ChannelPool.saw_closed_pos s l Hl Hd)).
  split; [done|]. intros s' Hs'. by eapply ChannelPool.no_sender_rtc.
Qed.

Lemma recv_closed_is_final_witness :
  ChannelInner.sender_count (ChannelPool.chan chan_race.1) = 0.
Proof.
  exact (proj1 (recv_closed_is_final 1 chan_race (ChannelPool.Thread 0 1 ChannelPool.RecvClosed)
    ltac:(lia) chan_race_reachable ltac:(set_solver) eq_refl)).
Defined.

(** The documentation of [recv] promises [Err(ChannelClosed)] only when
    all senders are dropped and the buffer is empty.  It can be returned with
    a message still buffered: the emptiness check and the sender check are
    two critical sections, and a send followed by the drop of the last sender
    fits between them. *)
Theorem recv_closed_with_message :
  ∃ s l, reachable (@ChannelPool.step Z) (ChannelPool.init 1) s ∧ l ∈ s.2 ∧
         ChannelPool.doing l = ChannelPool.RecvClosed ∧
         ChannelInner.buffer (ChannelPool.chan s.1) = [42].
Proof.
  exists chan_race, (ChannelPool.Thread 0 1 ChannelPool.RecvClosed).
  split_and!; [exact chan_race_reachable|set_solver|done|done].
Qed.

(** [send] and [recv] of a caller running alone.  [send] fails at once on
    a closed channel and otherwise succeeds at once when there is room,
    appending the value; on a full open channel it retries for ever.  [recv]
    returns the oldest message at once, fails at once when the buffer is empty
    and no sender is left, and otherwise retries for ever.  In particular a
    channel of capacity 0 never transfers anything. *)
Theorem send_recv_alone {T} (c : ChannelInner.t T) v :
  (ChannelInner.closed c = true →
     ∀ n, ChannelInner.send (S n) c v = Some (Err SchedError.ChannelClosed, c)) ∧
  (ChannelInner.closed c = false → ChannelInner.len c < ChannelInner.capacity c →
     ∀ n, ∃ c', ChannelInner.send (S n) c v = Some (Ok (), c') ∧
                ChannelInner.buffer c' = ChannelInner.buffer c ++ [v]) ∧
  (ChannelInner.closed c = false → ChannelInner.capacity c ≤ ChannelInner.len c →
     ∀ n, ChannelInner.send n c v = None) ∧
  (∀ w b, ChannelInner.buffer c = w :: b →
     ∀ n, ∃ c', ChannelInner.recv (S n) c = Some (Ok w, c') ∧ ChannelInner.buffer c' = b) ∧
  (ChannelInner.buffer c = [] → ChannelInner.sender_count c = 0 →
     ∀ n, ChannelInner.recv (S n) c = Some (Err SchedError.ChannelClosed, c)) ∧
  (ChannelInner.buffer c = [] → ChannelInner.sender_count c ≠ 0 →
     ∀ n, ChannelInner.recv n c = None).
Proof.
  split_and!.
  - intros Hc n. simpl. by rewrite Hc.
  - intros Hc Hlt n. simpl. rewrite Hc. unfold ChannelInner.try_send_inner.
    destruct (Z.leb_spec (ChannelInner.capacity c) (ChannelInner.len c)); [lia|].
    eexists. split; [done|]. by destruct (ChannelPool.wake_receiver_same (ChannelInner.set_buffer c (push_back (ChannelInner.buffer c) v))) as [w ->].
  - intros Hc Hle n.
    assert (Hfull : ChannelInner.try_send_inner c v = (Err (SchedError.TrySend v), c)).
    { unfold ChannelInner.try_send_inner. case_match; [done|lia]. }
    induction n as [|n IH]; [done|]. simpl. rewrite Hc. by repeat (rewrite Hfull; simpl).
  - intros w b Hb n. simpl. unfold ChannelInner.try_recv_inner. rewrite Hb. simpl.
    eexists. split; [done|]. by destruct (ChannelPool.wake_sender_same (ChannelInner.set_buffer c b)) as [x ->].
  - intros Hb H0 n. simpl. unfold ChannelInner.try_recv_inner. rewrite Hb. simpl. by rewrite H0.
  - intros Hb H0 n. induction n as [|n IH]; [done|]. simpl.
    unfold ChannelInner.try_recv_inner. rewrite Hb. simpl.
    destruct (Z.eqb_spec (ChannelInner.sender_count c) 0); done.
Qed.
