(* ===== verification/Sync.v ===== *)
(** * Locks

    Models [gvthread-core/src/spinlock.rs] and [mutex.rs].  Both locks guard a
    value; a critical section reads it through the guard and writes a new
    value back.  Each lock is a pool of threads that take atomic steps on the
    lock word, with the history of the updates made under the lock. *)

From S2P Require Import Prelude CoreTypes.

(** ** [SpinLock] *)
Module SpinLock.
Section SpinLock.
Context {T : Type}.

Record t : Type := mk { locked : bool; data : T }.

Definition new (value : T) : t := mk false value.

(** [compare_exchange(false, true)] on the lock word. *)
Definition cas_acquire (l : t) : bool * t :=
  if locked l then (false, l) else (true, mk true (data l)).

(** [try_lock]: [true] for [Some(guard)]. *)
Definition try_lock (l : t) : bool * t := cas_acquire l.

(** [Drop for SpinLockGuard]. *)
Definition unlock (l : t) : t := mk false (data l).

Definition is_locked (l : t) : bool := locked l.
Definition deref (l : t) : T := data l.
Definition deref_mut (l : t) (v : T) : t := mk (locked l) v.

(** The lock with the functions applied to the data so far, oldest first. *)
Record shared : Type := Shared { lock : t; log : list (T → T) }.

(** [Cas] is the top of the loop of [lock], [Spin] its inner wait loop,
    [TryCas] the single attempt of [try_lock]; [Held] owns the guard,
    [HeldRead v] has read [v] through it. *)
Inductive pc : Type :=
| Idle
| Cas
| Spin
| TryCas
| Held
| HeldRead (v : T).

Inductive tstep : shared → pc → shared → pc → Prop :=
| sl_call_lock sh : tstep sh Idle sh Cas
| sl_call_try_lock sh : tstep sh Idle sh TryCas
| sl_cas l l' g : cas_acquire l = (true, l') → tstep (Shared l g) Cas (Shared l' g) Held
| sl_cas_fail sh :
    (** the lock is taken, or the weak exchange failed spuriously *)
    tstep sh Cas sh Spin
| sl_spin sh : is_locked (lock sh) = true → tstep sh Spin sh Spin
| sl_spin_exit sh : is_locked (lock sh) = false → tstep sh Spin sh Cas
| sl_try l l' g : cas_acquire l = (true, l') → tstep (Shared l g) TryCas (Shared l' g) Held
| sl_try_fail sh : locked (lock sh) = true → tstep sh TryCas sh Idle
| sl_read sh : tstep sh Held sh (HeldRead (deref (lock sh)))
| sl_write l g v f : tstep (Shared l g) (HeldRead v) (Shared (deref_mut l (f v)) (g ++ [f])) Held
| sl_unlock l g : tstep (Shared l g) Held (Shared (unlock l) g) Idle.

Definition step := pool_step tstep.
Definition init (v0 : T) (s : shared * list pc) : Prop :=
  ∃ n, s = (Shared (new v0) [], replicate n Idle).

Definition holds (p : pc) : Z := match p with Held | HeldRead _ => 1 | _ => 0 end.

(** A value read under the lock is still current. *)
Definition pc_ok (l : t) (p : pc) : Prop := match p with HeldRead v => v = data l | _ => True end.

Definition run_log (v0 : T) (g : list (T → T)) : T := foldl (λ v f, f v) v0 g.

Record inv (v0 : T) (s : shared * list pc) : Prop := {
  inv_locked : sum_over holds s.2 = if locked (lock s.1) then 1 else 0;
  inv_data : data (lock s.1) = run_log v0 (log s.1);
  inv_pcs : Forall (pc_ok (lock s.1)) s.2
}.

Lemma holds_nonneg ls : 0 ≤ sum_over holds ls.
Proof. apply sum_over_nonneg. intros [] _; simpl; lia. Qed.

(** Threads that do not hold the lock are indifferent to the data. *)
Lemma pcs_free l l' ls : sum_over holds ls = 0 → Forall (pc_ok l) ls → Forall (pc_ok l') ls.
Proof.
  intros Hsum. induction 1 as [|p ls Hp _ IH]; [constructor|]. simpl in Hsum.
  pose proof (holds_nonneg ls). constructor; [destruct p; simpl in *; done || lia|].
  apply IH. destruct p; simpl in Hsum; lia.
Qed.

Lemma spin_inv_init v0 s : init v0 s → inv v0 s.
Proof.
  intros [n ->]. constructor; simpl; [|done|by apply Forall_replicate].
  apply sum_over_zero. by intros l [-> _]%elem_of_replicate.
Qed.

Lemma spin_inv_step v0 s s' : inv v0 s → step s s' → inv v0 s'.
Proof.
  intros [Hl Hd Hp] Hstep. destruct Hstep as [sh p sh' p' l1 l2 Hstep]. pool_simpl.
  destruct Hp as (H1 & Hp & H2). pose proof (holds_nonneg (l1 ++ l2)).
  assert (Hfree : ∀ l', sum_over holds (l1 ++ l2) = 0 → Forall (pc_ok l') l1 ∧ Forall (pc_ok l') l2).
  { intros l' H0. apply Forall_app. apply (pcs_free (lock sh)); [done|]. by apply Forall_app. }
  destruct Hstep as [| |l l' g Hcas| | | |l l' g Hcas| | |l g v f|l g]; constructor; pool_simpl; try done.
  all: try (unfold cas_acquire in Hcas; destruct (locked l) eqn:Hlk; simplify_eq/=).
  all: try lia; try (destruct (locked l); lia); try done.
  all: try (edestruct Hfree as [??]; [destruct (locked l); lia|]; done).
  all: try (edestruct Hfree as [??]; [lia|]; done).
  unfold run_log in *. rewrite foldl_app, <- Hd. simpl. by rewrite Hp.
Qed.

Lemma spin_reachable_inv v0 s : reachable step (init v0) s → inv v0 s.
Proof. apply reachable_invariant; eauto using spin_inv_init, spin_inv_step. Qed.
End SpinLock.
Arguments t : clear implicits.
Arguments shared : clear implicits.
Arguments pc : clear implicits.
End SpinLock.

(** ** [SchedMutex] *)
Module SchedMutex.
Section SchedMutex.
Context {T : Type}.

Record t : Type := mk { locked : bool; data : T; waiters : list Z }.

Definition new (value : T) : t := mk false value [].

Definition cas_acquire (m : t) : bool * t :=
  if locked m then (false, m) else (true, mk true (data m) (waiters m)).

Definition try_lock (m : t) : bool * t := cas_acquire m.
Definition is_locked (m : t) : bool := locked m.
Definition into_inner (m : t) : T := data m.

(** [unlock]: a popped waiter is not woken (a TODO of the source) and the
    lock word stays set for it; without a waiter the word is cleared. *)
Definition pop_waiter (m : t) : option Z * t :=
  match pop_front (waiters m) with
  | Some (w, ws) => (Some w, mk (locked m) (data m) ws)
  | None => (None, m)
  end.
Definition store_unlocked (m : t) : t := mk false (data m) (waiters m).
Definition unlock (m : t) : t :=
  match pop_waiter m with
  | (Some _, m') => m'
  | (None, m') => store_unlocked m'
  end.

Definition deref (m : t) : T := data m.
Definition deref_mut (m : t) (v : T) : t := mk (locked m) v (waiters m).

Record shared : Type := Shared { mutex : t; log : list (T → T) }.

(** [FastCas] is the first attempt of [lock], [SlowCas] the loop of
    [lock_slow], [Unlocking w] has popped the waiter queue. *)
Inductive pc : Type :=
| Idle
| FastCas
| SlowCas
| TryCas
| Held
| HeldRead (v : T)
| Unlocking (w : option Z).

Inductive tstep : shared → pc → shared → pc → Prop :=
| mx_call_lock sh : tstep sh Idle sh FastCas
| mx_call_try_lock sh : tstep sh Idle sh TryCas
| mx_cas m m' g p :
    p ∈ [FastCas; SlowCas; TryCas] → cas_acquire m = (true, m') →
    tstep (Shared m g) p (Shared m' g) Held
| mx_fast_fail sh : locked (mutex sh) = true → tstep sh FastCas sh SlowCas
| mx_slow_fail sh :
    (** taken, or a spurious failure of the weak exchange *)
    tstep sh SlowCas sh SlowCas
| mx_try_fail sh : locked (mutex sh) = true → tstep sh TryCas sh Idle
| mx_read sh : tstep sh Held sh (HeldRead (deref (mutex sh)))
| mx_write m g v f : tstep (Shared m g) (HeldRead v) (Shared (deref_mut m (f v)) (g ++ [f])) Held
| mx_pop_waiter m g w m' :
    pop_waiter m = (w, m') → tstep (Shared m g) Held (Shared m' g) (Unlocking w)
| mx_store m g : tstep (Shared m g) (Unlocking None) (Shared (store_unlocked m) g) Idle
| mx_handoff sh w : tstep sh (Unlocking (Some w)) sh Idle.

Definition step := pool_step tstep.
Definition init (v0 : T) (s : shared * list pc) : Prop :=
  ∃ n, s = (Shared (new v0) [], replicate n Idle).

(** The lock word is set on behalf of these threads. *)
Definition owns (p : pc) : Z := match p with Held | HeldRead _ | Unlocking _ => 1 | _ => 0 end.
Definition pc_ok (m : t) (p : pc) : Prop :=
  match p with HeldRead v => v = data m | Unlocking w => w = None | _ => True end.
Definition run_log (v0 : T) (g : list (T → T)) : T := foldl (λ v f, f v) v0 g.

Record inv (v0 : T) (s : shared * list pc) : Prop := {
  inv_locked : sum_over owns s.2 = if locked (mutex s.1) then 1 else 0;
  inv_waiters : waiters (mutex s.1) = [];
  inv_data : data (mutex s.1) = run_log v0 (log s.1);
  inv_pcs : Forall (pc_ok (mutex s.1)) s.2
}.

Lemma owns_nonneg ls : 0 ≤ sum_over owns ls.
Proof. apply sum_over_nonneg. intros [] _; simpl; lia. Qed.

Lemma mutex_pcs_free m m' ls : sum_over owns ls = 0 → Forall (pc_ok m) ls → Forall (pc_ok m') ls.
Proof.
  intros Hsum. induction 1 as [|p ls Hp _ IH]; [constructor|]. simpl in Hsum.
  pose proof (owns_nonneg ls). constructor; [destruct p; simpl in *; done || lia|].
  apply IH. destruct p; simpl in Hsum; lia.
Qed.

Lemma mutex_inv_init v0 s : init v0 s → inv v0 s.
Proof.
  intros [n ->]. constructor; simpl; [|done|done|by apply Forall_replicate].
  apply sum_over_zero. by intros l [-> _]%elem_of_replicate.
Qed.

Lemma mutex_inv_step v0 s s' : inv v0 s → step s s' → inv v0 s'.
Proof.
  intros [Hl Hw Hd Hp] Hstep. destruct Hstep as [sh p sh' p' l1 l2 Hstep]. pool_simpl.
  destruct Hp as (H1 & Hp & H2). pose proof (owns_nonneg (l1 ++ l2)).
  assert (Hfree : ∀ m', sum_over owns (l1 ++ l2) = 0 → Forall (pc_ok m') l1 ∧ Forall (pc_ok m') l2).
  { intros m' H0. apply Forall_app. apply (mutex_pcs_free (mutex sh)); [done|]. by apply Forall_app. }
  destruct Hstep as [| |m m' g p Hin Hcas| | | | |m g v f|m g w m' Hpop|m g|]; simpl in *.
  all: try (constructor; pool_simpl; done).
  - unfold cas_acquire in Hcas. destruct (locked m) eqn:Hlk; simplify_eq/=.
    assert (owns p = 0).
    { do 3 (apply elem_of_cons in Hin as [->|Hin]; [done|]). by apply elem_of_nil in Hin. }
    edestruct Hfree as [??]; [lia|]. constructor; pool_simpl; done || lia.
  - edestruct Hfree as [??]; [destruct (locked m); lia|].
    constructor; pool_simpl; try done. unfold run_log in *. rewrite foldl_app, <- Hd. simpl. by rewrite Hp.
  - unfold pop_waiter in Hpop. rewrite Hw in Hpop. simplify_eq/=. constructor; pool_simpl; done.
  - edestruct Hfree as [??]; [destruct (locked m); lia|].
    constructor; pool_simpl; try done. destruct (locked m); lia.
Qed.

Lemma mutex_reachable_inv v0 s : reachable step (init v0) s → inv v0 s.
Proof. apply reachable_invariant; eauto using mutex_inv_init, mutex_inv_step. Qed.
End SchedMutex.
Arguments t : clear implicits.
Arguments shared : clear implicits.
Arguments pc : clear implicits.
End SchedMutex.

(** ** Properties *)

(** The spin lock gives mutual exclusion and no lost updates.  In every
    interleaving at most one thread holds a guard, and exactly one when the
    lock word is set; the guarded value is the result of applying the updates
    made through guards one after the other, so no update is overwritten; and
    a thread at the compare-exchange can take the lock whenever no guard
    exists. *)
Theorem spinlock_mutual_exclusion {T} (v0 : T) s :
  reachable SpinLock.step (SpinLock.init v0) s →
  let l := SpinLock.lock s.1 in
  sum_over SpinLock.holds s.2 = (if SpinLock.locked l then 1 else 0) ∧
  SpinLock.data l = SpinLock.run_log v0 (SpinLock.log s.1) ∧
  (sum_over SpinLock.holds s.2 = 0 →
   ∃ sh', SpinLock.tstep s.1 SpinLock.Cas sh' SpinLock.Held).
Proof.
  intros Hr. destruct (SpinLock.spin_reachable_inv v0 s Hr) as [Hl Hd _].
  split_and!; [done|done|]. intros H0. destruct s as [[l g] ls]. simpl in *.
  destruct (SpinLock.locked l) eqn:Hlk; [lia|].
  eexists. apply SpinLock.sl_cas. unfold SpinLock.cas_acquire. by rewrite Hlk.
Qed.

(** Two threads; thread 0 has incremented the counter and still holds the guard. *)
Definition spin_demo : SpinLock.shared Z * list (SpinLock.pc Z) :=
  (SpinLock.Shared (SpinLock.mk true 1) [Z.succ], [SpinLock.Held; SpinLock.Spin]).

Lemma spin_demo_reachable : reachable SpinLock.step (SpinLock.init 0) spin_demo.
Proof.
  eexists. split; [by exists 2%nat|]. unfold spin_demo, SpinLock.step. simpl.
  pool_by 0%nat SpinLock.sl_call_lock. pool_by 0%nat SpinLock.sl_cas.
  pool_by 1%nat SpinLock.sl_call_lock. pool_by 0%nat SpinLock.sl_read.
  pool_by 1%nat SpinLock.sl_cas_fail. pool_by 0%nat (SpinLock.sl_write _ _ _ Z.succ).
  constructor.
Qed.

Lemma spinlock_mutual_exclusion_witness : SpinLock.data (SpinLock.lock spin_demo.1) = 1.
Proof. destruct (spinlock_mutual_exclusion 0 spin_demo spin_demo_reachable) as (_ & H & _). exact H. Defined.

(** C37: The GVThread mutex gives mutual exclusion and no lost updates, and is
    always released: at most one thread owns the lock word, the data is the
    result of the updates in order, the waiter queue is empty in every
    reachable state (nothing enqueues a waiter), so [unlock] never takes the
    hand-over branch that would leave the mutex locked with no owner. *)
Theorem mutex_mutual_exclusion {T} (v0 : T) s :
  reachable SchedMutex.step (SchedMutex.init v0) s →
  let m := SchedMutex.mutex s.1 in
  sum_over SchedMutex.owns s.2 = (if SchedMutex.locked m then 1 else 0) ∧
  SchedMutex.data m = SchedMutex.run_log v0 (SchedMutex.log s.1) ∧
  SchedMutex.waiters m = [] ∧
  SchedMutex.locked (SchedMutex.unlock m) = false ∧
  ∀ w, SchedMutex.Unlocking (Some w) ∉ s.2.
Proof.
  intros Hr. destruct (SchedMutex.mutex_reachable_inv v0 s Hr) as [Hl Hw Hd Hp].
  split_and!; try done.
  - unfold SchedMutex.unlock, SchedMutex.pop_waiter. by rewrite Hw.
  - intros w Hin. rewrite Forall_forall in Hp. by specialize (Hp _ Hin).
Qed.

(** Thread 0 has written under the mutex and is unlocking; thread 1 waits. *)
Definition mutex_demo : SchedMutex.shared Z * list (SchedMutex.pc Z) :=
  (SchedMutex.Shared (SchedMutex.mk true 5 []) [Z.add 5], [SchedMutex.Unlocking None; SchedMutex.SlowCas]).

Lemma mutex_demo_reachable : reachable SchedMutex.step (SchedMutex.init 0) mutex_demo.
Proof.
  eexists. split; [by exists 2%nat|]. unfold mutex_demo, SchedMutex.step. simpl.
  pool_by 0%nat SchedMutex.mx_call_lock. pool_by 0%nat SchedMutex.mx_cas.
  pool_by 1%nat SchedMutex.mx_call_lock. pool_by 1%nat SchedMutex.mx_fast_fail.
  pool_by 0%nat SchedMutex.mx_read. pool_by 0%nat (SchedMutex.mx_write _ _ _ (Z.add 5)).
  pool_by 0%nat SchedMutex.mx_pop_waiter. constructor.
Qed.

Lemma mutex_mutual_exclusion_witness : SchedMutex.data (SchedMutex.mutex mutex_demo.1) = 5.
Proof. destruct (mutex_mutual_exclusion 0 mutex_demo mutex_demo_reachable) as (_ & H & _). exact H. Defined.
