(* ===== verification/Cancel.v ===== *)
(** * Cancellation tokens and environment variables

    Models [gvthread-core/src/cancel.rs] and [env.rs].  A token is a reference
    to a heap cell ([Arc<OwnedCancellation>]), to the [cancelled] byte of a
    GVThread's metadata, or a dummy; the heap is a list of cells that only
    grows, since a cell lives as long as a token refers to it. *)

From S2P Require Import Prelude CoreTypes.

Module CancellationToken.
(** [CancellationInner]: [Owned] is an index in the heap, [Metadata] the
    address of the byte. *)
Inductive token : Type :=
| Owned (arc : nat)
| Metadata (ptr : Z)
| Dummy.

#[global] Instance token_eq_dec : EqDecision token.
Proof. solve_decision. Defined.

Record OwnedCancellation : Type := Cell { cancelled : bool; parent : option token }.

Record store : Type := Store { cells : list OwnedCancellation; bytes : gmap Z Z }.

Definition alloc (s : store) (c : OwnedCancellation) : token * store :=
  (Owned (length (cells s)), Store (cells s ++ [c]) (bytes s)).

Definition new (s : store) : token * store := alloc s (Cell false None).
Definition from_metadata (cancelled_addr : Z) : token := Metadata cancelled_addr.
Definition dummy : token := Dummy.
Definition child (s : store) (t : token) : token * store := alloc s (Cell false (Some t)).

(** The byte at an address; metadata pages are zero until written. *)
Definition load_byte (s : store) (p : Z) : Z := default 0 (bytes s !! p).

(** [is_cancelled] walks up the parents; [fuel] bounds the walk. *)
Fixpoint is_cancelled_upto (fuel : nat) (s : store) (t : token) : bool :=
  match t with
  | Owned l =>
      match fuel, cells s !! l with
      | S fuel', Some c =>
          if cancelled c then true
          else match parent c with
               | Some p => is_cancelled_upto fuel' s p
               | None => false
               end
      | _, _ => false
      end
  | Metadata p => negb (load_byte s p =? 0)
  | Dummy => false
  end.

Definition is_cancelled (s : store) (t : token) : bool :=
  is_cancelled_upto (S (length (cells s))) s t.

Definition set_flag (s : store) (t : token) (b : bool) : store :=
  match t with
  | Owned l =>
      match cells s !! l with
      | Some c => Store (<[l := Cell b (parent c)]> (cells s)) (bytes s)
      | None => s
      end
  | Metadata p => Store (cells s) (<[p := if b then 1 else 0]> (bytes s))
  | Dummy => s
  end.

Definition cancel (s : store) (t : token) : store := set_flag s t true.
Definition reset (s : store) (t : token) : store := set_flag s t false.

Definition check (s : store) (t : token) : SchedResult () :=
  if is_cancelled s t then Err SchedError.Cancelled else Ok ().
Definition check_and_yield (s : store) (t : token) : SchedResult () := check s t.

(** ** Specification: a token is cancelled when an ancestor's flag is set *)

Definition flagged (s : store) (t : token) : Prop :=
  match t with
  | Owned l => ∃ c, cells s !! l = Some c ∧ cancelled c = true
  | Metadata p => load_byte s p ≠ 0
  | Dummy => False
  end.

Definition parent_of (s : store) (t p : token) : Prop :=
  ∃ l c, t = Owned l ∧ cells s !! l = Some c ∧ parent c = Some p.

(** [ancestor s t a]: [a] is [t] or is reached from it through parents. *)
Definition ancestor (s : store) : token → token → Prop := rtc (parent_of s).

Definition valid (s : store) (t : token) : Prop :=
  match t with Owned l => (l < length (cells s))%nat | _ => True end.

(** A parent is older than its children. *)
Definition wf (s : store) : Prop :=
  ∀ l c p, cells s !! l = Some c → parent c = Some p →
    match p with Owned l' => (l' < l)%nat | _ => True end.

Lemma alloc_lookup s c l :
  cells (alloc s c).2 !! l = if decide (l = length (cells s)) then Some c else cells s !! l.
Proof.
  simpl. case_decide as E; [subst; by apply list_lookup_middle|].
  destruct (decide (l < length (cells s))%nat); [by apply lookup_app_l|].
  rewrite lookup_app_r by lia. rewrite (lookup_ge_None_2 (cells s)) by lia.
  apply lookup_ge_None_2. simpl. lia.
Qed.

Lemma wf_alloc s c :
  wf s → (∀ p, parent c = Some p → valid s p) → wf (alloc s c).2.
Proof.
  intros Hwf Hc l c' p Hl Hp. rewrite alloc_lookup in Hl. case_decide; [|by eapply Hwf].
  simplify_eq. specialize (Hc p Hp). by destruct p.
Qed.

Lemma wf_set_flag s t b : wf s → wf (set_flag s t b).
Proof.
  intros Hwf. destruct t as [l| |]; simpl; [|exact Hwf|done].
  destruct (cells s !! l) as [c|] eqn:Hc; [|done].
  intros l' c' p Hl' Hp. simpl in Hl'. destruct (decide (l = l')) as [<-|Hne].
  - rewrite list_lookup_insert_eq in Hl' by (by eapply lookup_lt_Some). simplify_eq/=. by eapply Hwf.
  - rewrite list_lookup_insert_ne in Hl' by done. by eapply Hwf.
Qed.

(** Enough fuel for a token is one more than its index. *)
Lemma is_cancelled_upto_spec s t fuel :
  wf s → match t with Owned l => (l < fuel)%nat | _ => True end →
  is_cancelled_upto fuel s t = true ↔ ∃ a, ancestor s t a ∧ flagged s a.
Proof.
  intros Hwf. revert t. induction fuel as [|fuel IH]; intros t Hfuel.
  all: destruct t as [l|p|]; simpl; [|split|split]; try lia.
  all: try (intros H; eexists; split; [apply rtc_refl|simpl; by apply negb_true_iff, Z.eqb_neq in H]).
  all: try (intros (a & Ha & Hf); inversion Ha as [|? ? ? (? & ? & ? & ?)]; simplify_eq/=; done || by apply negb_true_iff, Z.eqb_neq).
  all: try done.
  destruct (cells s !! l) as [c|] eqn:Hc.
  - destruct (cancelled c) eqn:Hcc.
    { split; [|done]. intros _. exists (Owned l). split; [apply rtc_refl|]. simpl. eauto. }
    destruct (parent c) as [p|] eqn:Hp.
    + rewrite IH by (specialize (Hwf l c p Hc Hp); destruct p; simpl in *; lia || done).
      split; intros (a & Ha & Hf); exists a; (split; [|done]).
      * eapply rtc_l; [|done]. exists l, c. done.
      * inversion Ha as [|? y ? (l' & c' & ? & ? & ?)]; simplify_eq/=; [|done].
        destruct Hf as (? & ? & ?). congruence.
    + split; [done|]. intros (a & Ha & Hf). inversion Ha as [|? y ? (l' & c' & ? & ? & ?)]; simplify_eq/=.
      destruct Hf as (? & ? & ?). congruence.
  - split; [done|]. intros (a & Ha & Hf). inversion Ha as [|? y ? (l' & c' & ? & ? & ?)]; simplify_eq/=.
    destruct Hf as (? & ? & ?). congruence.
Qed.

Lemma is_cancelled_spec s t :
  wf s → valid s t → is_cancelled s t = true ↔ ∃ a, ancestor s t a ∧ flagged s a.
Proof. intros Hwf Hv. apply is_cancelled_upto_spec; [done|]. destruct t; simpl in *; [lia|done|done]. Qed.

(** Setting a flag changes no parent link and only that token's flag. *)
Lemma parent_of_set_flag s t b x y : parent_of (set_flag s t b) x y ↔ parent_of s x y.
Proof.
  destruct t as [l| |]; simpl; [|done|done]. destruct (cells s !! l) as [c|] eqn:Hc; [|done].
  assert (Hlt := lookup_lt_Some _ _ _ Hc). unfold parent_of. simpl.
  split; intros (l' & c' & -> & Hl' & Hp); destruct (decide (l = l')) as [<-|Hne].
  - rewrite list_lookup_insert_eq in Hl' by done. simplify_eq/=. eauto.
  - rewrite list_lookup_insert_ne in Hl' by done. eauto.
  - simplify_eq. exists l, (Cell b (parent c)). by rewrite list_lookup_insert_eq.
  - exists l', c'. by rewrite list_lookup_insert_ne.
Qed.

Lemma ancestor_set_flag s t b x y : ancestor (set_flag s t b) x y ↔ ancestor s x y.
Proof.
  unfold ancestor. split; induction 1; try apply rtc_refl.
  all: eapply rtc_l; [by eapply parent_of_set_flag|done].
Qed.

Lemma flagged_set_flag s t b x :
  valid s t → t ≠ Dummy →
  flagged (set_flag s t b) x ↔ if decide (x = t) then b = true else flagged s x.
Proof.
  intros Hv Hd. destruct t as [l|p|]; [| |done]; simpl in *.
  - destruct (lookup_lt_is_Some_2 _ _ Hv) as [c Hc]. rewrite Hc.
    case_decide as E; [subst; simpl; rewrite list_lookup_insert_eq by done; naive_solver|].
    destruct x as [l'|p'|]; simpl; [|done|done].
    rewrite list_lookup_insert_ne by congruence. done.
  - case_decide as E; [subst; simpl; unfold load_byte; simpl; rewrite lookup_insert_eq; simpl; by destruct b|].
    destruct x as [l'|p'|]; simpl; [done| |done]. unfold load_byte. simpl.
    by rewrite lookup_insert_ne by congruence.
Qed.

(** Allocating a cell does not affect the tokens that exist. *)
Lemma is_cancelled_upto_alloc s c t fuel :
  wf s → valid s t → is_cancelled_upto fuel (alloc s c).2 t = is_cancelled_upto fuel s t.
Proof.
  intros Hwf. revert t. induction fuel as [|fuel IH]; intros [l|p|] Hv; try done.
  assert (Hl : cells (alloc s c).2 !! l = cells s !! l).
  { rewrite alloc_lookup. simpl in Hv. case_decide; [lia|done]. }
  cbn [is_cancelled_upto]. rewrite Hl. destruct (cells s !! l) as [c'|] eqn:Hc; [|done].
  destruct (cancelled c'); [done|]. destruct (parent c') as [p|] eqn:Hp; [|done].
  apply IH. specialize (Hwf l c' p Hc Hp). destruct p; simpl in *; [lia|done|done].
Qed.

Lemma is_cancelled_alloc s c t :
  wf s → valid s t → is_cancelled (alloc s c).2 t = is_cancelled s t.
Proof.
  intros Hwf Hv. unfold is_cancelled. rewrite is_cancelled_upto_alloc by done. apply eq_true_iff_eq.
  rewrite !is_cancelled_upto_spec; try done; destruct t; simpl in *; rewrite ?length_app; simpl; done || lia.
Qed.

Lemma is_cancelled_child s t :
  wf s → valid s t → is_cancelled (child s t).2 (child s t).1 = is_cancelled s t.
Proof.
  intros Hwf Hv. unfold child. set (c := Cell false (Some t)).
  assert (Hwf' : wf (alloc s c).2) by (apply wf_alloc; [done|by intros p [= <-]]).
  assert (Hlen : length (cells (alloc s c).2) = S (length (cells s))) by (simpl; rewrite length_app; simpl; lia).
  rewrite <- (is_cancelled_alloc s c t) by done. apply eq_true_iff_eq.
  assert (Hv1 : valid (alloc s c).2 (alloc s c).1) by (unfold valid; cbn [alloc fst]; lia).
  assert (Hv2 : valid (alloc s c).2 t) by (unfold valid in *; destruct t; lia || done).
  rewrite !is_cancelled_spec by done.
  assert (Hnew : cells (alloc s c).2 !! length (cells s) = Some c) by (by rewrite alloc_lookup, decide_True).
  split; intros (a & Ha & Hf); exists a; (split; [|done]).
  - inversion Ha as [|? y ? (l & c' & ? & ? & ?)]; simplify_eq/=; [|done].
    destruct Hf as (c0 & Hc0 & Hcc). simpl in *. rewrite Hnew in Hc0. by injection Hc0 as <-.
  - eapply rtc_l; [|done]. by exists (length (cells s)), c.
Qed.

Lemma valid_set_flag s t b t' : valid s t' → valid (set_flag s t b) t'.
Proof.
  destruct t' as [l'| |]; try done. simpl. destruct t as [l| |]; simpl; try done.
  case_match; [|done]. simpl. by rewrite length_insert.
Qed.
End CancellationToken.

(** ** [env.rs]

    [env] is the process environment; [parse] is the [FromStr] of the target
    type. *)
Module Env.
Section Env.
Context {T : Type} (parse : string → option T) (env : gmap string string).

Definition env_get (key : string) (default : T) : T :=
  match env !! key with
  | Some v => match parse v with Some x => x | None => default end
  | None => default
  end.
Definition env_get_opt (key : string) : option T :=
  match env !! key with Some v => parse v | None => None end.
End Env.

(** [char::to_lowercase] on ASCII. *)
Definition lower_ascii (a : Ascii.ascii) : Ascii.ascii :=
  let n := Ascii.nat_of_ascii a in
  if (65 <=? n)%nat && (n <=? 90)%nat then Ascii.ascii_of_nat (n + 32) else a.
Fixpoint to_lowercase (s : string) : string :=
  match s with
  | EmptyString => EmptyString
  | String a s' => String (lower_ascii a) (to_lowercase s')
  end.

Definition truthy (v : string) : bool :=
  bool_decide (to_lowercase v ∈ ["1"; "true"; "yes"; "on"]).
Definition env_get_bool (env : gmap string string) (key : string) (default : bool) : bool :=
  match env !! key with Some v => truthy v | None => default end.
Definition env_get_str (env : gmap string string) (key default : string) : string :=
  match env !! key with Some v => v | None => default end.
Definition env_is_set (env : gmap string string) (key : string) : bool := bool_decide (is_Some (env !! key)).
End Env.

(** ** Properties *)

(** Cancellation propagates to exactly the descendants.  After
    [cancel] on a token, another token reads as cancelled exactly when it did
    before or when the cancelled token is itself or one of its ancestors;
    parents and unrelated tokens are not affected. *)
Theorem cancel_reaches_descendants s t t' :
  CancellationToken.wf s → CancellationToken.valid s t → t ≠ CancellationToken.Dummy →
  CancellationToken.valid s t' →
  CancellationToken.is_cancelled (CancellationToken.cancel s t) t' = true ↔
  CancellationToken.is_cancelled s t' = true ∨ CancellationToken.ancestor s t' t.
Proof.
  intros Hwf Hv Hd Hv'. unfold CancellationToken.cancel.
  rewrite !CancellationToken.is_cancelled_spec; [|done|done|by apply CancellationToken.wf_set_flag|].
  - setoid_rewrite CancellationToken.ancestor_set_flag.
    setoid_rewrite CancellationToken.flagged_set_flag; [|done|done]. split.
    + intros (a & Ha & Hf). case_decide; [subst; by right|]. left. eauto.
    + intros [(a & Ha & Hf)|Ha]; [exists a|exists t]; (split; [done|]); by case_decide.
  - by apply CancellationToken.valid_set_flag.
Qed.

(** A root token, its child and grandchild, for the witnesses. *)
Definition cancel_demo : CancellationToken.store :=
  CancellationToken.Store
    [CancellationToken.Cell false None;
     CancellationToken.Cell false (Some (CancellationToken.Owned 0));
     CancellationToken.Cell false (Some (CancellationToken.Owned 1))] ∅.

Lemma cancel_demo_wf : CancellationToken.wf cancel_demo.
Proof. intros [|[|[|l]]] c p Hl Hp; simplify_eq/=; lia. Qed.

Lemma cancel_reaches_descendants_witness :
  CancellationToken.is_cancelled
    (CancellationToken.cancel cancel_demo (CancellationToken.Owned 0)) (CancellationToken.Owned 2) = true.
Proof.
  apply (cancel_reaches_descendants cancel_demo (CancellationToken.Owned 0) (CancellationToken.Owned 2)
    cancel_demo_wf); [simpl; lia|done|simpl; lia|].
  right. eapply rtc_l; [by eexists 2%nat, _|]. eapply rtc_l; [by eexists 1%nat, _|]. apply rtc_refl.
Defined.

(** A token created by [child] starts exactly as cancelled as its
    parent, and creating it changes no other token; [reset] clears a token
    only when no proper ancestor is cancelled. *)
Theorem child_and_reset s t t' :
  CancellationToken.wf s → CancellationToken.valid s t → CancellationToken.valid s t' →
  let '(c, s') := CancellationToken.child s t in
  CancellationToken.wf s' ∧
  CancellationToken.is_cancelled s' c = CancellationToken.is_cancelled s t ∧
  CancellationToken.is_cancelled s' t' = CancellationToken.is_cancelled s t' ∧
  (t ≠ CancellationToken.Dummy →
   CancellationToken.is_cancelled (CancellationToken.reset s t) t = true ↔
   ∃ a, a ≠ t ∧ CancellationToken.ancestor s t a ∧ CancellationToken.flagged s a).
Proof.
  intros Hwf Hv Hv'. simpl. change (CancellationToken.Store _ _)
    with (CancellationToken.alloc s (CancellationToken.Cell false (Some t))).2.
  split_and!.
  - apply CancellationToken.wf_alloc; [done|]. by intros p [= <-].
  - by apply CancellationToken.is_cancelled_child.
  - by apply CancellationToken.is_cancelled_alloc.
  - intros Hd. unfold CancellationToken.reset.
    rewrite CancellationToken.is_cancelled_spec
      by eauto using CancellationToken.wf_set_flag, CancellationToken.valid_set_flag.
    setoid_rewrite CancellationToken.ancestor_set_flag.
    setoid_rewrite CancellationToken.flagged_set_flag; [|done|done].
    split; intros (a & Ha); exists a; case_decide; naive_solver.
Qed.

Lemma child_and_reset_witness :
  CancellationToken.is_cancelled
    (CancellationToken.reset (CancellationToken.cancel cancel_demo (CancellationToken.Owned 2))
       (CancellationToken.Owned 2)) (CancellationToken.Owned 2) = true ↔
  ∃ a, a ≠ CancellationToken.Owned 2 ∧
       CancellationToken.ancestor (CancellationToken.cancel cancel_demo (CancellationToken.Owned 2))
         (CancellationToken.Owned 2) a ∧
       CancellationToken.flagged (CancellationToken.cancel cancel_demo (CancellationToken.Owned 2)) a.
Proof.
  apply (child_and_reset (CancellationToken.cancel cancel_demo (CancellationToken.Owned 2))
    (CancellationToken.Owned 2) (CancellationToken.Owned 0)); [|simpl; lia|simpl; lia|done].
  apply CancellationToken.wf_set_flag, cancel_demo_wf.
Defined.

(** [env_get_bool] on a variable that is set ignores the default: a value
    that is not one of the accepted words reads as [false] even when the
    default is [true].  The documentation says that everything else returns
    the default. *)
Theorem env_get_bool_set env key v default :
  env !! key = Some v → Env.truthy v = false → Env.env_get_bool env key default = false.
Proof. intros Hk Ht. unfold Env.env_get_bool. by rewrite Hk, Ht. Qed.

Lemma env_get_bool_set_witness :
  Env.env_get_bool {["GVT_DEBUG" := "enabled"]} "GVT_DEBUG" true = false.
Proof. apply (env_get_bool_set {["GVT_DEBUG" := "enabled"]} "GVT_DEBUG" "enabled" true); vm_compute; done. Defined.
