(* ===== verification/Kprint.v ===== *)
(** * Log output: [gvthread-core/src/kprint.rs]

    The global settings of the log (read from the environment on first use), the
    thread-local worker and GVThread ids, and the bytes and flushes the print
    functions send to the standard error stream.  Each print function holds the
    lock of the stream for its whole line, so its output is one event; write
    errors are ignored by the code and have no effect here. *)
From stdpp Require Import base gmap strings pretty list.
From S2P Require Import Prelude Cancel.
Local Open Scope Z_scope.
Local Open Scope rust_scope.

Module LogLevel.

Inductive t := Off | Error | Warn | Info | Debug | Trace.

#[global] Instance eq_dec : EqDecision t.
Proof. solve_decision. Defined.

(** [level as u8]. *)
Definition to_u8 (l : t) : Z :=
  match l with Off => 0 | Error => 1 | Warn => 2 | Info => 3 | Debug => 4 | Trace => 5 end.

Definition from_u8 (v : Z) : t :=
  match v with 0 => Off | 1 => Error | 2 => Warn | 3 => Info | 4 => Debug | _ => Trace end.

Definition prefix (l : t) : string :=
  match l with
  | Off => "" | Error => "[ERROR]" | Warn => "[WARN] " | Info => "[INFO] " | Debug => "[DEBUG]" | Trace => "[TRACE]"
  end.

Lemma from_to l : from_u8 (to_u8 l) = l.
Proof. by destruct l. Qed.

End LogLevel.

Module Kprint.

(** The statics. *)
Record t := mk {
  FLUSH_ENABLED : bool; TIME_ENABLED : bool; LOG_LEVEL : Z; INITIALIZED : bool; START_TIME : option Z
}.
Definition start : t := mk false false (LogLevel.to_u8 LogLevel.Info) false None.

(** The thread-locals [WORKER_ID] and [GVTHREAD_ID] of a thread. *)
Record local := mkLocal { WORKER_ID : option Z; GVTHREAD_ID : option Z }.
Definition set_worker_id (l : local) (id : Z) : local := mkLocal (Some id) (GVTHREAD_ID l).
Definition clear_worker_id (l : local) : local := mkLocal None (GVTHREAD_ID l).
Definition set_gvthread_id (l : local) (id : Z) : local := mkLocal (WORKER_ID l) (Some id).
Definition clear_gvthread_id (l : local) : local := mkLocal (WORKER_ID l) None.
Definition get_worker_id (l : local) : option Z := WORKER_ID l.
Definition get_gvthread_id (l : local) : option Z := GVTHREAD_ID l.

Definition set_log_level (s : t) (l : LogLevel.t) : t :=
  mk (FLUSH_ENABLED s) (TIME_ENABLED s) (LogLevel.to_u8 l) (INITIALIZED s) (START_TIME s).
Definition set_flush_enabled (s : t) (b : bool) : t :=
  mk b (TIME_ENABLED s) (LOG_LEVEL s) (INITIALIZED s) (START_TIME s).
Definition set_time_enabled (s : t) (b : bool) : t :=
  mk (FLUSH_ENABLED s) b (LOG_LEVEL s) (INITIALIZED s) (START_TIME s).

(** The [match] of [init] on [GVT_LOG_LEVEL]. *)
Definition parse_level (v : string) : LogLevel.t :=
  let v := Env.to_lowercase v in
  if bool_decide (v ∈ ["off"; "0"]) then LogLevel.Off
  else if bool_decide (v ∈ ["error"; "1"]) then LogLevel.Error
  else if bool_decide (v ∈ ["warn"; "2"]) then LogLevel.Warn
  else if bool_decide (v ∈ ["info"; "3"]) then LogLevel.Info
  else if bool_decide (v ∈ ["debug"; "4"]) then LogLevel.Debug
  else if bool_decide (v ∈ ["trace"; "5"]) then LogLevel.Trace
  else LogLevel.Info.

Section Print.
(** The environment, and the clock when the call is made. *)
Context (env : gmap string string) (now : Z).

Definition init (s : t) : t :=
  if INITIALIZED s then s
  else
    mk (Env.env_get_bool env "GVT_FLUSH_EPRINT" false) (Env.env_get_bool env "GVT_KPRINT_TIME" false)
       (match env !! "GVT_LOG_LEVEL" with Some v => LogLevel.to_u8 (parse_level v) | None => LOG_LEVEL s end)
       true (Some (default now (START_TIME s))).

Definition flush_enabled (s : t) : t * bool := let s := init s in (s, FLUSH_ENABLED s).
Definition time_enabled (s : t) : t * bool := let s := init s in (s, TIME_ENABLED s).
Definition log_level (s : t) : t * LogLevel.t := let s := init s in (s, LogLevel.from_u8 (LOG_LEVEL s)).

Definition level_enabled (s : t) (l : LogLevel.t) : t * bool :=
  let '(s, cur) := log_level s in (s, LogLevel.to_u8 l <=? LogLevel.to_u8 cur).

(** [elapsed_ns]: [Instant::elapsed] is 0 for an earlier clock. *)
Definition elapsed_ns (s : t) : t * Z :=
  let st := default now (START_TIME s) in
  (mk (FLUSH_ENABLED s) (TIME_ENABLED s) (LOG_LEVEL s) (INITIALIZED s) (Some st),
   wrap 64 (saturating_sub now st)).

Definition write_id (i : option Z) : string := match i with Some id => pretty id | None => "--" end.
Definition write_context (l : local) : string :=
  "[w" +:+ write_id (get_worker_id l) +:+ ":g" +:+ write_id (get_gvthread_id l) +:+ "] ".

Definition newline : string := String (Ascii.ascii_of_nat 10) "".

(** What a call sends to the stream: the bytes, and whether they are flushed. *)
Definition event : Type := string * bool.

Definition _kprint_impl (s : t) (args : string) : t * event :=
  let '(s, fl) := flush_enabled s in (s, (args, fl)).

Definition _kprintln_impl (s : t) (args : string) : t * event :=
  let '(s, fl) := flush_enabled s in (s, (args +:+ newline, fl)).

Definition _klog_impl (s : t) (l : local) (level : LogLevel.t) (args : string) : t * option event :=
  let '(s, en) := level_enabled s level in
  if negb en then (s, None)
  else
    let out := LogLevel.prefix level +:+ " " in
    let '(s, tm) := time_enabled s in
    let '(s, out) :=
      if tm then let '(s, ns) := elapsed_ns s in (s, out +:+ "[" +:+ pretty ns +:+ "] ") else (s, out) in
    let out := out +:+ write_context l +:+ args +:+ newline in
    let '(s, fl) := flush_enabled s in
    (s, Some (out, fl)).

(** The macros. *)
Definition kerror (s : t) (l : local) (args : string) := _klog_impl s l LogLevel.Error args.
Definition kwarn (s : t) (l : local) (args : string) := _klog_impl s l LogLevel.Warn args.
Definition kinfo (s : t) (l : local) (args : string) := _klog_impl s l LogLevel.Info args.
Definition kdebug (s : t) (l : local) (args : string) := _klog_impl s l LogLevel.Debug args.
Definition ktrace (s : t) (l : local) (args : string) := _klog_impl s l LogLevel.Trace args.

End Print.

End Kprint.

Lemma append_assoc (a b c : string) : (a +:+ b) +:+ c = a +:+ (b +:+ c).
Proof.
  induction a as [|x a IH]; [done|].
  change (String x ((a +:+ b) +:+ c) = String x (a +:+ (b +:+ c))). by rewrite IH.
Qed.

Section Lemmas.
Context (env : gmap string string) (now : Z).

Lemma init_initialized s : Kprint.INITIALIZED (Kprint.init env now s) = true.
Proof. unfold Kprint.init. by destruct (Kprint.INITIALIZED s) eqn:E. Qed.

Lemma init_idempotent now' s : Kprint.init env now' (Kprint.init env now s) = Kprint.init env now s.
Proof. unfold Kprint.init at 1. by rewrite init_initialized. Qed.

Lemma init_start s : Kprint.INITIALIZED s = false ∨ is_Some (Kprint.START_TIME s) →
  is_Some (Kprint.START_TIME (Kprint.init env now s)).
Proof. unfold Kprint.init. destruct (Kprint.INITIALIZED s); simpl; [|by eauto]. by intros [|]. Qed.

End Lemmas.

(** The line a log call writes: nothing when the level is above the current one,
    and otherwise the padded level, the time since the start when the time is
    enabled, the worker and the GVThread, the message and a newline, in one event
    that is flushed when flushing is enabled.  The first call reads the settings
    from the environment; the settings a call leaves are those of the first. *)
Theorem klog_line env now s l level args st :
  Kprint.START_TIME (Kprint.init env now s) = Some st →
  let s' := Kprint.init env now s in
  Kprint._klog_impl env now s l level args =
  (s',
   if LogLevel.to_u8 level <=? LogLevel.to_u8 (LogLevel.from_u8 (Kprint.LOG_LEVEL s'))
   then Some (LogLevel.prefix level +:+ " " +:+
          (if Kprint.TIME_ENABLED s' then "[" +:+ pretty (wrap 64 (saturating_sub now st)) +:+ "] " else "") +:+
          Kprint.write_context l +:+ args +:+ Kprint.newline, Kprint.FLUSH_ENABLED s')
   else None).
Proof.
  intros Hst s'. unfold Kprint._klog_impl, Kprint.level_enabled, Kprint.log_level, Kprint.time_enabled,
    Kprint.flush_enabled. fold s' in Hst |- *. cbv zeta.
  assert (Hs : Kprint.init env now s' = s') by apply init_idempotent. clearbody s'.
  destruct (LogLevel.to_u8 level <=? _); cbn [negb]; [|done]. rewrite Hs.
  destruct s' as [fl tm lv ini ?]. simpl in Hst. subst. unfold Kprint.elapsed_ns.
  cbn [Kprint.TIME_ENABLED Kprint.FLUSH_ENABLED Kprint.LOG_LEVEL Kprint.INITIALIZED Kprint.START_TIME default id].
  destruct tm; cbv beta iota; rewrite ?Hs; by rewrite !append_assoc.
Qed.

Lemma klog_line_witness :
  Kprint._klog_impl {["GVT_KPRINT_TIME" := "1"]} 100 Kprint.start (Kprint.mkLocal (Some 2) None) LogLevel.Warn "idle" =
  (Kprint.mk false true 3 true (Some 100), Some ("[WARN]  [0] [w2:g--] idle" +:+ Kprint.newline, false)).
Proof.
  rewrite (klog_line {["GVT_KPRINT_TIME" := "1"]} 100 Kprint.start (Kprint.mkLocal (Some 2) None) LogLevel.Warn
    "idle" 100); by vm_compute.
Defined.

(** What a program sets before the first log call is not kept: the first call
    overwrites the flush and the time setting with those of the environment (off
    without the variables), and the level when [GVT_LOG_LEVEL] is set. *)
Theorem early_settings_lost env now b v :
  env !! "GVT_FLUSH_EPRINT" = None → env !! "GVT_KPRINT_TIME" = None → env !! "GVT_LOG_LEVEL" = Some v →
  (Kprint.flush_enabled env now (Kprint.set_flush_enabled Kprint.start b)).2 = false ∧
  (Kprint.time_enabled env now (Kprint.set_time_enabled Kprint.start b)).2 = false ∧
  (∀ l, (Kprint.log_level env now (Kprint.set_log_level Kprint.start l)).2 = Kprint.parse_level v).
Proof.
  intros Hf Ht Hl. unfold Kprint.flush_enabled, Kprint.time_enabled, Kprint.log_level, Kprint.init,
    Env.env_get_bool. cbn. rewrite Hf, Ht, Hl. split_and!; [done..|]. intros l. apply LogLevel.from_to.
Qed.

Lemma early_settings_lost_witness :
  (Kprint.flush_enabled {["GVT_LOG_LEVEL" := "debug"]} 0 (Kprint.set_flush_enabled Kprint.start true)).2 = false ∧
  (Kprint.time_enabled {["GVT_LOG_LEVEL" := "debug"]} 0 (Kprint.set_time_enabled Kprint.start true)).2 = false ∧
  (∀ l, (Kprint.log_level {["GVT_LOG_LEVEL" := "debug"]} 0 (Kprint.set_log_level Kprint.start l)).2 =
     Kprint.parse_level "debug").
Proof. apply early_settings_lost; by vm_compute. Defined.

(** What a program sets after the first use of the log is what later calls see. *)
Theorem late_settings_kept env now env' now' s b l :
  let s' := Kprint.init env now s in
  (Kprint.flush_enabled env' now' (Kprint.set_flush_enabled s' b)).2 = b ∧
  (Kprint.time_enabled env' now' (Kprint.set_time_enabled s' b)).2 = b ∧
  (Kprint.log_level env' now' (Kprint.set_log_level s' l)).2 = l.
Proof.
  cbv zeta. pose proof (init_initialized env now s) as Hi. destruct (Kprint.init env now s); simpl in Hi; subst.
  split_and!; [done..|]. apply LogLevel.from_to.
Qed.
