(* ===== verification/Memory.v ===== *)
(** * Slot memory

    Models [gvthread-runtime/src/memory/mod.rs] and [memory/unix.rs].  The
    kernel calls [mmap], [mprotect], [madvise] and [munmap] are the operations
    of the class [VirtualMemory]; its laws are what the manual pages promise
    for private anonymous mappings and page-aligned arguments.  [Module FlatVM]
    is a concrete address space that satisfies them.

    Addresses are [Z]; every size and base the code computes is a multiple of
    the 4096-byte page. *)

From S2P Require Import Prelude CoreTypes Metadata.

(** Protection of a mapped page: [PROT_NONE], or readable and writable. *)
Inductive prot : Type := PROT_NONE | PROT_READ_WRITE.
#[global] Instance prot_eq_dec : EqDecision prot.
Proof. solve_decision. Defined.

Definition PAGE : Z := 4096.

Definition in_range (base len a : Z) : Prop := base ≤ a < base + len.

(** The kernel interface.  [prot_at] is [None] where nothing is mapped.  A
    call reports failure with [None] (for [mmap]) or a non-zero value. *)
Class VirtualMemory (space : Type) : Type := {
  prot_at : space → Z → option prot;
  byte_at : space → Z → Z;
  mmap : space → Z → Z → option Z * space;
  mprotect : space → Z → Z → prot → Z * space;
  madvise_dontneed : space → Z → Z → Z * space;
  munmap : space → Z → Z → Z * space;
  store_byte : space → Z → Z → space;

  (** [mmap(hint, len, PROT_NONE, MAP_PRIVATE|MAP_ANONYMOUS|...)]: on success
      a page-aligned, previously unmapped, zero-filled range. *)
  mmap_base : ∀ s hint len b s', mmap s hint len = (Some b, s') →
    0 < b ∧ (PAGE | b) ∧ ∀ a, in_range b len a → prot_at s a = None;
  mmap_in : ∀ s hint len b s' a, mmap s hint len = (Some b, s') → in_range b len a →
    prot_at s' a = Some PROT_NONE ∧ byte_at s' a = 0;
  mmap_out : ∀ s hint len b s' a, mmap s hint len = (Some b, s') → ¬ in_range b len a →
    prot_at s' a = prot_at s a ∧ byte_at s' a = byte_at s a;
  mmap_failed : ∀ s hint len s', mmap s hint len = (None, s') → s' = s;

  (** [mprotect]: on success the whole range has the protection; on failure
      some pages of it may have it; contents and other pages are untouched. *)
  mprotect_in : ∀ s a0 len p s' a, mprotect s a0 len p = (0, s') →
    (PAGE | a0) → (PAGE | len) → in_range a0 len a → prot_at s' a = Some p;
  mprotect_out : ∀ s a0 len p r s' a, mprotect s a0 len p = (r, s') →
    (PAGE | a0) → (PAGE | len) → ¬ in_range a0 len a → prot_at s' a = prot_at s a;
  mprotect_fail : ∀ s a0 len p r s' a, mprotect s a0 len p = (r, s') →
    prot_at s' a = prot_at s a ∨ prot_at s' a = Some p;
  mprotect_bytes : ∀ s a0 len p r s' a, mprotect s a0 len p = (r, s') → byte_at s' a = byte_at s a;

  (** [madvise(MADV_DONTNEED)] on a private anonymous range: on success the
      pages read as zero; protection and other pages are untouched. *)
  madvise_zero : ∀ s a0 len s' a, madvise_dontneed s a0 len = (0, s') →
    (PAGE | a0) → (PAGE | len) → in_range a0 len a → byte_at s' a = 0;
  madvise_out : ∀ s a0 len r s' a, madvise_dontneed s a0 len = (r, s') →
    (PAGE | a0) → (PAGE | len) → ¬ in_range a0 len a → byte_at s' a = byte_at s a;
  madvise_prot : ∀ s a0 len r s' a, madvise_dontneed s a0 len = (r, s') → prot_at s' a = prot_at s a;

  (** [munmap]: on success the range is unmapped, the rest untouched. *)
  munmap_in : ∀ s a0 len s' a, munmap s a0 len = (0, s') → in_range a0 len a → prot_at s' a = None;
  munmap_out : ∀ s a0 len s' a, munmap s a0 len = (0, s') → ¬ in_range a0 len a →
    prot_at s' a = prot_at s a;
  munmap_failed : ∀ s a0 len r s', munmap s a0 len = (r, s') → r ≠ 0 → s' = s;

  (** An ordinary store. *)
  store_at : ∀ s a v, byte_at (store_byte s a v) a = v;
  store_other : ∀ s a v a', a' ≠ a → byte_at (store_byte s a v) a' = byte_at s a';
  store_prot : ∀ s a v a', prot_at (store_byte s a v) a' = prot_at s a'
}.

(** ** [MemoryRegion] *)
Module MemoryRegion.
Import Constants.

Definition REGION_START_HINT : Z := 0x700000000000.

Record t : Type := mk {
  base : Z;
  total_size : Z;
  max_slots : Z;
  initialized : bool
}.

Definition new : t := mk 0 0 0 false.
Definition is_initialized (r : t) : bool := initialized r.

Definition slot_base (r : t) (slot_id : Z) : Z := base r + slot_id * SLOT_SIZE.
Definition metadata_addr (r : t) (slot_id : Z) : Z := slot_base r slot_id.
Definition stack_top (r : t) (slot_id : Z) : Z := slot_base r slot_id + SLOT_SIZE - GUARD_SIZE.
Definition stack_bottom (r : t) (slot_id : Z) : Z := slot_base r slot_id + METADATA_SIZE.

Definition checked_mul (a b : Z) : option Z := if a * b <=? USIZE_MAX then Some (a * b) else None.

Section Ops.
Context {space : Type} `{VirtualMemory space}.

Definition init (r : t) (s : space) (max_slots : Z) : SchedResult () * t * space :=
  if initialized r then (Err (SchedError.from_memory SchedError.MemAlreadyInitialized), r, s)
  else
    match checked_mul max_slots SLOT_SIZE with
    | None => (Err (SchedError.from_memory SchedError.TooManySlots), r, s)
    | Some total_size =>
        match mmap s REGION_START_HINT total_size with
        | (None, s') => (Err (SchedError.from_memory SchedError.AllocationFailed), r, s')
        | (Some b, s') => (Ok (), mk b total_size max_slots true, s')
        end
    end.

Definition activate_slot (r : t) (s : space) (slot_id : Z) : SchedResult () * space :=
  if negb (is_initialized r) then (Err (SchedError.from_memory SchedError.AllocationFailed), s)
  else if max_slots r <=? slot_id then (Err (SchedError.from_memory SchedError.InvalidSlot), s)
  else
    let b := slot_base r slot_id in
    let '(ret, s1) := mprotect s b METADATA_SIZE PROT_READ_WRITE in
    if negb (ret =? 0) then (Err (SchedError.from_memory SchedError.ProtectionFailed), s1)
    else
      let stack_base := b + METADATA_SIZE in
      let stack_size := SLOT_SIZE - METADATA_SIZE - GUARD_SIZE in
      let '(ret, s2) := mprotect s1 stack_base stack_size PROT_READ_WRITE in
      if negb (ret =? 0) then (Err (SchedError.from_memory SchedError.ProtectionFailed), s2)
      else (Ok (), s2).

Definition deactivate_slot (r : t) (s : space) (slot_id : Z) : SchedResult () * space :=
  if negb (is_initialized r) then (Err (SchedError.from_memory SchedError.AllocationFailed), s)
  else if max_slots r <=? slot_id then (Err (SchedError.from_memory SchedError.InvalidSlot), s)
  else
    let usable_size := SLOT_SIZE - GUARD_SIZE in
    let '(ret, s1) := madvise_dontneed s (slot_base r slot_id) usable_size in
    if negb (ret =? 0) then (Err (SchedError.from_memory SchedError.AdviseFailed), s1)
    else (Ok (), s1).

Definition release (r : t) (s : space) : SchedResult () * t * space :=
  if negb (is_initialized r) then (Ok (), r, s)
  else if base r =? 0 then (Ok (), new, s)
  else
    let '(ret, s') := munmap s (base r) (total_size r) in
    if negb (ret =? 0) then (Err (SchedError.from_memory SchedError.AllocationFailed), r, s')
    else (Ok (), new, s').

(** A little-endian [u32] load, as the metadata accessors perform it. *)
Definition read_u32 (s : space) (a : Z) : Z :=
  byte_at s a + byte_at s (a + 1) * 2 ^ 8 + byte_at s (a + 2) * 2 ^ 16 + byte_at s (a + 3) * 2 ^ 24.

(** [meta.generation] of a slot, at offset 0x28 of its metadata. *)
Definition generation_of (r : t) (s : space) (slot_id : Z) : Z := read_u32 s (metadata_addr r slot_id + 0x28).
End Ops.
End MemoryRegion.

(** ** A concrete address space

    One mapping at a time, placed at the page of the hint; the other calls
    succeed when their range lies inside it. *)
Module FlatVM.
Record space : Type := Space {
  region : option (Z * Z);
  fprot : Z → prot;
  fbyte : Z → Z
}.

Definition empty : space := Space None (λ _, PROT_NONE) (λ _, 0).

Definition inb (b len a : Z) : bool := (b <=? a) && (a <? b + len).

Definition prot_at (s : space) (a : Z) : option prot :=
  match region s with
  | Some (b, len) => if inb b len a then Some (fprot s a) else None
  | None => None
  end.

Definition mmap (s : space) (hint len : Z) : option Z * space :=
  let b := hint / PAGE * PAGE in
  match region s with
  | None =>
      if (0 <? len) && (0 <? b)
      then (Some b, Space (Some (b, len)) (λ _, PROT_NONE)
                          (λ a, if inb b len a then 0 else fbyte s a))
      else (None, s)
  | Some _ => (None, s)
  end.

Definition covered (s : space) (a0 len : Z) : bool :=
  match region s with Some (b, n) => (b <=? a0) && (a0 + len <=? b + n) | None => false end.

Definition mprotect (s : space) (a0 len : Z) (p : prot) : Z * space :=
  if covered s a0 len
  then (0, Space (region s) (λ a, if inb a0 len a then p else fprot s a) (fbyte s))
  else (-1, s).
Definition madvise_dontneed (s : space) (a0 len : Z) : Z * space :=
  if covered s a0 len
  then (0, Space (region s) (fprot s) (λ a, if inb a0 len a then 0 else fbyte s a))
  else (-1, s).
Definition munmap (s : space) (a0 len : Z) : Z * space :=
  if bool_decide (region s = Some (a0, len))
  then (0, Space None (fprot s) (fbyte s))
  else (-1, s).
Definition store_byte (s : space) (a v : Z) : space :=
  Space (region s) (fprot s) (λ a', if a' =? a then v else fbyte s a').

Lemma inb_spec b len a : reflect (in_range b len a) (inb b len a).
Proof. unfold inb, in_range. apply iff_reflect. lia. Qed.

Ltac flat :=
  intros; unfold mmap, mprotect, madvise_dontneed, munmap, store_byte, prot_at, covered in *;
  repeat match goal with
  | H : context [inb ?b ?l ?a] |- _ => destruct (inb_spec b l a)
  | |- context [inb ?b ?l ?a] => destruct (inb_spec b l a)
  | H : context [match region ?s with _ => _ end] |- _ => destruct (region s) as [[??]|] eqn:?
  | |- context [match region ?s with _ => _ end] => destruct (region s) as [[??]|] eqn:?
  | H : context [if ?c then _ else _] |- _ => destruct c eqn:?
  | |- context [if ?c then _ else _] => destruct c eqn:?
  | _ => progress simplify_eq/=
  end; try done; auto; unfold in_range in *; try lia; eauto.

#[global] Instance flat_vm : VirtualMemory space.
Proof.
  refine (Build_VirtualMemory space prot_at fbyte mmap mprotect madvise_dontneed munmap store_byte
    _ _ _ _ _ _ _ _ _ _ _ _ _ _ _ _ _).
  all: flat.
  - split_and!; [lia|by eexists|done].
  - match goal with H : bool_decide _ = true |- _ => apply bool_decide_eq_true in H end.
    simplify_eq. done.
Defined.
End FlatVM.

(** ** Geometry of the slots *)
Section Geometry.
Import Constants MemoryRegion.
Implicit Types (r : MemoryRegion.t) (i j a : Z).

Definition in_metadata r i a : Prop := in_range (metadata_addr r i) METADATA_SIZE a.
Definition in_stack r i a : Prop := in_range (stack_bottom r i) STACK_SIZE a.
Definition in_guard r i a : Prop := in_range (stack_top r i) GUARD_SIZE a.
Definition in_slot r i a : Prop := in_range (slot_base r i) SLOT_SIZE a.
Definition in_region r a : Prop := in_range (base r) (total_size r) a.

(** Unfolds addresses and sizes to arithmetic. *)
Ltac geometry :=
  unfold in_metadata, in_stack, in_guard, in_slot, in_region, in_range, stack_bottom, stack_top,
    metadata_addr, slot_base, STACK_SIZE, SLOT_SIZE, METADATA_SIZE, GUARD_SIZE, PAGE in *.

Lemma slot_partition r i a : in_slot r i a ↔ in_metadata r i a ∨ in_stack r i a ∨ in_guard r i a.
Proof. geometry. lia. Qed.

Lemma slot_parts_disjoint r i a :
  ¬ (in_metadata r i a ∧ in_stack r i a) ∧ ¬ (in_stack r i a ∧ in_guard r i a) ∧
  ¬ (in_metadata r i a ∧ in_guard r i a).
Proof. geometry. lia. Qed.

Lemma slots_disjoint r i j a : i ≠ j → in_slot r i a → ¬ in_slot r j a.
Proof. geometry. lia. Qed.

Lemma slot_in_region r i a :
  total_size r = max_slots r * SLOT_SIZE → 0 ≤ i < max_slots r → in_slot r i a → in_region r a.
Proof. geometry. lia. Qed.

Lemma region_slot r a :
  total_size r = max_slots r * SLOT_SIZE → in_region r a →
  ∃ i, 0 ≤ i < max_slots r ∧ in_slot r i a.
Proof.
  intros Ht Ha. exists ((a - base r) / SLOT_SIZE). geometry.
  pose proof (Z.div_mod (a - base r) (16 * 1024)). pose proof (Z.mod_pos_bound (a - base r) (16 * 1024)). nia.
Qed.

Lemma slot_base_aligned r i : (PAGE | base r) → (PAGE | slot_base r i).
Proof. intros [k Hk]. exists (k + i * 4). geometry. lia. Qed.

Lemma stack_base_aligned r i : (PAGE | base r) → (PAGE | slot_base r i + METADATA_SIZE).
Proof. intros [k Hk]. exists (k + i * 4 + 1). geometry. lia. Qed.

Lemma sizes_aligned :
  (PAGE | METADATA_SIZE) ∧ (PAGE | SLOT_SIZE - METADATA_SIZE - GUARD_SIZE) ∧ (PAGE | SLOT_SIZE - GUARD_SIZE).
Proof. split_and!; [by exists 1|by exists 2|by exists 3]. Qed.
End Geometry.

(** ** Operations on the region *)
Section RegionFacts.
Import Constants MemoryRegion.
Context {space : Type} `{VirtualMemory space}.
Implicit Types (s : space) (r : MemoryRegion.t).

(** An initialised region as [init] leaves it. *)
Definition region_ok r : Prop :=
  initialized r = true → 0 < base r ∧ (PAGE | base r) ∧ 0 ≤ max_slots r ∧
    total_size r = max_slots r * SLOT_SIZE.

(** Guard pages are mapped without access; the other pages are mapped. *)
Definition protected r s : Prop :=
  initialized r = true → ∀ a, in_region r a →
    (∃ p, prot_at s a = Some p) ∧ ∀ i, 0 ≤ i < max_slots r → in_guard r i a → prot_at s a = Some PROT_NONE.

Inductive mstep : MemoryRegion.t * space → MemoryRegion.t * space → Prop :=
| ms_init r s n res r' s' :
    0 ≤ n → init r s n = (res, r', s') → mstep (r, s) (r', s')
| ms_activate r s i res s' :
    0 ≤ i → activate_slot r s i = (res, s') → mstep (r, s) (r, s')
| ms_deactivate r s i res s' :
    0 ≤ i → deactivate_slot r s i = (res, s') → mstep (r, s) (r, s')
| ms_release r s res r' s' :
    release r s = (res, r', s') → mstep (r, s) (r', s')
| ms_store r s a v :
    (** the program writes where it may *)
    prot_at s a = Some PROT_READ_WRITE → mstep (r, s) (r, store_byte s a v).

(** One [mprotect] inside the usable part of a slot. *)
Lemma mprotect_protected r s i b len ret s' :
  region_ok r → protected r s → 0 ≤ i < max_slots r →
  mprotect s b len PROT_READ_WRITE = (ret, s') → (PAGE | b) → (PAGE | len) →
  slot_base r i ≤ b → b + len ≤ stack_top r i → protected r s'.
Proof.
  intros Hr Hp Hi Hm Hb Hlen Hlo Hhi Hinit a Ha.
  destruct (Hr Hinit) as (_ & _ & _ & Ht). destruct (Hp Hinit a Ha) as [[p Hpa] Hg]. split.
  - destruct (mprotect_fail _ _ _ _ _ _ a Hm) as [->| ->]; eauto.
  - intros j Hj Hja. rewrite (mprotect_out _ _ _ _ _ _ a Hm Hb Hlen); [by eapply Hg|].
    intros Hin. assert (in_slot r i a).
    { unfold in_slot, in_range, stack_top in *. unfold SLOT_SIZE, GUARD_SIZE in *. lia. }
    assert (in_slot r j a) by (apply slot_partition; auto).
    destruct (decide (i = j)) as [->|Hne]; [|by eapply (slots_disjoint r i j)].
    unfold in_guard, in_range in *. lia.
Qed.

Lemma activate_protected r s i res s' :
  region_ok r → protected r s → 0 ≤ i → activate_slot r s i = (res, s') → protected r s'.
Proof.
  intros Hr Hp Hi Hact. unfold activate_slot in Hact.
  destruct (is_initialized r) eqn:Hinit; simplify_eq/=; [|done].
  destruct (Z.leb_spec (max_slots r) i); simplify_eq/=; [done|].
  destruct (Hr Hinit) as (_ & Hal & _ & _). destruct sizes_aligned as (Hs1 & Hs2 & _).
  destruct (mprotect s _ _ _) as [ret1 s1] eqn:Hm1.
  assert (protected r s1) as Hp1.
  { eapply (mprotect_protected r s i); eauto using slot_base_aligned; try done.
    unfold stack_top, SLOT_SIZE, GUARD_SIZE, METADATA_SIZE. lia. }
  destruct (negb (ret1 =? 0)); simplify_eq/=; [done|].
  destruct (mprotect s1 _ _ _) as [ret2 s2] eqn:Hm2.
  assert (protected r s2) as Hp2.
  { eapply (mprotect_protected r s1 i); eauto using stack_base_aligned; try done.
    all: unfold stack_top, SLOT_SIZE, GUARD_SIZE, METADATA_SIZE; lia. }
  by destruct (negb (ret2 =? 0)); simplify_eq/=.
Qed.

Lemma mem_inv_step x y :
  mstep x y → region_ok x.1 ∧ protected x.1 x.2 → region_ok y.1 ∧ protected y.1 y.2.
Proof.
  intros Hstep [Hr Hp]. destruct Hstep as [r s n res r' s' Hn Hin|r s i res s' Hi Hac|r s i res s' Hi Hde|r s res r' s' Hre|r s a v Hw]; simpl in *.
  - unfold init in Hin. destruct (initialized r) eqn:Hinit; simplify_eq; [done|].
    unfold checked_mul in Hin. destruct (Z.leb_spec (n * SLOT_SIZE) USIZE_MAX); simplify_eq; [|done].
    destruct (mmap s _ _) as [[b|] s2] eqn:Hmm; simplify_eq.
    + destruct (mmap_base _ _ _ _ _ Hmm) as (Hb & Hal & _). split; [done|].
      intros _ a Ha. destruct (mmap_in _ _ _ _ _ a Hmm Ha) as [Hpa _]. rewrite Hpa. eauto.
    + by apply mmap_failed in Hmm as ->.
  - split; [done|]. by eapply activate_protected.
  - split; [done|]. unfold deactivate_slot in Hde.
    destruct (negb _); simplify_eq; [done|]. destruct (_ <=? _); simplify_eq; [done|].
    destruct (madvise_dontneed s _ _) as [ret s2] eqn:Hm.
    assert (s' = s2) as -> by (by destruct (negb (ret =? 0)); simplify_eq).
    intros Hinit a Ha. rewrite (madvise_prot _ _ _ _ _ a Hm). by apply Hp.
  - unfold release in Hre. destruct (is_initialized r) eqn:Hinit; simplify_eq/=; [|done].
    destruct (base r =? 0); simplify_eq; [done|].
    destruct (munmap s _ _) as [ret s2] eqn:Hm.
    destruct (Z.eqb_spec ret 0); simplify_eq/=; [done|].
    by apply munmap_failed in Hm as ->.
  - split; [done|]. intros Hinit a' Ha'. rewrite store_prot. by apply Hp.
Qed.

Lemma activate_slot_Ok r s i s' :
  region_ok r → activate_slot r s i = (Ok (), s') →
  (∀ a, in_metadata r i a ∨ in_stack r i a → prot_at s' a = Some PROT_READ_WRITE) ∧
  (∀ a, ¬ (in_metadata r i a ∨ in_stack r i a) → prot_at s' a = prot_at s a) ∧
  (∀ a, byte_at s' a = byte_at s a).
Proof.
  intros Hok Hact. unfold activate_slot, is_initialized in Hact.
  destruct (initialized r) eqn:Hinit; simplify_eq/=.
  destruct (Z.leb_spec (max_slots r) i); simplify_eq/=.
  destruct (Hok Hinit) as (_ & Hal & _ & _). destruct sizes_aligned as (Hs1 & Hs2 & _).
  destruct (mprotect s _ _ _) as [ret1 s1] eqn:Hm1. destruct (Z.eqb_spec ret1 0); simplify_eq/=.
  destruct (mprotect s1 _ _ _) as [ret2 s2] eqn:Hm2. destruct (Z.eqb_spec ret2 0); simplify_eq/=.
  assert (Hb1 := slot_base_aligned r i Hal). assert (Hb2 := stack_base_aligned r i Hal).
  split_and!.
  - intros a [Ha|Ha].
    + rewrite (mprotect_out _ _ _ _ _ _ a Hm2) by (try done; unfold in_metadata, in_range, metadata_addr in *; lia).
      by eapply (mprotect_in _ _ _ _ _ a Hm1).
    + by eapply (mprotect_in _ _ _ _ _ a Hm2).
  - intros a Ha. rewrite (mprotect_out _ _ _ _ _ _ a Hm2), (mprotect_out _ _ _ _ _ _ a Hm1); try done;
      intros Hc; apply Ha; by (left + right).
  - intros a. by rewrite (mprotect_bytes _ _ _ _ _ _ a Hm2), (mprotect_bytes _ _ _ _ _ _ a Hm1).
Qed.
End RegionFacts.

(** ** Properties *)
Section MemoryProperties.
Import Constants MemoryRegion.
Context {space : Type} `{VirtualMemory space}.

(** C26: Slots are isolated.  In every state the region can reach by
    [init], [activate_slot], [deactivate_slot] and [release], successful or
    not, and by the program's own stores, every address of the region belongs
    to exactly one slot, each slot is exactly its metadata page, its stack and
    its guard page, and the guard page of every slot is mapped without access:
    nothing ever makes a guard accessible. *)
Theorem guard_pages_never_accessible (x : MemoryRegion.t * space) :
  reachable mstep (λ y, y.1 = new) x → initialized x.1 = true →
  let r := x.1 in
  (∀ a, in_region r a →
     ∃ i, 0 ≤ i < max_slots r ∧ in_slot r i a ∧ ∀ j, j ≠ i → ¬ in_slot r j a) ∧
  (∀ i a, in_slot r i a ↔ in_metadata r i a ∨ in_stack r i a ∨ in_guard r i a) ∧
  (∀ i a, 0 ≤ i < max_slots r → in_guard r i a → prot_at x.2 a = Some PROT_NONE).
Proof.
  intros Hr Hinit.
  assert (Hinv : region_ok x.1 ∧ protected x.1 x.2).
  { revert Hr. apply (reachable_invariant _ _ (λ y, region_ok y.1 ∧ protected y.1 y.2)).
    - intros [r s] Hr. simpl in Hr. subst. by split.
    - intros y z Hy Hyz. by eapply mem_inv_step. }
  destruct Hinv as [Hok Hp]. destruct (Hok Hinit) as (_ & _ & _ & Ht). split_and!.
  - intros a Ha. destruct (region_slot x.1 a Ht Ha) as (i & Hi & Hia).
    exists i. split_and!; try done; [apply Hi..|]. intros j Hj. by apply (slots_disjoint _ i).
  - intros i a. apply slot_partition.
  - intros i a Hi Ha. destruct (Hp Hinit a) as [_ Hg]; [|by eapply Hg].
    eapply slot_in_region; [done|exact Hi|]. apply slot_partition. auto.
Qed.

(** What [activate_slot] does on every branch.  Before [init] it fails
    with [AllocationFailed], for an id out of range with [InvalidSlot], both
    without touching memory; when it succeeds the metadata page and the stack
    of the slot are readable and writable, every address outside them keeps
    its protection, and no byte changes. *)
Theorem activate_slot_spec r (s : space) i :
  region_ok r → 0 ≤ i →
  (initialized r = false →
     activate_slot r s i = (Err (SchedError.MemoryErr SchedError.AllocationFailed), s)) ∧
  (initialized r = true → max_slots r ≤ i →
     activate_slot r s i = (Err (SchedError.MemoryErr SchedError.InvalidSlot), s)) ∧
  (∀ s', activate_slot r s i = (Ok (), s') →
     (∀ a, in_metadata r i a ∨ in_stack r i a → prot_at s' a = Some PROT_READ_WRITE) ∧
     (∀ a, ¬ (in_metadata r i a ∨ in_stack r i a) → prot_at s' a = prot_at s a) ∧
     (∀ a, byte_at s' a = byte_at s a)).
Proof.
  intros Hok Hi. unfold activate_slot, is_initialized. split_and!.
  - by intros ->.
  - intros -> Hge. simpl. destruct (Z.leb_spec (max_slots r) i); [done|lia].
  - intros s' Hact. by apply activate_slot_Ok.
Qed.

(** A stack that overflows is not stopped by the guard page.  The stack
    grows down from the guard towards the metadata page, so the first address
    below the stack is the last byte of the slot's own metadata page, which an
    activated slot may write; the guard page lies above the stack. *)
Theorem stack_overflow_hits_metadata r (s s' : space) i :
  region_ok r → 0 ≤ i → activate_slot r s i = (Ok (), s') →
  let a := stack_bottom r i - 1 in
  in_metadata r i a ∧ prot_at s' a = Some PROT_READ_WRITE ∧
  ∀ g, in_guard r i g → stack_top r i ≤ g.
Proof.
  intros Hok Hi Hact a. subst a.
  assert (Hin : in_metadata r i (stack_bottom r i - 1)).
  { unfold in_metadata, in_range, metadata_addr, stack_bottom, METADATA_SIZE. lia. }
  split_and!; [done| |].
  - apply (activate_slot_Ok r s i s' Hok Hact). by left.
  - intros g [Hg _]. exact Hg.
Qed.

(** Recycling a slot erases its generation.  [deactivate_slot] makes the
    whole metadata page read as zero, and re-activating the slot does not
    change it, so [init] always sets the generation of the next user to 1:
    the counter that is meant to tell successive users of a slot apart has
    the same value for all of them. *)
Theorem generation_restarts r (s s1 s2 : space) i m id parent p :
  region_ok r → 0 ≤ i →
  deactivate_slot r s i = (Ok (), s1) → activate_slot r s1 i = (Ok (), s2) →
  GVThreadMetadata.generation m = generation_of r s2 i →
  GVThreadMetadata.get_generation (GVThreadMetadata.init m id parent p) = 1.
Proof.
  intros Hok Hi Hde Hact Hgen. unfold deactivate_slot, is_initialized in Hde.
  destruct (initialized r) eqn:Hinit; simplify_eq/=.
  destruct (Z.leb_spec (max_slots r) i); simplify_eq/=.
  destruct (Hok Hinit) as (_ & Hal & _ & _). destruct sizes_aligned as (_ & _ & Hs3).
  destruct (madvise_dontneed s _ _) as [ret s'] eqn:Hm. destruct (Z.eqb_spec ret 0); simplify_eq/=.
  destruct (activate_slot_Ok r s1 i s2 Hok Hact) as (_ & _ & Hbytes).
  assert (Hz : ∀ k, 0 ≤ k < METADATA_SIZE → byte_at s2 (metadata_addr r i + k) = 0).
  { intros k Hk. rewrite Hbytes. eapply madvise_zero; eauto using slot_base_aligned.
    unfold in_range, metadata_addr, SLOT_SIZE, GUARD_SIZE, METADATA_SIZE in *. lia. }
  assert (Hg0 : generation_of r s2 i = 0).
  { unfold generation_of, read_u32. rewrite <- !Z.add_assoc.
    rewrite !Hz by (unfold METADATA_SIZE; lia). done. }
  unfold GVThreadMetadata.get_generation. simpl. by rewrite Hgen, Hg0.
Qed.
End MemoryProperties.

(** ** Witnesses, on the concrete address space *)
Definition flat_start : MemoryRegion.t * FlatVM.space := (MemoryRegion.new, FlatVM.empty).

(** Two slots, the first one activated. *)
Definition flat_region : MemoryRegion.t :=
  (MemoryRegion.init MemoryRegion.new FlatVM.empty 2).1.2.
Definition flat_mapped : FlatVM.space := (MemoryRegion.init MemoryRegion.new FlatVM.empty 2).2.
Definition flat_active : FlatVM.space := (MemoryRegion.activate_slot flat_region flat_mapped 0).2.

Lemma flat_region_ok : region_ok flat_region.
Proof. intros _. split_and!; try done. by exists (0x700000000000 / 4096). Qed.

Lemma flat_active_ok : MemoryRegion.activate_slot flat_region flat_mapped 0 = (Ok (), flat_active).
Proof. done. Qed.

Lemma guard_pages_never_accessible_witness :
  prot_at flat_active (MemoryRegion.stack_top flat_region 0) = Some PROT_NONE.
Proof.
  destruct (guard_pages_never_accessible (flat_region, flat_active)) as (_ & _ & Hg); [|done|].
  - exists flat_start. split; [done|].
    eapply rtc_l; [by apply (ms_init _ _ 2 (Ok ()) flat_region flat_mapped)|].
    eapply rtc_l; [by apply (ms_activate _ _ 0 (Ok ()) flat_active)|]. apply rtc_refl.
  - apply (Hg 0); simpl; [done|]. unfold in_guard, in_range, Constants.GUARD_SIZE. simpl. lia.
Defined.

Lemma activate_slot_spec_witness :
  MemoryRegion.activate_slot flat_region flat_mapped 2
  = (Err (SchedError.MemoryErr SchedError.InvalidSlot), flat_mapped).
Proof. apply (activate_slot_spec flat_region flat_mapped 2 flat_region_ok); [lia|done|done]. Defined.

Lemma stack_overflow_hits_metadata_witness :
  prot_at flat_active (MemoryRegion.stack_bottom flat_region 0 - 1) = Some PROT_READ_WRITE.
Proof.
  apply (stack_overflow_hits_metadata flat_region flat_mapped flat_active 0 flat_region_ok); [lia|done].
Defined.

Lemma generation_restarts_witness :
  GVThreadMetadata.get_generation
    (GVThreadMetadata.init GVThreadMetadata.zeroed 0 GVThreadId.NONE Priority.Normal) = 1.
Proof.
  eapply (generation_restarts flat_region flat_active
    (MemoryRegion.deactivate_slot flat_region flat_active 0).2
    (MemoryRegion.activate_slot flat_region
       (MemoryRegion.deactivate_slot flat_region flat_active 0).2 0).2 0 GVThreadMetadata.zeroed);
    [exact flat_region_ok|lia|done|done|done].
Defined.
