(* ===== verification/ReadyQueue.v ===== *)
(** * Ready queue

    Models [gvthread-runtime/src/ready_queue/mod.rs] (the trait, as the class
    [ReadyQueue] with the laws the scheduler relies on) and [simple.rs] (the
    per-worker and global queues with work stealing, which is an instance).
    Operations run one at a time; a condition variable is the number of
    notifications sent to it. *)

From S2P Require Import Prelude CoreTypes.

(** ** The trait

    [wf] is the invariant of an implementation for [workers] workers and
    [contents] the ids it holds.  [push] adds one id, [pop] takes one out or
    reports that it found none, and neither panics. *)
Class ReadyQueue (Q : Type) : Type := {
  push : Q → Z → Priority.t → option Z → outcome Q;
  pop : Q → Z → outcome (option (Z * Priority.t) * Q);
  len : Q → Z;
  workers : Q → Z;
  wf : Q → Prop;
  contents : Q → list Z;

  push_spec : ∀ q id p hint, wf q → match hint with Some w => 0 ≤ w | None => True end →
    ∃ q', push q id p hint = Ret q' ∧ wf q' ∧ workers q' = workers q ∧
          contents q' ≡ₚ id :: contents q;
  pop_spec : ∀ q w, wf q → 0 ≤ w →
    ∃ r q', pop q w = Ret (r, q') ∧ wf q' ∧ workers q' = workers q ∧
      match r with
      | Some (id, _) => contents q ≡ₚ id :: contents q'
      | None => contents q' = contents q
      end;
  len_spec : ∀ q, wf q → len q = Z.of_nat (length (contents q))
}.

Definition is_empty {Q} `{ReadyQueue Q} (q : Q) : bool := len q =? 0.

Definition LOCAL_CAPACITY : Z := 256.
Definition GLOBAL_CHECK_INTERVAL : Z := 61.

(** Remove up to [n] elements from the front, oldest first. *)
Fixpoint drain (n : nat) (q : list Z) : list Z * list Z :=
  match n with
  | O => ([], q)
  | S n' =>
      match pop_front q with
      | Some (id, q') => let '(out, rest) := drain n' q' in (id :: out, rest)
      | None => ([], q)
      end
  end.

(** ** [LocalQueue] *)
Module LocalQueue.
Record t : Type := mk { queue : list Z; len : Z }.

Definition new : t := mk [] 0.

(** The queue under its lock, with the length published. *)
Definition publish (q : list Z) : t := mk q (Z.of_nat (length q)).

Definition push (l : t) (id : Z) : bool * t :=
  if LOCAL_CAPACITY <=? Z.of_nat (length (queue l)) then (false, l)
  else (true, publish (push_back (queue l) id)).

Definition pop (l : t) : option Z * t :=
  if len l =? 0 then (None, l)
  else
    match pop_front (queue l) with
    | Some (id, q) => (Some id, publish q)
    | None => (None, publish (queue l))
    end.

Definition steal_half (l : t) : list Z * t :=
  if len l =? 0 then ([], l)
  else
    let n := (length (queue l) / 2)%nat in
    if (n =? 0)%nat then ([], l)
    else let '(stolen, q) := drain n (queue l) in (stolen, publish q).

Definition wf (l : t) : Prop :=
  len l = Z.of_nat (length (queue l)) ∧ Z.of_nat (length (queue l)) ≤ LOCAL_CAPACITY.
End LocalQueue.

(** ** [GlobalQueue] *)
Module GlobalQueue.
Record t : Type := mk { queue : list Z; cond : Z; len : Z; parked : Z }.

Definition new : t := mk [] 0 0 0.

Definition publish (g : t) (q : list Z) : t := mk q (cond g) (Z.of_nat (length q)) (parked g).
Definition notify_one (g : t) : t := mk (queue g) (cond g + 1) (len g) (parked g).

Definition push (g : t) (id : Z) : t :=
  let g := publish g (push_back (queue g) id) in
  if 0 <? parked g then notify_one g else g.

Definition pop (g : t) : option Z * t :=
  if len g =? 0 then (None, g)
  else
    match pop_front (queue g) with
    | Some (id, q) => (Some id, publish g q)
    | None => (None, publish g (queue g))
    end.

Definition pop_batch (g : t) (max : Z) : list Z * t :=
  if len g =? 0 then ([], g)
  else
    let n := Nat.min (length (queue g)) (Z.to_nat max) in
    let '(batch, q) := drain n (queue g) in (batch, publish g q).

(** [park] before and after the wait; the wait itself happens only when the
    queue is empty. *)
Definition park_enter (g : t) : t := mk (queue g) (cond g) (len g) (parked g + 1).
Definition park_waits (g : t) : bool := match queue g with [] => true | _ => false end.
Definition park_leave (g : t) : t := mk (queue g) (cond g) (len g) (parked g - 1).

Definition wake_one (g : t) : t := notify_one g.
Definition parked_count (g : t) : Z := parked g.

Definition wf (g : t) : Prop := len g = Z.of_nat (length (queue g)).
End GlobalQueue.

(** ** [SimpleQueue] *)
Module SimpleQueue.
Record t : Type := mk {
  local : list LocalQueue.t;
  global : GlobalQueue.t;
  num_workers : Z;
  counters : list Z;
  rng : list Z;
  initialized : bool
}.

Definition new : t := mk [] GlobalQueue.new 0 [] [] false.

Definition seed (i : Z) : Z := (i *[64] 2654435761) + 1.

Definition init (q : t) (n : Z) : t :=
  if initialized q then q
  else
    mk (replicate (Z.to_nat n) LocalQueue.new) (global q) n
       (replicate (Z.to_nat n) 0) (seed <$> seqZ 0 n) true.

Definition set_local (q : t) (l : list LocalQueue.t) : t :=
  mk l (global q) (num_workers q) (counters q) (rng q) (initialized q).
Definition set_global (q : t) (g : GlobalQueue.t) : t :=
  mk (local q) g (num_workers q) (counters q) (rng q) (initialized q).
Definition set_counters (q : t) (c : list Z) : t :=
  mk (local q) (global q) (num_workers q) c (rng q) (initialized q).
Definition set_rng (q : t) (r : list Z) : t :=
  mk (local q) (global q) (num_workers q) (counters q) r (initialized q).

(** One step of the linear congruential generator. *)
Definition lcg (x : Z) : Z := (x *[64] 1103515245) +[64] 12345.

Definition random_victim (q : t) (worker_id : Z) : outcome (Z * t) :=
  let num := num_workers q in
  if num <=? 1 then Ret (0, q)
  else
    old ← index (rng q) worker_id;
    let new := lcg old in
    r ← index_set (rng q) worker_id new;
    Ret (new mod num, set_rng q r).

(** [self.local[w].push(id)] and [self.local[w].pop()]. *)
Definition local_push (q : t) (w id : Z) : outcome (bool * t) :=
  l ← index (local q) w;
  let '(ok, l') := LocalQueue.push l id in
  ls ← index_set (local q) w l';
  Ret (ok, set_local q ls).
Definition local_pop (q : t) (w : Z) : outcome (option Z * t) :=
  l ← index (local q) w;
  let '(r, l') := LocalQueue.pop l in
  ls ← index_set (local q) w l';
  Ret (r, set_local q ls).
Definition local_steal (q : t) (w : Z) : outcome (list Z * t) :=
  l ← index (local q) w;
  let '(r, l') := LocalQueue.steal_half l in
  ls ← index_set (local q) w l';
  Ret (r, set_local q ls).

(** The loop of [try_steal] that keeps the rest of the loot: what does not
    fit in the local queue goes to the global one. *)
Fixpoint keep_stolen (q : t) (worker_id : Z) (ids : list Z) : outcome t :=
  match ids with
  | [] => Ret q
  | id :: ids' =>
      r ← local_push q worker_id id;
      let '(ok, q') := r in
      if ok : bool then keep_stolen q' worker_id ids'
      else keep_stolen (set_global q' (GlobalQueue.push (global q') id)) worker_id ids'
  end.

Fixpoint steal_attempts (n : nat) (q : t) (worker_id : Z) : outcome (option Z * t) :=
  match n with
  | O => Ret (None, q)
  | S n' =>
      v ← random_victim q worker_id;
      let '(victim, q1) := v in
      if victim =? worker_id then steal_attempts n' q1 worker_id
      else
        st ← local_steal q1 victim;
        let '(stolen, q2) := st in
        match stolen with
        | [] => steal_attempts n' q2 worker_id
        | first :: rest => q3 ← keep_stolen q2 worker_id rest; Ret (Some first, q3)
        end
  end.

Definition try_steal (q : t) (worker_id : Z) : outcome (option Z * t) :=
  steal_attempts (Z.to_nat (Z.min (num_workers q) 4)) q worker_id.

(** [if parked_count() > 0 { wake_one() }] *)
Definition wake_if_parked (q : t) : t :=
  if 0 <? GlobalQueue.parked_count (global q)
  then set_global q (GlobalQueue.wake_one (global q)) else q.

Definition push_global (q : t) (gid : Z) : t :=
  wake_if_parked (set_global q (GlobalQueue.push (global q) gid)).

Definition push (q : t) (id : Z) (priority : Priority.t) (hint_worker : option Z) : outcome t :=
  let gid := GVThreadId.as_u32 id in
  match hint_worker with
  | Some w =>
      if w <? num_workers q then
        r ← local_push q w gid;
        let '(ok, q') := r in
        if ok : bool then Ret (wake_if_parked q') else Ret (push_global q' gid)
      else Ret (push_global q gid)
  | None => Ret (push_global q gid)
  end.

(** The batch taken to the local queue; a failed push is ignored. *)
Fixpoint push_batch (q : t) (worker_id : Z) (ids : list Z) : outcome t :=
  match ids with
  | [] => Ret q
  | bid :: ids' =>
      r ← local_push q worker_id bid;
      push_batch r.2 worker_id ids'
  end.

Definition global_pop (q : t) : option Z * t :=
  let '(r, g) := GlobalQueue.pop (global q) in (r, set_global q g).

(** The three stages of [pop] after the periodic look at the global queue. *)
Definition pop_stages (q : t) (worker_id : Z) : outcome (option (Z * Priority.t) * t) :=
  r ← local_pop q worker_id;
  let '(found, q1) := r in
  match found with
  | Some id => Ret (Some (GVThreadId.new id, Priority.Normal), q1)
  | None =>
      let '(gfound, q2) := global_pop q1 in
      match gfound with
      | Some id =>
          let '(batch, g) := GlobalQueue.pop_batch (global q2) (LOCAL_CAPACITY / 2) in
          q3 ← push_batch (set_global q2 g) worker_id batch;
          Ret (Some (GVThreadId.new id, Priority.Normal), q3)
      | None =>
          s ← try_steal q2 worker_id;
          let '(sfound, q3) := s in
          match sfound with
          | Some id => Ret (Some (GVThreadId.new id, Priority.Normal), q3)
          | None => Ret (None, q3)
          end
      end
  end.

Definition pop (q : t) (worker_id : Z) : outcome (option (Z * Priority.t) * t) :=
  if num_workers q <=? worker_id then Ret (None, q)
  else
    c ← index (counters q) worker_id;
    cs ← index_set (counters q) worker_id (c +[64] 1);
    let q0 := set_counters q cs in
    let cnt := wrap 32 c in
    if cnt mod GLOBAL_CHECK_INTERVAL =? 0 then
      match global_pop q0 with
      | (Some id, q1) => Ret (Some (GVThreadId.new id, Priority.Normal), q1)
      | (None, q1) => pop_stages q1 worker_id
      end
    else pop_stages q0 worker_id.

Definition len (q : t) : Z :=
  foldl (λ total lq, total + LocalQueue.len lq) (GlobalQueue.len (global q)) (local q).
End SimpleQueue.

(** ** [SimpleQueue] holds a multiset of ids *)
Section SimpleFacts.
Import SimpleQueue.
Implicit Types (q : SimpleQueue.t) (w id : Z).

Definition simple_contents q : list Z :=
  collect LocalQueue.queue (local q) ++ GlobalQueue.queue (global q).

Record simple_wf q : Prop := {
  swf_num : 0 ≤ num_workers q;
  swf_local : Z.of_nat (length (local q)) = num_workers q;
  swf_counters : Z.of_nat (length (counters q)) = num_workers q;
  swf_rng : Z.of_nat (length (rng q)) = num_workers q;
  swf_locals : Forall LocalQueue.wf (local q);
  swf_global : GlobalQueue.wf (global q)
}.

Lemma drain_spec n l : drain n l = (take n l, drop n l).
Proof.
  revert l. induction n as [|n IH]; intros l; simpl; [by rewrite take_0, drop_0|].
  destruct l as [|x l]; simpl; [done|]. by rewrite IH.
Qed.

(** *** Local queues *)
Lemma local_push_full l id ok l' :
  LocalQueue.push l id = (ok, l') →
  if ok then l' = LocalQueue.publish (LocalQueue.queue l ++ [id]) ∧
             Z.of_nat (length (LocalQueue.queue l)) < LOCAL_CAPACITY
  else l' = l ∧ LOCAL_CAPACITY ≤ Z.of_nat (length (LocalQueue.queue l)).
Proof.
  unfold LocalQueue.push. destruct (Z.leb_spec LOCAL_CAPACITY (Z.of_nat (length (LocalQueue.queue l))));
    intros [= <- <-]; split; done || lia.
Qed.

Lemma local_wf_publish ids : Z.of_nat (length ids) ≤ LOCAL_CAPACITY → LocalQueue.wf (LocalQueue.publish ids).
Proof. by split. Qed.

Lemma local_pop_cases l :
  LocalQueue.wf l →
  match LocalQueue.queue l with
  | [] => LocalQueue.pop l = (None, l)
  | id :: ids => LocalQueue.pop l = (Some id, LocalQueue.publish ids)
  end.
Proof.
  intros [Hlen _]. unfold LocalQueue.pop. rewrite Hlen. by destruct (LocalQueue.queue l).
Qed.

Lemma local_steal_cases l :
  LocalQueue.wf l →
  let n := (length (LocalQueue.queue l) / 2)%nat in
  LocalQueue.steal_half l =
    if (n =? 0)%nat then ([], l)
    else (take n (LocalQueue.queue l), LocalQueue.publish (drop n (LocalQueue.queue l))).
Proof.
  intros [Hlen _] n. subst n. unfold LocalQueue.steal_half. rewrite Hlen, drain_spec.
  destruct (LocalQueue.queue l); done.
Qed.

(** *** Access to the local queue of a worker *)
Lemma simple_local q w :
  simple_wf q → 0 ≤ w < num_workers q →
  ∃ l, index (local q) w = Ret l ∧ local q !! Z.to_nat w = Some l ∧ LocalQueue.wf l.
Proof.
  intros Hwf Hw. destruct (index_is_Ret (local q) w) as (l & Hl & Hlook).
  { rewrite (swf_local _ Hwf). lia. }
  exists l. split_and!; [done|done|]. by eapply Forall_lookup_1; [apply Hwf|].
Qed.

Lemma set_local_wf q w l' :
  simple_wf q → 0 ≤ w < num_workers q → LocalQueue.wf l' →
  index_set (local q) w l' = Ret (<[Z.to_nat w := l']> (local q)) ∧
  simple_wf (set_local q (<[Z.to_nat w := l']> (local q))).
Proof.
  intros [H1 H2 H3 H4 H5 H6] Hw Hl'. split; [apply index_set_Ret; lia|].
  constructor; simpl; try done; [by rewrite length_insert|by apply Forall_insert].
Qed.

Lemma set_local_id q (w : nat) l : local q !! w = Some l → set_local q (<[w := l]> (local q)) = q.
Proof. intros Hl. rewrite list_insert_id by done. by destruct q. Qed.

(** Changing one local queue changes the contents by that queue. *)
Lemma set_local_contents q (w : nat) l :
  local q !! w = Some l →
  ∃ rest, simple_contents q ≡ₚ LocalQueue.queue l ++ rest ∧
    ∀ l', simple_contents (set_local q (<[w := l']> (local q))) ≡ₚ LocalQueue.queue l' ++ rest.
Proof.
  intros Hl. destruct (collect_insert LocalQueue.queue (local q) w l Hl) as (rest & H1 & H2).
  exists (rest ++ GlobalQueue.queue (global q)). unfold simple_contents. simpl. split.
  - by rewrite H1, (assoc (++)).
  - intros l'. by rewrite H2, (assoc (++)).
Qed.

Lemma local_push_spec q w id :
  simple_wf q → 0 ≤ w < num_workers q →
  ∃ l ok q', local q !! Z.to_nat w = Some l ∧ local_push q w id = Ret (ok, q') ∧ simple_wf q' ∧
    num_workers q' = num_workers q ∧ global q' = global q ∧
    if ok : bool
    then simple_contents q' ≡ₚ id :: simple_contents q ∧
         local q' !! Z.to_nat w = Some (LocalQueue.publish (LocalQueue.queue l ++ [id]))
    else q' = q ∧ LOCAL_CAPACITY ≤ Z.of_nat (length (LocalQueue.queue l)).
Proof.
  intros Hwf Hw. destruct (simple_local q w Hwf Hw) as (l & Hidx & Hl & Hlwf).
  unfold local_push. rewrite Hidx. simpl.
  destruct (LocalQueue.push l id) as [ok l'] eqn:Hp. apply local_push_full in Hp.
  assert (Hl'wf : LocalQueue.wf l').
  { destruct ok; destruct Hp as [-> Hp]; [|done]. apply local_wf_publish. rewrite length_app. simpl. lia. }
  destruct (set_local_wf q w l' Hwf Hw Hl'wf) as [-> Hwf']. simpl.
  eexists l, ok, _. split_and!; try done. destruct ok; destruct Hp as [-> Hp].
  - split; [|by apply list_lookup_insert_eq, (lookup_lt_Some _ _ _ Hl)].
    destruct (set_local_contents q (Z.to_nat w) l Hl) as (rest & H1 & H2).
    rewrite H1, H2. simpl. solve_Permutation.
  - split; [|done]. by apply set_local_id.
Qed.

Lemma local_pop_spec q w :
  simple_wf q → 0 ≤ w < num_workers q →
  ∃ r q', local_pop q w = Ret (r, q') ∧ simple_wf q' ∧ num_workers q' = num_workers q ∧
    match r with
    | Some id => simple_contents q ≡ₚ id :: simple_contents q'
    | None => q' = q ∧ local q !! Z.to_nat w = Some (LocalQueue.publish [])
    end.
Proof.
  intros Hwf Hw. destruct (simple_local q w Hwf Hw) as (l & Hidx & Hl & Hlwf).
  pose proof (local_pop_cases l Hlwf) as Hc.
  unfold local_pop. rewrite Hidx. simpl. destruct (LocalQueue.queue l) as [|id ids] eqn:Hq; rewrite Hc.
  - destruct (set_local_wf q w l Hwf Hw Hlwf) as [-> _]. simpl. rewrite set_local_id by done.
    exists None, q. split_and!; try done. rewrite Hl. destruct l as [ql n], Hlwf as [Hn _]. simpl in *. by subst.
  - destruct (set_local_wf q w (LocalQueue.publish ids) Hwf Hw) as [-> Hwf'].
    { destruct Hlwf as [_ Hcap]. rewrite Hq in Hcap. apply local_wf_publish. simpl in Hcap. lia. }
    simpl. eexists (Some id), _. split_and!; try done.
    destruct (set_local_contents q (Z.to_nat w) l Hl) as (rest & H1 & H2). by rewrite H1, H2, Hq.
Qed.

Lemma local_pop_empty q w :
  simple_wf q → 0 ≤ w < num_workers q → local q !! Z.to_nat w = Some (LocalQueue.publish []) →
  local_pop q w = Ret (None, q).
Proof.
  intros Hwf Hw Hl. destruct (simple_local q w Hwf Hw) as (l & Hidx & Hl' & Hlwf). simplify_eq.
  destruct (set_local_wf q w _ Hwf Hw Hlwf) as [Hset _].
  unfold local_pop. rewrite Hidx. simpl. rewrite Hset. simpl. by rewrite set_local_id.
Qed.

Lemma local_steal_spec q w :
  simple_wf q → 0 ≤ w < num_workers q →
  ∃ l r q', local q !! Z.to_nat w = Some l ∧ local_steal q w = Ret (r, q') ∧ simple_wf q' ∧
    num_workers q' = num_workers q ∧ global q' = global q ∧
    simple_contents q ≡ₚ r ++ simple_contents q' ∧
    (r = [] → q' = q ∧ (length (LocalQueue.queue l) ≤ 1)%nat).
Proof.
  intros Hwf Hw. destruct (simple_local q w Hwf Hw) as (l & Hidx & Hl & Hlwf).
  pose proof (local_steal_cases l Hlwf) as Hc. cbv zeta in Hc.
  unfold local_steal. rewrite Hidx. simpl. rewrite Hc.
  set (n := (length (LocalQueue.queue l) / 2)%nat) in *. destruct (Nat.eqb_spec n 0) as [Hn|Hn].
  - destruct (set_local_wf q w l Hwf Hw Hlwf) as [Hset _]. simpl. rewrite Hset. simpl. rewrite set_local_id by done.
    exists l, [], q. split_and!; try done. intros _. split; [done|].
    pose proof (Nat.div_mod (length (LocalQueue.queue l)) 2). pose proof (Nat.mod_upper_bound (length (LocalQueue.queue l)) 2). lia.
  - destruct (set_local_wf q w (LocalQueue.publish (drop n (LocalQueue.queue l))) Hwf Hw) as [Hset Hwf'].
    { destruct Hlwf as [_ Hcap]. apply local_wf_publish. rewrite length_drop. lia. }
    simpl. rewrite Hset. simpl.
    eexists l, _, _. split_and!; try done.
    + destruct (set_local_contents q (Z.to_nat w) l Hl) as (rest & H1 & H2).
      rewrite H1, H2. simpl. by rewrite (assoc (++)), take_drop.
    + intros Hnil. apply (f_equal length) in Hnil. rewrite length_take in Hnil. simpl in Hnil.
      assert (n ≤ length (LocalQueue.queue l))%nat by (apply Nat.Div0.div_le_upper_bound; lia). lia.
Qed.

(** *** The global queue *)
Lemma global_pop_cases q :
  simple_wf q →
  match GlobalQueue.queue (global q) with
  | [] => global_pop q = (None, q)
  | id :: ids => global_pop q = (Some id, set_global q (GlobalQueue.publish (global q) ids))
  end.
Proof.
  intros Hwf. unfold global_pop, GlobalQueue.pop. rewrite (swf_global _ Hwf).
  destruct (GlobalQueue.queue (global q)) eqn:Hq; simpl; [by destruct q|done].
Qed.

Lemma set_global_wf q g : simple_wf q → GlobalQueue.wf g → simple_wf (set_global q g).
Proof. by intros [H1 H2 H3 H4 H5 H6]. Qed.

Lemma global_push_queue g id : GlobalQueue.queue (GlobalQueue.push g id) = GlobalQueue.queue g ++ [id].
Proof. unfold GlobalQueue.push. by destruct (0 <? _). Qed.

Lemma global_push_wf g id : GlobalQueue.wf (GlobalQueue.push g id).
Proof. unfold GlobalQueue.push, GlobalQueue.wf. by destruct (0 <? _). Qed.

Lemma wake_if_parked_same q :
  local (wake_if_parked q) = local q ∧ num_workers (wake_if_parked q) = num_workers q ∧
  simple_contents (wake_if_parked q) = simple_contents q ∧
  (simple_wf q → simple_wf (wake_if_parked q)).
Proof.
  unfold wake_if_parked. destruct (0 <? _); split_and!; try done.
  intros Hwf. apply set_global_wf; [done|]. exact (swf_global _ Hwf).
Qed.

Lemma push_global_spec q id :
  simple_wf q →
  simple_wf (push_global q id) ∧ num_workers (push_global q id) = num_workers q ∧
  simple_contents (push_global q id) ≡ₚ id :: simple_contents q.
Proof.
  intros Hwf. unfold push_global. set (q' := set_global q _).
  destruct (wake_if_parked_same q') as (_ & Hn & Hc & Hw). split_and!.
  - apply Hw, set_global_wf; [done|]. apply global_push_wf.
  - done.
  - rewrite Hc. unfold simple_contents, q'. simpl. rewrite global_push_queue. solve_Permutation.
Qed.

(** *** Stealing *)
Lemma keep_stolen_spec q w ids :
  simple_wf q → 0 ≤ w < num_workers q →
  ∃ q', keep_stolen q w ids = Ret q' ∧ simple_wf q' ∧ num_workers q' = num_workers q ∧
        simple_contents q' ≡ₚ ids ++ simple_contents q.
Proof.
  revert q. induction ids as [|id ids IH]; intros q Hwf Hw; simpl; [by exists q|].
  destruct (local_push_spec q w id Hwf Hw) as (l & ok & q1 & _ & -> & Hwf1 & Hn1 & Hg1 & Hok). simpl.
  destruct ok.
  - destruct (IH q1 Hwf1) as (q' & -> & Hwf' & Hn' & Hc'); [lia|].
    exists q'. split_and!; [done|done|lia|]. destruct Hok as [Hok _]. rewrite Hc', Hok. solve_Permutation.
  - destruct Hok as [-> _].
    destruct (IH (set_global q (GlobalQueue.push (global q) id))) as (q' & -> & Hwf' & Hn' & Hc');
      [apply set_global_wf; [done|apply global_push_wf]|done|].
    exists q'. split_and!; [done|done|done|]. rewrite Hc'. unfold simple_contents. simpl.
    rewrite global_push_queue. solve_Permutation.
Qed.

Lemma random_victim_spec q w :
  simple_wf q → 0 ≤ w < num_workers q →
  ∃ v q', random_victim q w = Ret (v, q') ∧ 0 ≤ v < num_workers q ∧ simple_wf q' ∧
    local q' = local q ∧ global q' = global q ∧ num_workers q' = num_workers q ∧
    (1 < num_workers q → ∃ x, rng q !! Z.to_nat w = Some x ∧
       v = lcg x mod num_workers q ∧ rng q' !! Z.to_nat w = Some (lcg x)).
Proof.
  intros Hwf Hw. unfold random_victim. destruct (Z.leb_spec (num_workers q) 1).
  { exists 0, q. split_and!; done || lia. }
  destruct (index_is_Ret (rng q) w) as (x & Hx & Hlook); [rewrite (swf_rng _ Hwf); lia|].
  rewrite Hx. simpl. rewrite index_set_Ret by (rewrite (swf_rng _ Hwf); lia). simpl.
  pose proof (Z.mod_pos_bound (lcg x) (num_workers q)).
  eexists _, _. split_and!; try done; try lia.
  - destruct Hwf as [H1 H2 H3 H4 H5 H6]. constructor; simpl; try done. by rewrite length_insert.
  - intros _. exists x. split_and!; try done. simpl. apply list_lookup_insert_eq.
    by eapply lookup_lt_Some.
Qed.

Lemma steal_attempts_spec n q w :
  simple_wf q → 0 ≤ w < num_workers q →
  ∃ r q', steal_attempts n q w = Ret (r, q') ∧ simple_wf q' ∧ num_workers q' = num_workers q ∧
    match r with
    | Some id => simple_contents q ≡ₚ id :: simple_contents q'
    | None => local q' = local q ∧ global q' = global q
    end.
Proof.
  revert q. induction n as [|n IH]; intros q Hwf Hw; simpl; [by exists None, q|].
  destruct (random_victim_spec q w Hwf Hw) as (v & q1 & -> & Hv & Hwf1 & Hl1 & Hg1 & Hn1 & _). simpl.
  assert (Hc1 : simple_contents q1 = simple_contents q) by (unfold simple_contents; by rewrite Hl1, Hg1).
  destruct (Z.eqb_spec v w) as [->|Hne].
  { destruct (IH q1 Hwf1) as (r & q' & -> & Hwf' & Hn' & Hr); [lia|]. exists r, q'. split_and!; try done; [lia|].
    destruct r; [by rewrite <- Hc1|]. by rewrite <- Hl1, <- Hg1. }
  destruct (local_steal_spec q1 v Hwf1) as (l & r & q2 & _ & -> & Hwf2 & Hn2 & Hg2 & Hc2 & Hnil); [lia|]. simpl.
  destruct r as [|first rest].
  - destruct (Hnil eq_refl) as [-> _].
    destruct (IH q1 Hwf1) as (r & q' & -> & Hwf' & Hn' & Hr); [lia|]. exists r, q'. split_and!; try done; [lia|].
    destruct r; [by rewrite <- Hc1|]. by rewrite <- Hl1, <- Hg1.
  - destruct (keep_stolen_spec q2 w rest Hwf2) as (q3 & -> & Hwf3 & Hn3 & Hc3); [lia|]. simpl.
    exists (Some first), q3. split_and!; try done; [lia|]. rewrite <- Hc1, Hc2, Hc3. done.
Qed.

Lemma push_batch_spec q w ids l :
  simple_wf q → 0 ≤ w < num_workers q → local q !! Z.to_nat w = Some l →
  Z.of_nat (length (LocalQueue.queue l)) + Z.of_nat (length ids) ≤ LOCAL_CAPACITY →
  ∃ q', push_batch q w ids = Ret q' ∧ simple_wf q' ∧ num_workers q' = num_workers q ∧
        simple_contents q' ≡ₚ ids ++ simple_contents q.
Proof.
  revert q l. induction ids as [|id ids IH]; intros q l Hwf Hw Hl Hcap; simpl; [by exists q|].
  destruct (local_push_spec q w id Hwf Hw) as (l' & ok & q1 & Hl' & -> & Hwf1 & Hn1 & Hg1 & Hok).
  simpl in *. simplify_eq. destruct ok; [|lia]. destruct Hok as [Hc1 Hl1].
  destruct (IH q1 _ Hwf1 ltac:(lia) Hl1) as (q' & -> & Hwf' & Hn' & Hc').
  { simpl. rewrite length_app. simpl. lia. }
  exists q'. split_and!; [done|done|lia|]. rewrite Hc', Hc1. solve_Permutation.
Qed.

(** *** [pop] *)
Lemma pop_stages_spec q w :
  simple_wf q → 0 ≤ w < num_workers q →
  ∃ r q', pop_stages q w = Ret (r, q') ∧ simple_wf q' ∧ num_workers q' = num_workers q ∧
    match r with
    | Some (id, _) => simple_contents q ≡ₚ id :: simple_contents q'
    | None => local q' = local q ∧ global q' = global q ∧
        local q !! Z.to_nat w = Some (LocalQueue.publish []) ∧ GlobalQueue.queue (global q) = []
    end.
Proof.
  intros Hwf Hw. unfold pop_stages.
  destruct (local_pop_spec q w Hwf Hw) as (r & q1 & -> & Hwf1 & Hn1 & Hr). simpl.
  destruct r as [id|]; [by exists (Some (id, Priority.Normal)), q1|]. destruct Hr as [-> Hl].
  pose proof (global_pop_cases q Hwf) as Hg.
  destruct (GlobalQueue.queue (global q)) as [|id ids] eqn:Hq; rewrite Hg.
  - destruct (steal_attempts_spec (Z.to_nat (Z.min (num_workers q) 4)) q w Hwf Hw)
      as (r & q' & Hs & Hwf' & Hn' & Hr).
    unfold try_steal. rewrite Hs. simpl. destruct r as [id|].
    + by exists (Some (id, Priority.Normal)), q'.
    + exists None, q'. split_and!; try done; apply Hr.
  - set (q2 := set_global q _).
    assert (Hwf2 : simple_wf q2) by (by apply set_global_wf).
    unfold GlobalQueue.pop_batch. rewrite (swf_global _ Hwf2). simpl.
    assert (Hc2 : simple_contents q ≡ₚ id :: simple_contents q2).
    { unfold simple_contents. simpl. rewrite Hq. solve_Permutation. }
    destruct (Z.eqb_spec (Z.of_nat (length ids)) 0) as [H0|H0].
    + simpl. eexists (Some (id, Priority.Normal)), _. split_and!; try done.
    + rewrite drain_spec. set (n := Nat.min _ _).
      destruct (push_batch_spec (set_global q2 (GlobalQueue.publish (global q2) (drop n ids))) w (take n ids)
        (LocalQueue.publish [])) as (q3 & Hb & Hwf3 & Hn3 & Hc3).
      * by apply set_global_wf.
      * done.
      * done.
      * cbn [LocalQueue.publish LocalQueue.queue length]. rewrite length_take.
        assert (Z.to_nat (LOCAL_CAPACITY / 2) = 128%nat) as Hhalf by done.
        unfold n. rewrite Hhalf. unfold LOCAL_CAPACITY. lia.
      * simpl in Hb. simpl. rewrite Hb. simpl. exists (Some (id, Priority.Normal)), q3. split_and!; try done.
        rewrite Hc2, Hc3. constructor. unfold simple_contents. simpl.
        rewrite <- (take_drop n ids) at 1. solve_Permutation.
Qed.

Lemma set_counters_wf q w c :
  simple_wf q → 0 ≤ w < num_workers q →
  index_set (counters q) w c = Ret (<[Z.to_nat w := c]> (counters q)) ∧
  simple_wf (set_counters q (<[Z.to_nat w := c]> (counters q))).
Proof.
  intros [H1 H2 H3 H4 H5 H6] Hw. split; [apply index_set_Ret; lia|].
  constructor; simpl; try done. by rewrite length_insert.
Qed.

Lemma simple_pop_spec q w :
  simple_wf q → 0 ≤ w →
  ∃ r q', pop q w = Ret (r, q') ∧ simple_wf q' ∧ num_workers q' = num_workers q ∧
    match r with
    | Some (id, _) => simple_contents q ≡ₚ id :: simple_contents q'
    | None => local q' = local q ∧ global q' = global q ∧
        (w < num_workers q →
         local q !! Z.to_nat w = Some (LocalQueue.publish []) ∧ GlobalQueue.queue (global q) = [])
    end.
Proof.
  intros Hwf Hw0. unfold pop. destruct (Z.leb_spec (num_workers q) w).
  { exists None, q. split_and!; try done. lia. }
  destruct (index_is_Ret (counters q) w) as (c & Hc & _); [rewrite (swf_counters _ Hwf); lia|].
  rewrite Hc. simpl. destruct (set_counters_wf q w (c +[64] 1) Hwf) as [-> Hwf0]; [lia|]. simpl.
  set (q0 := set_counters q _) in *.
  assert (Hst : ∃ r q', pop_stages q0 w = Ret (r, q') ∧ simple_wf q' ∧ num_workers q' = num_workers q ∧
    match r with
    | Some (id, _) => simple_contents q ≡ₚ id :: simple_contents q'
    | None => local q' = local q ∧ global q' = global q ∧
        local q !! Z.to_nat w = Some (LocalQueue.publish []) ∧ GlobalQueue.queue (global q) = []
    end) by (apply (pop_stages_spec q0 w Hwf0); simpl; lia).
  destruct Hst as (r & q' & Hst & Hwf' & Hn' & Hr).
  assert (Hfin : ∃ r q', pop_stages q0 w = Ret (r, q') ∧ simple_wf q' ∧ num_workers q' = num_workers q ∧
    match r with
    | Some (id, _) => simple_contents q ≡ₚ id :: simple_contents q'
    | None => local q' = local q ∧ global q' = global q ∧
        (w < num_workers q →
         local q !! Z.to_nat w = Some (LocalQueue.publish []) ∧ GlobalQueue.queue (global q) = [])
    end).
  { exists r, q'. split_and!; try done. destruct r as [[]|]; [done|]. naive_solver. }
  destruct (_ =? 0); [|done]. pose proof (global_pop_cases q0 Hwf0) as Hg.
  destruct (GlobalQueue.queue (global q0)) as [|id ids] eqn:Hq; rewrite Hg; [done|].
  eexists (Some (id, Priority.Normal)), _. split_and!; try done.
  - by apply set_global_wf.
  - unfold simple_contents. simpl. simpl in Hq. rewrite Hq. solve_Permutation.
Qed.

Lemma simple_push_spec q id p hint :
  simple_wf q → match hint with Some w => 0 ≤ w | None => True end →
  ∃ q', push q id p hint = Ret q' ∧ simple_wf q' ∧ num_workers q' = num_workers q ∧
        simple_contents q' ≡ₚ id :: simple_contents q.
Proof.
  intros Hwf Hh. unfold push, GVThreadId.as_u32.
  pose proof (push_global_spec q id Hwf) as Hpg.
  destruct hint as [w|]; [|eauto]. destruct (Z.ltb_spec w (num_workers q)); [|eauto].
  destruct (local_push_spec q w id Hwf) as (l & ok & q1 & _ & -> & Hwf1 & Hn1 & _ & Hok); [lia|]. simpl.
  destruct ok.
  - destruct (wake_if_parked_same q1) as (_ & Hn & Hc & Hw). destruct Hok as [Hok _].
    eexists. split_and!; [done|by apply Hw|lia|by rewrite Hc].
  - destruct Hok as [-> _]. eauto.
Qed.

Lemma simple_len_spec q : simple_wf q → len q = Z.of_nat (length (simple_contents q)).
Proof.
  intros Hwf. unfold len, simple_contents. rewrite (swf_global _ Hwf), length_app.
  pose proof (swf_locals _ Hwf) as Hl. clear Hwf.
  generalize (GlobalQueue.queue (global q)). intros g. generalize (length g). intros n.
  revert n. induction Hl as [|l ls [Hlen _] _ IH]; intros n; [simpl; lia|].
  cbn [foldl]. rewrite Hlen, <- Nat2Z.inj_add, IH.
  change (collect LocalQueue.queue (l :: ls)) with (LocalQueue.queue l ++ collect LocalQueue.queue ls).
  rewrite length_app. lia.
Qed.

Lemma simple_init_wf n : 0 ≤ n → simple_wf (init new n) ∧ simple_contents (init new n) = [].
Proof.
  intros Hn. split.
  - constructor; simpl; rewrite ?length_replicate, ?length_fmap, ?length_seqZ; try lia; try done.
    by apply Forall_replicate.
  - unfold simple_contents. simpl. rewrite (right_id_L [] (++)). apply collect_nil.
    by intros l [-> _]%elem_of_replicate.
Qed.
End SimpleFacts.

#[global] Instance simple_ready_queue : ReadyQueue SimpleQueue.t.
Proof.
  refine {| push := SimpleQueue.push; pop := SimpleQueue.pop; len := SimpleQueue.len;
            workers := SimpleQueue.num_workers; wf := simple_wf; contents := simple_contents |}.
  - exact simple_push_spec.
  - intros q w Hwf Hw. destruct (simple_pop_spec q w Hwf Hw) as (r & q' & Hp & Hwf' & Hn & Hr).
    exists r, q'. split_and!; try done. destruct r as [[]|]; [done|].
    destruct Hr as (Hl & Hg & _). unfold simple_contents. by rewrite Hl, Hg.
  - exact simple_len_spec.
Defined.

(** *** The pop counter

    Only the first lines of [pop] write the counters. *)
Section Counters.
Import SimpleQueue.

Ltac bind_inv :=
  repeat match goal with
  | H : (?m ≫= _) = Ret _ |- _ =>
      destruct m eqn:?; cbn [mbind outcome_bind] in H; [|discriminate H]
  | H : (let '(_, _) := ?p in _) = Ret _ |- _ => destruct p eqn:?
  | H : Ret _ = Ret _ |- _ => injection H as; subst
  end.

Lemma local_push_counters q w id r q' : local_push q w id = Ret (r, q') → counters q' = counters q.
Proof. intros H. unfold local_push in H. by bind_inv. Qed.

Lemma local_steal_counters q w r q' : local_steal q w = Ret (r, q') → counters q' = counters q.
Proof. intros H. unfold local_steal in H. by bind_inv. Qed.

Lemma random_victim_counters q w v q' : random_victim q w = Ret (v, q') → counters q' = counters q.
Proof. intros H. unfold random_victim in H. destruct (_ <=? _); by bind_inv. Qed.

Lemma keep_stolen_counters ids q w q' : keep_stolen q w ids = Ret q' → counters q' = counters q.
Proof.
  revert q. induction ids as [|id ids IH]; intros q H; simpl in H; bind_inv; [done|].
  match goal with H : local_push _ _ _ = _ |- _ => apply local_push_counters in H as <- end.
  case_match; by apply IH in H.
Qed.

Lemma push_batch_counters ids q w q' : push_batch q w ids = Ret q' → counters q' = counters q.
Proof.
  revert q. induction ids as [|id ids IH]; intros q H; simpl in H; bind_inv; [done|].
  destruct v as [ok q1]. match goal with H : local_push _ _ _ = _ |- _ => apply local_push_counters in H as <- end.
  by apply IH in H.
Qed.

Lemma steal_attempts_counters n q w r q' : steal_attempts n q w = Ret (r, q') → counters q' = counters q.
Proof.
  revert q. induction n as [|n IH]; intros q H; simpl in H; bind_inv; [done|].
  match goal with H : random_victim _ _ = _ |- _ => apply random_victim_counters in H as <- end.
  case_match; [by apply IH in H|]. bind_inv.
  match goal with H : local_steal _ _ = _ |- _ => apply local_steal_counters in H as <- end.
  case_match; [by apply IH in H|]. bind_inv.
  match goal with H : keep_stolen _ _ _ = _ |- _ => by apply keep_stolen_counters in H end.
Qed.

Lemma pop_stages_counters q w r q' : pop_stages q w = Ret (r, q') → counters q' = counters q.
Proof.
  intros H. unfold pop_stages in H. bind_inv.
  match goal with H : local_pop _ _ = _ |- _ =>
    assert (Hc := H); unfold local_pop in Hc end. bind_inv.
  destruct o; bind_inv; [done|].
  match goal with H : global_pop _ = _ |- _ => unfold global_pop in H; destruct (GlobalQueue.pop _); simplify_eq/= end.
  case_match; bind_inv.
  - match goal with H : push_batch _ _ _ = _ |- _ => by apply push_batch_counters in H end.
  - match goal with H : try_steal _ _ = _ |- _ => apply steal_attempts_counters in H as Hs end.
    case_match; bind_inv; done.
Qed.

Lemma pop_counter q w r q' c :
  simple_wf q → 0 ≤ w < num_workers q → counters q !! Z.to_nat w = Some c →
  pop q w = Ret (r, q') → counters q' !! Z.to_nat w = Some (c +[64] 1).
Proof.
  intros Hwf Hw Hc Hp. assert (Hlt := lookup_lt_Some _ _ _ Hc).
  unfold pop in Hp. destruct (Z.leb_spec (num_workers q) w); [lia|].
  assert (Hidx : index (counters q) w = Ret c) by (apply index_Ret; split; [lia|done]).
  rewrite Hidx in Hp. simpl in Hp.
  destruct (set_counters_wf q w (c +[64] 1) Hwf Hw) as [Hset _]. rewrite Hset in Hp. simpl in Hp.
  assert (Hnew : <[Z.to_nat w := c +[64] 1]> (counters q) !! Z.to_nat w = Some (c +[64] 1))
    by (by apply list_lookup_insert_eq).
  destruct (_ =? 0).
  - destruct (global_pop _) as [[id|] q1] eqn:Hg; unfold global_pop in Hg;
      destruct (GlobalQueue.pop _); simplify_eq/=; [done|]. by apply pop_stages_counters in Hp as ->.
  - by apply pop_stages_counters in Hp as ->.
Qed.

(** The periodic look at the global queue. *)
Lemma pop_check_global q w c id ids :
  simple_wf q → 0 ≤ w < num_workers q → counters q !! Z.to_nat w = Some c →
  wrap 32 c mod GLOBAL_CHECK_INTERVAL = 0 → GlobalQueue.queue (global q) = id :: ids →
  ∃ q', pop q w = Ret (Some (id, Priority.Normal), q').
Proof.
  intros Hwf Hw Hc Hmod Hq. unfold pop. destruct (Z.leb_spec (num_workers q) w); [lia|].
  assert (index (counters q) w = Ret c) as -> by (apply index_Ret; split; [lia|done]). simpl.
  destruct (set_counters_wf q w (c +[64] 1) Hwf Hw) as [-> Hwf0]. simpl.
  rewrite Hmod. simpl. pose proof (global_pop_cases _ Hwf0) as Hg. simpl in Hg. rewrite Hq in Hg.
  rewrite Hg. eauto.
Qed.
End Counters.

(** ** Clients of the interface: sequences of operations *)
Section QueueRuns.
Context {Q : Type} `{ReadyQueue Q}.

Inductive op : Type :=
| OpPush (id : Z) (p : Priority.t) (hint : option Z)
| OpPop (w : Z).

Definition op_ok (o : op) : Prop :=
  match o with OpPush _ _ (Some w) => 0 ≤ w | OpPush _ _ None => True | OpPop w => 0 ≤ w end.

(** Run operations in order; collects the ids popped. *)
Fixpoint run_ops (q : Q) (ops : list op) : outcome (list Z * Q) :=
  match ops with
  | [] => Ret ([], q)
  | OpPush id p hint :: ops' => q' ← push q id p hint; run_ops q' ops'
  | OpPop w :: ops' =>
      r ← pop q w;
      rest ← run_ops r.2 ops';
      Ret ((match r.1 with Some (id, _) => [id] | None => [] end) ++ rest.1, rest.2)
  end.

Definition pushed (ops : list op) : list Z :=
  ops ≫= λ o, match o with OpPush id _ _ => [id] | OpPop _ => [] end.

Lemma run_ops_spec q ops :
  wf q → Forall op_ok ops →
  ∃ out q', run_ops q ops = Ret (out, q') ∧ wf q' ∧ workers q' = workers q ∧
            out ++ contents q' ≡ₚ pushed ops ++ contents q.
Proof.
  intros Hwf Hok. revert q Hwf. induction Hok as [|o ops Ho _ IH]; intros q Hwf; [by exists [], q|].
  destruct o as [id p hint|w]; simpl.
  - destruct (push_spec q id p hint Hwf) as (q1 & -> & Hwf1 & Hn1 & Hc1); [by destruct hint|]. simpl.
    destruct (IH q1 Hwf1) as (out & q' & -> & Hwf' & Hn' & Hc'). exists out, q'.
    split_and!; [done|done|by rewrite Hn'|]. rewrite Hc', Hc1. unfold pushed. simpl. solve_Permutation.
  - destruct (pop_spec q w Hwf Ho) as (r & q1 & -> & Hwf1 & Hn1 & Hr). simpl.
    destruct (IH q1 Hwf1) as (out & q' & -> & Hwf' & Hn' & Hc'). simpl.
    eexists _, q'. split_and!; [done|done|by rewrite Hn'|].
    rewrite <- (assoc (++)), Hc'. unfold pushed. simpl.
    destruct r as [[id p]|]; [rewrite Hr|rewrite Hr]; simpl; solve_Permutation.
Qed.
End QueueRuns.

(** ** Victim selection *)
Section Victims.
Import SimpleQueue.

(** Modulo 2 and 4 the generator is a counter. *)
Lemma lcg_mod n x : n = 2 ∨ n = 4 → lcg x mod n = (x + 1) mod n.
Proof.
  intros Hn. unfold lcg, wrap.
  assert (H64 : ∀ y, (y mod 2 ^ 64) mod n = y mod n).
  { intros y. apply Z.mod_mod_divide. destruct Hn as [->| ->].
    - by exists (2 ^ 63).
    - by exists (2 ^ 62). }
  rewrite H64, Zplus_mod, H64, <- Zplus_mod.
  destruct Hn as [->| ->].
  - replace (x * 1103515245 + 12345) with (x + 1 + (x * 551757622 + 6172) * 2) by lia. apply Z_mod_plus_full.
  - replace (x * 1103515245 + 12345) with (x + 1 + (x * 275878811 + 3086) * 4) by lia. apply Z_mod_plus_full.
Qed.

(** With 2 or 4 workers, attempts that find nothing have visited consecutive
    victims. *)
Lemma steal_attempts_none n q w q' x :
  simple_wf q → 0 ≤ w < num_workers q → num_workers q = 2 ∨ num_workers q = 4 →
  rng q !! Z.to_nat w = Some x → steal_attempts n q w = Ret (None, q') →
  ∀ k, 1 ≤ k ≤ Z.of_nat n → let v := (x + k) mod num_workers q in
    v = w ∨ ∃ l, local q !! Z.to_nat v = Some l ∧ (length (LocalQueue.queue l) ≤ 1)%nat.
Proof.
  revert q x. induction n as [|n IH]; intros q x Hwf Hw Hnum Hx Hs k Hk; [lia|]. simpl in Hs.
  destruct (random_victim_spec q w Hwf Hw) as (v & q1 & Hv & Hvr & Hwf1 & Hl1 & Hg1 & Hn1 & Hrng).
  destruct Hrng as (y & Hy & Hvy & Hy1); [lia|]. simplify_eq.
  rewrite Hv in Hs. simpl in Hs. rewrite lcg_mod in Hs, Hvr by done.
  assert (Hnext : ∀ q2, simple_wf q2 → num_workers q2 = num_workers q → local q2 = local q →
    rng q2 !! Z.to_nat w = Some (lcg x) → steal_attempts n q2 w = Ret (None, q') → 1 < k →
    (x + k) mod num_workers q = w ∨
    ∃ l, local q !! Z.to_nat ((x + k) mod num_workers q) = Some l ∧ (length (LocalQueue.queue l) ≤ 1)%nat).
  { intros q2 Hwf2 Hn2 Hl2 Hr2 Hs2 Hk1.
    specialize (IH q2 (lcg x) Hwf2 ltac:(lia) ltac:(lia) Hr2 Hs2 (k - 1) ltac:(lia)). simpl in IH.
    rewrite Hn2, Hl2 in IH. rewrite Zplus_mod, lcg_mod, <- Zplus_mod in IH by done.
    by replace (x + 1 + (k - 1)) with (x + k) in IH by lia. }
  destruct (Z.eqb_spec ((x + 1) mod num_workers q) w) as [Heq|Hne].
  { destruct (decide (k = 1)) as [->|]; [by left|]. eapply (Hnext q1); try done; lia. }
  destruct (local_steal_spec q1 ((x + 1) mod num_workers q) Hwf1) as (l & r & q2 & Hl & Hst & Hwf2 & Hn2 & Hg2 & _ & Hnil);
    [lia|]. rewrite Hst in Hs. simpl in Hs. destruct r as [|first rest].
  - destruct (Hnil eq_refl) as [-> Hlen]. destruct (decide (k = 1)) as [->|].
    + right. exists l. by rewrite <- Hl1.
    + eapply (Hnext q1); try done; lia.
  - destruct (keep_stolen q2 w rest); simpl in Hs; simplify_eq.
Qed.

Lemma pop_stages_none q w q' :
  simple_wf q → 0 ≤ w < num_workers q → pop_stages q w = Ret (None, q') → try_steal q w = Ret (None, q').
Proof.
  intros Hwf Hw. unfold pop_stages.
  destruct (local_pop_spec q w Hwf Hw) as (r & q1 & -> & _ & _ & Hr). simpl.
  destruct r as [id|]; [done|]. destruct Hr as [-> _].
  pose proof (global_pop_cases q Hwf) as Hg.
  destruct (GlobalQueue.queue (global q)) as [|id ids]; rewrite Hg.
  - destruct (try_steal q w) as [[[id|] q2]|]; simpl; congruence.
  - simpl. destruct (GlobalQueue.pop_batch _ _). simpl. destruct (push_batch _ _ _); simpl; congruence.
Qed.

(** A [pop] without result has run the stages on the queue with only the
    worker's counter changed. *)
Lemma pop_none_stages q w q' :
  simple_wf q → 0 ≤ w < num_workers q → pop q w = Ret (None, q') →
  ∃ cs, simple_wf (set_counters q cs) ∧ pop_stages (set_counters q cs) w = Ret (None, q').
Proof.
  intros Hwf Hw. unfold pop. destruct (Z.leb_spec (num_workers q) w); [lia|].
  destruct (index_is_Ret (counters q) w) as (c & -> & _); [rewrite (swf_counters _ Hwf); lia|]. simpl.
  destruct (set_counters_wf q w (c +[64] 1) Hwf Hw) as [-> Hwf0]. simpl. intros Hp.
  eexists. split; [exact Hwf0|]. destruct (_ =? 0); [|done].
  pose proof (global_pop_cases _ Hwf0) as Hg.
  destruct (GlobalQueue.queue _) as [|id ids]; rewrite Hg in Hp; [done|congruence].
Qed.

Lemma victim_reached num x v :
  0 < num → 0 ≤ v < num → ∃ k, 1 ≤ k ≤ num ∧ (x + k) mod num = v.
Proof.
  intros Hn Hv. pose proof (Z.mod_pos_bound (v - x - 1) num Hn).
  exists ((v - x - 1) mod num + 1). split; [lia|].
  rewrite (Z.add_comm _ 1), Z.add_assoc, Zplus_mod_idemp_r.
  replace (x + 1 + (v - x - 1)) with v by lia. by apply Z.mod_small.
Qed.

Lemma steal_attempts_lone n q w :
  simple_wf q → 0 ≤ w < num_workers q →
  Forall (λ l, (length (LocalQueue.queue l) ≤ 1)%nat) (local q) →
  ∃ q', steal_attempts n q w = Ret (None, q').
Proof.
  revert q. induction n as [|n IH]; intros q Hwf Hw Hall; simpl; [by exists q|].
  destruct (random_victim_spec q w Hwf Hw) as (v & q1 & -> & Hv & Hwf1 & Hl1 & _ & Hn1 & _). simpl.
  assert (IH' : ∃ q', steal_attempts n q1 w = Ret (None, q')) by (apply IH; rewrite ?Hl1; done || lia).
  destruct (v =? w); [done|].
  destruct (simple_local q1 v Hwf1) as (l & Hidx & Hl & Hlwf); [lia|].
  unfold local_steal. rewrite Hidx. simpl. rewrite (local_steal_cases l Hlwf).
  rewrite Hl1 in Hl. pose proof (Forall_lookup_1 _ _ _ _ Hall Hl) as Hlen. simpl in Hlen.
  rewrite (proj2 (Nat.div_small_iff (length (LocalQueue.queue l)) 2 ltac:(lia))) by lia.
  rewrite Nat.eqb_refl. destruct (set_local_wf q1 v l Hwf1) as [-> _]; [lia|done|]. simpl.
  by rewrite set_local_id by (by rewrite Hl1).
Qed.
End Victims.

(** ** Properties *)

(** C14: The ready queue neither loses nor duplicates GVThreads.  Starting from
    a queue initialised for [n] workers, after any sequence of pushes (with any
    hints) and pops (by any workers, including work stealing and batch
    refills) the ids popped together with the ids still queued are exactly the
    ids pushed, as multisets; no operation panics; and [len] is the number of
    ids still queued. *)
Theorem ready_queue_conserves n ops :
  0 ≤ n → Forall op_ok ops →
  ∃ out q', run_ops (SimpleQueue.init SimpleQueue.new n) ops = Ret (out, q') ∧
    out ++ simple_contents q' ≡ₚ pushed ops ∧
    SimpleQueue.len q' = Z.of_nat (length (simple_contents q')).
Proof.
  intros Hn Hok. destruct (simple_init_wf n Hn) as [Hwf Hc].
  destruct (@run_ops_spec _ simple_ready_queue (SimpleQueue.init SimpleQueue.new n) ops Hwf Hok) as (out & q' & Hr & Hwf' & _ & Hp).
  exists out, q'. split_and!; [done| |by apply simple_len_spec].
  etrans; [exact Hp|]. change (contents (SimpleQueue.init SimpleQueue.new n))
    with (simple_contents (SimpleQueue.init SimpleQueue.new n)). by rewrite Hc, (right_id_L [] (++)).
Qed.

Lemma ready_queue_conserves_witness :
  ∃ out q', run_ops (SimpleQueue.init SimpleQueue.new 2)
    [OpPush 7 Priority.High (Some 0); OpPush 8 Priority.Low (Some 0); OpPush 9 Priority.Normal None; OpPop 1; OpPop 1]
    = Ret (out, q') ∧ out ++ simple_contents q' ≡ₚ [7; 8; 9].
Proof.
  destruct (ready_queue_conserves 2
    [OpPush 7 Priority.High (Some 0); OpPush 8 Priority.Low (Some 0); OpPush 9 Priority.Normal None; OpPop 1; OpPop 1])
    as (out & q' & H & Hp & _); [lia|repeat constructor; simpl; lia|].
  exists out, q'. split; [exact H|exact Hp].
Defined.

(** With 2 or 4 workers (the linear congruential generator then visits
    every worker in turn) a [pop] that finds nothing is conclusive up to the
    stealing granularity: the worker's own queue and the global queue are
    empty and every other worker has at most one GVThread queued. *)
Theorem pop_none_conclusive q w q' :
  simple_wf q → SimpleQueue.num_workers q = 2 ∨ SimpleQueue.num_workers q = 4 →
  0 ≤ w < SimpleQueue.num_workers q → SimpleQueue.pop q w = Ret (None, q') →
  GlobalQueue.queue (SimpleQueue.global q) = [] ∧
  SimpleQueue.local q !! Z.to_nat w = Some (LocalQueue.publish []) ∧
  ∀ v l, 0 ≤ v → SimpleQueue.local q !! Z.to_nat v = Some l →
    (length (LocalQueue.queue l) ≤ 1)%nat.
Proof.
  intros Hwf Hnum Hw Hp.
  destruct (simple_pop_spec q w Hwf) as (r & q2 & Hp2 & _ & _ & Hr); [lia|].
  rewrite Hp in Hp2. injection Hp2 as <- <-. destruct Hr as (_ & _ & Hempty).
  destruct Hempty as [Hlocal Hglobal]; [lia|]. split_and!; [done|done|].
  destruct (pop_none_stages q w q' Hwf Hw Hp) as (cs & Hwf0 & Hst).
  apply pop_stages_none in Hst; [|done|done]. unfold SimpleQueue.try_steal in Hst. simpl in Hst.
  destruct (lookup_lt_is_Some_2 (SimpleQueue.rng q) (Z.to_nat w)) as [x Hx].
  { pose proof (swf_rng _ Hwf). lia. }
  intros v l Hv Hl.
  assert (Hvn : v < SimpleQueue.num_workers q).
  { pose proof (swf_local _ Hwf). apply lookup_lt_Some in Hl. lia. }
  destruct (victim_reached (SimpleQueue.num_workers q) x v) as (k & Hk & Hkv); [lia|lia|].
  destruct (steal_attempts_none _ (SimpleQueue.set_counters q cs) w q' x Hwf0 Hw Hnum Hx Hst k) as [Heq|(l' & Hl' & Hlen)].
  - simpl. lia.
  - simpl in Heq. rewrite Hkv in Heq. subst. rewrite Hl in Hlocal. injection Hlocal as ->. simpl. lia.
  - simpl in Hl'. rewrite Hkv, Hl in Hl'. by injection Hl' as ->.
Qed.

(** Two workers, worker 0 with a single GVThread queued. *)
Definition lone_queue : SimpleQueue.t :=
  SimpleQueue.mk [LocalQueue.publish [5]; LocalQueue.publish []] GlobalQueue.new 2 [0; 0]
    [SimpleQueue.seed 0; SimpleQueue.seed 1] true.

Lemma lone_queue_wf : simple_wf lone_queue.
Proof. constructor; simpl; try done. repeat constructor; unfold LOCAL_CAPACITY; simpl; lia. Qed.

Lemma pop_none_conclusive_witness :
  ∃ q', SimpleQueue.pop lone_queue 1 = Ret (None, q') ∧ (length (LocalQueue.queue (LocalQueue.publish [5%Z])) ≤ 1)%nat.
Proof.
  eexists. split; [vm_compute; reflexivity|].
  refine (proj2 (proj2 (pop_none_conclusive lone_queue 1 _ lone_queue_wf (or_introl eq_refl) _ _)) 0 _ _ _);
    [simpl; lia|vm_compute; reflexivity|lia|reflexivity].
Defined.

(** A worker with nothing to do cannot take the only GVThread queued at a
    busy worker: half of one is zero, so [pop] answers [None], for every
    number of workers and whatever the random state, although a GVThread is
    ready. *)
Theorem lone_gvthread_not_stolen q w :
  simple_wf q → 0 ≤ w < SimpleQueue.num_workers q →
  GlobalQueue.queue (SimpleQueue.global q) = [] →
  SimpleQueue.local q !! Z.to_nat w = Some (LocalQueue.publish []) →
  Forall (λ l, (length (LocalQueue.queue l) ≤ 1)%nat) (SimpleQueue.local q) →
  ∃ q', SimpleQueue.pop q w = Ret (None, q').
Proof.
  intros Hwf Hw Hg Hl Hall.
  assert (Hst : ∀ cs, simple_wf (SimpleQueue.set_counters q cs) →
    ∃ q', SimpleQueue.pop_stages (SimpleQueue.set_counters q cs) w = Ret (None, q')).
  { intros cs Hwf0. destruct (steal_attempts_lone (Z.to_nat (Z.min (SimpleQueue.num_workers q) 4))
      (SimpleQueue.set_counters q cs) w Hwf0 Hw Hall) as [q' Hs].
    exists q'. unfold SimpleQueue.pop_stages. rewrite local_pop_empty by done. simpl.
    pose proof (global_pop_cases _ Hwf0) as Hgp. simpl in Hgp. rewrite Hg in Hgp.
    rewrite Hgp. unfold SimpleQueue.try_steal. simpl. by rewrite Hs. }
  unfold SimpleQueue.pop. destruct (Z.leb_spec (SimpleQueue.num_workers q) w); [lia|].
  destruct (index_is_Ret (SimpleQueue.counters q) w) as (c & -> & _); [rewrite (swf_counters _ Hwf); lia|]. simpl.
  destruct (set_counters_wf q w (c +[64] 1) Hwf Hw) as [-> Hwf0]. simpl.
  destruct (Hst _ Hwf0) as [q' Hq']. destruct (_ =? 0); [|eauto].
  pose proof (global_pop_cases _ Hwf0) as Hgp. simpl in Hgp. rewrite Hg in Hgp. rewrite Hgp. eauto.
Qed.

Lemma lone_gvthread_not_stolen_witness : ∃ q', SimpleQueue.pop lone_queue 1 = Ret (None, q').
Proof.
  apply (lone_gvthread_not_stolen lone_queue 1 lone_queue_wf); [simpl; lia|reflexivity|reflexivity|].
  repeat constructor.
Defined.

(** The state after [k] pops by worker [w]. *)
Fixpoint pops (q : SimpleQueue.t) (w : Z) (k : nat) : outcome SimpleQueue.t :=
  match k with
  | O => Ret q
  | S k' => r ← SimpleQueue.pop q w; pops r.2 w k'
  end.

Lemma pops_spec k q w c :
  simple_wf q → 0 ≤ w < SimpleQueue.num_workers q → SimpleQueue.counters q !! Z.to_nat w = Some c →
  0 ≤ c → c + Z.of_nat k < 2 ^ 32 →
  ∃ q1, pops q w k = Ret q1 ∧ simple_wf q1 ∧ SimpleQueue.num_workers q1 = SimpleQueue.num_workers q ∧
        SimpleQueue.counters q1 !! Z.to_nat w = Some (c + Z.of_nat k).
Proof.
  revert q c. induction k as [|k IH]; intros q c Hwf Hw Hc H0 Hk; simpl.
  { exists q. split_and!; try done. by rewrite Z.add_0_r. }
  destruct (simple_pop_spec q w Hwf) as (r & q1 & Hp & Hwf1 & Hn1 & _); [lia|].
  pose proof (pop_counter q w r q1 c Hwf Hw Hc Hp) as Hc1.
  rewrite wrap_small in Hc1 by (unfold in_u; lia). rewrite Hp. simpl.
  destruct (IH q1 (c + 1) Hwf1) as (q2 & Hq2 & Hwf2 & Hn2 & Hc2); [lia|done|lia|lia|].
  exists q2. split_and!; [done|done|lia|]. rewrite Hc2. f_equal. lia.
Qed.

(** The global queue is not starved by local work.  Whatever is queued
    locally, within 61 consecutive pops of any one worker (as long as its
    counter has not wrapped) there is one that takes the oldest GVThread of
    the global queue when the global queue is not empty. *)
Theorem global_queue_served q w c :
  simple_wf q → 0 ≤ w < SimpleQueue.num_workers q →
  SimpleQueue.counters q !! Z.to_nat w = Some c → 0 ≤ c → c + 61 < 2 ^ 32 →
  ∃ k q1, (k < 61)%nat ∧ pops q w k = Ret q1 ∧
    ∀ id ids, GlobalQueue.queue (SimpleQueue.global q1) = id :: ids →
      ∃ q2, SimpleQueue.pop q1 w = Ret (Some (id, Priority.Normal), q2).
Proof.
  intros Hwf Hw Hc H0 Hlt. pose proof (Z.mod_pos_bound (- c) 61).
  set (k := Z.to_nat ((- c) mod 61)).
  destruct (pops_spec k q w c Hwf Hw Hc H0) as (q1 & Hq1 & Hwf1 & Hn1 & Hc1); [unfold k; lia|].
  exists k, q1. split_and!; [unfold k; lia|done|]. intros id ids Hq.
  eapply pop_check_global; [done|lia|done| |done].
  rewrite wrap_small by (unfold in_u, k in *; lia). unfold k, GLOBAL_CHECK_INTERVAL.
  rewrite Z2Nat.id by lia. rewrite Zplus_mod_idemp_r. by replace (c + - c) with 0 by lia.
Qed.

Lemma global_queue_served_witness :
  ∃ k q1, (k < 61)%nat ∧ pops lone_queue 0 k = Ret q1.
Proof.
  destruct (global_queue_served lone_queue 0 0 lone_queue_wf) as (k & q1 & Hk & Hp & _);
    [simpl; lia|reflexivity|lia|lia|]. exists k, q1. split; [exact Hk|exact Hp].
Defined.
