(* ===== verification/QueuePool.v ===== *)
(** * The ready queue under concurrency

    [ready_queue/simple.rs] once more, as atomic steps: workers that push to
    their own local queue, pop, steal and park, and other threads that push to
    the global queue.  A critical section of a queue's lock is one step, the
    loads of [len] and [parked] outside of it are steps of their own, and the
    condition variable is the list of the workers that wait and have not been
    notified.  All that a critical section shows outside of its lock is the
    length it stores last, so a section is atomic.  The worker loop of [scheduler.rs] decides who may do what: a
    worker hints at its own queue only, and parks only after a [pop] that found
    nothing; a worker that runs a GVThread or waits for its own I/O is between
    two pops. *)

From S2P Require Import Prelude CoreTypes ReadyQueue.

Module QueueRun.
Import SimpleQueue.

(** The queue, the condition variable, and three histories: the ids pushed,
    those popped, and those a batch could not put into a full local queue. *)
Record shared : Type := Shared {
  q : SimpleQueue.t;
  waiters : list nat;
  pushed : list Z;
  popped : list Z;
  lost : list Z
}.

Definition set_q (s : shared) (q' : SimpleQueue.t) : shared := Shared q' (waiters s) (pushed s) (popped s) (lost s).
Definition set_waiters (s : shared) (l : list nat) : shared := Shared (q s) l (pushed s) (popped s) (lost s).
Definition set_g (s : shared) (g : GlobalQueue.t) : shared := set_q s (set_global (q s) g).
Definition set_l (s : shared) (w : nat) (l : LocalQueue.t) : shared := set_q s (set_local (q s) (<[w := l]> (local (q s)))).
Definition add_lost (s : shared) (ok : bool) (id : Z) : shared :=
  Shared (q s) (waiters s) (pushed s) (popped s) (if ok then lost s else lost s ++ [id]).

(** [GlobalQueue::pop] is called in two places of [SimpleQueue::pop]. *)
Inductive stage := Periodic | Batch.

(** Where a thread is.  [Wake k] is about to load [parked] and [Notify k] to
    notify, before it goes on with [k]. *)
Inductive pc :=
| Idle
| PLocal (id : Z) | PGlobal (id : Z)
| Wake (k : pc) | Notify (k : pc)
| GLoad (k : stage) | GLock (k : stage)
| LLoad | LLock
| BLoad (id : Z) | BLock (id : Z) | BPush (id : Z) (batch : list Z)
| Steal (n : nat) | SLoad (n v : nat) | SLock (n v : nat)
| SPush (first : Z) (rest : list Z) | SGlobal (first id : Z) (rest : list Z)
| Got (id : Z) | Empty
| PCheck | Waiting | PSub.

(** A worker, or a thread that is none. *)
Definition thread : Type := option nat * pc.

Definition global_len (s : shared) : Z := GlobalQueue.len (global (q s)).

(** After a look at the global queue that found nothing. *)
Definition not_found (s : shared) (k : stage) : pc :=
  match k with Periodic => LLoad | Batch => Steal (Z.to_nat (Z.min (num_workers (q s)) 4)) end.
Definition found (k : stage) (id : Z) : pc := match k with Periodic => Got id | Batch => BLoad id end.

Inductive tstep : shared → thread → shared → thread → Prop :=
(* push *)
| push_hint s w id :
    tstep s (Some w, Idle) (Shared (q s) (waiters s) (pushed s ++ [id]) (popped s) (lost s)) (Some w, PLocal id)
| push_none s who id :
    tstep s (who, Idle) (Shared (q s) (waiters s) (pushed s ++ [id]) (popped s) (lost s)) (who, PGlobal id)
| push_to_local s w id l l' :
    local (q s) !! w = Some l → LocalQueue.push l id = (true, l') →
    tstep s (Some w, PLocal id) (set_l s w l') (Some w, Wake Idle)
| push_local_full s w id l l' :
    local (q s) !! w = Some l → LocalQueue.push l id = (false, l') → tstep s (Some w, PLocal id) s (Some w, PGlobal id)
| push_to_global s who id :
    tstep s (who, PGlobal id) (set_g s (GlobalQueue.publish (global (q s)) (push_back (GlobalQueue.queue (global (q s))) id)))
      (who, Wake (Wake Idle))
| wake_none s who k : GlobalQueue.parked_count (global (q s)) ≤ 0 → tstep s (who, Wake k) s (who, k)
| wake_some s who k : 0 < GlobalQueue.parked_count (global (q s)) → tstep s (who, Wake k) s (who, Notify k)
| notify_nobody s who k :
    waiters s = [] → tstep s (who, Notify k) (set_g s (GlobalQueue.notify_one (global (q s)))) (who, k)
| notify_some s who k w l1 l2 :
    waiters s = l1 ++ w :: l2 →
    tstep s (who, Notify k) (set_waiters (set_g s (GlobalQueue.notify_one (global (q s)))) (l1 ++ l2)) (who, k)
| wake_one s who : tstep s (who, Idle) s (who, Notify Idle)
| wake_all s who : tstep s (who, Idle) (set_waiters s []) (who, Idle)
(* pop *)
| pop_count s w c cs :
    index (counters (q s)) (Z.of_nat w) = Ret c → index_set (counters (q s)) (Z.of_nat w) (c +[64] 1) = Ret cs →
    tstep s (Some w, Idle) (set_q s (set_counters (q s) cs))
      (Some w, if wrap 32 c mod GLOBAL_CHECK_INTERVAL =? 0 then GLoad Periodic else LLoad)
| global_none s w k : global_len s = 0 → tstep s (Some w, GLoad k) s (Some w, not_found s k)
| global_some s w k : global_len s ≠ 0 → tstep s (Some w, GLoad k) s (Some w, GLock k)
| global_take s w k id g :
    pop_front (GlobalQueue.queue (global (q s))) = Some (id, g) →
    tstep s (Some w, GLock k) (set_g s (GlobalQueue.publish (global (q s)) g)) (Some w, found k id)
| global_gone s w k :
    pop_front (GlobalQueue.queue (global (q s))) = None →
    tstep s (Some w, GLock k) (set_g s (GlobalQueue.publish (global (q s)) (GlobalQueue.queue (global (q s)))))
      (Some w, not_found s k)
| local_none s w l : local (q s) !! w = Some l → LocalQueue.len l = 0 → tstep s (Some w, LLoad) s (Some w, GLoad Batch)
| local_some s w l : local (q s) !! w = Some l → LocalQueue.len l ≠ 0 → tstep s (Some w, LLoad) s (Some w, LLock)
| local_take s w l id ids :
    local (q s) !! w = Some l → pop_front (LocalQueue.queue l) = Some (id, ids) →
    tstep s (Some w, LLock) (set_l s w (LocalQueue.publish ids)) (Some w, Got id)
| local_gone s w l :
    local (q s) !! w = Some l → pop_front (LocalQueue.queue l) = None →
    tstep s (Some w, LLock) (set_l s w (LocalQueue.publish (LocalQueue.queue l))) (Some w, GLoad Batch)
| batch_none s w id : global_len s = 0 → tstep s (Some w, BLoad id) s (Some w, Got id)
| batch_some s w id : global_len s ≠ 0 → tstep s (Some w, BLoad id) s (Some w, BLock id)
| batch_take s w id batch rest :
    drain (Nat.min (length (GlobalQueue.queue (global (q s)))) (Z.to_nat (LOCAL_CAPACITY / 2)))
      (GlobalQueue.queue (global (q s))) = (batch, rest) →
    tstep s (Some w, BLock id) (set_g s (GlobalQueue.publish (global (q s)) rest)) (Some w, BPush id batch)
| batch_push s w id b batch l ok l' :
    local (q s) !! w = Some l → LocalQueue.push l b = (ok, l') →
    tstep s (Some w, BPush id (b :: batch)) (add_lost (set_l s w l') ok b) (Some w, BPush id batch)
| batch_end s w id : tstep s (Some w, BPush id []) s (Some w, Got id)
| steal_end s w : tstep s (Some w, Steal 0) s (Some w, Empty)
| steal_self s w n q' :
    random_victim (q s) (Z.of_nat w) = Ret (Z.of_nat w, q') → tstep s (Some w, Steal (S n)) (set_q s q') (Some w, Steal n)
| steal_pick s w n v q' :
    random_victim (q s) (Z.of_nat w) = Ret (Z.of_nat v, q') → v ≠ w →
    tstep s (Some w, Steal (S n)) (set_q s q') (Some w, SLoad n v)
| steal_none s w n v l : local (q s) !! v = Some l → LocalQueue.len l = 0 → tstep s (Some w, SLoad n v) s (Some w, Steal n)
| steal_some s w n v l : local (q s) !! v = Some l → LocalQueue.len l ≠ 0 → tstep s (Some w, SLoad n v) s (Some w, SLock n v)
| steal_few s w n v l :
    local (q s) !! v = Some l → (length (LocalQueue.queue l) / 2 = 0)%nat → tstep s (Some w, SLock n v) s (Some w, Steal n)
| steal_take s w n v l first rest ids :
    local (q s) !! v = Some l → (length (LocalQueue.queue l) / 2 ≠ 0)%nat →
    drain (length (LocalQueue.queue l) / 2) (LocalQueue.queue l) = (first :: rest, ids) →
    tstep s (Some w, SLock n v) (set_l s v (LocalQueue.publish ids)) (Some w, SPush first rest)
| keep_local s w first id rest l l' :
    local (q s) !! w = Some l → LocalQueue.push l id = (true, l') →
    tstep s (Some w, SPush first (id :: rest)) (set_l s w l') (Some w, SPush first rest)
| keep_full s w first id rest l l' :
    local (q s) !! w = Some l → LocalQueue.push l id = (false, l') →
    tstep s (Some w, SPush first (id :: rest)) s (Some w, SGlobal first id rest)
| keep_global s w first id rest :
    tstep s (Some w, SGlobal first id rest)
      (set_g s (GlobalQueue.publish (global (q s)) (push_back (GlobalQueue.queue (global (q s))) id)))
      (Some w, Wake (SPush first rest))
| keep_end s w first : tstep s (Some w, SPush first []) s (Some w, Got first)
| pop_some s w id :
    tstep s (Some w, Got id) (Shared (q s) (waiters s) (pushed s) (popped s ++ [id]) (lost s)) (Some w, Idle)
(* a pop that found nothing: spin or park *)
| spin s w : tstep s (Some w, Empty) s (Some w, Idle)
| park_add s w : tstep s (Some w, Empty) (set_g s (GlobalQueue.park_enter (global (q s)))) (Some w, PCheck)
| park_not s w : GlobalQueue.park_waits (global (q s)) = false → tstep s (Some w, PCheck) s (Some w, PSub)
| park_wait s w :
    GlobalQueue.park_waits (global (q s)) = true →
    tstep s (Some w, PCheck) (set_waiters s (waiters s ++ [w])) (Some w, Waiting)
| park_notified s w : w ∉ waiters s → tstep s (Some w, Waiting) s (Some w, PSub)
| park_timeout s w l1 l2 : waiters s = l1 ++ w :: l2 → tstep s (Some w, Waiting) (set_waiters s (l1 ++ l2)) (Some w, PSub)
| park_sub s w : tstep s (Some w, PSub) (set_g s (GlobalQueue.park_leave (global (q s)))) (Some w, Idle).

Definition step : shared * list thread → shared * list thread → Prop := pool_step tstep.

(** [n] workers and any number of other threads on a fresh queue. *)
Definition init (x : shared * list thread) : Prop :=
  ∃ n others, (0 < n)%nat ∧
    x = (Shared (SimpleQueue.init new (Z.of_nat n)) [] [] [] [],
         ((λ w, (Some w, Idle)) <$> seq 0 n) ++ replicate others (None, Idle)).

(** ** What a thread carries and how full its queue may be *)

Fixpoint holds_pc (p : pc) : list Z :=
  match p with
  | PLocal id | PGlobal id | BLoad id | BLock id | Got id => [id]
  | BPush id batch => id :: batch
  | SPush first rest => first :: rest
  | SGlobal first id rest => first :: id :: rest
  | Wake k | Notify k => holds_pc k
  | _ => []
  end.
Definition holds (x : thread) : list Z := holds_pc x.2.

(** A worker that found its local queue empty knows it to be empty until it
    pushes: nobody else pushes to it. *)
Fixpoint room (p : pc) : Z :=
  match p with
  | GLoad Batch | GLock Batch | BLoad _ | BLock _ | Steal _ | SLoad _ _ | SLock _ _ | Empty | PCheck | Waiting | PSub => 0
  | BPush _ batch => LOCAL_CAPACITY - Z.of_nat (length batch)
  | Wake k | Notify k => room k
  | _ => LOCAL_CAPACITY
  end.

(** The victim a thief is looking at. *)
Fixpoint victim (p : pc) : option nat :=
  match p with SLoad _ v | SLock _ v => Some v | Wake k | Notify k => victim k | _ => None end.

(** The threads that are no workers only push and wake. *)
Fixpoint pushing (p : pc) : bool :=
  match p with Idle | PGlobal _ => true | Wake k | Notify k => pushing k | _ => false end.

Definition thread_ok (ls : list LocalQueue.t) (x : thread) : Prop :=
  match x.1 with
  | Some w =>
      (∃ l, ls !! w = Some l ∧ Z.of_nat (length (LocalQueue.queue l)) ≤ room x.2) ∧
      (∀ v, victim x.2 = Some v → is_Some (ls !! v))
  | None => pushing x.2 = true
  end.

Definition worker (x : thread) : list nat := option_list x.1.
Fixpoint parking_pc (p : pc) : Z :=
  match p with PCheck | Waiting | PSub => 1 | Wake k | Notify k => parking_pc k | _ => 0 end.
Definition parking (x : thread) : Z := parking_pc x.2.

(** A thread that will look at the queue again, or is about to wake one that
    will. *)
Definition busy (ws : list nat) (x : thread) : Prop :=
  match x.1, x.2 with
  | Some w, Waiting => w ∉ ws
  | Some _, _ => True
  | None, (Wake _ | Notify _) => True
  | None, _ => False
  end.

(** ** The queue stays well-formed and nobody's queue outgrows its bound *)

Lemma set_local_nat_wf (q : SimpleQueue.t) (w : nat) l l' :
  simple_wf q → local q !! w = Some l → LocalQueue.wf l' → simple_wf (set_local q (<[w := l']> (local q))).
Proof.
  intros Hwf Hl Hl'. pose proof (lookup_lt_Some _ _ _ Hl). pose proof (swf_local _ Hwf).
  destruct (set_local_wf q (Z.of_nat w) l' Hwf) as [_ H2]; [lia|done|]. by rewrite Nat2Z.id in H2.
Qed.

Lemma local_is_wf (q : SimpleQueue.t) (w : nat) l : simple_wf q → local q !! w = Some l → LocalQueue.wf l.
Proof. intros Hwf Hl. by eapply Forall_lookup_1; [apply Hwf|]. Qed.

Lemma publish_shorter_wf l ids :
  LocalQueue.wf l → (length ids ≤ length (LocalQueue.queue l))%nat → LocalQueue.wf (LocalQueue.publish ids).
Proof. intros [_ Hc] Hle. apply local_wf_publish. lia. Qed.

Lemma push_keeps_wf l id ok l' : LocalQueue.wf l → LocalQueue.push l id = (ok, l') → LocalQueue.wf l'.
Proof.
  intros Hwf Hp. apply local_push_full in Hp. destruct ok, Hp as [-> Hp]; [|done].
  apply local_wf_publish. rewrite length_app. simpl. lia.
Qed.

Lemma pop_front_shorter {A} (l : list A) x r : pop_front l = Some (x, r) → l = x :: r.
Proof. destruct l; simpl; intros [=]; by subst. Qed.

Lemma drain_parts n l a b : drain n l = (a, b) → l = a ++ b ∧ length a = Nat.min n (length l).
Proof. rewrite drain_spec. intros [= <- <-]. by rewrite take_drop, length_take. Qed.

(** The victim of a worker is a worker. *)
Lemma random_victim_effect (q : SimpleQueue.t) (w : nat) v q' :
  simple_wf q → is_Some (local q !! w) → random_victim q (Z.of_nat w) = Ret (v, q') →
  simple_wf q' ∧ local q' = local q ∧ global q' = global q ∧ num_workers q' = num_workers q ∧ 0 ≤ v < num_workers q.
Proof.
  intros Hwf Hw%lookup_lt_is_Some Hr. pose proof (swf_local _ Hwf).
  destruct (random_victim_spec q (Z.of_nat w)) as (v' & q'' & Hr' & Hv & Hwf' & Hl & Hg & Hn & _); [done|lia|].
  rewrite Hr in Hr'. by simplify_eq.
Qed.

Lemma counters_effect (q : SimpleQueue.t) (w : nat) c cs :
  simple_wf q → is_Some (local q !! w) → index_set (counters q) (Z.of_nat w) c = Ret cs → simple_wf (set_counters q cs).
Proof.
  intros Hwf Hw%lookup_lt_is_Some Hr. pose proof (swf_local _ Hwf).
  destruct (set_counters_wf q (Z.of_nat w) c) as [Hc Hwf']; [done|lia|]. rewrite Hr in Hc. by simplify_eq.
Qed.

Lemma worker_ok ls (w : nat) p :
  thread_ok ls (Some w, p) → ∃ l, ls !! w = Some l ∧ Z.of_nat (length (LocalQueue.queue l)) ≤ room p.
Proof. by intros [H _]. Qed.

Lemma step_queue_wf s x s' x' :
  simple_wf (q s) → thread_ok (local (q s)) x → tstep s x s' x' →
  simple_wf (q s') ∧ num_workers (q s') = num_workers (q s) ∧ length (local (q s')) = length (local (q s)).
Proof.
  intros Hwf Hok Hs. split.
  - destruct Hs; simpl; try done; try (apply set_global_wf; [done|]; first [done|apply Hwf]);
      try (destruct (worker_ok _ _ _ Hok) as (l0 & Hl0%mk_is_Some & _);
           first [by eapply (random_victim_effect (q s) w)|by eapply (counters_effect (q s) w)]);
      (eapply set_local_nat_wf; [done|done|]);
      match goal with H : local _ !! _ = Some ?l |- LocalQueue.wf _ => pose proof (local_is_wf _ _ _ Hwf H) as Hlwf end;
      try (by eapply push_keeps_wf); (eapply publish_shorter_wf; [done|]).
    + by rewrite (pop_front_shorter _ _ _ H0); simpl; lia.
    + done.
    + destruct (drain_parts _ _ _ _ H1) as [-> _]. rewrite length_app. lia.
  - destruct Hs; simpl; rewrite ?length_insert; try done;
      destruct (worker_ok _ _ _ Hok) as (l0 & Hl0 & _);
      by destruct (random_victim_effect (q s) w _ _ Hwf (mk_is_Some _ _ Hl0) H) as (_ & -> & _ & -> & _).
Qed.

(** A step can only take from the queue of another worker. *)
Lemma step_others s x s' x' w l :
  simple_wf (q s) → thread_ok (local (q s)) x → tstep s x s' x' → x.1 ≠ Some w → local (q s) !! w = Some l →
  ∃ l', local (q s') !! w = Some l' ∧ (length (LocalQueue.queue l') ≤ length (LocalQueue.queue l))%nat.
Proof.
  intros Hwf Hok Hs Hne Hl.
  destruct Hs; simpl in *; try (by exists l);
    try (rewrite list_lookup_insert_ne by congruence; by exists l);
    try (destruct (worker_ok _ _ _ Hok) as (l0 & Hl0 & _);
         destruct (random_victim_effect (q s) w0 _ _ Hwf (mk_is_Some _ _ Hl0) H) as (_ & -> & _); by exists l).
  destruct (decide (v = w)) as [->|]; [|rewrite list_lookup_insert_ne by done; by exists l].
  rewrite list_lookup_insert_eq by (by eapply lookup_lt_Some). simplify_eq. eexists. split; [done|].
  destruct (drain_parts _ _ _ _ H1) as [-> _]. simpl. rewrite length_app. simpl. lia.
Qed.

Lemma ok_others ls ls' x :
  thread_ok ls x → length ls' = length ls →
  (∀ w l, x.1 = Some w → ls !! w = Some l →
     ∃ l', ls' !! w = Some l' ∧ (length (LocalQueue.queue l') ≤ length (LocalQueue.queue l))%nat) →
  thread_ok ls' x.
Proof.
  destruct x as [[w|] p]; intros Hx Hlen Ho; simpl in *; [|done].
  destruct Hx as [(l & Hl & Hr) Hv]. destruct (Ho w l) as (l' & Hl' & Hle); [done..|]. split.
  - exists l'. split; [done|]. simpl in *. lia.
  - intros v Hv'. apply lookup_lt_is_Some. rewrite Hlen. apply lookup_lt_is_Some. by apply Hv.
Qed.

(** The queue a worker has just written. *)
Lemma ok_written ls w l ids p :
  ls !! w = Some l → Z.of_nat (length ids) ≤ room p → victim p = None →
  thread_ok (<[w := LocalQueue.publish ids]> ls) (Some w, p).
Proof.
  intros Hl Hr Hv. split; [|intros v; simpl; by rewrite Hv]. exists (LocalQueue.publish ids). split; [|done].
  apply list_lookup_insert_eq. by eapply lookup_lt_Some.
Qed.

Lemma ok_here ls w l p :
  ls !! w = Some l → Z.of_nat (length (LocalQueue.queue l)) ≤ room p → (∀ v, victim p = Some v → is_Some (ls !! v)) →
  thread_ok ls (Some w, p).
Proof. intros Hl Hr Hv. split; [|done]. by exists l. Qed.

(** Where the bound of a worker's queue is the capacity. *)
Lemma ok_full (q : SimpleQueue.t) w p :
  simple_wf q → is_Some (local q !! w) → room p = LOCAL_CAPACITY → victim p = None → thread_ok (local q) (Some w, p).
Proof.
  intros Hwf [l Hl] Hr Hv. eapply ok_here; [done| |intros v; by rewrite Hv].
  rewrite Hr. by apply (local_is_wf _ _ _ Hwf Hl).
Qed.

(** Where a worker goes without having touched its queue. *)
Lemma ok_weaken ls t p p' :
  thread_ok ls (t, p) → room p ≤ room p' → (pushing p = true → pushing p' = true) →
  (victim p' = None ∨ victim p' = victim p) → thread_ok ls (t, p').
Proof.
  destruct t as [w|]; simpl; [|by intros ? ? H ?; apply H].
  intros [(l & Hl & Hr) Hv] Hle _ Hv'. eapply (ok_here _ _ l); [done|simpl in *; lia|].
  intros v Hvv. destruct Hv' as [Hn|He]; [congruence|]. apply Hv. simpl. congruence.
Qed.

Lemma local_len_zero (q : SimpleQueue.t) w l :
  simple_wf q → local q !! w = Some l → LocalQueue.len l = 0 → length (LocalQueue.queue l) = 0%nat.
Proof. intros Hwf Hl H0. destruct (local_is_wf _ _ _ Hwf Hl) as [Hlen _]. lia. Qed.

Lemma step_ok s x s' x' :
  simple_wf (q s) → thread_ok (local (q s)) x → tstep s x s' x' → thread_ok (local (q s')) x'.
Proof.
  intros Hwf Hok Hs. destruct (step_queue_wf _ _ _ _ Hwf Hok Hs) as (Hwf' & Hn & Hlen).
  assert (Hfull : ∀ w p, x' = (Some w, p) → x.1 = Some w → room p = LOCAL_CAPACITY → victim p = None →
            thread_ok (local (q s')) x').
  { intros w p -> Hx Hr Hv. destruct x as [t p0]. simpl in Hx. subst t.
    destruct (worker_ok _ _ _ Hok) as (l & Hl & _). apply ok_full; [done| |done..].
    apply lookup_lt_is_Some. rewrite Hlen. by eapply lookup_lt_Some. }
  destruct Hs; try (by eapply Hfull);
    try (eapply ok_weaken; [exact Hok|simpl; unfold LOCAL_CAPACITY; lia|done|by auto]);
    try (destruct k; by eapply ok_weaken; [exact Hok|simpl..|auto]); destruct (worker_ok _ _ _ Hok) as (l0 & Hl0 & Hr).
  - destruct (wrap 32 c mod GLOBAL_CHECK_INTERVAL =? 0); by eapply Hfull.
  - eapply ok_here; [exact H| |done]. by rewrite (local_len_zero _ _ _ Hwf H H0).
  - eapply ok_written; [exact H| |done]. by destruct (LocalQueue.queue l).
  - eapply ok_weaken; [exact Hok| |done|by auto]. simpl. destruct (drain_parts _ _ _ _ H) as [_ ->].
    change (Z.to_nat (LOCAL_CAPACITY / 2)) with 128%nat. unfold LOCAL_CAPACITY. lia.
  - simplify_eq. simpl in Hr. apply local_push_full in H0. destruct ok, H0 as [-> H0]; [|lia].
    eapply ok_written; [done| |done]. rewrite length_app. simpl. lia.
  - destruct (random_victim_effect (q s) w _ _ Hwf (mk_is_Some _ _ Hl0) H) as (_ & Hl & _).
    simpl. rewrite Hl. by eapply ok_weaken; [exact Hok|..|auto].
  - destruct (random_victim_effect (q s) w _ _ Hwf (mk_is_Some _ _ Hl0) H) as (_ & Hl & _ & _ & Hv).
    simpl. rewrite Hl. eapply ok_here; [exact Hl0|done|]. intros v' [= <-].
    apply lookup_lt_is_Some. pose proof (swf_local _ Hwf). lia.
Qed.

(** ** A step moves ids, it makes and loses none *)

Lemma eq_perm {A} (l k : list A) : l = k → l ≡ₚ k.
Proof. by intros ->. Qed.

Lemma contents_local (q : SimpleQueue.t) (w : nat) l l' :
  local q !! w = Some l →
  LocalQueue.queue l ++ simple_contents (set_local q (<[w := l']> (local q))) ≡ₚ LocalQueue.queue l' ++ simple_contents q.
Proof. intros Hl. destruct (set_local_contents q w l Hl) as (rest & H1 & H2). rewrite H1, H2. solve_Permutation. Qed.

Lemma contents_global (q : SimpleQueue.t) g :
  GlobalQueue.queue (global q) ++ simple_contents (set_global q g) ≡ₚ GlobalQueue.queue g ++ simple_contents q.
Proof. unfold simple_contents. simpl. solve_Permutation. Qed.

Lemma contents_same (q q' : SimpleQueue.t) : local q' = local q → global q' = global q → simple_contents q' = simple_contents q.
Proof. unfold simple_contents. by intros -> ->. Qed.

Lemma step_not_lost s x s' x' : thread_ok (local (q s)) x → tstep s x s' x' → lost s' = lost s.
Proof.
  intros Hok Hs. destruct Hs; try done. simpl. destruct (worker_ok _ _ _ Hok) as (l0 & Hl0 & Hr).
  simplify_eq. simpl in Hr. apply local_push_full in H0. destruct ok; [done|lia].
Qed.

Lemma holds_not_found s k t : holds (t, not_found s k) = [].
Proof. by destruct k. Qed.
Lemma holds_found k id t : holds (t, found k id) = [id].
Proof. by destruct k. Qed.

Lemma step_perm s x s' x' :
  simple_wf (q s) → thread_ok (local (q s)) x → tstep s x s' x' →
  pushed s' ++ simple_contents (q s) ++ holds x ++ popped s ≡ₚ
  pushed s ++ simple_contents (q s') ++ holds x' ++ popped s'.
Proof.
  intros Hwf Hok Hs.
  assert (Hvictim : ∀ w v q', is_Some (local (q s) !! w) → random_victim (q s) (Z.of_nat w) = Ret (v, q') →
            simple_contents q' = simple_contents (q s)).
  { intros w v q' Hw Hr. destruct (random_victim_effect _ _ _ _ Hwf Hw Hr) as (_ & ? & ? & _). by apply contents_same. }
  destruct Hs; cbn [q pushed popped set_q set_g set_l set_waiters add_lost];
    rewrite ?holds_not_found, ?holds_found; try done;
    try match goal with H : LocalQueue.push _ _ = (true, _) |- _ => apply local_push_full in H as [-> _] end;
    try match goal with H : pop_front _ = Some _ |- _ => apply pop_front_shorter, eq_perm in H end;
    try match goal with H : drain _ _ = _ |- _ => apply drain_parts in H as [H%eq_perm _] end;
    try match goal with H : local _ !! _ = Some _ |- context [set_local _ (<[_ := ?l']> _)] =>
      pose proof (contents_local _ _ _ l' H) end;
    try match goal with |- context [set_global _ ?g] => pose proof (contents_global (q s) g) end;
    try (destruct (worker_ok _ _ _ Hok) as (l0 & Hl0 & Hr);
         by rewrite (Hvictim w _ _ (mk_is_Some _ _ Hl0) H));
    unfold holds, push_back in *; simpl in *; try solve [clear Hvictim; perm_solver].
  - change (simple_contents (set_counters (q s) cs)) with (simple_contents (q s)). by destruct (_ =? 0).
  - destruct (worker_ok _ _ _ Hok) as (l0 & Hl0 & Hr). simplify_eq. simpl in Hr.
    apply local_push_full in H0. destruct ok, H0 as [-> H0]; [|lia]. clear Hvictim. simpl in *. perm_solver.
Qed.

(** ** Parking *)

Lemma step_parked s x s' x' :
  simple_wf (q s) → thread_ok (local (q s)) x → tstep s x s' x' →
  GlobalQueue.parked (global (q s')) = GlobalQueue.parked (global (q s)) - parking x + parking x'.
Proof.
  intros Hwf Hok Hs. unfold parking.
  destruct Hs; try destruct k; simpl; try lia;
    try (destruct (worker_ok _ _ _ Hok) as (l0 & Hl0 & Hr);
         destruct (random_victim_effect (q s) w _ _ Hwf (mk_is_Some _ _ Hl0) H) as (_ & _ & -> & _); lia).
  destruct (_ =? 0); simpl; lia.
Qed.

(** Who waits after a step waited before it, or starts to with it. *)
Lemma step_waiters s x s' x' w :
  NoDup (waiters s) → tstep s x s' x' → w ∈ waiters s' →
  x' = (Some w, Waiting) ∨ (w ∈ waiters s ∧ x ≠ (Some w, Waiting)).
Proof.
  intros Hnd Hs Hw.
  destruct Hs; simpl in *; try (right; split; [done|congruence]).
  - right. split; [|congruence]. rewrite H. set_solver.
  - by apply elem_of_nil in Hw.
  - apply elem_of_app in Hw as [Hw| ->%list_elem_of_singleton]; [right; split; [done|congruence]|by left].
  - right. rewrite H in Hnd |- *. split; [set_solver|]. intros [= ->].
    apply NoDup_app in Hnd as (_ & Hn1 & [Hn2 _]%NoDup_cons). set_solver.
Qed.

Lemma step_waiters_nodup s x s' x' :
  NoDup (waiters s) → (∀ w, x.1 = Some w → x.2 ≠ Waiting → w ∉ waiters s) → tstep s x s' x' → NoDup (waiters s').
Proof.
  intros Hnd Hx Hs.
  assert (Hmid : ∀ w l1 l2, waiters s = l1 ++ w :: l2 → NoDup (l1 ++ l2)).
  { intros w l1 l2 He. rewrite He, <- Permutation_middle in Hnd. by apply NoDup_cons in Hnd as [_ ?]. }
  destruct Hs; simpl in *; eauto; [apply NoDup_nil_2|].
  apply NoDup_app. split_and!; [done| |apply NoDup_singleton].
  intros w' Hw' ->%list_elem_of_singleton. by apply (Hx w).
Qed.

(** Another thread stays busy. *)
Lemma busy_others s x s' x' y :
  NoDup (waiters s) → tstep s x s' x' → x'.1 = x.1 → (∀ w, x.1 = Some w → y.1 ≠ Some w) →
  busy (waiters s) y → busy (waiters s') y.
Proof.
  intros Hnd Hs Hx Hy Hb. destruct y as [[w|] p]; [|done]. destruct p; try done. simpl in *. intros Hw.
  destruct (step_waiters _ _ _ _ _ Hnd Hs Hw) as [->|[? _]]; [|done]. by apply (Hy w).
Qed.

Lemma step_who s x s' x' : tstep s x s' x' → x'.1 = x.1.
Proof. by destruct 1. Qed.

(** A thread that stops being busy leaves nobody asleep over work: the work is
    gone, nobody sleeps, or it has woken somebody. *)
Lemma step_awake s x s' x' :
  NoDup (waiters s) → (waiters s ≠ [] → 0 < GlobalQueue.parked_count (global (q s))) →
  (∀ w, x.1 = Some w → x.2 ≠ Waiting → w ∉ waiters s) → tstep s x s' x' →
  GlobalQueue.queue (global (q s')) = [] ∨ waiters s' = [] ∨ busy (waiters s') x' ∨
  (x.1 = None ∧ ∃ w, w ∈ waiters s ∧ w ∉ waiters s') ∨
  (¬ busy (waiters s) x ∧ global (q s') = global (q s) ∧ waiters s' = waiters s).
Proof.
  intros Hnd Hpark Hx Hs.
  assert (Hin : ∀ w p, x.1 = Some w → x.2 ≠ Waiting → waiters s' ⊆ waiters s → busy (waiters s') (Some w, p)).
  { intros w p Hw Hp Hsub. destruct p; try done. simpl. intros Hw'. by apply (Hx w), Hsub. }
  destruct Hs; try (by right; right; left); simpl in *.
  - destruct who as [w|]; [by right; right; left|]. right. right. right. right. split_and!; [by intros []|done..].
  - destruct who as [w|]; by right; right; left.
  - destruct (decide (waiters s = [])) as [|Hw]; [by right; left|]. specialize (Hpark Hw). lia.
  - destruct who as [w|]; by right; right; left.
  - by right; left.
  - destruct who as [w0|].
    + right. right. left. apply Hin; [done..|]. rewrite H. set_solver.
    + right. right. right. left. split; [done|]. exists w. rewrite H in Hnd |- *. split; [set_solver|].
      apply NoDup_app in Hnd as (_ & Hn1 & [Hn2 _]%NoDup_cons). set_solver.
  - destruct who as [w|]; by right; right; left.
  - by right; left.
  - right. right. left. by destruct (_ =? 0).
  - right. right. left. by destruct k.
  - right. right. left. by destruct k.
  - right. right. left. by destruct k.
  - left. unfold GlobalQueue.park_waits in H. by destruct (GlobalQueue.queue _).
Qed.

(** ** The invariant of the pool *)

Record inv (c : shared * list thread) : Prop := {
  inv_wf : simple_wf (q c.1);
  inv_some : (0 < length (local (q c.1)))%nat;
  inv_ok : Forall (thread_ok (local (q c.1))) c.2;
  inv_workers : collect worker c.2 ≡ₚ seq 0 (length (local (q c.1)));
  inv_ids : pushed c.1 ≡ₚ simple_contents (q c.1) ++ collect holds c.2 ++ popped c.1;
  inv_lost : lost c.1 = [];
  inv_parked : GlobalQueue.parked_count (global (q c.1)) = sum_over parking c.2;
  inv_waiters : NoDup (waiters c.1);
  inv_waiting : ∀ w, w ∈ waiters c.1 → (Some w, Waiting) ∈ c.2;
  inv_busy : GlobalQueue.queue (global (q c.1)) = [] ∨ waiters c.1 = [] ∨ ∃ y, y ∈ c.2 ∧ busy (waiters c.1) y
}.

Lemma parking_nonneg x : 0 ≤ parking x.
Proof. destruct x as [t p]. unfold parking. simpl. by induction p. Qed.

(** No two threads are the same worker. *)
Lemma worker_unique l1 x l2 y w ns :
  collect worker (l1 ++ x :: l2) ≡ₚ seq 0 ns → x.1 = Some w → y ∈ l1 ++ l2 → y.1 ≠ Some w.
Proof.
  rewrite collect_middle. intros Hp Hx Hy Hyw. pose proof (NoDup_seq 0 ns) as Hnd. rewrite <- Hp in Hnd.
  unfold worker at 1 in Hnd. rewrite Hx in Hnd. simpl in Hnd. apply NoDup_cons in Hnd as [Hn _].
  apply Hn, elem_of_collect. exists y. unfold worker. rewrite Hyw. set_solver.
Qed.

Lemma waiting_not_others s l1 x l2 :
  inv (s, l1 ++ x :: l2) → ∀ w, x.1 = Some w → x.2 ≠ Waiting → w ∉ waiters s.
Proof.
  intros Hi w Hx Hp Hw. apply (inv_waiting _ Hi) in Hw. simpl in Hw.
  apply elem_of_app in Hw as [Hw|[<-|Hw]%elem_of_cons]; try done;
    (eapply (worker_unique l1 x l2 (Some w, Waiting)); [apply (inv_workers _ Hi)|done|set_solver|done]).
Qed.

Lemma waiters_parked c : inv c → waiters c.1 ≠ [] → 0 < GlobalQueue.parked_count (global (q c.1)).
Proof.
  intros Hi Hw. destruct (waiters c.1) as [|w ws] eqn:He; [done|].
  assert (Hin : (Some w, Waiting) ∈ c.2) by (apply (inv_waiting _ Hi); rewrite He; set_solver).
  rewrite (inv_parked _ Hi). apply list_elem_of_split in Hin as (l1 & l2 & ->). rewrite sum_over_middle.
  change (parking (Some w, Waiting)) with 1. apply Z.lt_le_trans with (1 + 0); [lia|].
  apply Z.add_le_mono_l, sum_over_nonneg. intros. apply parking_nonneg.
Qed.

Lemma queue_inv_init c : init c → inv c.
Proof.
  intros (n & others & Hn & ->).
  destruct (simple_init_wf (Z.of_nat n)) as [Hwf Hc]; [lia|].
  assert (Hls : ∀ y, y ∈ ((λ w, (Some w, Idle)) <$> seq 0 n) ++ replicate others (None, Idle) →
            y.2 = Idle ∧ ∀ w, y.1 = Some w → (w < n)%nat).
  { intros y [(w & -> & Hw%elem_of_seq)%list_elem_of_fmap|[-> _]%elem_of_replicate]%elem_of_app;
      split; try done. intros w' [= <-]. lia. }
  constructor; simpl.
  - done.
  - rewrite length_replicate. lia.
  - apply Forall_forall. intros [[w|] p] Hy; apply Hls in Hy as [Hp Hw]; simpl in *; subst p; [|done].
    apply (ok_full (SimpleQueue.init new (Z.of_nat n))); [done| |done..].
    apply lookup_lt_is_Some. simpl. rewrite length_replicate. specialize (Hw w eq_refl). lia.
  - unfold collect. rewrite bind_app, length_replicate, Nat2Z.id.
    assert (Hr : replicate others (None, Idle) ≫= worker = []).
    { clear. induction others as [|m IH]; [done|]. exact IH. }
    rewrite Hr, (right_id_L [] (++)). apply eq_perm. clear.
    induction (seq 0 n) as [|w l IH]; [done|]. rewrite fmap_cons, bind_cons, IH. done.
  - rewrite Hc. simpl. apply eq_perm. rewrite (right_id_L [] (++)). symmetry. apply collect_nil.
    intros [t p] Hy. apply Hls in Hy as [Hp _]. simpl in Hp. by subst p.
  - done.
  - symmetry. apply sum_over_zero. intros [t p] Hy. apply Hls in Hy as [Hp _]. simpl in Hp. by subst p.
  - apply NoDup_nil_2.
  - intros w []%elem_of_nil.
  - by left.
Qed.

(** The busy thread of the invariant after a step. *)
Lemma inv_busy_step s l1 x l2 s' x' :
  inv (s, l1 ++ x :: l2) → tstep s x s' x' →
  GlobalQueue.queue (global (q s')) = [] ∨ waiters s' = [] ∨ ∃ y, y ∈ l1 ++ x' :: l2 ∧ busy (waiters s') y.
Proof.
  intros Hi Hs. pose proof (waiting_not_others _ _ _ _ Hi) as Hx.
  assert (Hu : ∀ y, y ∈ l1 ++ l2 → ∀ w, x.1 = Some w → y.1 ≠ Some w).
  { intros y Hy w Hw. by eapply worker_unique; [apply (inv_workers _ Hi)|..]. }
  destruct (step_awake _ _ _ _ (inv_waiters _ Hi) (waiters_parked _ Hi) Hx Hs)
    as [He|[He|[Hb|[[Hn (w & Hw & Hw')]|(Hb & Hg & Hws)]]]]; [by left|by right; left| | |].
  - right. right. exists x'. set_solver.
  - right. right. exists (Some w, Waiting). split; [|done].
    pose proof (inv_waiting _ Hi w Hw) as Hin. simpl in Hin.
    apply elem_of_app in Hin as [?|[<-|?]%elem_of_cons]; [set_solver|done|set_solver].
  - rewrite Hg, Hws. destruct (inv_busy _ Hi) as [?|[?|(y & Hy & Hyb)]]; [by left|by right; left|].
    right. right. exists y. split; [|done]. simpl in Hy.
    apply elem_of_app in Hy as [?|[->|?]%elem_of_cons]; [set_solver|done|set_solver].
Qed.

Lemma queue_inv_step c c' : inv c → step c c' → inv c'.
Proof.
  intros Hi Hst. revert Hi. destruct Hst as [s x s' x' l1 l2 Hs]. intros Hi.
  pose proof (waiting_not_others _ _ _ _ Hi) as Hx. pose proof (inv_busy_step _ _ _ _ _ _ Hi Hs) as Hbusy.
  destruct Hi as [Hwf Hpos Hok Hwk Hids Hlost Hpk Hnd Hwt _]; simpl in *.
  assert (Hxok : thread_ok (local (q s)) x) by (apply Forall_app in Hok as [_ [? _]%Forall_cons]; done).
  destruct (step_queue_wf _ _ _ _ Hwf Hxok Hs) as (Hwf' & Hn & Hlen). pose proof (step_who _ _ _ _ Hs) as Hwho.
  constructor; simpl; try done.
  - by rewrite Hlen.
  - pose proof (step_ok _ _ _ _ Hwf Hxok Hs) as Hx'.
    assert (Ho : ∀ y, y ∈ l1 ++ l2 → thread_ok (local (q s')) y).
    { intros y Hy. eapply ok_others; [eapply Forall_forall; [exact Hok|set_solver]|done|].
      intros w l Hw Hl. apply (step_others s x s' x' w l Hwf Hxok Hs); [|done].
      intros Hxw. by apply (worker_unique _ _ _ _ _ _ Hwk Hxw Hy). }
    apply Forall_forall. intros y Hy. apply elem_of_app in Hy as [?|[->|?]%elem_of_cons]; [|done|]; apply Ho; set_solver.
  - rewrite Hlen, <- Hwk, !collect_middle. unfold worker at 1 3. by rewrite Hwho.
  - pose proof (step_perm _ _ _ _ Hwf Hxok Hs) as Hp. rewrite collect_middle in Hids |- *. clear Hwk. perm_solver.
  - by rewrite (step_not_lost _ _ _ _ Hxok Hs).
  - unfold GlobalQueue.parked_count in *. rewrite (step_parked _ _ _ _ Hwf Hxok Hs), Hpk, !sum_over_middle. lia.
  - by eapply step_waiters_nodup.
  - intros w Hw. destruct (step_waiters _ _ _ _ w Hnd Hs Hw) as [->|[Hin Hne]]; [set_solver|].
    apply Hwt in Hin. apply elem_of_app in Hin as [?|[<-|?]%elem_of_cons]; [set_solver|done|set_solver].
Qed.

Lemma reachable_inv c : reachable step init c → inv c.
Proof. apply reachable_invariant; [apply queue_inv_init|apply queue_inv_step]. Qed.

(** ** What the interleavings guarantee *)

(** A worker that nobody has notified yet, or a thread with nothing to do. *)
Definition asleep (ws : list nat) (y : thread) : Prop :=
  match y with
  | (Some w, Waiting) => w ∈ ws
  | (None, Idle) => True
  | _ => False
  end.

Lemma asleep_not_busy ws y : asleep ws y → ¬ busy ws y.
Proof. destruct y as [[w|] []]; simpl; try done; auto. Qed.

Lemma asleep_holds ws y : asleep ws y → holds y = [].
Proof. by destruct y as [[w|] []]. Qed.

Lemma worker_thread c w :
  inv c → (w < length (local (q c.1)))%nat → ∃ p, (Some w, p) ∈ c.2.
Proof.
  intros Hi Hw. assert (Hin : w ∈ seq 0 (length (local (q c.1)))) by (apply elem_of_seq; lia).
  rewrite <- (inv_workers _ Hi) in Hin. apply elem_of_collect in Hin as ([t p] & Hy & Hin).
  unfold worker in Hin. simpl in Hin. destruct t as [w'|]; simpl in Hin; [|by apply elem_of_nil in Hin].
  apply list_elem_of_singleton in Hin as ->. by exists p.
Qed.

(** C8: Whatever the interleaving of pushes, pops, steals and parking, every id
    that was pushed is in a queue, in the hands of a thread in the middle of
    an operation, or popped, and it is there as often as it was pushed; no
    batch ever meets a full local queue. *)
Theorem queue_conserves_ids c :
  reachable step init c →
  pushed c.1 ≡ₚ simple_contents (q c.1) ++ collect holds c.2 ++ popped c.1 ∧ lost c.1 = [].
Proof. intros Hi%reachable_inv. split; [apply (inv_ids _ Hi)|apply (inv_lost _ Hi)]. Qed.

(** C6: No work is left behind: when every worker waits in [park] with no
    notification on its way and no other thread is in the middle of a call,
    all the queues are empty and every id pushed has been popped. *)
Theorem queue_no_stranded_work c :
  reachable step init c → Forall (asleep (waiters c.1)) c.2 →
  simple_contents (q c.1) = [] ∧ pushed c.1 ≡ₚ popped c.1.
Proof.
  intros Hi%reachable_inv Ha. rewrite Forall_forall in Ha.
  assert (Hc : simple_contents (q c.1) = []).
  { unfold simple_contents.
    assert (Hg : GlobalQueue.queue (global (q c.1)) = []).
    { destruct (inv_busy _ Hi) as [?|[Hw|(y & Hy & Hb)]]; [done| |by destruct (asleep_not_busy _ _ (Ha y Hy))].
      destruct (worker_thread c 0 Hi (inv_some _ Hi)) as [p Hp]. specialize (Ha _ Hp).
      destruct p; try done. simpl in Ha. rewrite Hw in Ha. by apply elem_of_nil in Ha. }
    rewrite Hg, (right_id_L [] (++)). apply collect_nil. intros l [w Hl]%list_elem_of_lookup_1.
    destruct (worker_thread c w Hi) as [p Hp]; [by eapply lookup_lt_Some|].
    pose proof (Ha _ Hp) as Hw. destruct p; try done.
    pose proof (inv_ok _ Hi) as Hok. rewrite Forall_forall in Hok. destruct (worker_ok _ _ _ (Hok _ Hp)) as (l' & Hl' & Hr).
    simplify_eq. simpl in Hr. by destruct (LocalQueue.queue l). }
  split; [done|]. rewrite (inv_ids _ Hi), Hc, collect_nil; [done|]. intros y Hy. by eapply asleep_holds, Ha.
Qed.

Lemma wake_steps s who k : ∃ s' y', tstep s (who, Wake k) s' y'.
Proof.
  destruct (Z.le_gt_cases (GlobalQueue.parked_count (global (q s))) 0);
    eexists _, _; [by apply wake_none|by apply wake_some].
Qed.

Lemma notify_steps s who k : ∃ s' y', tstep s (who, Notify k) s' y'.
Proof.
  destruct (waiters s) as [|w ws] eqn:Hw; eexists _, _; [by apply notify_nobody|by apply (notify_some s who k w [])].
Qed.

Lemma steal_steps s w n : simple_wf (q s) → is_Some (local (q s) !! w) → ∃ s' y', tstep s (Some w, Steal n) s' y'.
Proof.
  intros Hwf Hw%lookup_lt_is_Some. pose proof (swf_local _ Hwf). destruct n as [|n]; [eexists _, _; apply steal_end|].
  destruct (random_victim_spec (q s) (Z.of_nat w)) as (v & q' & Hr & Hv & _); [done|lia|].
  rewrite <- (Z2Nat.id v) in Hr by lia.
  destruct (decide (Z.to_nat v = w)) as [He|Hne]; eexists _, _; [rewrite He in Hr; by apply steal_self|by eapply steal_pick].
Qed.

Lemma drain_half l ids : (length l / 2 ≠ 0)%nat → drain (length l / 2) l ≠ ([], ids).
Proof.
  intros Hn [_ Hd]%drain_parts. cbn [length] in Hd.
  assert (length l / 2 ≤ length l)%nat by (apply Nat.Div0.div_le_upper_bound; lia). lia.
Qed.

Lemma steal_lock_steps s w n v : is_Some (local (q s) !! v) → ∃ s' y', tstep s (Some w, SLock n v) s' y'.
Proof.
  intros [l Hl]. destruct (decide (length (LocalQueue.queue l) / 2 = 0)%nat) as [|Hne];
    [eexists _, _; by eapply steal_few|].
  destruct (drain (length (LocalQueue.queue l) / 2) (LocalQueue.queue l)) as [[|first rest] ids] eqn:Hd;
    [|eexists _, _; by eapply steal_take].
  by apply drain_half in Hd.
Qed.

Lemma push_steps s w p :
  is_Some (local (q s) !! w) → match p with PLocal _ | BPush _ _ | SPush _ _ => True | _ => False end →
  ∃ s' y', tstep s (Some w, p) s' y'.
Proof.
  intros [l Hl] Hp. destruct p as [|id|id| | | | | | | | |id [|b bs]| | | |id [|b bs]| | | | | |]; try done;
    try (eexists _, _; by constructor).
  - destruct (LocalQueue.push l id) as [[] l'] eqn:Hpu; eexists _, _; [by eapply push_to_local|by eapply push_local_full].
  - destruct (LocalQueue.push l b) as [ok l'] eqn:Hpu; eexists _, _. by eapply batch_push.
  - destruct (LocalQueue.push l b) as [[] l'] eqn:Hpu; eexists _, _; [by eapply keep_local|by eapply keep_full].
Qed.

Lemma count_steps s w : simple_wf (q s) → is_Some (local (q s) !! w) → ∃ s' y', tstep s (Some w, Idle) s' y'.
Proof.
  intros Hwf Hw%lookup_lt_is_Some. pose proof (swf_local _ Hwf). pose proof (swf_counters _ Hwf).
  destruct (index_is_Ret (counters (q s)) (Z.of_nat w)) as (c & Hc & _); [lia|].
  eexists _, _. eapply pop_count; [done|]. apply index_set_Ret. lia.
Qed.

Lemma thread_steps s x : simple_wf (q s) → thread_ok (local (q s)) x → ∃ s' x', tstep s x s' x'.
Proof.
  intros Hwf Hok. destruct x as [[w|] p].
  - destruct (worker_ok _ _ _ Hok) as (l & Hl & _), Hok as [_ Hv].
    destruct p; simpl in Hv; eauto using wake_steps, notify_steps, steal_steps, push_steps, count_steps, steal_lock_steps, tstep.
    + destruct (decide (global_len s = 0)); eauto using tstep.
    + destruct (pop_front (GlobalQueue.queue (global (q s)))) as [[id g]|] eqn:Hg; eauto using tstep.
    + destruct (decide (LocalQueue.len l = 0)); eauto using tstep.
    + destruct (pop_front (LocalQueue.queue l)) as [[id g]|] eqn:Hg; eauto using tstep.
    + destruct (decide (global_len s = 0)); eauto using tstep.
    + eexists _, _. eapply batch_take, surjective_pairing.
    + destruct (Hv v eq_refl) as [lv Hlv]. destruct (decide (LocalQueue.len lv = 0)); eauto using tstep.
    + destruct (GlobalQueue.park_waits (global (q s))) eqn:Hp; eauto using tstep.
    + destruct (decide (w ∈ waiters s)) as [(l1 & l2 & Hws)%list_elem_of_split|]; eauto using tstep.
  - destruct p; try done; eauto using wake_steps, notify_steps, tstep.
Qed.

(** Nothing panics and nobody is stuck: every thread has a next step in every
    reachable state, a wait in [park] included, which can time out. *)
Theorem queue_never_stuck c y :
  reachable step init c → y ∈ c.2 → ∃ s' y', tstep c.1 y s' y'.
Proof.
  intros Hi%reachable_inv Hy. pose proof (inv_ok _ Hi) as Hok. rewrite Forall_forall in Hok. specialize (Hok _ Hy).
  by apply thread_steps; [apply (inv_wf _ Hi)|].
Qed.

(** ** Alone, the steps are the operations

    A thread that runs a whole [push] or [pop] with nobody between its steps
    leaves the queue the sequential definitions compute. *)
#[local] Notation "'solo' x y" := (rtc (solo_step tstep) x y) (at level 10, x at level 9, y at level 9).

(** What an operation did to the histories of pushes and pops. *)
Definition history (s : shared) : list Z * list Z := (pushed s, popped s).

Lemma local_op_inv {R} (f : LocalQueue.t → R * LocalQueue.t) (q : SimpleQueue.t) w r q' :
  (l ← index (local q) w; let '(r, l') := f l in ls ← index_set (local q) w l'; Ret (r, set_local q ls)) = Ret (r, q') →
  ∃ l l', local q !! Z.to_nat w = Some l ∧ 0 ≤ w ∧ f l = (r, l') ∧ q' = set_local q (<[Z.to_nat w := l']> (local q)).
Proof.
  destruct (index (local q) w) as [l|] eqn:Hl; simpl; [|done]. apply index_Ret in Hl as [H0 Hl].
  destruct (f l) as [r0 l'] eqn:Hf. pose proof (lookup_lt_Some _ _ _ Hl).
  rewrite index_set_Ret by lia. intros [= -> <-]. by exists l, l'.
Qed.

Lemma local_push_inv (q : SimpleQueue.t) (w : nat) id ok q' :
  local_push q (Z.of_nat w) id = Ret (ok, q') →
  ∃ l l', local q !! w = Some l ∧ LocalQueue.push l id = (ok, l') ∧ q' = set_local q (<[w := l']> (local q)).
Proof.
  intros (l & l' & Hl & _ & Hf & ->)%(local_op_inv (λ l, LocalQueue.push l id)). rewrite Nat2Z.id in *. by exists l, l'.
Qed.

(** A local queue that is full stays as it is. *)
Lemma local_push_full_inv (q : SimpleQueue.t) (w : nat) id q' :
  local_push q (Z.of_nat w) id = Ret (false, q') →
  ∃ l l', local q !! w = Some l ∧ LocalQueue.push l id = (false, l') ∧ q' = q.
Proof.
  intros (l & l' & Hl & Hf & ->)%local_push_inv. exists l, l'. split_and!; [done..|].
  pose proof (local_push_full _ _ _ _ Hf) as [-> _]. by apply set_local_id.
Qed.

Lemma solo_wake s who k :
  ∃ ws, solo (s, (who, Wake k)) (set_waiters (set_q s (wake_if_parked (q s))) ws, (who, k)).
Proof.
  unfold wake_if_parked. destruct (Z.ltb_spec 0 (GlobalQueue.parked_count (global (q s)))) as [Hp|Hp].
  - destruct (waiters s) as [|w ws] eqn:Hw.
    + exists []. solo_by wake_some. apply rtc_once.
      unfold solo_step. simpl. rewrite <- Hw at 1. by apply notify_nobody.
    + exists ws. solo_by wake_some. apply rtc_once. by apply (notify_some s who k w []).
  - exists (waiters s). destruct s. apply rtc_once. by apply wake_none.
Qed.

(** [GlobalQueue::push], from the step that takes the lock. *)
Lemma solo_global_push s who id k p :
  tstep s (who, p) (set_g s (GlobalQueue.publish (global (q s)) (push_back (GlobalQueue.queue (global (q s))) id))) (who, Wake k) →
  ∃ ws, solo (s, (who, p)) (set_waiters (set_g s (GlobalQueue.push (global (q s)) id)) ws, (who, k)).
Proof.
  intros Ht. destruct (solo_wake (set_g s (GlobalQueue.publish (global (q s)) (push_back (GlobalQueue.queue (global (q s))) id))) who k)
    as [ws Hw]. exists ws. eapply (rtc_l _ _ (_, _)); [exact Ht|].
  refine (eq_rect _ (λ x, solo _ (x, _)) Hw _ _).
  unfold wake_if_parked, set_g, set_q, set_waiters, GlobalQueue.push, GlobalQueue.parked_count, GlobalQueue.wake_one. simpl.
  by destruct (0 <? GlobalQueue.parked (global (q s))).
Qed.

Lemma solo_keep ids s w first q' :
  keep_stolen (q s) (Z.of_nat w) ids = Ret q' →
  ∃ s', solo (s, (Some w, SPush first ids)) (s', (Some w, SPush first [])) ∧ q s' = q' ∧ history s' = history s.
Proof.
  revert s. induction ids as [|id ids IH]; intros s; simpl; [intros [= <-]; by exists s|].
  destruct (local_push (q s) (Z.of_nat w) id) as [[[] q1]|] eqn:Hp; simpl; [| |done]; intros Hk.
  - apply local_push_inv in Hp as (l & l' & Hl & Hf & ->).
    destruct (IH (set_l s w l') Hk) as (s' & Hs & Hq & Hh). exists s'. split_and!; [|done..].
    by solo_by keep_local.
  - apply local_push_full_inv in Hp as (l & l' & Hl & Hf & ->).
    destruct (solo_global_push s (Some w) id (SPush first ids) (SGlobal first id ids)) as [ws Hw]; [by apply keep_global|].
    destruct (IH (set_waiters (set_g s (GlobalQueue.push (global (q s)) id)) ws) Hk) as (s' & Hs & Hq & Hh).
    exists s'. split_and!; [|done..]. solo_by keep_full. by etrans.
Qed.

Lemma solo_batch ids s w id q' :
  push_batch (q s) (Z.of_nat w) ids = Ret q' →
  ∃ s', solo (s, (Some w, BPush id ids)) (s', (Some w, Got id)) ∧ q s' = q' ∧ history s' = history s.
Proof.
  revert s. induction ids as [|b ids IH]; intros s; simpl.
  { intros [= <-]. exists s. split_and!; [|done..]. apply rtc_once. by apply batch_end. }
  destruct (local_push (q s) (Z.of_nat w) b) as [[ok q1]|] eqn:Hp; simpl; [|done]. intros Hk.
  apply local_push_inv in Hp as (l & l' & Hl & Hf & ->).
  destruct (IH (add_lost (set_l s w l') ok b) Hk) as (s' & Hs & Hq & Hh). exists s'. split_and!; [|done..].
  by solo_by batch_push.
Qed.

Lemma local_steal_inv (q : SimpleQueue.t) v st q' :
  local_steal q v = Ret (st, q') →
  ∃ (n : nat) l, v = Z.of_nat n ∧ local q !! n = Some l ∧
    LocalQueue.steal_half l = (st, default l (local q' !! n)) ∧ q' = set_local q (<[n := default l (local q' !! n)]> (local q)).
Proof.
  intros (l & l' & Hl & Hv & Hf & ->)%local_op_inv. exists (Z.to_nat v), l. simpl.
  rewrite list_lookup_insert_eq by (by eapply lookup_lt_Some). simpl. split_and!; [lia|done..].
Qed.

(** A look at a victim: nothing, or half of its queue. *)
Lemma solo_victim s w n v st q' :
  local_steal (q s) v = Ret (st, q') →
  ∃ v' s', v = Z.of_nat v' ∧ q s' = q' ∧ history s' = history s ∧
    solo (s, (Some w, SLoad n v')) (s', (Some w, match st with [] => Steal n | first :: rest => SPush first rest end)).
Proof.
  intros (v' & l & -> & Hl & Hst & Hq)%local_steal_inv. remember (default l (local q' !! v')) as l' eqn:Hl'. clear Hl'. subst q'.
  exists v'. unfold LocalQueue.steal_half in Hst. destruct (Z.eqb_spec (LocalQueue.len l) 0) as [H0|H0].
  { simplify_eq. exists s. rewrite set_local_id by done. split_and!; [done..|]. apply rtc_once. by eapply steal_none. }
  destruct (Nat.eqb_spec (length (LocalQueue.queue l) / 2) 0) as [Hn|Hn].
  { simplify_eq. exists s. rewrite set_local_id by done. split_and!; [done..|].
    solo_by steal_some. apply rtc_once. by eapply steal_few. }
  destruct (drain _ _) as [[|first rest] ids] eqn:Hd; simplify_eq.
  - by apply drain_half in Hd.
  - exists (set_l s v' (LocalQueue.publish ids)). split_and!; [done..|].
    solo_by steal_some. apply rtc_once. by eapply steal_take.
Qed.

Lemma solo_steal n s w r q' :
  steal_attempts n (q s) (Z.of_nat w) = Ret (r, q') →
  ∃ s', solo (s, (Some w, Steal n)) (s', (Some w, match r with Some first => Got first | None => Empty end)) ∧
    q s' = q' ∧ history s' = history s.
Proof.
  revert s. induction n as [|n IH]; intros s; simpl.
  { intros [= <- <-]. exists s. split_and!; [|done..]. apply rtc_once. by apply steal_end. }
  destruct (random_victim (q s) (Z.of_nat w)) as [[v q1]|] eqn:Hv; simpl; [|done].
  destruct (Z.eqb_spec v (Z.of_nat w)) as [->|Hne].
  { intros Ha. destruct (IH (set_q s q1) Ha) as (s' & Hs & Hq & Hh). exists s'. split_and!; [|done..].
    by solo_by steal_self. }
  destruct (local_steal q1 v) as [[st q2]|] eqn:Hst; simpl; [|done].
  apply (solo_victim (set_q s q1) w n) in Hst as (v' & s1 & -> & Hq1 & Hh1 & Hs1).
  assert (Hpick : solo (s, (Some w, Steal (S n))) (set_q s q1, (Some w, SLoad n v'))).
  { apply rtc_once. apply (steal_pick s w n v' q1); [done|]. by intros ->. }
  destruct st as [|first rest].
  - rewrite <- Hq1. intros Ha. destruct (IH s1 Ha) as (s' & Hs & Hq & Hh). exists s'. split_and!; [|done|by rewrite Hh, Hh1].
    etrans; [exact Hpick|]. by etrans.
  - destruct (keep_stolen q2 (Z.of_nat w) rest) as [q3|] eqn:Hk; simpl; [|done]. intros [= <- <-]. rewrite <- Hq1 in Hk.
    destruct (solo_keep rest s1 w first q3 Hk) as (s' & Hs & Hq & Hh). exists s'. split_and!; [|done|by rewrite Hh, Hh1].
    etrans; [exact Hpick|]. etrans; [exact Hs1|]. etrans; [exact Hs|]. apply rtc_once. by apply keep_end.
Qed.

(** A look at the global queue. *)
Lemma solo_global_pop s w k r q' :
  global_pop (q s) = (r, q') →
  ∃ s', solo (s, (Some w, GLoad k)) (s', (Some w, match r with Some id => found k id | None => not_found s k end)) ∧
    q s' = q' ∧ history s' = history s.
Proof.
  unfold global_pop, GlobalQueue.pop. destruct (Z.eqb_spec (GlobalQueue.len (global (q s))) 0) as [H0|H0].
  { intros [= <- <-]. exists s. split_and!; [|by destruct (q s)|done]. apply rtc_once. by apply global_none. }
  destruct (pop_front (GlobalQueue.queue (global (q s)))) as [[id g]|] eqn:Hp; intros [= <- <-];
    (eexists; split_and!; [solo_by global_some; apply rtc_once; first [by apply global_take|by apply global_gone]|done..]).
Qed.

(** Where a thread is when [pop] returns, and what it has noted. *)
Definition popped_to (r : option (Z * Priority.t)) : pc := match r with Some _ => Idle | None => Empty end.
Definition popped_ids (r : option (Z * Priority.t)) : list Z := match r with Some (id, _) => [id] | None => [] end.

Lemma solo_got s w id :
  ∃ s', solo (s, (Some w, Got id)) (s', (Some w, Idle)) ∧ q s' = q s ∧ history s' = (pushed s, popped s ++ [id]).
Proof. eexists. split_and!; [apply rtc_once; by apply pop_some|done..]. Qed.

Lemma solo_local_pop s w r q' :
  local_pop (q s) (Z.of_nat w) = Ret (r, q') →
  ∃ s', solo (s, (Some w, LLoad)) (s', (Some w, match r with Some id => Got id | None => GLoad Batch end)) ∧
    q s' = q' ∧ history s' = history s.
Proof.
  intros (l & l' & Hl & _ & Hf & ->)%local_op_inv. rewrite Nat2Z.id in *. unfold LocalQueue.pop in Hf.
  destruct (Z.eqb_spec (LocalQueue.len l) 0) as [H0|H0].
  { simplify_eq. exists s. rewrite set_local_id by done. split_and!; [|done..]. apply rtc_once. by eapply local_none. }
  destruct (pop_front (LocalQueue.queue l)) as [[id ids]|] eqn:Hp; simplify_eq;
    (eexists (set_l s w _); split_and!; [|done..]; solo_by local_some; apply rtc_once);
    [by eapply local_take|by eapply local_gone].
Qed.

Lemma solo_batch_stage s w id batch g q' :
  GlobalQueue.pop_batch (global (q s)) (LOCAL_CAPACITY / 2) = (batch, g) →
  push_batch (set_global (q s) g) (Z.of_nat w) batch = Ret q' →
  ∃ s', solo (s, (Some w, BLoad id)) (s', (Some w, Got id)) ∧ q s' = q' ∧ history s' = history s.
Proof.
  unfold GlobalQueue.pop_batch. destruct (Z.eqb_spec (GlobalQueue.len (global (q s))) 0) as [H0|H0].
  { intros [= <- <-] [= <-]. exists s. split_and!; [|by destruct (q s)|done]. apply rtc_once. by apply batch_none. }
  destruct (drain _ _) as [b rest] eqn:Hd. intros [= -> <-] Hb.
  destruct (solo_batch batch (set_g s (GlobalQueue.publish (global (q s)) rest)) w id q' Hb) as (s' & Hs & Hq & Hh).
  exists s'. split_and!; [|done..]. solo_by batch_some. by solo_by batch_take.
Qed.

(** The three stages of [pop]. *)
Lemma solo_stages s w r q' :
  pop_stages (q s) (Z.of_nat w) = Ret (r, q') →
  ∃ s', solo (s, (Some w, LLoad)) (s', (Some w, popped_to r)) ∧ q s' = q' ∧
    history s' = (pushed s, popped s ++ popped_ids r).
Proof.
  assert (Hgot : ∀ s1 id, solo (s, (Some w, LLoad)) (s1, (Some w, Got id)) → history s1 = history s →
            ∃ s', solo (s, (Some w, LLoad)) (s', (Some w, Idle)) ∧ q s' = q s1 ∧ history s' = (pushed s, popped s ++ [id])).
  { intros s1 id Hs1 Hh1. destruct (solo_got s1 w id) as (s' & Hs & Hq & Hh). exists s'. split_and!; [by etrans|done|].
    rewrite Hh. unfold history in Hh1. congruence. }
  unfold pop_stages. destruct (local_pop (q s) (Z.of_nat w)) as [[lr q1]|] eqn:Hl; simpl; [|done].
  destruct (solo_local_pop s w lr q1 Hl) as (s1 & Hs1 & <- & Hh1).
  destruct lr as [id|]; [intros [= <- <-]; by apply (Hgot s1)|].
  destruct (SimpleQueue.global_pop (q s1)) as [gr q2] eqn:Hg.
  destruct (solo_global_pop s1 w Batch gr q2 Hg) as (s2 & Hs2 & <- & Hh2).
  assert (Hs12 : solo (s, (Some w, LLoad)) (s2, (Some w, match gr with Some id => BLoad id | None => not_found s1 Batch end)))
    by (etrans; [exact Hs1|]; by destruct gr).
  destruct gr as [id|].
  - destruct (GlobalQueue.pop_batch _ _) as [batch g] eqn:Hb.
    destruct (push_batch _ _ _) as [q3|] eqn:Hp; simpl; [|done]. intros [= <- <-].
    destruct (solo_batch_stage s2 w id batch g q3 Hb Hp) as (s3 & Hs3 & <- & Hh3).
    apply (Hgot s3); [by etrans|congruence].
  - destruct (try_steal (q s2) (Z.of_nat w)) as [[sr q3]|] eqn:Ht; simpl; [|done].
    assert (Hn : num_workers (q s2) = num_workers (q s1)).
    { unfold SimpleQueue.global_pop in Hg. destruct (GlobalQueue.pop _). injection Hg as _ Hq. by rewrite <- Hq. }
    unfold try_steal in Ht. rewrite Hn in Ht. destruct (solo_steal _ s2 w sr q3 Ht) as (s3 & Hs3 & <- & Hh3).
    assert (Hs13 : solo (s, (Some w, LLoad)) (s3, (Some w, match sr with Some first => Got first | None => Empty end)))
      by (by etrans).
    destruct sr as [id|]; intros [= <- <-]; [apply (Hgot s3); [done|congruence]|].
    exists s3. split_and!; [done..|]. simpl. rewrite (right_id_L [] (++)). unfold history in *. congruence.
Qed.


(** [push] to the global queue, and the second look for a parked worker. *)
Lemma solo_push_global s who id :
  ∃ s', rtc (solo_step tstep) (s, (who, PGlobal id)) (s', (who, Idle)) ∧ q s' = SimpleQueue.push_global (q s) id ∧
    history s' = history s.
Proof.
  destruct (solo_global_push s who id (Wake Idle) (PGlobal id)) as [ws Hw]; [by apply push_to_global|].
  destruct (solo_wake (set_waiters (set_g s (GlobalQueue.push (global (q s)) id)) ws) who Idle) as [ws' Hw'].
  eexists. split_and!; [by etrans|done..].
Qed.

(** A [push] nobody interrupts is the sequential [push] of the queue. *)
Theorem push_steps_refine s (who : option nat) id p q' :
  match who with Some w => Z.of_nat w < num_workers (q s) | None => True end →
  SimpleQueue.push (q s) id p (Z.of_nat <$> who) = Ret q' →
  ∃ s', rtc (solo_step tstep) (s, (who, Idle)) (s', (who, Idle)) ∧ q s' = q' ∧
    history s' = (pushed s ++ [id], popped s).
Proof.
  intros Hw Hp. unfold SimpleQueue.push, GVThreadId.as_u32 in Hp.
  pose (s0 := Shared (q s) (waiters s) (pushed s ++ [id]) (popped s) (lost s)).
  assert (Hglobal : ∃ s', rtc (solo_step tstep) (s0, (who, PGlobal id)) (s', (who, Idle)) ∧
            q s' = SimpleQueue.push_global (q s) id ∧ history s' = (pushed s ++ [id], popped s)) by apply (solo_push_global s0).
  destruct who as [w|]; simpl in Hp.
  - destruct (Z.ltb_spec (Z.of_nat w) (num_workers (q s))); [|lia].
    destruct (local_push (q s) (Z.of_nat w) id) as [[[] q1]|] eqn:Hl; simplify_eq/=.
    + apply local_push_inv in Hl as (l & l' & Hl & Hf & ->).
      destruct (solo_wake (set_l s0 w l') (Some w) Idle) as [ws Hs].
      exists (set_waiters (set_q s0 (wake_if_parked (q (set_l s0 w l')))) ws). split_and!; [|done..].
      solo_by push_hint. solo_by push_to_local. exact Hs.
    + apply local_push_full_inv in Hl as (l & l' & Hl & Hf & ->). destruct Hglobal as (s' & Hs & Hq & Hh).
      exists s'. split_and!; [|done..]. solo_by push_hint. solo_by push_local_full. exact Hs.
  - destruct Hglobal as (s' & Hs & Hq & Hh). injection Hp as <-. exists s'. split_and!; [|done..].
    solo_by push_none. exact Hs.
Qed.

(** ** One worker and one other thread *)

Definition demo : shared * list thread :=
  (Shared (SimpleQueue.init new 1) [] [] [] [], [(Some 0%nat, Idle); (None, Idle)]).

Lemma queue_demo_init : init demo.
Proof. exists 1%nat, 1%nat. split; [lia|]. reflexivity. Qed.

(** The other thread pushes 7, the worker pops it, finds nothing more and
    goes to sleep. *)
Lemma demo_sleeps :
  ∃ s, rtc step demo (s, [(Some 0%nat, Waiting); (None, Idle)]) ∧ waiters s = [0%nat] ∧ pushed s = [7] ∧ popped s = [7].
Proof.
  eexists. split.
  - unfold demo, step. vm_compute SimpleQueue.init.
    pool_by 1%nat (push_none _ _ 7). pool_by 1%nat push_to_global. pool_by 1%nat wake_none. pool_by 1%nat wake_none.
    pool_by 0%nat pop_count. pool_by 0%nat global_some. pool_by 0%nat global_take. pool_by 0%nat pop_some.
    pool_by 0%nat pop_count. pool_by 0%nat local_none. pool_by 0%nat global_none. pool_by 0%nat steal_self.
    pool_by 0%nat steal_end. pool_by 0%nat park_add. pool_by 0%nat park_wait. apply rtc_refl.
  - done.
Qed.

Lemma demo_reachable :
  ∃ s, reachable step init (s, [(Some 0%nat, Waiting); (None, Idle)]) ∧ waiters s = [0%nat] ∧ pushed s = [7].
Proof.
  destruct demo_sleeps as (s & Hr & Hw & Hp & _). exists s. split_and!; [|done..]. exists demo. split; [apply queue_demo_init|done].
Qed.

Lemma queue_conserves_ids_witness :
  ∃ c, reachable step init c ∧ pushed c.1 = [7] ∧
    pushed c.1 ≡ₚ simple_contents (q c.1) ++ collect holds c.2 ++ popped c.1 ∧ lost c.1 = [].
Proof.
  destruct demo_reachable as (s & Hr & Hw & Hp). exists (s, [(Some 0%nat, Waiting); (None, Idle)]).
  split_and!; [exact Hr|exact Hp|apply (queue_conserves_ids _ Hr)|apply (queue_conserves_ids _ Hr)].
Defined.

Lemma queue_no_stranded_work_witness :
  ∃ c, reachable step init c ∧ Forall (asleep (waiters c.1)) c.2 ∧ pushed c.1 = [7] ∧
    simple_contents (q c.1) = [] ∧ pushed c.1 ≡ₚ popped c.1.
Proof.
  destruct demo_reachable as (s & Hr & Hw & Hp). exists (s, [(Some 0%nat, Waiting); (None, Idle)]).
  assert (Ha : Forall (asleep (waiters s)) [(Some 0%nat, Waiting); (None, Idle)]).
  { rewrite Hw. repeat constructor. }
  split_and!; [exact Hr|exact Ha|exact Hp|apply (queue_no_stranded_work _ Hr Ha)|apply (queue_no_stranded_work _ Hr Ha)].
Defined.

Lemma queue_never_stuck_witness :
  ∃ c, reachable step init c ∧ (Some 0%nat, Waiting) ∈ c.2 ∧ ∃ s' y', tstep c.1 (Some 0%nat, Waiting) s' y'.
Proof.
  destruct demo_reachable as (s & Hr & Hw & Hp). exists (s, [(Some 0%nat, Waiting); (None, Idle)]).
  split_and!; [exact Hr|left|]. apply (queue_never_stuck _ _ Hr). left.
Defined.

(** A queue with 7 in its only local queue, and a worker parked elsewhere. *)
Definition demo_queue : SimpleQueue.t :=
  SimpleQueue.mk [LocalQueue.publish [7]; LocalQueue.new] (GlobalQueue.mk [] 0 0 1) 2 [1; 0] [1; 2] true.


Lemma push_steps_refine_witness :
  ∃ s', rtc (solo_step tstep) (Shared demo_queue [1%nat] [7] [] [], (None, Idle)) (s', (None, Idle)) ∧
    pushed s' = [7; 9].
Proof.
  destruct (push_steps_refine (Shared demo_queue [1%nat] [7] [] []) None 9 Priority.Normal
    (SimpleQueue.push_global demo_queue 9)) as (s' & Hs & _ & Hh); [exact I|reflexivity|].
  exists s'. split; [exact Hs|]. exact (f_equal fst Hh).
Defined.
End QueueRun.
