(* ===== verification/TimerHeap.v ===== *)
(** * Timer backend

    Models [gvthread-runtime/src/timer/entry.rs], [timer/impls/heap.rs],
    [timer/impls/mod.rs], [timer/registry.rs] and [timer/worker.rs].

    [std::collections::BinaryHeap] is the class [BinaryHeap]: a multiset whose
    [pop] removes a greatest element; which of several greatest ones is left
    open, as in the library's documentation.  Instants and durations are
    nanoseconds; the clock readings a method makes are its arguments. *)

From S2P Require Import Prelude CoreTypes.

(** ** [BinaryHeap] *)
Class BinaryHeap (A H : Type) (le : A → A → Prop) : Type := {
  elems : H → list A;
  heap_empty : H;
  heap_push : H → A → H;
  heap_pop : H → option (A * H);

  elems_empty : elems heap_empty = [];
  elems_push : ∀ h x, elems (heap_push h x) ≡ₚ x :: elems h;
  pop_none : ∀ h, heap_pop h = None → elems h = [];
  pop_some : ∀ h x h', heap_pop h = Some (x, h') →
    elems h ≡ₚ x :: elems h' ∧ ∀ y, y ∈ elems h → le y x
}.

Section HeapDefs.
Context {A H : Type} {le : A → A → Prop} `{!BinaryHeap A H le}.

Definition heap_peek (h : H) : option A := fst <$> heap_pop h.
Definition heap_len (h : H) : Z := Z.of_nat (length (elems h)).
Definition heap_is_empty (h : H) : bool := match heap_pop h with Some _ => false | None => true end.

Lemma heap_empty_iff h : heap_pop h = None ↔ elems h = [].
Proof.
  split; [apply pop_none|]. intros He. destruct (heap_pop h) as [[x h']|] eqn:Hp; [|done].
  apply pop_some in Hp as [Hp _]. rewrite He in Hp. by apply Permutation_nil_cons in Hp.
Qed.

Lemma heap_pop_length h x h' : heap_pop h = Some (x, h') → length (elems h) = S (length (elems h')).
Proof. intros [Hp _]%pop_some. apply Permutation_length in Hp. done. Qed.
End HeapDefs.

(** A heap kept as a list in descending order. *)
Module SortedHeap.
Section SortedHeap.
Context {A : Type} (leb : A → A → bool).

Fixpoint insert (x : A) (l : list A) : list A :=
  match l with
  | [] => [x]
  | y :: l' => if leb y x then x :: l else y :: insert x l'
  end.

(** The greatest element of a list, with the rest. *)
Fixpoint take_max (l : list A) : option (A * list A) :=
  match l with
  | [] => None
  | x :: l' =>
      match take_max l' with
      | None => Some (x, [])
      | Some (y, r) => if leb x y then Some (y, x :: r) else Some (x, y :: r)
      end
  end.

Context (leb_total : ∀ x y, leb x y = false → leb y x = true)
        (leb_trans : ∀ x y z, leb x y = true → leb y z = true → leb x z = true)
        (leb_refl : ∀ x, leb x x = true).

Lemma insert_perm x l : insert x l ≡ₚ x :: l.
Proof. induction l as [|y l IH]; simpl; [done|]. destruct (leb y x); [done|]. rewrite IH. constructor. Qed.

Lemma take_max_none l : take_max l = None → l = [].
Proof. destruct l as [|x l]; simpl; [done|]. destruct (take_max l) as [[]|]; [|done]. by destruct (leb x _). Qed.

Lemma take_max_some l x r :
  take_max l = Some (x, r) → l ≡ₚ x :: r ∧ ∀ y, y ∈ l → leb y x = true.
Proof.
  revert x r. induction l as [|z l IH]; intros x r; simpl; [done|].
  destruct (take_max l) as [[w r']|] eqn:Hm.
  - destruct (IH w r' eq_refl) as [Hp Hmax]. destruct (leb z w) eqn:Hzw; intros [= <- <-]; (split; [|set_unfold]).
    + rewrite Hp. constructor.
    + intros y [->|Hy]; [done|by apply Hmax].
    + by rewrite Hp.
    + intros y [->|Hy]; [apply leb_refl|]. eapply leb_trans; [by apply Hmax|by apply leb_total].
  - apply take_max_none in Hm as ->. intros [= <- <-]. split; [done|]. set_unfold.
    intros y [->|[]]. apply leb_refl.
Qed.
End SortedHeap.
End SortedHeap.

(** ** [TimerHandle], [TimerType], [TimerEntry] *)

(** [TimerHandle::new]: the process-wide counter, which starts at 1. *)
Definition COUNTER_INIT : Z := 1.
Definition new_handle (counter : Z) : Z * Z := (counter, counter +[64] 1).

Inductive TimerType : Type :=
| Preempt
| Sleep
| Timeout
| Periodic (interval : Z).

Definition is_periodic (t : TimerType) : bool := match t with Periodic _ => true | _ => false end.
Definition periodic_interval (t : TimerType) : option Z :=
  match t with Periodic interval => Some interval | _ => None end.

Module TimerEntry.
Record t : Type := mk {
  handle : Z;
  deadline : Z;
  gvt_id : Z;
  worker_affinity : option Z;
  timer_type : TimerType
}.

(** The constructors take the handle counter and the clock reading, and
    return the entry with the next counter. *)
Definition new (c : Z) (gvt_id deadline : Z) (worker_affinity : option Z) (ty : TimerType) : t * Z :=
  let '(h, c') := new_handle c in (mk h deadline gvt_id worker_affinity ty, c').
Definition preempt (c now : Z) (gvt_id worker_id time_slice : Z) : t * Z :=
  let '(h, c') := new_handle c in (mk h (now + time_slice) gvt_id (Some worker_id) Preempt, c').
Definition sleep (c now : Z) (gvt_id duration : Z) (affinity : option Z) : t * Z :=
  let '(h, c') := new_handle c in (mk h (now + duration) gvt_id affinity Sleep, c').
Definition timeout (c now : Z) (gvt_id duration : Z) (affinity : option Z) : t * Z :=
  let '(h, c') := new_handle c in (mk h (now + duration) gvt_id affinity Timeout, c').
Definition periodic (c now : Z) (gvt_id interval : Z) (affinity : option Z) : t * Z :=
  let '(h, c') := new_handle c in (mk h (now + interval) gvt_id affinity (Periodic interval), c').
Definition at_ (c : Z) (gvt_id deadline : Z) (affinity : option Z) (ty : TimerType) : t * Z :=
  let '(h, c') := new_handle c in (mk h deadline gvt_id affinity ty, c').

Definition is_expired (e : t) (now : Z) : bool := deadline e <=? now.
Definition remaining (e : t) (now : Z) : Z := saturating_sub (deadline e) now.

Definition reschedule (c now : Z) (e : t) : option (t * Z) :=
  match timer_type e with
  | Periodic interval =>
      let '(h, c') := new_handle c in
      Some (mk h (now + interval) (gvt_id e) (worker_affinity e) (timer_type e), c')
  | _ => None
  end.
End TimerEntry.

(** [ExpiredTimer] *)
Module ExpiredTimer.
Record t : Type := mk { gvt_id : Z; worker_affinity : option Z; timer_type : TimerType }.
Definition of_entry (e : TimerEntry.t) : t :=
  mk (TimerEntry.gvt_id e) (TimerEntry.worker_affinity e) (TimerEntry.timer_type e).
End ExpiredTimer.

(** ** [HeapEntry]: the reversed order *)
Definition cmp (a b : TimerEntry.t) : comparison :=
  match (TimerEntry.deadline b ?= TimerEntry.deadline a) with
  | Eq => TimerEntry.handle b ?= TimerEntry.handle a
  | ord => ord
  end.

(** [a <= b] in the heap's order: [b] is due no later than [a]. *)
Definition entry_leb (a b : TimerEntry.t) : bool := match cmp a b with Gt => false | _ => true end.
Definition entry_le (a b : TimerEntry.t) : Prop := entry_leb a b = true.

(** ** [HeapTimerBackend] *)
Module HeapTimerBackend.
Section Backend.
Context {H : Type} `{!BinaryHeap TimerEntry.t H entry_le}.

Record t : Type := mk {
  heap : H;
  cancelled : gset Z;
  total_inserted : Z;
  total_fired : Z;
  total_cancelled : Z
}.

Definition new : t := mk heap_empty ∅ 0 0 0.

Definition insert (b : t) (e : TimerEntry.t) : Z * t :=
  (TimerEntry.handle e,
   mk (heap_push (heap b) e) (cancelled b) (total_inserted b + 1) (total_fired b) (total_cancelled b)).

Definition cancel (b : t) (handle : Z) : bool * t :=
  if decide (handle ∈ cancelled b) then (false, b)
  else (true, mk (heap b) ({[handle]} ∪ cancelled b) (total_inserted b) (total_fired b)
                 (total_cancelled b + 1)).

(** The [while let] loop of [poll_expired].  [clock] gives the reading of the
    [n]-th rescheduling, [fuel] bounds the number of iterations. *)
Fixpoint poll_loop (fuel : nat) (now : Z) (clock : nat → Z) (b : t) (c : Z)
    (expired : list ExpiredTimer.t) (to_reschedule : list TimerEntry.t) :
    t * Z * list ExpiredTimer.t * list TimerEntry.t :=
  match fuel with
  | O => (b, c, expired, to_reschedule)
  | S fuel' =>
      match heap_pop (heap b) with
      | None => (b, c, expired, to_reschedule)
      | Some (entry, h) =>
          if now <? TimerEntry.deadline entry then (b, c, expired, to_reschedule)
          else if decide (TimerEntry.handle entry ∈ cancelled b) then
            poll_loop fuel' now clock
              (mk h (cancelled b ∖ {[TimerEntry.handle entry]}) (total_inserted b) (total_fired b) (total_cancelled b))
              c expired to_reschedule
          else
            let '(resched, c') :=
              match TimerEntry.reschedule c (clock (length to_reschedule)) entry with
              | Some (e', c') => (push_back to_reschedule e', c')
              | None => (to_reschedule, c)
              end in
            poll_loop fuel' now clock
              (mk h (cancelled b) (total_inserted b) (total_fired b + 1) (total_cancelled b))
              c' (push_back expired (ExpiredTimer.of_entry entry)) resched
      end
  end.

Definition with_heap (b : t) (h : H) : t :=
  mk h (cancelled b) (total_inserted b) (total_fired b) (total_cancelled b).

(** Enough fuel: one iteration per entry of the heap. *)
Definition poll_expired (b : t) (c now : Z) (clock : nat → Z) : list ExpiredTimer.t * t * Z :=
  let '(b1, c1, expired, to_reschedule) :=
    poll_loop (S (length (elems (heap b)))) now clock b c [] [] in
  let h := foldl heap_push (heap b1) to_reschedule in
  let b2 := with_heap b1 h in
  let b3 := if heap_is_empty h
            then mk h ∅ (total_inserted b2) (total_fired b2) (total_cancelled b2) else b2 in
  (expired, b3, c1).

Definition next_deadline (b : t) : option Z := TimerEntry.deadline <$> heap_peek (heap b).
Definition len (b : t) : Z := saturating_sub (heap_len (heap b)) (Z.of_nat (size (cancelled b))).
Definition is_empty (b : t) : bool := len b =? 0.

(** [active] counts the heap, cancelled entries included. *)
Record HeapTimerStats : Type := HeapStats {
  stat_active : Z;
  stat_pending_cancellations : Z;
  stat_total_inserted : Z;
  stat_total_fired : Z;
  stat_total_cancelled : Z
}.
Definition stats (b : t) : HeapTimerStats :=
  HeapStats (heap_len (heap b)) (Z.of_nat (size (cancelled b))) (total_inserted b) (total_fired b) (total_cancelled b).
End Backend.
Arguments t : clear implicits.
End HeapTimerBackend.

(** ** [TimerRegistry]

    The schedule methods build an entry and insert it. *)
Module TimerRegistry.
Section Registry.
Context {H : Type} `{!BinaryHeap TimerEntry.t H entry_le}.
Import HeapTimerBackend.

(** The backend with the handle counter. *)
Definition schedule (b : HeapTimerBackend.t H) (ec : TimerEntry.t * Z) : Z * HeapTimerBackend.t H * Z :=
  let '(h, b') := insert b ec.1 in (h, b', ec.2).
Definition schedule_preempt b c now gvt_id worker_id time_slice :=
  schedule b (TimerEntry.preempt c now gvt_id worker_id time_slice).
Definition schedule_sleep b c now gvt_id duration affinity :=
  schedule b (TimerEntry.sleep c now gvt_id duration affinity).
Definition schedule_sleep_until b c gvt_id deadline affinity :=
  schedule b (TimerEntry.at_ c gvt_id deadline affinity Sleep).
Definition schedule_timeout b c now gvt_id duration affinity :=
  schedule b (TimerEntry.timeout c now gvt_id duration affinity).
Definition schedule_timeout_at b c gvt_id deadline affinity :=
  schedule b (TimerEntry.at_ c gvt_id deadline affinity Timeout).
Definition schedule_periodic b c now gvt_id interval affinity :=
  schedule b (TimerEntry.periodic c now gvt_id interval affinity).
Definition registry_cancel (b : HeapTimerBackend.t H) (h : Z) := cancel b h.
Definition active_timers (b : HeapTimerBackend.t H) : Z := HeapTimerBackend.len b.
Definition time_until_next (b : HeapTimerBackend.t H) (now : Z) : option Z :=
  (λ d, saturating_sub d now) <$> next_deadline b.
End Registry.
End TimerRegistry.

(** ** The timer thread of [worker.rs] *)
Module TimerWorker.
Record TimerThreadConfig : Type := Config {
  max_poll_interval : Z;
  min_sleep : Z;
  thread_name : string;
  stack_size : option Z
}.

(** Nanoseconds. *)
Definition default : TimerThreadConfig := Config 1000000 50000 "gvt-timer" None.
Definition low_latency : TimerThreadConfig := Config 100000 10000 "gvt-timer" None.
Definition low_cpu : TimerThreadConfig := Config 10000000 500000 "gvt-timer" None.

Record TimerStats : Type := Stats {
  poll_count : Z;
  timers_fired : Z;
  poll_time : Z;
  max_batch_size : Z
}.

Section Worker.
Context {H : Type} `{!BinaryHeap TimerEntry.t H entry_le}.

Definition calculate_sleep (b : HeapTimerBackend.t H) (cfg : TimerThreadConfig) (now : Z) : Z :=
  match HeapTimerBackend.next_deadline b with
  | Some deadline =>
      if deadline <=? now then 0
      else Z.max (Z.min (deadline - now) (max_poll_interval cfg)) (min_sleep cfg)
  | None => max_poll_interval cfg
  end.

(** One iteration of [timer_loop] at clock readings [poll_start], [clock] for
    reschedulings, [elapsed] after the wakes and [now]: the timers handed to
    the wake callback and the time to sleep. *)
Definition loop_body (st : TimerStats) (b : HeapTimerBackend.t H) (c : Z) (cfg : TimerThreadConfig)
    (poll_start : Z) (clock : nat → Z) (elapsed now : Z) :
    TimerStats * HeapTimerBackend.t H * Z * list ExpiredTimer.t * Z :=
  let '(expired, b', c') := HeapTimerBackend.poll_expired b c poll_start clock in
  let batch_size := Z.of_nat (length expired) in
  let st' := Stats (poll_count st + 1) (timers_fired st + batch_size) (poll_time st + elapsed)
                   (Z.max (max_batch_size st) batch_size) in
  (st', b', c', expired, calculate_sleep b' cfg now).
End Worker.

(** The handle of the thread: [handle] is the result its join will give, until
    it is taken. *)
Record TimerThreadHandle : Type := Handle { handle : option TimerStats; shutdown_flag : bool }.
Definition spawn_timer_thread (result : TimerStats) (shutdown : bool) : TimerThreadHandle := Handle (Some result) shutdown.
Definition shutdown (h : TimerThreadHandle) : TimerThreadHandle := Handle (handle h) true.
Definition join (h : TimerThreadHandle) : outcome (TimerStats * TimerThreadHandle) :=
  match handle h with Some st => Ret (st, Handle None (shutdown_flag h)) | None => Panic end.
Definition stop (h : TimerThreadHandle) : outcome (TimerStats * TimerThreadHandle) := join (shutdown h).
Definition is_shutdown_requested (h : TimerThreadHandle) : bool := shutdown_flag h.
Definition is_running (h : TimerThreadHandle) : bool :=
  match handle h with Some _ => negb (is_shutdown_requested h) | None => false end.
End TimerWorker.

(** ** The order of entries *)
Section EntryOrder.
Import TimerEntry.

Lemma entry_leb_spec a b :
  entry_leb a b = true ↔
  deadline b < deadline a ∨ (deadline b = deadline a ∧ handle b ≤ handle a).
Proof.
  unfold entry_leb, cmp.
  destruct (Z.compare_spec (deadline b) (deadline a)) as [He|Hl|Hg].
  - destruct (Z.compare_spec (handle b) (handle a)); split; intros; done || lia.
  - split; [intros _; by left|done].
  - split; [done|lia].
Qed.

Lemma entry_leb_total a b : entry_leb a b = false → entry_leb b a = true.
Proof. intros Hab%not_true_iff_false. rewrite entry_leb_spec in *. lia. Qed.
Lemma entry_leb_trans a b c : entry_leb a b = true → entry_leb b c = true → entry_leb a c = true.
Proof. rewrite !entry_leb_spec. lia. Qed.
Lemma entry_leb_refl a : entry_leb a a = true.
Proof. rewrite entry_leb_spec. lia. Qed.
End EntryOrder.

#[global] Instance list_heap : BinaryHeap TimerEntry.t (list TimerEntry.t) entry_le.
Proof.
  refine {| elems := λ h, h; heap_empty := []; heap_push := λ h x, SortedHeap.insert entry_leb x h;
            heap_pop := SortedHeap.take_max entry_leb |}.
  - done.
  - intros h x. apply SortedHeap.insert_perm.
  - intros h. apply SortedHeap.take_max_none.
  - intros h x h'. apply SortedHeap.take_max_some;
      eauto using entry_leb_total, entry_leb_trans, entry_leb_refl.
Defined.

(** ** [poll_expired] *)
Section Poll.
Import HeapTimerBackend.
Context {H : Type} `{!BinaryHeap TimerEntry.t H entry_le}.
Implicit Types (b : HeapTimerBackend.t H) (e : TimerEntry.t).

Definition due (now : Z) e : Prop := TimerEntry.deadline e ≤ now.
#[global] Instance due_dec now e : Decision (due now e).
Proof. unfold due. apply _. Defined.

Definition live b e : Prop := TimerEntry.handle e ∉ cancelled b.
#[global] Instance live_dec b e : Decision (live b e).
Proof. unfold live. apply _. Defined.

Definition handles (es : list TimerEntry.t) : list Z := TimerEntry.handle <$> es.

(** What the loop has done when it stops: [popped] are the entries taken off
    the heap, earliest first. *)
Record poll_result (now : Z) b (b' : HeapTimerBackend.t H)
    (fired : list TimerEntry.t) (resched : list TimerEntry.t) (popped : list TimerEntry.t) : Prop := {
  pr_split : elems (heap b) ≡ₚ popped ++ elems (heap b');
  pr_due : Forall (due now) popped;
  pr_rest : Forall (λ e, ¬ due now e) (elems (heap b'));
  pr_sorted : StronglySorted (λ x y, entry_le y x) popped;
  pr_fired : fired = filter (live b) popped;
  pr_resched : TimerEntry.gvt_id <$> resched =
               TimerEntry.gvt_id <$> filter (λ e, is_periodic (TimerEntry.timer_type e) = true) fired;
  pr_cancelled : cancelled b' = cancelled b ∖ list_to_set (handles popped);
  pr_total : total_fired b' = total_fired b + Z.of_nat (length fired)
}.

Lemma reschedule_spec c now e :
  match TimerEntry.reschedule c now e with
  | Some (e', c') => is_periodic (TimerEntry.timer_type e) = true ∧
      TimerEntry.gvt_id e' = TimerEntry.gvt_id e ∧ TimerEntry.handle e' = c ∧ c' = c +[64] 1
  | None => is_periodic (TimerEntry.timer_type e) = false
  end.
Proof. unfold TimerEntry.reschedule. by destruct (TimerEntry.timer_type e). Qed.

Lemma entry_le_due x y now : entry_le y x → ¬ due now x → ¬ due now y.
Proof. unfold entry_le, due. rewrite entry_leb_spec. lia. Qed.

(** Popping one more due entry. *)
Lemma poll_result_cons now b e h b1 b' fired resched popped :
  heap_pop (heap b) = Some (e, h) → due now e → NoDup (handles (elems (heap b))) →
  heap b1 = h →
  (TimerEntry.handle e ∈ cancelled b → cancelled b1 = cancelled b ∖ {[TimerEntry.handle e]} ∧
     total_fired b1 = total_fired b) →
  (TimerEntry.handle e ∉ cancelled b → cancelled b1 = cancelled b ∧ total_fired b1 = total_fired b + 1) →
  poll_result now b1 b' fired resched popped →
  ∀ resched',
  (live b e → TimerEntry.gvt_id <$> resched' =
     (if is_periodic (TimerEntry.timer_type e) then [TimerEntry.gvt_id e] else []) ++
     (TimerEntry.gvt_id <$> resched)) →
  (¬ live b e → resched' = resched) →
  poll_result now b b' (if decide (live b e) then e :: fired else fired) resched' (e :: popped).
Proof.
  intros Hpop Hdue Hnd Hh Hcan Hlive [Hs Hd Hr Hso Hf Hre Hc Ht] resched' Hre1 Hre2. subst h.
  destruct (pop_some _ _ _ Hpop) as [Hperm Hmax].
  assert (Hnotin : TimerEntry.handle e ∉ handles popped).
  { unfold handles in Hnd. rewrite Hperm, fmap_cons, NoDup_cons in Hnd. destruct Hnd as [Hni _].
    intros Hin. apply Hni. rewrite Hs, fmap_app. set_solver. }
  assert (Hsame : filter (live b) popped = filter (live b1) popped).
  { apply list_filter_iff_in. intros x Hx. unfold live.
    assert (TimerEntry.handle x ≠ TimerEntry.handle e).
    { intros Heq. apply Hnotin. rewrite <- Heq. by apply list_elem_of_fmap_2. }
    destruct (decide (TimerEntry.handle e ∈ cancelled b)) as [Hin|Hin].
    - destruct (Hcan Hin) as [-> _]. set_solver.
    - by destruct (Hlive Hin) as [-> _]. }
  constructor.
  - rewrite Hperm, Hs. done.
  - by constructor.
  - done.
  - constructor; [done|]. apply Forall_forall. intros y Hy. apply Hmax. rewrite Hperm, Hs. set_solver.
  - rewrite filter_cons, Hsame. case_decide; by rewrite Hf.
  - case_decide as Hl; [|by rewrite (Hre2 Hl)]. rewrite (Hre1 Hl), Hre, filter_cons.
    destruct (is_periodic (TimerEntry.timer_type e)) eqn:Hp.
    + by rewrite decide_True.
    + by rewrite decide_False by congruence.
  - rewrite Hc. destruct (decide (TimerEntry.handle e ∈ cancelled b)) as [Hin|Hin].
    + destruct (Hcan Hin) as [-> _]. unfold handles. simpl. set_solver.
    + destruct (Hlive Hin) as [-> _]. unfold handles. simpl. set_solver.
  - destruct (decide (TimerEntry.handle e ∈ cancelled b)) as [Hin|Hin].
    + destruct (Hcan Hin) as [_ Hcan2]. rewrite decide_False by (unfold live; tauto). lia.
    + destruct (Hlive Hin) as [_ Hl2]. rewrite decide_True by done. simpl. lia.
Qed.

Lemma poll_loop_spec fuel now clock b c ex rs :
  (length (elems (heap b)) < fuel)%nat → NoDup (handles (elems (heap b))) →
  ∃ b' c' fired rs' popped,
    poll_loop fuel now clock b c ex rs = (b', c', ex ++ (ExpiredTimer.of_entry <$> fired), rs ++ rs') ∧
    poll_result now b b' fired rs' popped ∧ total_inserted b' = total_inserted b ∧
    total_cancelled b' = total_cancelled b.
Proof.
  revert b c ex rs. induction fuel as [|fuel IH]; intros b c ex rs Hfuel Hnd; [lia|]. simpl.
  destruct (heap_pop (heap b)) as [[e h]|] eqn:Hpop; last first.
  { exists b, c, [], [], []. rewrite fmap_nil, !(right_id_L [] (++)). split_and!; try done.
    apply pop_none in Hpop as He. constructor; simpl; rewrite ?He; try done; try constructor; [set_solver|lia]. }
  destruct (pop_some _ _ _ Hpop) as [Hperm Hmax].
  destruct (Z.ltb_spec now (TimerEntry.deadline e)) as [Hlt|Hge].
  { exists b, c, [], [], []. rewrite fmap_nil, !(right_id_L [] (++)). split_and!; try done.
    constructor; simpl; try done; try constructor; [|set_solver|lia].
    apply Forall_forall. intros y Hy. eapply entry_le_due; [by apply Hmax|]. unfold due. lia. }
  assert (Hlen := heap_pop_length _ _ _ Hpop).
  assert (Hnd' : NoDup (handles (elems h))).
  { unfold handles in *. rewrite Hperm, fmap_cons in Hnd. by apply NoDup_cons in Hnd as [_ ?]. }
  case_decide as Hin.
  - edestruct (IH (mk h (cancelled b ∖ {[TimerEntry.handle e]}) (total_inserted b) (total_fired b)
      (total_cancelled b)) c ex rs) as (b' & c' & fired & rs' & popped & -> & Hres & Hi & Hc); [simpl; lia|done|].
    exists b', c', fired, rs', (e :: popped). split_and!; try done.
    eapply (poll_result_cons now b e h _ _ _ _ _ Hpop Hge Hnd) in Hres;
      [rewrite decide_False in Hres by (unfold live; tauto); exact Hres|..]; try done.
    all: unfold live; tauto.
  - destruct (match TimerEntry.reschedule c (clock (length rs)) e with
      | Some (e', c') => (push_back rs e', c') | None => (rs, c) end) as [rs1 c1] eqn:Hrs.
    edestruct (IH (mk h (cancelled b) (total_inserted b) (total_fired b + 1) (total_cancelled b)) c1
      (push_back ex (ExpiredTimer.of_entry e)) rs1)
      as (b' & c' & fired & rs' & popped & -> & Hres & Hi & Hc); [simpl; lia|done|].
    pose proof (reschedule_spec c (clock (length rs)) e) as Hspec.
    assert (Hrs1 : ∃ add, rs1 = rs ++ add ∧ TimerEntry.gvt_id <$> add =
      if is_periodic (TimerEntry.timer_type e) then [TimerEntry.gvt_id e] else []).
    { destruct (TimerEntry.reschedule _ _ e) as [[e' c2]|].
      - injection Hrs as <- <-. destruct Hspec as (-> & Hg & _). exists [e']. simpl. by rewrite Hg.
      - injection Hrs as <- <-. rewrite Hspec. exists []. by rewrite (right_id_L [] (++)). }
    destruct Hrs1 as (add & -> & Hadd).
    exists b', c', (e :: fired), (add ++ rs'), (e :: popped). split_and!; try done.
    + unfold push_back. rewrite <- !(assoc (++)). done.
    + eapply (poll_result_cons now b e h _ _ _ _ _ Hpop Hge Hnd) in Hres;
        [rewrite decide_True in Hres by done; exact Hres|..]; try done.
      intros _. by rewrite fmap_app, Hadd.
Qed.

Lemma poll_result_popped now b b' fired rs popped :
  poll_result now b b' fired rs popped → popped ≡ₚ filter (due now) (elems (heap b)).
Proof.
  intros [Hs Hd Hr _ _ _ _ _]. rewrite Forall_forall in Hd, Hr.
  rewrite Hs, filter_app, (list_filter_all _ popped), (list_filter_none _ (elems (heap b'))) by done.
  by rewrite (right_id_L [] (++)).
Qed.

Lemma poll_result_rest now b b' fired rs popped :
  poll_result now b b' fired rs popped → elems (heap b') ≡ₚ filter (λ e, ¬ due now e) (elems (heap b)).
Proof.
  intros [Hs Hd Hr _ _ _ _ _]. rewrite Forall_forall in Hd, Hr.
  rewrite Hs, filter_app, (list_filter_none _ popped), (list_filter_all _ (elems (heap b'))); try done.
  intros x Hx Hn. by apply Hn, Hd.
Qed.

Lemma handle_inj (es : list TimerEntry.t) e e' :
  NoDup (handles es) → e ∈ es → e' ∈ es → TimerEntry.handle e = TimerEntry.handle e' → e = e'.
Proof.
  intros Hnd [i Hi]%list_elem_of_lookup [j Hj]%list_elem_of_lookup Heq.
  assert (i = j) as ->; [|congruence].
  eapply (NoDup_lookup (handles es)); [done|..]; unfold handles.
  - by rewrite list_lookup_fmap, Hi.
  - rewrite list_lookup_fmap, Hj. simpl. by rewrite Heq.
Qed.

Lemma elems_push_all (h : H) es : elems (foldl heap_push h es) ≡ₚ es ++ elems h.
Proof.
  revert h. induction es as [|e es IH]; intros h; simpl; [done|].
  rewrite IH, elems_push. solve_Permutation.
Qed.

Lemma poll_expired_spec b c now clock :
  NoDup (handles (elems (heap b))) →
  ∃ b1 fired rs popped, poll_result now b b1 fired rs popped ∧
    let '(expired, b', _) := poll_expired b c now clock in
    expired = ExpiredTimer.of_entry <$> fired ∧ elems (heap b') ≡ₚ rs ++ elems (heap b1) ∧
    total_fired b' = total_fired b1.
Proof.
  intros Hnd. unfold poll_expired.
  edestruct (poll_loop_spec (S (length (elems (heap b)))) now clock b c [] [])
    as (b1 & c1 & fired & rs & popped & -> & Hres & _ & _); [lia|done|].
  exists b1, fired, rs, popped. split; [done|]. simpl.
  destruct (heap_is_empty _); simpl; by rewrite elems_push_all.
Qed.

(** *** Handles *)

(** All handles in the backend are distinct and below the counter. *)
Definition handles_ok b (c : Z) : Prop :=
  NoDup (handles (elems (heap b))) ∧ Forall (λ h, h < c) (handles (elems (heap b))).

Lemma handles_perm es es' : es ≡ₚ es' → handles es ≡ₚ handles es'.
Proof. intros Hp. unfold handles. by rewrite Hp. Qed.

Lemma handles_ok_insert b e c :
  handles_ok b c → TimerEntry.handle e = c → handles_ok (insert b e).2 (c + 1).
Proof.
  intros [Hnd Hlt] He. unfold handles_ok. simpl.
  rewrite (handles_perm _ _ (elems_push (heap b) e)). unfold handles in *. rewrite fmap_cons, He.
  rewrite Forall_forall in Hlt. split.
  - apply NoDup_cons. split; [|done]. intros Hin. specialize (Hlt _ Hin). lia.
  - apply Forall_forall. intros h [->|Hh]%elem_of_cons; [lia|]. specialize (Hlt _ Hh). lia.
Qed.

(** The handles of the re-armed timers are the next values of the counter. *)
Lemma poll_loop_handles fuel now clock b c ex rs :
  0 ≤ c → c + Z.of_nat fuel < 2 ^ 64 →
  ∃ b' c' ex' rs' popped, poll_loop fuel now clock b c ex rs = (b', c', ex', rs ++ rs') ∧
    handles rs' = seqZ c (Z.of_nat (length rs')) ∧ c' = c + Z.of_nat (length rs') ∧
    elems (heap b) ≡ₚ popped ++ elems (heap b').
Proof.
  revert b c ex rs. induction fuel as [|fuel IH]; intros b c ex rs H0 Hc; simpl.
  { exists b, c, ex, [], []. rewrite (right_id_L [] (++)). split_and!; try done. simpl. lia. }
  assert (Hstop : ∃ b' c' ex' rs' popped, (b, c, ex, rs) = (b', c', ex', rs ++ rs') ∧
    handles rs' = seqZ c (Z.of_nat (length rs')) ∧ c' = c + Z.of_nat (length rs') ∧
    elems (heap b) ≡ₚ popped ++ elems (heap b')).
  { exists b, c, ex, [], []. rewrite (right_id_L [] (++)). split_and!; try done. simpl. lia. }
  destruct (heap_pop (heap b)) as [[e h]|] eqn:Hpop; [|done].
  destruct (now <? _); [done|]. destruct (pop_some _ _ _ Hpop) as [Hperm _].
  case_decide.
  - edestruct IH as (b' & c' & ex' & rs' & popped & -> & Hh & -> & Hp); [done|lia|].
    exists b', (c + Z.of_nat (length rs')), ex', rs', (e :: popped).
    split_and!; try done. simpl in Hp. by rewrite Hperm, Hp.
  - pose proof (reschedule_spec c (clock (length rs)) e) as Hspec.
    destruct (TimerEntry.reschedule _ _ e) as [[e' c2]|].
    + destruct Hspec as (_ & _ & He' & ->). rewrite wrap_small by (unfold in_u; lia).
      edestruct (IH (mk h (cancelled b) (total_inserted b) (total_fired b + 1) (total_cancelled b)) (c + 1))
        as (b' & c' & ex' & rs' & popped & -> & Hh & -> & Hp); [lia|lia|].
      eexists b', _, ex', (e' :: rs'), (e :: popped). split_and!.
      * unfold push_back. by rewrite <- (assoc (++)).
      * unfold handles in *. rewrite fmap_cons, Hh, He'. cbn [length].
        rewrite Nat2Z.inj_succ, <- Z.add_1_l, (seqZ_app c 1) by lia. done.
      * simpl. lia.
      * simpl in Hp. by rewrite Hperm, Hp.
    + edestruct (IH (mk h (cancelled b) (total_inserted b) (total_fired b + 1) (total_cancelled b)) c)
        as (b' & c' & ex' & rs' & popped & -> & Hh & -> & Hp); [lia|lia|].
      eexists b', _, ex', rs', (e :: popped). split_and!; try done. simpl in Hp. by rewrite Hperm, Hp.
Qed.

Lemma handles_ok_poll b c now clock :
  0 ≤ c → handles_ok b c → c + Z.of_nat (S (length (elems (heap b)))) < 2 ^ 64 →
  let '(_, b', c') := poll_expired b c now clock in handles_ok b' c' ∧ c ≤ c'.
Proof.
  intros H0 [Hnd Hlt] Hc. unfold poll_expired.
  edestruct (poll_loop_handles (S (length (elems (heap b)))) now clock b c [] [] H0)
    as (b' & c' & ex' & rs' & popped & -> & Hh & -> & Hp); [lia|]. simpl.
  split; [|lia]. set (b2 := if heap_is_empty _ then _ else _).
  assert (He : elems (heap b2) ≡ₚ rs' ++ elems (heap b')).
  { unfold b2. destruct (heap_is_empty _); simpl; apply elems_push_all. }
  rewrite (handles_perm _ _ Hp) in Hnd, Hlt. unfold handles_ok. rewrite (handles_perm _ _ He).
  unfold handles in *. rewrite fmap_app in *. rewrite Hh.
  apply NoDup_app in Hnd as (_ & _ & Hnd). apply Forall_app in Hlt as [_ Hlt]. rewrite Forall_forall in Hlt.
  split.
  - apply NoDup_app. split_and!; [apply NoDup_seqZ| |done].
    intros h Hin%elem_of_seqZ Hh'. specialize (Hlt _ Hh'). lia.
  - apply Forall_app. split; apply Forall_forall.
    + intros h Hin%elem_of_seqZ. lia.
    + intros h Hin. specialize (Hlt _ Hin). lia.
Qed.
End Poll.

(** ** Properties *)

(** C28: [poll_expired] fires exactly what is due.  With distinct handles, the
    timers it returns are those entries of the backend whose deadline has
    passed and whose handle is not cancelled, each once, ordered by deadline
    (then handle), and the loop always ends; every entry that is not due stays
    queued, the only other entries afterwards are the re-armed periodic timers
    that fired; and [total_fired] grows by the number returned. *)
Theorem poll_expired_fires_due {H} `{!BinaryHeap TimerEntry.t H entry_le}
    (b : HeapTimerBackend.t H) c now clock :
  NoDup (handles (elems (HeapTimerBackend.heap b))) →
  ∃ popped resched,
  let '(expired, b', c') := HeapTimerBackend.poll_expired b c now clock in
  let fired := filter (live b) popped in
  popped ≡ₚ filter (due now) (elems (HeapTimerBackend.heap b)) ∧
  StronglySorted (λ x y, entry_le y x) popped ∧
  expired = ExpiredTimer.of_entry <$> fired ∧
  elems (HeapTimerBackend.heap b') ≡ₚ
    resched ++ filter (λ e, ¬ due now e) (elems (HeapTimerBackend.heap b)) ∧
  TimerEntry.gvt_id <$> resched =
    TimerEntry.gvt_id <$> filter (λ e, is_periodic (TimerEntry.timer_type e) = true) fired ∧
  HeapTimerBackend.total_fired b' = HeapTimerBackend.total_fired b + Z.of_nat (length expired).
Proof.
  intros Hnd. destruct (poll_expired_spec b c now clock Hnd) as (b1 & fired & rs & popped & Hres & Hp).
  exists popped, rs. destruct (HeapTimerBackend.poll_expired b c now clock) as [[expired b'] c'].
  destruct Hp as (-> & He & Ht). pose proof (pr_fired _ _ _ _ _ _ Hres) as Hf. split_and!.
  - by eapply poll_result_popped.
  - apply Hres.
  - by rewrite Hf.
  - rewrite He. f_equiv. by eapply poll_result_rest.
  - rewrite <- Hf. apply Hres.
  - rewrite Ht, (pr_total _ _ _ _ _ _ Hres), length_fmap. done.
Qed.

(** Two sleeps and a cancelled timeout on the list heap; the second sleep is
    not due at time 50. *)
Definition timer_demo : HeapTimerBackend.t (list TimerEntry.t) :=
  HeapTimerBackend.mk
    [TimerEntry.mk 1 30 7 None Sleep; TimerEntry.mk 2 10 8 None Timeout; TimerEntry.mk 3 90 9 None Sleep]
    {[2]} 3 0 1.

Lemma timer_demo_handles : NoDup (handles (elems (HeapTimerBackend.heap timer_demo))).
Proof. simpl. repeat (apply NoDup_cons; split; [set_solver by lia|]). constructor. Qed.

Lemma poll_expired_fires_due_witness :
  ∃ popped, popped ≡ₚ filter (due 50) (elems (HeapTimerBackend.heap timer_demo)) ∧
    [ExpiredTimer.mk 7 None Sleep] = (ExpiredTimer.of_entry <$> filter (live timer_demo) popped).
Proof.
  destruct (poll_expired_fires_due timer_demo 4 50 (λ _, 50) timer_demo_handles) as (popped & resched & Hp).
  destruct Hp as (Hperm & _ & Hexp & _). exists popped. split; [exact Hperm|exact Hexp].
Defined.

(** A cancelled timer never fires: if the handle of a queued timer is
    cancelled before a poll, the poll does not return it, and polls without
    it firing leave it to be dropped when its deadline passes. *)
Theorem cancelled_timer_does_not_fire {H} `{!BinaryHeap TimerEntry.t H entry_le}
    (b : HeapTimerBackend.t H) e c now clock :
  NoDup (handles (elems (HeapTimerBackend.heap b))) →
  e ∈ elems (HeapTimerBackend.heap b) →
  let b1 := (HeapTimerBackend.cancel b (TimerEntry.handle e)).2 in
  ∃ popped, fst (fst (HeapTimerBackend.poll_expired b1 c now clock))
      = (ExpiredTimer.of_entry <$> filter (live b1) popped) ∧
    (e ∉ filter (live b1) popped) ∧
    (TimerEntry.deadline e ≤ now → e ∈ popped) ∧
    ∀ e', e' ∈ filter (live b1) popped ↔
      e' ∈ elems (HeapTimerBackend.heap b) ∧ due now e' ∧ live b e' ∧ e' ≠ e.
Proof.
  intros Hnd He b1.
  assert (Hheap : HeapTimerBackend.heap b1 = HeapTimerBackend.heap b).
  { unfold b1, HeapTimerBackend.cancel. by case_decide. }
  assert (Hcan : HeapTimerBackend.cancelled b1 = {[TimerEntry.handle e]} ∪ HeapTimerBackend.cancelled b).
  { unfold b1, HeapTimerBackend.cancel. case_decide; simpl; [set_solver|done]. }
  destruct (poll_expired_spec b1 c now clock) as (b2 & fired & rs & popped & Hres & Hp); [by rewrite Hheap|].
  pose proof (poll_result_popped _ _ _ _ _ _ Hres) as Hpop. rewrite Hheap in Hpop.
  exists popped. rewrite <- (pr_fired _ _ _ _ _ _ Hres).
  destruct (HeapTimerBackend.poll_expired b1 c now clock) as [[expired b'] c'].
  destruct Hp as (-> & _). rewrite (pr_fired _ _ _ _ _ _ Hres). split_and!; [done| | |].
  - rewrite list_elem_of_filter. unfold live. rewrite Hcan. set_solver.
  - intros Hd. rewrite Hpop. by apply list_elem_of_filter.
  - intros e'. rewrite list_elem_of_filter, Hpop, list_elem_of_filter. unfold live. rewrite Hcan.
    assert (e' ∈ elems (HeapTimerBackend.heap b) → TimerEntry.handle e' = TimerEntry.handle e → e' = e)
      by (intros; by eapply handle_inj).
    set_solver.
Qed.

Lemma cancelled_timer_does_not_fire_witness :
  ∃ popped : list TimerEntry.t, TimerEntry.mk 1 30 7 None Sleep ∉
    filter (live (HeapTimerBackend.cancel timer_demo 1).2) popped.
Proof.
  destruct (cancelled_timer_does_not_fire timer_demo (TimerEntry.mk 1 30 7 None Sleep) 4 50 (λ _, 50)
    timer_demo_handles) as (popped & _ & Hn & _); [set_solver|]. exists popped. exact Hn.
Defined.

(** The timer bookkeeping of lazy cancellation is not what the interface
    says.  [cancel] is documented to return true if the timer was found; it
    returns true for every handle that is not already marked, such as one that
    was never issued; and [len], documented as the number of active timers, is
    then one too small. *)
Theorem cancel_unknown_handle {H} `{!BinaryHeap TimerEntry.t H entry_le}
    (b : HeapTimerBackend.t H) h :
  h ∉ HeapTimerBackend.cancelled b → h ∉ handles (elems (HeapTimerBackend.heap b)) →
  let '(found, b') := HeapTimerBackend.cancel b h in
  found = true ∧ elems (HeapTimerBackend.heap b') = elems (HeapTimerBackend.heap b) ∧
  (0 < HeapTimerBackend.len b → HeapTimerBackend.len b' = HeapTimerBackend.len b - 1).
Proof.
  intros Hn _. unfold HeapTimerBackend.cancel. case_decide; [done|]. split_and!; [done|done|].
  unfold HeapTimerBackend.len, saturating_sub, heap_len. simpl. rewrite size_union by set_solver.
  rewrite size_singleton. lia.
Qed.

Lemma cancel_unknown_handle_witness : (HeapTimerBackend.cancel timer_demo 77).1 = true.
Proof.
  pose proof (cancel_unknown_handle timer_demo 77) as Hc. destruct Hc as [Hf _]; [set_solver|set_solver by lia|exact Hf].
Defined.

(** The handle of a periodic timer cancels it only before its first
    firing: afterwards the re-armed timer has a new handle that the caller
    never sees, and cancelling the original one leaves it firing. *)
Theorem periodic_handle_goes_stale :
  let '(h, b, c) := TimerRegistry.schedule_periodic (HeapTimerBackend.new (H := list TimerEntry.t))
                      COUNTER_INIT 0 7 10 None in
  let '(fired1, b, c) := HeapTimerBackend.poll_expired b c 10 (λ _, 10) in
  let '(found, b) := TimerRegistry.registry_cancel b h in
  let '(fired2, b, c) := HeapTimerBackend.poll_expired b c 20 (λ _, 20) in
  found = true ∧ length fired1 = 1%nat ∧ fired2 = [ExpiredTimer.mk 7 None (Periodic 10)].
Proof. by vm_compute. Qed.

(** How long the timer thread sleeps.  [next_deadline] is the earliest
    deadline queued; the thread does not sleep when a timer is due, and
    otherwise sleeps no longer than the larger of its two configured bounds,
    at least [min_sleep], and past the earliest deadline only when that is
    nearer than [min_sleep]. *)
Theorem calculate_sleep_bounds {H} `{!BinaryHeap TimerEntry.t H entry_le}
    (b : HeapTimerBackend.t H) cfg now :
  0 < TimerWorker.min_sleep cfg ≤ TimerWorker.max_poll_interval cfg →
  let d := TimerWorker.calculate_sleep b cfg now in
  0 ≤ d ≤ TimerWorker.max_poll_interval cfg ∧
  ((∃ e, e ∈ elems (HeapTimerBackend.heap b) ∧ due now e) ↔ d = 0) ∧
  (∀ e, e ∈ elems (HeapTimerBackend.heap b) →
     now + d ≤ Z.max (TimerEntry.deadline e) (now + TimerWorker.min_sleep cfg)).
Proof.
  intros Hcfg. unfold TimerWorker.calculate_sleep, HeapTimerBackend.next_deadline, heap_peek, due.
  destruct (heap_pop (HeapTimerBackend.heap b)) as [[x h]|] eqn:Hpop; simpl.
  - destruct (pop_some _ _ _ Hpop) as [Hperm Hmax].
    assert (Hx : x ∈ elems (HeapTimerBackend.heap b)) by (rewrite Hperm; set_solver).
    assert (Hmin : ∀ e, e ∈ elems (HeapTimerBackend.heap b) → TimerEntry.deadline x ≤ TimerEntry.deadline e).
    { intros e He. specialize (Hmax e He). unfold entry_le in Hmax. rewrite entry_leb_spec in Hmax. lia. }
    destruct (Z.leb_spec (TimerEntry.deadline x) now); split_and!; try lia.
    + split; [done|]. intros _. by exists x.
    + split; [|lia]. intros (e & He & Hd). specialize (Hmin e He). lia.
    + intros e He. specialize (Hmin e He). lia.
  - apply pop_none in Hpop as He. rewrite He. split_and!; try lia; [|set_solver].
    split; [|lia]. intros (e & Hin & _). set_solver.
Qed.

Lemma calculate_sleep_bounds_witness :
  0 ≤ TimerWorker.calculate_sleep timer_demo TimerWorker.default 5 ≤ 1000000.
Proof. apply (calculate_sleep_bounds timer_demo TimerWorker.default 5). simpl. lia. Defined.

(** Timer handles stay unique.  In a backend whose handles are distinct
    and below the process-wide counter (as a new one is), scheduling any timer,
    cancelling any handle and polling at any time keep it so, as long as the
    64-bit counter does not wrap, including the fresh handles that polling
    gives to re-armed periodic timers. *)
Theorem timer_handles_unique {H} `{!BinaryHeap TimerEntry.t H entry_le}
    (b : HeapTimerBackend.t H) c :
  1 ≤ c → c + Z.of_nat (S (length (elems (HeapTimerBackend.heap b)))) < 2 ^ 64 → handles_ok b c →
  (∀ gvt_id deadline aff ty,
     let '(h, b', c') := TimerRegistry.schedule b (TimerEntry.new c gvt_id deadline aff ty) in
     h = c ∧ handles_ok b' c') ∧
  (∀ h, handles_ok (TimerRegistry.registry_cancel b h).2 c) ∧
  (∀ now clock, let '(_, b', c') := HeapTimerBackend.poll_expired b c now clock in
     handles_ok b' c' ∧ c ≤ c').
Proof.
  intros H1 Hc Hok. split_and!.
  - intros gvt_id deadline aff ty. simpl. split; [done|].
    rewrite wrap_small by (unfold in_u; lia).
    exact (handles_ok_insert b (TimerEntry.mk c deadline gvt_id aff ty) c Hok eq_refl).
  - intros h. unfold TimerRegistry.registry_cancel, HeapTimerBackend.cancel. by case_decide.
  - intros now clock. apply handles_ok_poll; [lia|done|done].
Qed.

Lemma timer_handles_unique_witness :
  handles_ok (TimerRegistry.registry_cancel timer_demo 3).2 4.
Proof.
  apply (timer_handles_unique timer_demo 4); [lia|simpl; lia|].
  split; [exact timer_demo_handles|]. repeat constructor.
Defined.
