(* ===== verification/Config.v ===== *)
(** * Configuration

    [Module BuildConfig] models [gvthread-runtime/build.rs]: the parameter
    table, the parser of a user's [gvt_config.rs], the merge over the defaults
    and the generated file.  [Module SchedulerConfig] models
    [gvthread-runtime/src/config/mod.rs]: the struct, its two constructors, the
    builder methods and [validate].  Text is a list of ASCII characters; a
    [Duration] is its length in nanoseconds. *)

From Stdlib Require Import Ascii.
From S2P Require Import Prelude CoreTypes Cancel.

(** ** Text: the methods of [str] that the build script uses *)
Module Text.
Abbreviation text := (list Ascii.ascii).

Definition str (s : string) : text := String.list_ascii_of_string s.

Definition is_ws (a : Ascii.ascii) : bool :=
  let n := Ascii.nat_of_ascii a in (n =? 32)%nat || ((9 <=? n)%nat && (n <=? 13)%nat).

Fixpoint trim_start (s : text) : text :=
  match s with
  | a :: s' => if is_ws a then trim_start s' else s
  | [] => []
  end.
Definition trim_end (s : text) : text := reverse (trim_start (reverse s)).
Definition trim (s : text) : text := trim_end (trim_start s).

Fixpoint strip_prefix (p s : text) : option text :=
  match p, s with
  | [], _ => Some s
  | a :: p', b :: s' => if bool_decide (a = b) then strip_prefix p' s' else None
  | _ :: _, [] => None
  end.
Definition starts_with (s p : text) : bool :=
  match strip_prefix p s with Some _ => true | None => false end.

(** [find] and [rfind] of a character. *)
Fixpoint find (a : Ascii.ascii) (s : text) : option nat :=
  match s with
  | [] => None
  | b :: s' => if bool_decide (a = b) then Some 0%nat else S <$> find a s'
  end.
Definition rfind (a : Ascii.ascii) (s : text) : option nat :=
  (λ k, (length s - 1 - k)%nat) <$> find a (reverse s).

(** [s[a..b]] panics unless [a <= b <= s.len()]. *)
Definition slice (s : text) (a b : nat) : outcome text :=
  if (a <=? b)%nat && (b <=? length s)%nat then Ret (take (b - a) (drop a s)) else Panic.

(** [lines]: split at line feeds, a carriage return before one is dropped,
    and text after the last line feed is a line only if it is not empty. *)
Definition nl : Ascii.ascii := Ascii.ascii_of_nat 10.
Definition cr : Ascii.ascii := Ascii.ascii_of_nat 13.
Definition strip_cr (l : text) : text :=
  match last l with
  | Some a => if bool_decide (a = cr) then take (length l - 1) l else l
  | None => l
  end.
Fixpoint lines_from (acc s : text) : list text :=
  match s with
  | [] => match acc with [] => [] | _ => [acc] end
  | a :: s' => if bool_decide (a = nl) then strip_cr acc :: lines_from [] s' else lines_from (acc ++ [a]) s'
  end.
Definition lines (s : text) : list text := lines_from [] s.
End Text.
Import Text.

(** ** The build script *)
Module BuildConfig.
Record ConfigParam : Type := Param { name : string; rust_type : string; default_value : string }.

Definition CONFIG_PARAMS : list ConfigParam :=
  [Param "NUM_WORKERS" "usize" "4";
   Param "NUM_LOW_PRIORITY_WORKERS" "usize" "1";
   Param "MAX_GVTHREADS" "usize" "1_048_576";
   Param "TIME_SLICE_MS" "u64" "10";
   Param "GRACE_PERIOD_MS" "u64" "1";
   Param "TIMER_INTERVAL_MS" "u64" "1";
   Param "TIMER_MAX_SLEEP_MS" "u64" "10";
   Param "ENABLE_FORCED_PREEMPT" "bool" "true";
   Param "DEBUG_LOGGING" "bool" "false";
   Param "STACK_SIZE" "usize" "16 * 1024 * 1024";
   Param "LOCAL_QUEUE_CAPACITY" "usize" "256";
   Param "GLOBAL_QUEUE_CAPACITY" "usize" "65536";
   Param "IDLE_SPINS" "u32" "10";
   Param "PARK_TIMEOUT_MS" "u64" "100"].

Abbreviation config := (gmap text text).

(** The map [main] starts from. *)
Definition defaults : config :=
  list_to_map ((λ p, (str (name p), str (default_value p))) <$> CONFIG_PARAMS).

Definition known (n : text) : bool := existsb (λ p, bool_decide (str (name p) = n)) CONFIG_PARAMS.

Definition KEYWORD : text := str "pub const ".

(** [None] is the early return of [?]; slicing may panic. *)
Definition parse_const_line (line : text) : outcome (option (text * text)) :=
  match strip_prefix KEYWORD line with
  | None => Ret None
  | Some r =>
      let rest := trim r in
      match find ":"%char rest with
      | None => Ret None
      | Some colon_pos =>
          n ← slice rest 0 colon_pos;
          match find "="%char rest with
          | None => Ret None
          | Some eq_pos =>
              let semi_pos := default (length rest) (rfind ";"%char rest) in
              v ← slice rest (eq_pos + 1) semi_pos;
              Ret (Some (trim n, trim v))
          end
      end
  end.

(** One turn of the loop of [parse_and_merge]. *)
Definition merge_line (c : config) (l : text) : outcome config :=
  let line := trim l in
  if bool_decide (line = []) || starts_with line (str "//") then Ret c
  else if negb (starts_with line KEYWORD) then Ret c
  else
    r ← parse_const_line line;
    match r with
    | Some (n, v) => Ret (if known n then <[n := v]> c else c)
    | None => Ret c
    end.

Fixpoint merge_lines (c : config) (ls : list text) : outcome config :=
  match ls with
  | [] => Ret c
  | l :: ls' => c' ← merge_line c l; merge_lines c' ls'
  end.
Definition parse_and_merge (content : text) (c : config) : outcome config := merge_lines c (lines content).

Definition const_line (n ty v : text) : text :=
  KEYWORD ++ n ++ str ": " ++ ty ++ str " = " ++ v ++ str ";".

(** The constants of the generated file; [config.get(..).unwrap()] panics on a
    missing name. *)
Fixpoint generate_consts (c : config) (ps : list ConfigParam) : outcome text :=
  match ps with
  | [] => Ret []
  | p :: ps' =>
      match c !! str (name p) with
      | None => Panic
      | Some v =>
          out ← generate_consts c ps';
          Ret (const_line (str (name p)) (str (rust_type p)) v ++ [nl] ++ out)
      end
  end.

Definition generate_config (user_config : bool) (c : config) : outcome text :=
  let head := str "// Auto-generated by build.rs - do not edit" ++ [nl] ++
    str "// Configuration merged from library defaults" ++
    (if user_config then str " and user's gvt_config.rs" else []) ++ [nl; nl] in
  out ← generate_consts c CONFIG_PARAMS;
  Ret (head ++ out).

(** [main], without the file system: [user] is the content of the file that
    [GVT_CONFIG_RS] names, if the variable is set and the file can be read. *)
Definition main (set : bool) (user : option text) : outcome text :=
  c ← match user with
      | Some content => if set then parse_and_merge content defaults else Ret defaults
      | None => Ret defaults
      end;
  generate_config set c.
End BuildConfig.

(** ** The runtime configuration *)
Module SchedulerConfig.

(** [str::parse] for an unsigned integer of [w] bits: an optional plus sign
    and at least one decimal digit, no overflow. *)
Definition digit (a : Ascii.ascii) : option Z :=
  let n := Z.of_nat (Ascii.nat_of_ascii a) in
  if (48 <=? n) && (n <=? 57) then Some (n - 48) else None.
Fixpoint parse_digits (w acc : Z) (s : text) : option Z :=
  match s with
  | [] => Some acc
  | a :: s' =>
      match digit a with
      | Some d => if acc * 10 + d <? 2 ^ w then parse_digits w (acc * 10 + d) s' else None
      | None => None
      end
  end.
Definition parse_uint (w : Z) (v : string) : option Z :=
  let ds := match str v with
            | a :: s => if bool_decide (a = "+"%char) then s else a :: s
            | [] => []
            end in
  match ds with [] => None | _ => parse_digits w 0 ds end.

(** The constants of the generated file. *)
Record Defaults : Type := MkDefaults {
  NUM_WORKERS : Z;
  NUM_LOW_PRIORITY_WORKERS : Z;
  MAX_GVTHREADS : Z;
  TIME_SLICE_MS : Z;
  GRACE_PERIOD_MS : Z;
  TIMER_INTERVAL_MS : Z;
  ENABLE_FORCED_PREEMPT : bool;
  DEBUG_LOGGING : bool;
  STACK_SIZE : Z;
  LOCAL_QUEUE_CAPACITY : Z;
  GLOBAL_QUEUE_CAPACITY : Z;
  IDLE_SPINS : Z;
  PARK_TIMEOUT_MS : Z
}.

(** Their values when there is no user file. *)
Definition library_defaults : Defaults :=
  {| NUM_WORKERS := 4;
     NUM_LOW_PRIORITY_WORKERS := 1;
     MAX_GVTHREADS := 1048576;
     TIME_SLICE_MS := 10;
     GRACE_PERIOD_MS := 1;
     TIMER_INTERVAL_MS := 1;
     ENABLE_FORCED_PREEMPT := true;
     DEBUG_LOGGING := false;
     STACK_SIZE := 16 * 1024 * 1024;
     LOCAL_QUEUE_CAPACITY := 256;
     GLOBAL_QUEUE_CAPACITY := 65536;
     IDLE_SPINS := 10;
     PARK_TIMEOUT_MS := 100 |}.

Record t : Type := mk {
  num_workers : Z;
  num_low_priority_workers : Z;
  max_gvthreads : Z;
  time_slice : Z;
  grace_period : Z;
  timer_interval : Z;
  enable_forced_preempt : bool;
  debug_logging : bool;
  stack_size : Z;
  local_queue_capacity : Z;
  global_queue_capacity : Z;
  idle_spins : Z;
  park_timeout : Z
}.

Definition from_millis (ms : Z) : Z := ms * 1000000.

Section FromEnv.
Context (env : gmap string string) (d : Defaults).
Definition env_usize (key : string) (def : Z) : Z := Env.env_get (parse_uint 64) env key def.
Definition env_u64 (key : string) (def : Z) : Z := Env.env_get (parse_uint 64) env key def.

Definition from_env : t :=
  {| num_workers := env_usize "GVT_NUM_WORKERS" (NUM_WORKERS d);
     num_low_priority_workers := env_usize "GVT_NUM_LOW_PRIORITY_WORKERS" (NUM_LOW_PRIORITY_WORKERS d);
     max_gvthreads := env_usize "GVT_MAX_GVTHREADS" (MAX_GVTHREADS d);
     time_slice := from_millis (env_u64 "GVT_TIME_SLICE_MS" (TIME_SLICE_MS d));
     grace_period := from_millis (env_u64 "GVT_GRACE_PERIOD_MS" (GRACE_PERIOD_MS d));
     timer_interval := from_millis (env_u64 "GVT_TIMER_INTERVAL_MS" (TIMER_INTERVAL_MS d));
     enable_forced_preempt :=
       negb (env_usize "GVT_ENABLE_FORCED_PREEMPT" (if ENABLE_FORCED_PREEMPT d then 1 else 0) =? 0);
     debug_logging := negb (env_usize "GVT_DEBUG" (if DEBUG_LOGGING d then 1 else 0) =? 0);
     stack_size := env_usize "GVT_STACK_SIZE" (STACK_SIZE d);
     local_queue_capacity := env_usize "GVT_LOCAL_QUEUE_CAPACITY" (LOCAL_QUEUE_CAPACITY d);
     global_queue_capacity := env_usize "GVT_GLOBAL_QUEUE_CAPACITY" (GLOBAL_QUEUE_CAPACITY d);
     idle_spins := wrap 32 (env_usize "GVT_IDLE_SPINS" (IDLE_SPINS d));
     park_timeout := from_millis (env_u64 "GVT_PARK_TIMEOUT_MS" (PARK_TIMEOUT_MS d)) |}.

Definition new : t :=
  {| num_workers := NUM_WORKERS d;
     num_low_priority_workers := NUM_LOW_PRIORITY_WORKERS d;
     max_gvthreads := MAX_GVTHREADS d;
     time_slice := from_millis (TIME_SLICE_MS d);
     grace_period := from_millis (GRACE_PERIOD_MS d);
     timer_interval := from_millis (TIMER_INTERVAL_MS d);
     enable_forced_preempt := ENABLE_FORCED_PREEMPT d;
     debug_logging := DEBUG_LOGGING d;
     stack_size := STACK_SIZE d;
     local_queue_capacity := LOCAL_QUEUE_CAPACITY d;
     global_queue_capacity := GLOBAL_QUEUE_CAPACITY d;
     idle_spins := IDLE_SPINS d;
     park_timeout := from_millis (PARK_TIMEOUT_MS d) |}.
End FromEnv.

(** The builder methods. *)
Definition with_num_workers (c : t) (v : Z) : t :=
  mk v (num_low_priority_workers c) (max_gvthreads c) (time_slice c) (grace_period c) (timer_interval c)
     (enable_forced_preempt c) (debug_logging c) (stack_size c) (local_queue_capacity c)
     (global_queue_capacity c) (idle_spins c) (park_timeout c).
Definition with_num_low_priority_workers (c : t) (v : Z) : t :=
  mk (num_workers c) v (max_gvthreads c) (time_slice c) (grace_period c) (timer_interval c)
     (enable_forced_preempt c) (debug_logging c) (stack_size c) (local_queue_capacity c)
     (global_queue_capacity c) (idle_spins c) (park_timeout c).
Definition with_max_gvthreads (c : t) (v : Z) : t :=
  mk (num_workers c) (num_low_priority_workers c) v (time_slice c) (grace_period c) (timer_interval c)
     (enable_forced_preempt c) (debug_logging c) (stack_size c) (local_queue_capacity c)
     (global_queue_capacity c) (idle_spins c) (park_timeout c).
Definition with_time_slice (c : t) (v : Z) : t :=
  mk (num_workers c) (num_low_priority_workers c) (max_gvthreads c) v (grace_period c) (timer_interval c)
     (enable_forced_preempt c) (debug_logging c) (stack_size c) (local_queue_capacity c)
     (global_queue_capacity c) (idle_spins c) (park_timeout c).
Definition with_grace_period (c : t) (v : Z) : t :=
  mk (num_workers c) (num_low_priority_workers c) (max_gvthreads c) (time_slice c) v (timer_interval c)
     (enable_forced_preempt c) (debug_logging c) (stack_size c) (local_queue_capacity c)
     (global_queue_capacity c) (idle_spins c) (park_timeout c).
Definition with_timer_interval (c : t) (v : Z) : t :=
  mk (num_workers c) (num_low_priority_workers c) (max_gvthreads c) (time_slice c) (grace_period c) v
     (enable_forced_preempt c) (debug_logging c) (stack_size c) (local_queue_capacity c)
     (global_queue_capacity c) (idle_spins c) (park_timeout c).
Definition with_enable_forced_preempt (c : t) (v : bool) : t :=
  mk (num_workers c) (num_low_priority_workers c) (max_gvthreads c) (time_slice c) (grace_period c) (timer_interval c)
     v (debug_logging c) (stack_size c) (local_queue_capacity c)
     (global_queue_capacity c) (idle_spins c) (park_timeout c).
Definition with_debug_logging (c : t) (v : bool) : t :=
  mk (num_workers c) (num_low_priority_workers c) (max_gvthreads c) (time_slice c) (grace_period c) (timer_interval c)
     (enable_forced_preempt c) v (stack_size c) (local_queue_capacity c)
     (global_queue_capacity c) (idle_spins c) (park_timeout c).
Definition with_stack_size (c : t) (v : Z) : t :=
  mk (num_workers c) (num_low_priority_workers c) (max_gvthreads c) (time_slice c) (grace_period c) (timer_interval c)
     (enable_forced_preempt c) (debug_logging c) v (local_queue_capacity c)
     (global_queue_capacity c) (idle_spins c) (park_timeout c).
Definition with_local_queue_capacity (c : t) (v : Z) : t :=
  mk (num_workers c) (num_low_priority_workers c) (max_gvthreads c) (time_slice c) (grace_period c) (timer_interval c)
     (enable_forced_preempt c) (debug_logging c) (stack_size c) v
     (global_queue_capacity c) (idle_spins c) (park_timeout c).
Definition with_global_queue_capacity (c : t) (v : Z) : t :=
  mk (num_workers c) (num_low_priority_workers c) (max_gvthreads c) (time_slice c) (grace_period c) (timer_interval c)
     (enable_forced_preempt c) (debug_logging c) (stack_size c) (local_queue_capacity c)
     v (idle_spins c) (park_timeout c).
Definition with_idle_spins (c : t) (v : Z) : t :=
  mk (num_workers c) (num_low_priority_workers c) (max_gvthreads c) (time_slice c) (grace_period c) (timer_interval c)
     (enable_forced_preempt c) (debug_logging c) (stack_size c) (local_queue_capacity c)
     (global_queue_capacity c) v (park_timeout c).
Definition with_park_timeout (c : t) (v : Z) : t :=
  mk (num_workers c) (num_low_priority_workers c) (max_gvthreads c) (time_slice c) (grace_period c) (timer_interval c)
     (enable_forced_preempt c) (debug_logging c) (stack_size c) (local_queue_capacity c)
     (global_queue_capacity c) (idle_spins c) v.

Inductive ConfigError : Type := InvalidValue (msg : string).

Definition validate (c : t) : Result () ConfigError :=
  if num_workers c =? 0 then Err (InvalidValue "num_workers must be > 0")
  else if 256 <? num_workers c then Err (InvalidValue "num_workers must be <= 256")
  else if num_workers c <=? num_low_priority_workers c then
    Err (InvalidValue "num_low_priority_workers must be < num_workers")
  else if max_gvthreads c =? 0 then Err (InvalidValue "max_gvthreads must be > 0")
  else if stack_size c <? 64 * 1024 then Err (InvalidValue "stack_size must be >= 64KB")
  else if local_queue_capacity c =? 0 then Err (InvalidValue "local_queue_capacity must be > 0")
  else if global_queue_capacity c =? 0 then Err (InvalidValue "global_queue_capacity must be > 0")
  else Ok ().
End SchedulerConfig.

(** ** Lemmas on text *)
Section TextFacts.
Implicit Types (a : ascii) (s l : text).

Lemma trim_start_skip s1 s2 : Forall (λ a, is_ws a = true) s1 → trim_start (s1 ++ s2) = trim_start s2.
Proof. induction 1 as [|a s1 Ha _ IH]; [done|]. simpl. by rewrite Ha. Qed.

Lemma trim_start_id a s : is_ws a = false → trim_start (a :: s) = a :: s.
Proof. simpl. by intros ->. Qed.

Lemma trim_ends a s b : is_ws a = false → is_ws b = false → trim (a :: s ++ [b]) = a :: s ++ [b].
Proof.
  intros Ha Hb. unfold trim, trim_end. rewrite trim_start_id by done.
  change (a :: s ++ [b]) with ((a :: s) ++ [b]).
  by rewrite reverse_snoc, (trim_start_id b), reverse_cons, reverse_involutive.
Qed.

Lemma trim_lead s1 s2 : Forall (λ a, is_ws a = true) s1 → trim (s1 ++ s2) = trim s2.
Proof. intros. unfold trim. by rewrite trim_start_skip. Qed.

(** A trimmed text starts with a character that is not white space. *)
Lemma trim_start_head s a s' : trim_start s = a :: s' → is_ws a = false.
Proof.
  induction s as [|b s IH]; simpl; [done|]. destruct (is_ws b) eqn:Hb; [done|].
  by intros [= -> ->].
Qed.
Lemma trim_start_suffix s : ∃ s0, s = s0 ++ trim_start s.
Proof.
  induction s as [|b s [s0 IH]]; [by exists []|]. simpl. destruct (is_ws b); [|by exists []].
  exists (b :: s0). simpl. by rewrite <- IH.
Qed.
Lemma trim_fixed_head a s : trim (a :: s) = a :: s → is_ws a = false.
Proof.
  intros Ht. destruct (is_ws a) eqn:Ha; [|done]. exfalso.
  unfold trim, trim_end in Ht. simpl in Ht. rewrite Ha in Ht.
  destruct (trim_start_suffix s) as [s0 Hs0].
  destruct (trim_start_suffix (reverse (trim_start s))) as [s1 Hs1].
  apply (f_equal length) in Ht. apply (f_equal length) in Hs0, Hs1.
  rewrite length_app, ?length_reverse in *. simpl in Ht. lia.
Qed.

Lemma strip_prefix_app p s : strip_prefix p (p ++ s) = Some s.
Proof. induction p as [|a p IH]; [done|]. simpl. by rewrite bool_decide_true. Qed.

Lemma find_app a s1 s2 : a ∉ s1 → find a (s1 ++ a :: s2) = Some (length s1).
Proof.
  induction s1 as [|b s1 IH]; intros Ha; simpl.
  - by rewrite bool_decide_true.
  - rewrite bool_decide_false by set_solver. rewrite IH by set_solver. done.
Qed.
Lemma rfind_last a s : rfind a (s ++ [a]) = Some (length s).
Proof.
  unfold rfind. rewrite reverse_snoc. simpl. rewrite bool_decide_true by done. simpl.
  rewrite length_app. simpl. f_equal. lia.
Qed.

Lemma slice_prefix s1 s2 : slice (s1 ++ s2) 0 (length s1) = Ret s1.
Proof.
  unfold slice. rewrite length_app. simpl. rewrite (proj2 (Nat.leb_le _ _)) by lia.
  by rewrite Nat.sub_0_r, drop_0, take_app_length.
Qed.
Lemma slice_middle s1 s2 s3 : slice (s1 ++ s2 ++ s3) (length s1) (length s1 + length s2) = Ret s2.
Proof.
  unfold slice. rewrite !length_app. rewrite !(proj2 (Nat.leb_le _ _)) by lia. simpl.
  rewrite drop_app_length. replace (length s1 + length s2 - length s1)%nat with (length s2) by lia.
  by rewrite take_app_length.
Qed.

Lemma lines_from_nl acc l s : nl ∉ l → lines_from acc (l ++ nl :: s) = strip_cr (acc ++ l) :: lines s.
Proof.
  revert acc. induction l as [|a l IH]; intros acc Hl; cbn [lines_from app].
  - rewrite bool_decide_true by done. by rewrite (right_id_L [] (++)).
  - rewrite bool_decide_false by set_solver. rewrite IH by set_solver. by rewrite <- (assoc (++)).
Qed.
Lemma lines_nl l s : nl ∉ l → lines (l ++ nl :: s) = strip_cr l :: lines s.
Proof. apply (lines_from_nl []). Qed.

Lemma strip_cr_id l a : a ≠ cr → strip_cr (l ++ [a]) = l ++ [a].
Proof. intros Ha. unfold strip_cr. rewrite last_snoc. by rewrite bool_decide_false. Qed.
End TextFacts.

(** ** The printer and the parser of constants *)
Section ConstLines.
Import BuildConfig.

(** What a constant of the generated file may look like: a name without
    colon, no equals sign before the value, and no outer white space. *)
Record printable (n ty v : text) : Prop := {
  pr_name : trim n = n;
  pr_colon : ":"%char ∉ n;
  pr_eq : "="%char ∉ n ++ str ": " ++ ty ++ str " ";
  pr_value : trim v = v;
  pr_nl : nl ∉ n ++ ty ++ v
}.

Lemma const_rest_trim n ty v :
  trim n = n → trim (n ++ str ": " ++ ty ++ str " = " ++ v ++ str ";") =
               n ++ str ": " ++ ty ++ str " = " ++ v ++ str ";".
Proof.
  intros Hn.
  assert (H1 : str ": " ++ ty ++ str " = " ++ v ++ str ";" =
    ":"%char :: (" "%char :: ty ++ str " = " ++ v) ++ [";"%char]) by (unfold str; simpl; by rewrite <- !app_assoc).
  rewrite H1. destruct n as [|a n].
  - by apply trim_ends.
  - change ((a :: n) ++ ?x) with (a :: (n ++ x)).
    assert (H2 : n ++ ":"%char :: (" "%char :: ty ++ str " = " ++ v) ++ [";"%char] =
      (n ++ ":"%char :: " "%char :: ty ++ str " = " ++ v) ++ [";"%char]) by (by rewrite <- app_assoc).
    rewrite H2. apply trim_ends; [by eapply trim_fixed_head|done].
Qed.

Lemma parse_const_line_print n ty v :
  printable n ty v → parse_const_line (const_line n ty v) = Ret (Some (n, v)).
Proof.
  intros [Hn Hc He Hv _]. unfold parse_const_line, const_line.
  rewrite strip_prefix_app, const_rest_trim by done. cbv zeta.
  change (str ": " ++ ?x) with (":"%char :: " "%char :: x).
  rewrite find_app by done. rewrite slice_prefix.
  assert (H1 : n ++ ":"%char :: " "%char :: ty ++ str " = " ++ v ++ str ";" =
    (n ++ str ": " ++ ty ++ str " ") ++ "="%char :: (" "%char :: v) ++ [";"%char]).
  { rewrite <- !app_assoc. done. }
  rewrite H1, find_app by done.
  assert (H2 : ∀ s : text, s ++ "="%char :: (" "%char :: v) ++ [";"%char] =
    (s ++ "="%char :: " "%char :: v) ++ [";"%char]) by (intros s; by rewrite <- app_assoc).
  rewrite H2, rfind_last, <- H2. simpl default.
  set (s := n ++ _). cbn [mbind outcome_bind].
  pose proof (slice_middle (s ++ ["="%char]) (" "%char :: v) [";"%char]) as Hs.
  rewrite <- app_assoc in Hs. simpl in Hs. rewrite !length_app in *. simpl in *.
  replace (length s + S (S (length v)))%nat with (length s + 1 + S (length v))%nat by lia.
  rewrite Hs. cbn [mbind outcome_bind]. change (" "%char :: v) with ([" "%char] ++ v).
  by rewrite Hn, trim_lead, Hv by (by repeat constructor).
Qed.
End ConstLines.

Section ConfigFile.
Import BuildConfig.

(** The names and types of the table can be printed and parsed. *)
Lemma params_printable p v :
  p ∈ CONFIG_PARAMS → trim v = v → nl ∉ v → printable (str (name p)) (str (rust_type p)) v.
Proof.
  intros Hp Hv Hnl.
  assert (Hall : Forall (λ p, trim (str (name p)) = str (name p) ∧ (":"%char ∉ str (name p)) ∧
    ("="%char ∉ str (name p) ++ str ": " ++ str (rust_type p) ++ str " ") ∧
    (nl ∉ str (name p)) ∧ (nl ∉ str (rust_type p))) CONFIG_PARAMS).
  { refine (bool_decide_unpack _ _). vm_compute. exact I. }
  rewrite Forall_forall in Hall. destruct (Hall p Hp) as (H1 & H2 & H3 & H4 & H5).
  split; try done. rewrite !not_elem_of_app. done.
Qed.

Lemma params_known p : p ∈ CONFIG_PARAMS → known (str (name p)) = true.
Proof. intros Hp. unfold known. apply existsb_exists. exists p. rewrite bool_decide_true by done. by apply list_elem_of_In in Hp. Qed.

(** A printed constant is kept whole by the line splitter and the trimming of
    the merge loop. *)
Lemma merge_const_line c p v :
  p ∈ CONFIG_PARAMS → trim v = v → nl ∉ v →
  merge_line c (const_line (str (name p)) (str (rust_type p)) v) = Ret (<[str (name p) := v]> c).
Proof.
  intros Hp Hv Hnl. pose proof (params_printable p v Hp Hv Hnl) as Hpr.
  assert (Ht : ∀ n ty, trim (const_line n ty v) = const_line n ty v).
  { intros n ty. unfold const_line.
    assert (Hs : KEYWORD ++ n ++ str ": " ++ ty ++ str " = " ++ v ++ str ";" =
      "p"%char :: (str "ub const " ++ n ++ str ": " ++ ty ++ str " = " ++ v) ++ [";"%char]).
    { unfold KEYWORD, str. simpl. by repeat (rewrite <- app_assoc; simpl). }
    rewrite Hs. by apply trim_ends. }
  unfold merge_line. rewrite Ht.
  assert (Hst : starts_with (const_line (str (name p)) (str (rust_type p)) v) KEYWORD = true).
  { unfold starts_with, const_line. by rewrite strip_prefix_app. }
  rewrite Hst, parse_const_line_print by done. simpl. by rewrite params_known.
Qed.

Lemma lines_const n ty v s :
  printable n ty v → lines (const_line n ty v ++ nl :: s) = const_line n ty v :: lines s.
Proof.
  intros Hpr. rewrite lines_nl.
  - f_equal. unfold const_line. rewrite !app_assoc. by apply strip_cr_id.
  - pose proof (pr_nl _ _ _ Hpr) as Hnl. unfold const_line. rewrite !not_elem_of_app in *.
    split_and!; try tauto; refine (bool_decide_unpack _ _); vm_compute; exact I.
Qed.

(** Merging the printed constants [ps] of [c] sets exactly their names. *)
Lemma merge_generated c c0 ps :
  (∀ p, p ∈ ps → p ∈ CONFIG_PARAMS) →
  (∀ p, p ∈ ps → ∃ v, c !! str (name p) = Some v ∧ trim v = v ∧ nl ∉ v) →
  ∃ out c', generate_consts c ps = Ret out ∧ merge_lines c0 (lines out) = Ret c' ∧
    (∀ p, p ∈ ps → c' !! str (name p) = c !! str (name p)) ∧
    (∀ n, (∀ p, p ∈ ps → str (name p) ≠ n) → c' !! n = c0 !! n).
Proof.
  revert c0. induction ps as [|p ps IH]; intros c0 Hps Hc.
  { exists [], c0. split_and!; try done. set_solver. }
  destruct (Hc p) as (v & Hv & Htrim & Hnl); [set_solver|].
  destruct (IH (<[str (name p) := v]> c0)) as (out & c' & Hout & Hm & Hin & Hnin); [set_solver|set_solver|].
  exists (const_line (str (name p)) (str (rust_type p)) v ++ [nl] ++ out), c'.
  cbn [generate_consts]. rewrite Hv, Hout. split_and!; [done| | |].
  - cbn [app]. rewrite lines_const by (apply params_printable; set_solver). cbn [merge_lines].
    rewrite merge_const_line by set_solver. exact Hm.
  - intros p' Hp'. destruct (decide (str (name p') ∈ (λ p2, str (name p2)) <$> ps)) as [(p2 & -> & Hp2)%list_elem_of_fmap|Hno].
    + by apply Hin.
    + rewrite list_elem_of_fmap in Hno. apply elem_of_cons in Hp' as [->|Hp']; [|naive_solver].
      rewrite Hnin by naive_solver. by rewrite lookup_insert_eq.
  - intros n Hn. rewrite Hnin by set_solver. rewrite lookup_insert_ne; [done|]. apply Hn. set_solver.
Qed.
End ConfigFile.

(** The two comment lines and the empty line of the generated file. *)
Lemma merge_header (u : bool) (c : BuildConfig.config) (out : text) :
  BuildConfig.merge_lines c
    (lines ((str "// Auto-generated by build.rs - do not edit" ++ [nl] ++
             str "// Configuration merged from library defaults" ++
             (if u then str " and user's gvt_config.rs" else []) ++ [nl; nl]) ++ out)) =
  BuildConfig.merge_lines c (lines out).
Proof. by destruct u. Qed.

(** ** Properties *)

(** The generated configuration file can be read back.  For every map
    that gives each parameter of the table a value without outer white space
    or line breaks, [generate_config] succeeds, and [parse_and_merge] of its
    output, over any other map, sets every parameter to that value and changes
    nothing else. *)
Theorem config_file_roundtrip (u : bool) (c c0 : BuildConfig.config) :
  (∀ p, p ∈ BuildConfig.CONFIG_PARAMS →
     ∃ v, c !! str (BuildConfig.name p) = Some v ∧ trim v = v ∧ nl ∉ v) →
  ∃ out c', BuildConfig.generate_config u c = Ret out ∧
    BuildConfig.parse_and_merge out c0 = Ret c' ∧
    (∀ p, p ∈ BuildConfig.CONFIG_PARAMS → c' !! str (BuildConfig.name p) = c !! str (BuildConfig.name p)) ∧
    (∀ n, BuildConfig.known n = false → c' !! n = c0 !! n).
Proof.
  intros Hc. destruct (merge_generated c c0 BuildConfig.CONFIG_PARAMS (λ _ H, H) Hc)
    as (out & c' & Hout & Hm & Hin & Hnin).
  unfold BuildConfig.generate_config. rewrite Hout. eexists _, c'. split_and!; [done| |done|].
  - unfold BuildConfig.parse_and_merge. by rewrite merge_header.
  - intros n Hn. apply Hnin. intros p Hp <-. by rewrite params_known in Hn.
Qed.

Lemma config_file_roundtrip_witness :
  ∃ out c', BuildConfig.generate_config false BuildConfig.defaults = Ret out ∧
    BuildConfig.parse_and_merge out ∅ = Ret c' ∧ c' !! str "STACK_SIZE" = Some (str "16 * 1024 * 1024").
Proof.
  destruct (config_file_roundtrip false BuildConfig.defaults ∅) as (out & c' & H1 & H2 & H3 & _).
  - assert (Hall : Forall (λ p, BuildConfig.defaults !! str (BuildConfig.name p) = Some (str (BuildConfig.default_value p)) ∧
      trim (str (BuildConfig.default_value p)) = str (BuildConfig.default_value p) ∧
      (nl ∉ str (BuildConfig.default_value p))) BuildConfig.CONFIG_PARAMS).
    { refine (bool_decide_unpack _ _). vm_compute. exact I. }
    rewrite Forall_forall in Hall. intros p Hp. eauto.
  - exists out, c'. split_and!; [done|done|].
    refine (eq_trans (H3 (BuildConfig.Param "STACK_SIZE" "usize" "16 * 1024 * 1024") _) _);
      [refine (list_elem_of_lookup_2 _ 9 _ _); reflexivity|vm_compute; reflexivity].
Defined.

(** The line parser of the build script takes less than a Rust constant.
    A declaration broken after the equals sign sets the parameter to the empty
    text, a semicolon in a trailing comment makes the comment part of the
    value, and a line whose only semicolon is before the equals sign makes the
    build script panic. *)
Theorem build_parser_limits :
  (c ← BuildConfig.parse_and_merge (str "pub const STACK_SIZE: usize =" ++ [nl] ++ str "  4096;")
         BuildConfig.defaults;
   Ret (c !! str "STACK_SIZE")) = Ret (Some []) ∧
  BuildConfig.parse_const_line (str "pub const NUM_WORKERS: usize = 8; // was 4;") =
    Ret (Some (str "NUM_WORKERS", str "8; // was 4")) ∧
  BuildConfig.parse_and_merge (str "pub const TABLE: [u8; 4] = [") BuildConfig.defaults = Panic.
Proof. split_and!; vm_compute; reflexivity. Qed.

(** [validate] accepts exactly the documented ranges, and what it accepts
    includes the defaults of the library. *)
Theorem validate_spec (c : SchedulerConfig.t) :
  0 ≤ SchedulerConfig.num_workers c → 0 ≤ SchedulerConfig.max_gvthreads c →
  0 ≤ SchedulerConfig.local_queue_capacity c → 0 ≤ SchedulerConfig.global_queue_capacity c →
  (SchedulerConfig.validate c = Ok () ↔
     1 ≤ SchedulerConfig.num_workers c ≤ 256 ∧
     SchedulerConfig.num_low_priority_workers c < SchedulerConfig.num_workers c ∧
     1 ≤ SchedulerConfig.max_gvthreads c ∧ 65536 ≤ SchedulerConfig.stack_size c ∧
     1 ≤ SchedulerConfig.local_queue_capacity c ∧ 1 ≤ SchedulerConfig.global_queue_capacity c) ∧
  SchedulerConfig.validate (SchedulerConfig.new SchedulerConfig.library_defaults) = Ok ().
Proof.
  intros. split; [|reflexivity]. unfold SchedulerConfig.validate.
  repeat case_match; split; intros; try done; lia.
Qed.

Lemma validate_spec_witness :
  SchedulerConfig.validate
    (SchedulerConfig.with_num_workers (SchedulerConfig.new SchedulerConfig.library_defaults) 100) = Ok ().
Proof.
  apply (validate_spec (SchedulerConfig.with_num_workers (SchedulerConfig.new SchedulerConfig.library_defaults) 100));
    simpl; lia.
Defined.

(** Environment variables override the defaults one by one.  With none of
    them set [from_env] is [new]; a variable that does not parse as an unsigned
    number is ignored; and setting one variable changes only its field. *)
Theorem from_env_overrides (d : SchedulerConfig.Defaults) (env : gmap string string) v :
  in_u 32 (SchedulerConfig.IDLE_SPINS d) →
  SchedulerConfig.from_env ∅ d = SchedulerConfig.new d ∧
  (SchedulerConfig.parse_uint 64 v = None → env !! "GVT_NUM_WORKERS" = None →
     SchedulerConfig.from_env (<["GVT_NUM_WORKERS" := v]> env) d = SchedulerConfig.from_env env d) ∧
  (∀ n, SchedulerConfig.parse_uint 64 v = Some n →
     SchedulerConfig.from_env (<["GVT_NUM_WORKERS" := v]> env) d =
     SchedulerConfig.with_num_workers (SchedulerConfig.from_env env d) n).
Proof.
  intros Hs. split_and!.
  - unfold SchedulerConfig.from_env, SchedulerConfig.new, SchedulerConfig.env_usize,
      SchedulerConfig.env_u64, Env.env_get. rewrite !lookup_empty, wrap_small by done.
    by destruct (SchedulerConfig.ENABLE_FORCED_PREEMPT d), (SchedulerConfig.DEBUG_LOGGING d).
  - intros Hv Hn. unfold SchedulerConfig.from_env, SchedulerConfig.env_usize,
      SchedulerConfig.env_u64, Env.env_get. rewrite lookup_insert_eq, Hv, Hn.
    by rewrite !lookup_insert_ne by done.
  - intros n Hn. unfold SchedulerConfig.from_env, SchedulerConfig.with_num_workers, SchedulerConfig.env_usize,
      SchedulerConfig.env_u64, Env.env_get. rewrite lookup_insert_eq, Hn.
    by rewrite !lookup_insert_ne by done.
Qed.

Lemma from_env_overrides_witness :
  SchedulerConfig.from_env (<["GVT_NUM_WORKERS" := "8"%string]> ∅) SchedulerConfig.library_defaults =
  SchedulerConfig.with_num_workers (SchedulerConfig.from_env ∅ SchedulerConfig.library_defaults) 8.
Proof.
  apply (from_env_overrides SchedulerConfig.library_defaults ∅ "8"); [unfold in_u; simpl; lia|reflexivity].
Defined.
