(* ===== verification/Arch.v ===== *)
(** * Context switching on x86-64

    Models [gvthread-runtime/src/arch/x86_64/mod.rs]: [init_context] and the
    three naked functions [gvthread_entry_trampoline],
    [context_switch_voluntary] and [context_restore_forced], instruction by
    instruction, over a machine with the sixteen general registers, the
    instruction pointer, the flags and a memory of 64-bit words.  Instruction
    [k] of a routine placed at [base] has the address [base + k]: the length of
    an encoding plays no role.  Every access in these routines is to an aligned
    word; the machine stops at an access that is not. *)

From S2P Require Import Prelude CoreTypes Metadata.

Inductive reg : Type :=
| rax | rbx | rcx | rdx | rsi | rdi | rbp | rsp
| r8 | r9 | r10 | r11 | r12 | r13 | r14 | r15.
#[global] Instance reg_eq_dec : EqDecision reg.
Proof. solve_decision. Defined.

Inductive instr : Type :=
| Mov (dst src : reg)
| Load (dst base : reg) (off : Z)
| Store (base : reg) (off : Z) (src : reg)
| Lea (dst : reg) (addr : Z)
| Jmp (r : reg)
| CallReg (r : reg)
| CallSym (addr : Z)
| Ret_
| Push (base : reg) (off : Z)
| Popfq
| Ud2.

Record machine : Type := Machine {
  regs : reg → Z;
  rip : Z;
  rflags : Z;
  mem : Z → Z
}.

Section Machine.
Context (code : Z → option instr).

Definition upd {A} `{EqDecision A} (f : A → Z) (a : A) (v : Z) : A → Z :=
  λ b, if decide (b = a) then v else f b.

Definition aligned (a : Z) : bool := a mod 8 =? 0.
Definition load (m : machine) (a : Z) : option Z := if aligned a then Some (mem m a) else None.
Definition store (m : machine) (a v : Z) : option machine :=
  if aligned a then Some (Machine (regs m) (rip m) (rflags m) (upd (mem m) a v)) else None.
Definition set_reg (m : machine) (r : reg) (v : Z) : machine :=
  Machine (upd (regs m) r v) (rip m) (rflags m) (mem m).
Definition set_rip (m : machine) (a : Z) : machine := Machine (regs m) a (rflags m) (mem m).
Definition set_flags (m : machine) (f : Z) : machine := Machine (regs m) (rip m) f (mem m).

Definition next (m : machine) : machine := set_rip m (rip m + 1).

Definition push (m : machine) (v : Z) : option machine :=
  let sp := regs m rsp -[64] 8 in store (set_reg m rsp sp) sp v.
Definition pop (m : machine) : option (Z * machine) :=
  match load m (regs m rsp) with
  | Some v => Some (v, set_reg m rsp (regs m rsp +[64] 8))
  | None => None
  end.
Definition call (m : machine) (target : Z) : option machine :=
  match push m (rip m + 1) with Some m' => Some (set_rip m' target) | None => None end.

Definition exec (i : instr) (m : machine) : option machine :=
  match i with
  | Mov d s => Some (next (set_reg m d (regs m s)))
  | Load d b off => match load m (regs m b +[64] off) with Some v => Some (next (set_reg m d v)) | None => None end
  | Store b off s => match store m (regs m b +[64] off) (regs m s) with Some m' => Some (next m') | None => None end
  | Lea d a => Some (next (set_reg m d a))
  | Jmp r => Some (set_rip m (regs m r))
  | CallReg r => call m (regs m r)
  | CallSym a => call m a
  | Ret_ => match pop m with Some (v, m') => Some (set_rip m' v) | None => None end
  | Push b off =>
      match load m (regs m b +[64] off) with
      | Some v => match push m v with Some m' => Some (next m') | None => None end
      | None => None
      end
  | Popfq => match pop m with Some (v, m') => Some (next (set_flags m' v)) | None => None end
  | Ud2 => None
  end.

Definition mstep1 (m : machine) : option machine :=
  match code (rip m) with Some i => exec i m | None => None end.
Fixpoint run (n : nat) (m : machine) : option machine :=
  match n with
  | O => Some m
  | S n' => match mstep1 m with Some m' => run n' m' | None => None end
  end.

(** A routine is placed at [base]. *)
Definition placed (base : Z) (routine : list instr) : Prop :=
  ∀ k i, routine !! k = Some i → code (base + Z.of_nat k) = Some i.
End Machine.

(** ** The routines *)

(** The label 1 is the eighteenth instruction. *)
Definition RESUME : Z := 18.
Definition context_switch_voluntary (base : Z) : list instr :=
  [Store rdi 0x00 rsp;
   Lea rax (base + RESUME);
   Store rdi 0x08 rax;
   Store rdi 0x10 rbx;
   Store rdi 0x18 rbp;
   Store rdi 0x20 r12;
   Store rdi 0x28 r13;
   Store rdi 0x30 r14;
   Store rdi 0x38 r15;
   Load rsp rsi 0x00;
   Load rax rsi 0x08;
   Load rbx rsi 0x10;
   Load rbp rsi 0x18;
   Load r12 rsi 0x20;
   Load r13 rsi 0x28;
   Load r14 rsi 0x30;
   Load r15 rsi 0x38;
   Jmp rax;
   Ret_].

Definition gvthread_entry_trampoline (gvthread_finished : Z) : list instr :=
  [Mov rdi r13; CallReg r12; CallSym gvthread_finished; Ud2].

Definition context_restore_forced : list instr :=
  [Load rax rdi 0x00;
   Load rbx rdi 0x08;
   Load rcx rdi 0x10;
   Load rdx rdi 0x18;
   Load rsi rdi 0x20;
   Load rbp rdi 0x30;
   Load rsp rdi 0x38;
   Load r8 rdi 0x40;
   Load r9 rdi 0x48;
   Load r10 rdi 0x50;
   Load r11 rdi 0x58;
   Load r12 rdi 0x60;
   Load r13 rdi 0x68;
   Load r14 rdi 0x70;
   Load r15 rdi 0x78;
   Push rdi 0x80;
   Push rdi 0x88;
   Load rdi rdi 0x28;
   Popfq;
   Ret_].

(** [init_context], as the registers it writes. *)
Definition init_context (stack_top entry_fn entry_arg trampoline : Z) : VoluntarySavedRegs.t :=
  VoluntarySavedRegs.mk (Z.land stack_top (u64_not 0xF)) trampoline 0 0 entry_fn entry_arg 0 0.

(** The registers of a saved context, at their offsets. *)
Definition saved_at (mm : Z → Z) (p : Z) : VoluntarySavedRegs.t :=
  VoluntarySavedRegs.mk (mm p) (mm (p + 0x08)) (mm (p + 0x10)) (mm (p + 0x18))
    (mm (p + 0x20)) (mm (p + 0x28)) (mm (p + 0x30)) (mm (p + 0x38)).

(** The callee-saved registers with the stack pointer, and a resume address. *)
Definition context_of (rs : reg → Z) (ip : Z) : VoluntarySavedRegs.t :=
  VoluntarySavedRegs.mk (rs rsp) ip (rs rbx) (rs rbp) (rs r12) (rs r13) (rs r14) (rs r15).

(** ** Running stretches of code *)
Section Stretches.
Context (code : Z → option instr).
Implicit Types (m : machine) (rs : reg → Z) (mm : Z → Z).

(** An aligned block of [n] bytes of the address space. *)
Definition block (p n : Z) : Prop := 0 ≤ p ∧ p + n ≤ 2 ^ 64 ∧ p mod 8 = 0.
(** A word of such a block. *)
Definition word_of (n off : Z) : Prop := 0 ≤ off ∧ off + 8 ≤ n ∧ off mod 8 = 0.
#[global] Instance word_of_dec n off : Decision (word_of n off).
Proof. unfold word_of. apply _. Defined.

Lemma aligned_iff a : aligned a = true ↔ a mod 8 = 0.
Proof. unfold aligned. apply Z.eqb_eq. Qed.

Lemma block_word p n off : block p n → word_of n off → p +[64] off = p + off ∧ aligned (p + off) = true.
Proof.
  intros (H0 & H1 & H2) (H3 & H4 & H5). split; [apply wrap_small; unfold in_u; lia|].
  apply aligned_iff. rewrite Z.add_mod, H2, H5 by lia. done.
Qed.

Lemma placed_app base l1 l2 :
  placed code base (l1 ++ l2) → placed code base l1 ∧ placed code (base + Z.of_nat (length l1)) l2.
Proof.
  intros Hp. split; intros k i Hk.
  - apply Hp. by apply lookup_app_l_Some.
  - rewrite <- Z.add_assoc, <- Nat2Z.inj_add. apply Hp.
    rewrite lookup_app_r by lia. rewrite <- Hk. f_equal. lia.
Qed.

Lemma placed_cons base i l :
  placed code base (i :: l) → code base = Some i ∧ placed code (base + 1) l.
Proof.
  intros Hp. destruct (placed_app base [i] l Hp) as [H1 H2]. split; [|exact H2].
  rewrite <- (Z.add_0_r base). by apply (H1 0%nat).
Qed.

Lemma run_add n1 n2 m : run code (n1 + n2) m = match run code n1 m with Some m' => run code n2 m' | None => None end.
Proof.
  revert m. induction n1 as [|n1 IH]; intros m; [done|]. simpl.
  destruct (mstep1 code m); [apply IH|done].
Qed.

Lemma run_S n m i m' : code (rip m) = Some i → exec i m = Some m' → run code (S n) m = run code n m'.
Proof. intros Hc He. simpl. unfold mstep1. by rewrite Hc, He. Qed.

(** Stores of registers into a block, loads of registers from one. *)
Definition store_all (p : Z) rs (l : list (Z * reg)) mm : Z → Z :=
  foldl (λ mm x, upd mm (p + x.1) (rs x.2)) mm l.
Definition load_all (p : Z) mm (l : list (reg * Z)) rs : reg → Z :=
  foldl (λ rs x, upd rs x.1 (mm (p + x.2))) rs l.

Lemma run_stores b p n l m :
  regs m b = p → block p n → Forall (λ x, word_of n x.1) l →
  placed code (rip m) ((λ x, Store b x.1 x.2) <$> l) →
  run code (length l) m =
    Some (Machine (regs m) (rip m + Z.of_nat (length l)) (rflags m) (store_all p (regs m) l (mem m))).
Proof.
  intros Hb Hp. revert m Hb. induction l as [|[off r] l IH]; intros m Hb Hl Hpl.
  { simpl. rewrite Z.add_0_r. by destruct m. }
  apply Forall_cons in Hl as [Hw Hl]. simpl in Hpl, Hw. apply placed_cons in Hpl as [Hc Hpl].
  destruct (block_word p n off Hp Hw) as [Ha Hal]. cbn [length].
  erewrite run_S; [|exact Hc|cbn; unfold store; rewrite Hb, Ha, Hal; reflexivity].
  rewrite IH by done. f_equal. simpl. f_equal; lia.
Qed.

Lemma load_all_other p mm l rs r : r ∉ l.*1 → load_all p mm l rs r = rs r.
Proof.
  revert rs. induction l as [|[d off] l IH]; intros rs Hr; [done|].
  apply not_elem_of_cons in Hr as [Hd Hr].
  cbn. fold (load_all p mm l (upd rs d (mm (p + off)))). rewrite (IH _ Hr).
  unfold upd. by rewrite decide_False.
Qed.

Lemma run_loads b p n l m :
  regs m b = p → block p n → Forall (λ x, word_of n x.2) l → b ∉ l.*1 →
  placed code (rip m) ((λ x, Load x.1 b x.2) <$> l) →
  run code (length l) m =
    Some (Machine (load_all p (mem m) l (regs m)) (rip m + Z.of_nat (length l)) (rflags m) (mem m)).
Proof.
  intros Hb Hp. revert m Hb. induction l as [|[d off] l IH]; intros m Hb Hl Hnb Hpl.
  { simpl. rewrite Z.add_0_r. by destruct m. }
  apply Forall_cons in Hl as [Hw Hl]. simpl in Hpl, Hw. apply placed_cons in Hpl as [Hc Hpl].
  destruct (block_word p n off Hp Hw) as [Ha Hal]. cbn [length].
  erewrite run_S; [|exact Hc|cbn; unfold load; rewrite Hb, Ha, Hal; reflexivity].
  rewrite IH; [|simpl; unfold upd; rewrite decide_False by set_solver; done|done|set_solver|done].
  f_equal. simpl. f_equal; lia.
Qed.

(** What a word outside the stored ones holds. *)
Lemma store_all_other p rs l mm a : Forall (λ x, a ≠ p + x.1) l → store_all p rs l mm a = mm a.
Proof.
  intros Hl. revert mm. induction Hl as [|[off r] l Ha _ IH]; intros mm; [done|].
  cbn. fold (store_all p rs l (upd mm (p + off) (rs r))). rewrite IH.
  unfold upd. by rewrite decide_False.
Qed.
End Stretches.

(** ** The stack *)
Section Stack.
Lemma upd_eq {A} `{EqDecision A} (f : A → Z) a v : upd f a v a = v.
Proof. unfold upd. by rewrite decide_True. Qed.
Lemma upd_ne {A} `{EqDecision A} (f : A → Z) a b v : b ≠ a → upd f a v b = f b.
Proof. intros. unfold upd. by rewrite decide_False. Qed.

Lemma push_ok m v :
  8 ≤ regs m rsp < 2 ^ 64 → regs m rsp mod 8 = 0 →
  push m v = Some (Machine (upd (regs m) rsp (regs m rsp - 8)) (rip m) (rflags m) (upd (mem m) (regs m rsp - 8) v)).
Proof.
  intros Hs Ha. unfold push, store. rewrite wrap_small by (unfold in_u; lia).
  rewrite (proj2 (aligned_iff _)); [done|]. rewrite Zminus_mod, Ha. done.
Qed.

Lemma pop_ok m :
  0 ≤ regs m rsp → regs m rsp + 8 < 2 ^ 64 → regs m rsp mod 8 = 0 →
  pop m = Some (mem m (regs m rsp), set_reg m rsp (regs m rsp + 8)).
Proof.
  intros H0 Hs Ha. unfold pop, load. rewrite (proj2 (aligned_iff _)) by done.
  by rewrite wrap_small by (unfold in_u; lia).
Qed.
End Stack.

(** ** The voluntary switch *)
Section Switch.
Context (code : Z → option instr) (base : Z).
Hypothesis Hcode : placed code base (context_switch_voluntary base).
Implicit Types (m : machine).

Definition SAVES : list (Z * reg) :=
  [(0x08, rax); (0x10, rbx); (0x18, rbp); (0x20, r12); (0x28, r13); (0x30, r14); (0x38, r15)].
Definition LOADS : list (reg * Z) :=
  [(rsp, 0x00); (rax, 0x08); (rbx, 0x10); (rbp, 0x18); (r12, 0x20); (r13, 0x28); (r14, 0x30); (r15, 0x38)].

(** A save area of the context is one block of 64 bytes. *)
Definition in_block (p n a : Z) : Prop := p ≤ a < p + n.

Definition SWITCHED : list reg := [rsp; rax; rbx; rbp; r12; r13; r14; r15].

(** The machine after the eighteen instructions, as a term. *)
Lemma switch_run_eq m old new :
  rip m = base → regs m rdi = old → regs m rsi = new → block old 64 → block new 64 →
  run code 18 m =
    let rs := upd (regs m) rax (base + RESUME) in
    let mm := store_all old rs SAVES (store_all old (regs m) [(0x00, rsp)] (mem m)) in
    let rs' := load_all new mm LOADS rs in
    Some (Machine rs' (rs' rax) (rflags m) mm).
Proof.
  intros Hip Hdi Hsi Hold Hnew.
  change (context_switch_voluntary base) with
    (((λ x, Store rdi x.1 x.2) <$> [(0x00, rsp)]) ++ [Lea rax (base + RESUME)] ++
     ((λ x, Store rdi x.1 x.2) <$> SAVES) ++ ((λ x, Load x.1 rsi x.2) <$> LOADS) ++ [Jmp rax; Ret_]) in Hcode.
  apply placed_app in Hcode as [H1 H2]. apply placed_app in H2 as [H2 H3].
  apply placed_app in H3 as [H3 H4]. apply placed_app in H4 as [H4 H5].
  rewrite ?length_fmap in *. cbn [length SAVES LOADS Z.of_nat] in *.
  apply placed_cons in H2 as [H2 _]. apply placed_cons in H5 as [H5 _].
  change 18%nat with (1 + (1 + (7 + (8 + 1))))%nat. cbv zeta.
  rewrite run_add, (run_stores code rdi old 64 [(0x00, rsp)]);
    [|done|done|refine (bool_decide_unpack _ _); vm_compute; exact I|by rewrite Hip].
  rewrite run_add. erewrite run_S; [|cbn [rip]; rewrite Hip; exact H2|reflexivity]. cbn [run].
  rewrite run_add. change 7%nat with (length SAVES). erewrite (run_stores code rdi old 64 SAVES);
    [|simpl; unfold upd; by rewrite decide_False|done|refine (bool_decide_unpack _ _); vm_compute; exact I|].
  2: { cbn [rip next set_rip set_reg]. by rewrite Hip. }
  rewrite run_add. change 8%nat with (length LOADS). erewrite (run_loads code rsi new 64 LOADS);
    [|simpl; unfold upd; by rewrite decide_False|done|refine (bool_decide_unpack _ _); vm_compute; exact I
     |refine (bool_decide_unpack _ _); vm_compute; exact I|].
  2: { cbn [rip next set_rip set_reg]. rewrite Hip. exact H4. }
  erewrite run_S; [|cbn [rip next set_rip set_reg]; rewrite Hip; exact H5|reflexivity]. reflexivity.
Qed.

Lemma switch_run m old new :
  rip m = base → regs m rdi = old → regs m rsi = new → block old 64 → block new 64 →
  (∀ a, in_block old 64 a → ¬ in_block new 64 a) →
  ∃ m', run code 18 m = Some m' ∧
    context_of (regs m') (rip m') = saved_at (mem m) new ∧
    saved_at (mem m') old = context_of (regs m) (base + RESUME) ∧
    (∀ a, ¬ in_block old 64 a → mem m' a = mem m a) ∧
    (∀ r, r ∉ SWITCHED → regs m' r = regs m r).
Proof.
  intros Hip Hdi Hsi Hold Hnew Hdis. eexists.
  split; [by apply switch_run_eq|]. cbn [regs rip mem]. set (mm := store_all _ _ SAVES _).
  assert (Hmm : ∀ a, ¬ in_block old 64 a → mm a = mem m a).
  { intros a Ha. unfold mm. unfold in_block in Ha.
    rewrite !store_all_other; [done|..]; unfold SAVES; repeat constructor; simpl; lia. }
  assert (Hnw : ∀ off, 0 ≤ off < 64 → mm (new + off) = mem m (new + off)).
  { intros off Hoff. apply Hmm. intros Ha. apply (Hdis _ Ha). unfold in_block. lia. }
  split_and!; [..|done|].
  - unfold context_of, saved_at, load_all, LOADS, upd. cbn [foldl fst snd].
    repeat (rewrite ?decide_False by done; rewrite ?decide_True by done).
    rewrite !Hnw by lia. by rewrite Z.add_0_r.
  - unfold mm, saved_at, context_of, store_all, SAVES, upd. cbn [foldl fst snd].
    by repeat (rewrite ?decide_False by (done || lia); rewrite ?decide_True by (done || lia)).
  - intros r Hr. rewrite load_all_other by exact Hr. unfold upd. rewrite decide_False; [done|].
    intros ->. apply Hr. unfold SWITCHED. set_solver.
Qed.
End Switch.

(** ** The forced restore *)
Section Forced.
Context (code : Z → option instr) (base : Z).
Hypothesis Hcode : placed code base context_restore_forced.

Definition FORCED_LOADS : list (reg * Z) :=
  [(rax, 0x00); (rbx, 0x08); (rcx, 0x10); (rdx, 0x18); (rsi, 0x20); (rbp, 0x30); (rsp, 0x38);
   (r8, 0x40); (r9, 0x48); (r10, 0x50); (r11, 0x58); (r12, 0x60); (r13, 0x68); (r14, 0x70); (r15, 0x78)].
(** Offsets of the general registers in [ForcedSavedRegs]. *)
Definition FORCED_REGS : list (reg * Z) := (rdi, 0x28) :: FORCED_LOADS.

Definition FORCED_TAIL : list instr := [Push rdi 0x80; Push rdi 0x88; Load rdi rdi 0x28; Popfq; Ret_].

(** The end of the routine: [rip] and [rflags] go through the restored stack. *)
Lemma forced_tail rs fl mm ip p sp :
  placed code ip FORCED_TAIL → rs rdi = p → rs rsp = sp → block p 256 →
  16 ≤ sp < 2 ^ 64 → sp mod 8 = 0 → (∀ a, in_block (sp - 16) 16 a → ¬ in_block p 256 a) →
  run code 5 (Machine rs ip fl mm) =
    Some (Machine (upd (upd (upd (upd (upd rs rsp (sp - 8)) rsp (sp - 16)) rdi (mm (p + 0x28))) rsp (sp - 8)) rsp sp)
                  (mm (p + 0x80)) (mm (p + 0x88))
                  (upd (upd mm (sp - 8) (mm (p + 0x80))) (sp - 16) (mm (p + 0x88)))).
Proof.
  intros H1 Hrdi Hrsp Hp Hs0 Hs1 Hdis.
  apply placed_cons in H1 as [H1 H2]. apply placed_cons in H2 as [H2 H3]. apply placed_cons in H3 as [H3 H4].
  apply placed_cons in H4 as [H4 H5]. apply placed_cons in H5 as [H5 _].
  destruct (block_word p 256 0x28 Hp) as [Ha1 Hb1]; [by compute|].
  destruct (block_word p 256 0x80 Hp) as [Ha2 Hb2]; [by compute|].
  destruct (block_word p 256 0x88 Hp) as [Ha3 Hb3]; [by compute|].
  assert (Hal : (sp - 8) mod 8 = 0 ∧ (sp - 16) mod 8 = 0) by (split; rewrite Zminus_mod, Hs1; done).
  assert (Hpm : ∀ off, 0 ≤ off < 256 → p + off ≠ sp - 8 ∧ p + off ≠ sp - 16).
  { intros off Hoff. assert (¬ in_block (sp - 16) 16 (p + off)) as Hn.
    { intros Ha. apply (Hdis _ Ha). unfold in_block. lia. }
    unfold in_block in Hn. lia. }
  erewrite run_S; [|exact H1|].
  2: { cbn [exec regs]. rewrite Hrdi, Ha2. unfold load. rewrite Hb2.
       rewrite push_ok by (cbn [regs]; rewrite Hrsp; done || lia). reflexivity. }
  unfold next, set_rip, set_reg, set_flags; cbn [regs mem rip rflags]. rewrite Hrsp.
  erewrite run_S; [|exact H2|].
  2: { cbn [exec regs]. rewrite (upd_ne rs), Hrdi, Ha3 by done. unfold load. rewrite Hb3.
       rewrite push_ok by (cbn [regs]; rewrite upd_eq; tauto || lia). reflexivity. }
  unfold next, set_rip, set_reg, set_flags; cbn [regs mem rip rflags]. rewrite upd_eq. replace (sp - 8 - 8) with (sp - 16) by lia.
  rewrite (upd_ne mm _ (p + 0x88)) by (apply Hpm; lia).
  erewrite run_S; [|exact H3|].
  2: { cbn [exec regs]. rewrite !(upd_ne _ rsp rdi), Hrdi, Ha1 by done. unfold load. rewrite Hb1. reflexivity. }
  unfold next, set_rip, set_reg, set_flags; cbn [regs mem rip rflags].
  rewrite !(upd_ne _ _ (p + 0x28)) by (apply Hpm; lia).
  erewrite run_S; [|exact H4|].
  2: { cbn [exec]. rewrite pop_ok by (cbn [regs]; rewrite (upd_ne _ rdi rsp), upd_eq by done; tauto || lia). reflexivity. }
  unfold next, set_rip, set_reg, set_flags; cbn [regs mem rip rflags]. rewrite (upd_ne _ rdi rsp), !upd_eq by done.
  replace (sp - 16 + 8) with (sp - 8) by lia.
  erewrite run_S; [|exact H5|].
  2: { cbn [exec]. rewrite pop_ok by (cbn [regs]; rewrite upd_eq; tauto || lia). reflexivity. }
  unfold next, set_rip, set_reg, set_flags; cbn [run regs mem rip rflags]. rewrite upd_eq.
  replace (sp - 8 + 8) with sp by lia. by rewrite (upd_ne _ _ (sp - 8)), upd_eq by lia.
Qed.

Lemma forced_run m p sp :
  rip m = base → regs m rdi = p → block p 256 → mem m (p + 0x38) = sp →
  16 ≤ sp < 2 ^ 64 → sp mod 8 = 0 → (∀ a, in_block (sp - 16) 16 a → ¬ in_block p 256 a) →
  ∃ m', run code 20 m = Some m' ∧
    Forall (λ x, regs m' x.1 = mem m (p + x.2)) FORCED_REGS ∧
    rip m' = mem m (p + 0x80) ∧ rflags m' = mem m (p + 0x88) ∧
    mem m' = upd (upd (mem m) (sp - 8) (mem m (p + 0x80))) (sp - 16) (mem m (p + 0x88)).
Proof.
  intros Hip Hdi Hp Hsp Hs0 Hs1 Hdis.
  change context_restore_forced with (((λ x, Load x.1 rdi x.2) <$> FORCED_LOADS) ++ FORCED_TAIL) in Hcode.
  apply placed_app in Hcode as [H1 H2]. rewrite length_fmap in H2.
  change 20%nat with (length FORCED_LOADS + 5)%nat.
  rewrite run_add, (run_loads code rdi p 256 FORCED_LOADS);
    [|done|done|refine (bool_decide_unpack _ _); vm_compute; exact I
     |refine (bool_decide_unpack _ _); vm_compute; exact I|by rewrite Hip].
  rewrite Hip, (forced_tail _ _ _ _ p sp); try done.
  eexists. split; [reflexivity|]. split_and!; try done. cbn [regs].
  rewrite <- Hsp. repeat constructor.
Qed.
End Forced.

(** [sp & !0xF] rounds down to a multiple of 16. *)
Lemma align16 x : in_u 64 x → Z.land x (u64_not 0xF) = x - x mod 16.
Proof.
  intros Hx. change 16 with (2 ^ 4). rewrite <- Z.land_ones by lia.
  rewrite Z.sub_nocarry_ldiff.
  - apply Z.bits_inj'. intros i Hi. rewrite Z.land_spec, u64_not_bits, !Z.ldiff_spec, Z.land_spec by (unfold in_u; lia).
    change 15 with (Z.ones 4). destruct (Z.ltb_spec i 64).
    + by destruct (Z.testbit x i), (Z.testbit (Z.ones 4) i).
    + by rewrite (in_u_bits_high 64 x i) by (done || lia).
  - apply Z.bits_inj'. intros i Hi. rewrite Z.ldiff_spec, Z.land_spec, Z.bits_0.
    by destruct (Z.testbit x i), (Z.testbit (Z.ones 4) i).
Qed.

(** ** Properties *)

(** C21: A context switch is transparent to the code that calls it.  A call of
    [context_switch_voluntary] saves the caller in [old] and resumes the
    context in [new]; and whatever runs afterwards, if a later switch (from
    any other context) resumes [old] while its save area and the return
    address on its stack are intact, then the first call returns to its caller
    with the stack pointer popped and all callee-saved registers as they were,
    and the later switch writes nothing but its own save area. *)
Theorem context_switch_roundtrip code base m old new :
  placed code base (context_switch_voluntary base) →
  rip m = base → regs m rdi = old → regs m rsi = new → block old 64 → block new 64 →
  (∀ a, in_block old 64 a → ¬ in_block new 64 a) →
  0 ≤ regs m rsp → regs m rsp + 8 < 2 ^ 64 → regs m rsp mod 8 = 0 →
  ∃ m1, run code 18 m = Some m1 ∧ context_of (regs m1) (rip m1) = saved_at (mem m) new ∧
  ∀ m2 other,
    rip m2 = base → regs m2 rdi = other → regs m2 rsi = old → block other 64 →
    (∀ a, in_block other 64 a → ¬ in_block old 64 a) →
    saved_at (mem m2) old = saved_at (mem m1) old →
    mem m2 (regs m rsp) = mem m (regs m rsp) → ¬ in_block other 64 (regs m rsp) →
    ∃ m3, run code 19 m2 = Some m3 ∧
      rip m3 = mem m (regs m rsp) ∧ regs m3 rsp = regs m rsp + 8 ∧
      Forall (λ r, regs m3 r = regs m r) [rbx; rbp; r12; r13; r14; r15] ∧
      (∀ a, ¬ in_block other 64 a → mem m3 a = mem m2 a).
Proof.
  intros Hcode Hip Hdi Hsi Hold Hnew Hdis Hs0 Hs1 Hs2.
  destruct (switch_run code base Hcode m old new Hip Hdi Hsi Hold Hnew Hdis) as (m1 & Hr1 & Hc1 & Hsv & _ & _).
  exists m1. split_and!; [done|done|]. intros m2 other Hip2 Hdi2 Hsi2 Hot Hdis2 Hkeep Hret Hnot.
  destruct (switch_run code base Hcode m2 other old Hip2 Hdi2 Hsi2 Hot Hold Hdis2) as (m3 & Hr3 & Hc3 & _ & Hm3 & _).
  rewrite Hkeep, Hsv in Hc3. unfold context_of in Hc3.
  injection Hc3 as Hrsp Hrip Hrbx Hrbp Hr12 Hr13 Hr14 Hr15.
  change 19%nat with (18 + 1)%nat. rewrite run_add, Hr3.
  assert (Hret3 : code (rip m3) = Some Ret_) by (rewrite Hrip; by apply (Hcode 18%nat)).
  erewrite run_S; [|exact Hret3|cbn [exec]; rewrite pop_ok by (rewrite Hrsp; done); reflexivity].
  eexists. split; [reflexivity|]. unfold set_rip, set_reg. cbn [regs rip mem].
  rewrite Hrsp, upd_eq, Hm3 by done. split_and!; try done. repeat constructor; by rewrite upd_ne.
Qed.

(** A code memory with one routine in it, and one with the switch at 1000 and
    the trampoline at 2000. *)
Definition only (base : Z) (routine : list instr) : Z → option instr :=
  λ a, if base <=? a then routine !! Z.to_nat (a - base) else None.

Lemma only_placed base routine : placed (only base routine) base routine.
Proof.
  intros k i Hk. unfold only. destruct (Z.leb_spec base (base + Z.of_nat k)); [|lia].
  by replace (Z.to_nat (base + Z.of_nat k - base)) with k by lia.
Qed.

(** A GVThread whose save area is at 4096 calls the switch from address 77. *)
Definition switch_demo : machine :=
  Machine (upd (upd (upd (λ _, 1) rdi 4096) rsi 8192) rsp 65536) 1000 0 (upd (λ _, 0) 65536 77).

Lemma context_switch_roundtrip_witness :
  ∃ m2 m3, run (only 1000 (context_switch_voluntary 1000)) 19 m2 = Some m3 ∧ rip m3 = 77 ∧ regs m3 rsp = 65544.
Proof.
  destruct (context_switch_roundtrip (only 1000 (context_switch_voluntary 1000)) 1000 switch_demo 4096 8192)
    as (m1 & _ & _ & H).
  { apply only_placed. }
  { reflexivity. }
  { reflexivity. }
  { reflexivity. }
  { unfold block. split_and!; [lia|lia|reflexivity]. }
  { unfold block. split_and!; [lia|lia|reflexivity]. }
  { unfold in_block. intros a ? ?. lia. }
  { vm_compute. discriminate. }
  { reflexivity. }
  { reflexivity. }
  destruct (H (Machine (upd (upd (regs m1) rdi 8192) rsi 4096) 1000 0 (upd (mem m1) 65536 77)) 8192)
    as (m3 & H3 & Hip & Hsp & _).
  { reflexivity. }
  { reflexivity. }
  { reflexivity. }
  { unfold block. split_and!; [lia|lia|reflexivity]. }
  { unfold in_block. intros a ? ?. lia. }
  { reflexivity. }
  { reflexivity. }
  { unfold in_block. vm_compute. intros [_ ?]. discriminate. }
  eexists _, m3. split; [exact H3|]. split; [exact Hip|exact Hsp].
Defined.

(** The first switch to a new GVThread enters its function correctly.
    With the context that [init_context] prepares, the switch and the
    trampoline reach the entry function with its argument in [rdi], the stack
    aligned as the System V ABI requires at a function entry, on the GVThread's
    own stack, and with a return address from which [gvthread_finished] is
    called, again with an aligned stack. *)
Theorem first_activation code base tramp finished m old new stack_top entry_fn entry_arg :
  placed code base (context_switch_voluntary base) →
  placed code tramp (gvthread_entry_trampoline finished) →
  rip m = base → regs m rdi = old → regs m rsi = new → block old 64 → block new 64 →
  (∀ a, in_block old 64 a → ¬ in_block new 64 a) →
  24 ≤ stack_top < 2 ^ 64 →
  saved_at (mem m) new = init_context stack_top entry_fn entry_arg tramp →
  ∃ m1, run code 20 m = Some m1 ∧
    rip m1 = entry_fn ∧ regs m1 rdi = entry_arg ∧
    (regs m1 rsp + 8) mod 16 = 0 ∧ stack_top - 24 < regs m1 rsp < stack_top ∧
    mem m1 (regs m1 rsp) = tramp + 2 ∧
    ∀ m2, rip m2 = tramp + 2 → regs m2 rsp = regs m1 rsp + 8 →
      ∃ m3, run code 1 m2 = Some m3 ∧ rip m3 = finished ∧ (regs m3 rsp + 8) mod 16 = 0.
Proof.
  intros Hcode Htr Hip Hdi Hsi Hold Hnew Hdis Hst Hinit.
  destruct (switch_run code base Hcode m old new Hip Hdi Hsi Hold Hnew Hdis) as (m1 & Hr1 & Hc1 & _ & _ & _).
  rewrite Hinit in Hc1. unfold context_of, init_context in Hc1. rewrite align16 in Hc1 by (unfold in_u; lia).
  injection Hc1 as Hrsp Hrip _ _ Hr12 Hr13 _ _. pose proof (Z.mod_pos_bound stack_top 16 ltac:(lia)) as Hmod.
  set (sp := stack_top - stack_top mod 16) in *.
  assert (Hsp16 : sp mod 16 = 0) by (unfold sp; rewrite Zminus_mod, Zmod_mod, Z.sub_diag; done).
  assert (Hsp8 : sp mod 8 = 0).
  { apply Z.mod_divide; [lia|]. transitivity 16; [by exists 2|]. by apply Z.mod_divide. }
  apply placed_cons in Htr as [Ht0 Htr]. apply placed_cons in Htr as [Ht1 Htr]. apply placed_cons in Htr as [Ht2 _].
  change 20%nat with (18 + 2)%nat. rewrite run_add, Hr1.
  erewrite run_S; [|rewrite Hrip; exact Ht0|reflexivity].
  unfold next, set_rip, set_reg. cbn [regs rip mem rflags]. rewrite Hrip, Hr13.
  erewrite run_S; [|exact Ht1|cbn [exec regs]; unfold call; cbn [rip]; rewrite push_ok
    by (cbn [regs]; rewrite upd_ne, Hrsp by done; done || lia); reflexivity].
  eexists. split; [reflexivity|]. unfold set_rip. cbn [regs rip mem].
  rewrite !(upd_ne _ rdi) by done. rewrite Hrsp, Hr12, upd_eq, upd_ne, upd_eq by done.
  rewrite upd_eq. split_and!; try done; [by replace (sp - 8 + 8) with sp by lia|lia|lia|lia|].
  intros m2 Hip2 Hsp2. replace (tramp + 1 + 1) with (tramp + 2) in Ht2 by lia.
  erewrite run_S; [|rewrite Hip2; exact Ht2|cbn [exec]; unfold call; rewrite push_ok
    by (rewrite Hsp2; replace (sp - 8 + 8) with sp by lia; done || lia); reflexivity].
  eexists. split; [reflexivity|]. unfold set_rip. cbn [regs rip]. rewrite upd_eq, Hsp2. split; [done|].
  by replace (sp - 8 + 8 - 8 + 8) with sp by lia.
Qed.

(** The memory of a worker about to start a GVThread with stack top 1048576. *)
Definition start_demo : machine :=
  Machine (upd (upd (λ _, 1) rdi 4096) rsi 8192) 1000 0
    (upd (upd (upd (upd (λ _, 0) 8192 1048576) 8200 2000) 8224 500) 8232 600).
Definition start_code : Z → option instr :=
  λ a, if a <? 2000 then only 1000 (context_switch_voluntary 1000) a
       else only 2000 (gvthread_entry_trampoline 700) a.

Lemma first_activation_witness :
  ∃ m1, run start_code 20 start_demo = Some m1 ∧ rip m1 = 500 ∧ regs m1 rdi = 600.
Proof.
  destruct (first_activation start_code 1000 2000 700 start_demo 4096 8192 1048576 500 600)
    as (m1 & Hr & Hip & Hdi & _).
  { intros k i Hk. pose proof (lookup_lt_Some _ _ _ Hk) as Hl. cbn in Hl. unfold start_code.
    destruct (Z.ltb_spec (1000 + Z.of_nat k) 2000); [by apply only_placed|lia]. }
  { intros k i Hk. unfold start_code. destruct (Z.ltb_spec (2000 + Z.of_nat k) 2000); [lia|by apply only_placed]. }
  { reflexivity. }
  { reflexivity. }
  { reflexivity. }
  { unfold block. split_and!; [lia|lia|reflexivity]. }
  { unfold block. split_and!; [lia|lia|reflexivity]. }
  { unfold in_block. intros a ? ?. lia. }
  { lia. }
  { vm_compute. reflexivity. }
  exists m1. split_and!; [exact Hr|exact Hip|exact Hdi].
Defined.

(** [context_restore_forced] restores every general register, the flags
    and the instruction pointer from the save area, but it passes the last two
    through the interrupted stack: the sixteen bytes below the saved stack
    pointer are overwritten with them, and nothing else is.  Those bytes belong
    to the red zone, which an interrupted leaf function may be using. *)
Theorem forced_restore_spec code base m p sp :
  placed code base context_restore_forced →
  rip m = base → regs m rdi = p → block p 256 → mem m (p + 0x38) = sp →
  16 ≤ sp < 2 ^ 64 → sp mod 8 = 0 → (∀ a, in_block (sp - 16) 16 a → ¬ in_block p 256 a) →
  ∃ m', run code 20 m = Some m' ∧
    Forall (λ x, regs m' x.1 = mem m (p + x.2)) FORCED_REGS ∧
    rip m' = mem m (p + 0x80) ∧ rflags m' = mem m (p + 0x88) ∧
    mem m' (sp - 8) = mem m (p + 0x80) ∧ mem m' (sp - 16) = mem m (p + 0x88) ∧
    (∀ a, a ≠ sp - 8 → a ≠ sp - 16 → mem m' a = mem m a).
Proof.
  intros Hcode Hip Hdi Hp Hsp Hs0 Hs1 Hdis.
  destruct (forced_run code base Hcode m p sp Hip Hdi Hp Hsp Hs0 Hs1 Hdis) as (m' & Hr & Hregs & Hrip & Hfl & Hmem).
  exists m'. split_and!; try done; rewrite Hmem.
  - rewrite upd_ne, upd_eq by lia. done.
  - apply upd_eq.
  - intros a H1 H2. by rewrite !upd_ne.
Qed.

Definition forced_demo : machine :=
  Machine (upd (λ _, 0) rdi 4096) 1000 0 (upd (upd (λ _, 9) (4096 + 0x38) 65536) (4096 + 0x80) 77).

Lemma forced_restore_spec_witness :
  ∃ m', run (only 1000 context_restore_forced) 20 forced_demo = Some m' ∧ rip m' = 77 ∧ mem m' (65536 - 8) = 77.
Proof.
  destruct (forced_restore_spec (only 1000 context_restore_forced) 1000 forced_demo 4096 65536)
    as (m' & Hr & _ & Hip & _ & Hm & _).
  { apply only_placed. }
  { reflexivity. }
  { reflexivity. }
  { unfold block. split_and!; [lia|lia|reflexivity]. }
  { vm_compute. reflexivity. }
  { lia. }
  { reflexivity. }
  { unfold in_block. intros a ? ?. lia. }
  exists m'. split_and!; [exact Hr|exact Hip|exact Hm].
Defined.
