(* ===== verification/Parking.v ===== *)
(** * Worker parking: [gvthread-runtime/src/parking]

    The two implementations of [WorkerParking]: [FutexParking] (a futex word
    that counts pending wakes) and [FallbackParking] (a flag under a mutex with
    a condition variable).  Both are thread pools over the atomic steps of
    [park], [wake_one] and [wake_all].  The futex of the kernel and the
    condition variable of [std] are queues of tickets: a waiter enters with a
    fresh ticket and waits until a wake has taken it out, a timeout or a signal
    ends a wait on the waiter's side. *)
From stdpp Require Import base list.
From S2P Require Import Prelude.
Local Open Scope Z_scope.
Local Open Scope rust_scope.

Module FutexParking.

(** The futex word, the count of parked workers and the kernel's queue of the
    word.  [next], [woken], [issued] and [trues] are not of the code: the next
    ticket, the workers a wake has taken out of the queue since a worker last
    entered it, the calls of [wake_one], and the calls of [park] that have
    returned [true]. *)
Record shared := Shared {
  futex : Z; parked : Z; waiters : list nat;
  next : nat; woken : Z; issued : Z; trues : Z
}.

Definition new : shared := Shared 0 0 [] 0 0 0 0.

Definition set_futex (s : shared) (v : Z) : shared :=
  Shared v (parked s) (waiters s) (next s) (woken s) (issued s) (trues s).
Definition set_parked (s : shared) (v : Z) : shared :=
  Shared (futex s) v (waiters s) (next s) (woken s) (issued s) (trues s).
Definition returns_true (s : shared) : shared :=
  Shared (futex s) (parked s) (waiters s) (next s) (woken s) (issued s) (trues s + 1).

(** FUTEX_WAIT on a word that is 0: the caller enters the queue. *)
Definition futex_wait (s : shared) : shared :=
  Shared (futex s) (parked s) (waiters s ++ [next s]) (S (next s)) 0 (issued s) (trues s).
(** A wake takes [n] tickets out and leaves [ws]. *)
Definition futex_wake (s : shared) (ws : list nat) (n : Z) : shared :=
  Shared (futex s) (parked s) ws (next s) (woken s + n) (issued s) (trues s).
(** The end of a wait by timeout or signal. *)
Definition futex_leave (s : shared) (k : nat) : shared :=
  Shared (futex s) (parked s) (filter (λ j, j ≠ k) (waiters s)) (next s) (woken s) (issued s) (trues s).

(** [parked_count]. *)
Definition parked_count (s : shared) : Z := parked s.

(** The program counters: [Load], [Cas] are the first loop of [park], [Add] the
    increment of [parked], [Wait] the system call, [Sleeping] the wait inside it,
    [Sub] the decrement after it with whether the call returned 0, [Load2] and
    [Cas2] the second loop.  [WLoad], [WWake] are the two steps of [wake_one]
    after its increment; [AAdd], [AWake] those of [wake_all] after its load, with
    the number loaded and the number added. *)
Inductive pc :=
| Idle
| Load | Cas (current : Z) | Add | Wait | Sleeping (k : nat) | Sub (zero : bool)
| Load2 | Cas2 (current : Z)
| WLoad | WWake
| AAdd (n : Z) | AWake (n : Z).

Inductive tstep : shared → pc → shared → pc → Prop :=
| park_call s : tstep s Idle s Load
| park_load s : 0 < futex s → tstep s Load s (Cas (futex s))
| park_load_zero s : futex s = 0 → tstep s Load s Add
| park_cas s : tstep s (Cas (futex s)) (returns_true (set_futex s (futex s - 1))) Idle
| park_cas_fail s c :
    (** the word has changed, or the weak exchange failed spuriously *)
    tstep s (Cas c) s Load
| park_add s : tstep s Add (set_parked s (parked s +[64] 1)) Wait
| park_wait s : futex s = 0 → tstep s Wait (futex_wait s) (Sleeping (next s))
| park_wait_again s : futex s ≠ 0 → tstep s Wait s (Sub false)
| park_woken s k : k ∉ waiters s → tstep s (Sleeping k) s (Sub true)
| park_timeout s k : k ∈ waiters s → tstep s (Sleeping k) (futex_leave s k) (Sub false)
| park_sub s : tstep s (Sub true) (returns_true (set_parked s (parked s -[64] 1))) Idle
| park_sub_fail s : tstep s (Sub false) (set_parked s (parked s -[64] 1)) Load2
| park_load2 s : 0 < futex s → tstep s Load2 s (Cas2 (futex s))
| park_load2_zero s : futex s = 0 → tstep s Load2 s Idle
| park_cas2 s : tstep s (Cas2 (futex s)) (returns_true (set_futex s (futex s - 1))) Idle
| park_cas2_fail s c : tstep s (Cas2 c) s Load2
| wake_one_add s :
    tstep s Idle (Shared (futex s +[32] 1) (parked s) (waiters s) (next s) (woken s) (issued s + 1) (trues s)) WLoad
| wake_one_none s : parked s = 0 → tstep s WLoad s Idle
| wake_one_some s : 0 < parked s → tstep s WLoad s WWake
| wake_one_wake s l1 k l2 : waiters s = l1 ++ k :: l2 → tstep s WWake (futex_wake s (l1 ++ l2) 1) Idle
| wake_one_empty s : waiters s = [] → tstep s WWake s Idle
| wake_all_none s : parked s = 0 → tstep s Idle s Idle
| wake_all_load s : 0 < parked s → tstep s Idle s (AAdd (parked s))
| wake_all_add s n :
    tstep s (AAdd n) (set_futex s (futex s +[32] (wrap 32 n +[32] 1))) (AWake (wrap 32 n +[32] 1))
| wake_all_wake s n : tstep s (AWake n) (futex_wake s [] (Z.of_nat (length (waiters s)))) Idle.

Definition step := pool_step tstep.
Definition init (s : shared * list pc) : Prop := ∃ n, Z.of_nat n < 2 ^ 64 ∧ s = (new, replicate n Idle).

(** Whether [parked] counts the thread, the ticket it waits on, and the wakes
    it has added without having called the kernel yet. *)
Definition zone (p : pc) : Z := match p with Wait | Sleeping _ | Sub _ => 1 | _ => 0 end.
Definition ticket (p : pc) : list nat := match p with Sleeping k => [k] | _ => [] end.
Definition pending (p : pc) : Z := match p with WLoad | WWake => 1 | AWake n => n | _ => 0 end.

(** What a thread knows of its locals. *)
Definition pc_ok (p : pc) : Prop := match p with Cas c | Cas2 c => 0 < c | AWake n => 0 ≤ n | _ => True end.

Record inv (s : shared * list pc) : Prop := {
  inv_len : Z.of_nat (length s.2) < 2 ^ 64;
  inv_futex : in_u 32 (futex s.1);
  inv_woken : 0 ≤ woken s.1;
  inv_ok : Forall pc_ok s.2;
  inv_parked : parked s.1 = sum_over zone s.2;
  inv_tickets : ∀ k, k ∈ waiters s.1 → k ∈ collect ticket s.2;
  inv_wakes : waiters s.1 ≠ [] → futex s.1 ≤ woken s.1 + sum_over pending s.2
}.

Lemma futex_zone_bounds ls : 0 ≤ sum_over zone ls ≤ Z.of_nat (length ls).
Proof.
  induction ls as [|p ls IH]; [done|]. cbn [sum_over foldr length] in *. fold (sum_over zone ls) in *.
  destruct p; simpl; lia.
Qed.

Lemma pending_nonneg ls : Forall pc_ok ls → 0 ≤ sum_over pending ls.
Proof.
  intros H. apply sum_over_nonneg. intros p Hp. eapply Forall_forall in H; [|done]. by destruct p; simpl in *; lia.
Qed.

(** A sleeper is counted: without a counted thread no ticket waits. *)
Lemma no_zone_no_ticket ls : sum_over zone ls = 0 → collect ticket ls = [].
Proof.
  intros Hz. apply collect_nil. intros p Hp. apply list_elem_of_split in Hp as (l1 & l2 & ->).
  rewrite sum_over_middle in Hz. pose proof (futex_zone_bounds (l1 ++ l2)). destruct p; simpl in *; done || lia.
Qed.

Lemma wrap_le w x : 0 ≤ w → 0 ≤ x → wrap w x ≤ x.
Proof. intros. apply Z.mod_le; [done|]. apply Z.pow_pos_nonneg; lia. Qed.

Lemma futex_inv_init s : init s → inv s.
Proof.
  intros (n & Hn & ->). constructor; cbn [fst snd new futex parked waiters woken]; try done.
  - by rewrite length_replicate.
  - by apply Forall_replicate.
  - symmetry. apply sum_over_zero. by intros l [-> _]%elem_of_replicate.
  - by intros k ?%elem_of_nil.
Qed.

Lemma parked_step sh p sh' p' rest :
  tstep sh p sh' p' → 0 ≤ rest → zone p + rest < 2 ^ 64 → zone p' + rest < 2 ^ 64 →
  parked sh = zone p + rest → parked sh' = zone p' + rest.
Proof.
  intros Hstep Hr Hb Hb' Hp. destruct Hstep; simpl in *; try done; rewrite wrap_small; unfold in_u; lia.
Qed.

Lemma futex_tickets_step sh p sh' p' rest :
  tstep sh p sh' p' →
  (∀ k, k ∈ waiters sh → k ∈ ticket p ++ rest) → ∀ k, k ∈ waiters sh' → k ∈ ticket p' ++ rest.
Proof.
  intros Hstep Hk k Hin. destruct Hstep; simpl in *; try (by apply Hk).
  - apply elem_of_app in Hin as [?%Hk|?]; set_solver.
  - pose proof (Hk k Hin) as Hc. by apply elem_of_cons in Hc as [->|?].
  - apply list_elem_of_filter in Hin as [? ?%Hk]. set_solver.
  - apply Hk. rewrite H. set_solver.
  - by apply elem_of_nil in Hin.
Qed.

Lemma wakes_step sh p sh' p' rest :
  tstep sh p sh' p' → in_u 32 (futex sh) → 0 ≤ woken sh → pc_ok p → 0 ≤ rest →
  (parked sh = 0 → waiters sh = []) →
  (waiters sh ≠ [] → futex sh ≤ woken sh + (pending p + rest)) →
  waiters sh' ≠ [] → futex sh' ≤ woken sh' + (pending p' + rest).
Proof.
  intros Hstep Hf Hw Hok Hr Hno Hi Hne. unfold in_u in Hf.
  destruct Hstep; simpl in *; try (by specialize (Hi Hne); lia); try done; try lia.
  - destruct (waiters s) eqn:E; [by destruct Hne|]. specialize (Hi ltac:(done)). lia.
  - specialize (Hi Hne). pose proof (wrap_le 32 (futex s + 1)). lia.
  - by rewrite Hno in Hne.
  - rewrite H in Hi. specialize (Hi ltac:(by destruct l1)). lia.
  - specialize (Hi Hne). pose proof (wrap_le 32 (futex s + (wrap 32 n +[32] 1))).
    pose proof (wrap_range 32 (wrap 32 n + 1)). lia.
Qed.

Lemma locals_step sh p sh' p' :
  tstep sh p sh' p' → in_u 32 (futex sh) → 0 ≤ woken sh → pc_ok p →
  in_u 32 (futex sh') ∧ 0 ≤ woken sh' ∧ pc_ok p'.
Proof.
  intros Hstep Hf Hw Hok. unfold in_u in *.
  destruct Hstep; simpl in *; split_and!; try done; try lia; apply wrap_range; lia.
Qed.

Lemma futex_inv_step s s' : inv s → step s s' → inv s'.
Proof.
  intros [Hlen Hf Hw Hok Hp Hk Hi] Hstep. destruct Hstep as [sh p sh' p' l1 l2 Hstep].
  assert (Hk' : ∀ k, k ∈ waiters sh → k ∈ ticket p ++ collect ticket (l1 ++ l2))
    by (intros k ?; rewrite <- collect_middle; by apply Hk).
  clear Hk. pool_simpl. destruct Hok as (Ho1 & Ho & Ho2). rewrite length_app in Hlen. cbn [length] in Hlen.
  pose proof (futex_zone_bounds (l1 ++ l2)) as Hz. rewrite length_app in Hz.
  pose proof (pending_nonneg (l1 ++ l2) (proj2 (Forall_app _ _ _) (conj Ho1 Ho2))) as Hpe.
  assert (Hzp : ∀ q, 0 ≤ zone q ≤ 1) by (intros []; simpl; lia).
  assert (Hno : parked sh = 0 → waiters sh = []).
  { intros H0. pose proof (Hzp p). destruct (waiters sh) as [|k ws]; [done|].
    specialize (Hk' k ltac:(set_solver)). rewrite no_zone_no_ticket in Hk' by lia.
    destruct p; simpl in *; (lia || set_solver). }
  destruct (locals_step _ _ _ _ Hstep Hf Hw Ho) as (Hf' & Hw' & Ho').
  pose proof (Hzp p). pose proof (Hzp p').
  constructor; cbn [fst snd]; try done.
  - by rewrite length_app.
  - apply Forall_app. split; [done|]. by constructor.
  - rewrite sum_over_middle. eapply parked_step; [done|lia..].
  - intros k Hin. rewrite collect_middle. by eapply futex_tickets_step.
  - rewrite sum_over_middle. by eapply wakes_step.
Qed.

End FutexParking.

Section FutexTheorems.
Import FutexParking.

Lemma futex_reachable_inv s : reachable step init s → inv s.
Proof. apply reachable_invariant; eauto using futex_inv_init, futex_inv_step. Qed.

Definition two_idle : shared * list pc := (new, [Idle; Idle]).

Lemma two_idle_init : init two_idle.
Proof. by exists 2%nat. Qed.

(** A worker asleep, found by a wake. *)
Definition one_asleep : shared * list pc := (Shared 0 1 [0%nat] 1 0 0 0, [Sleeping 0; Idle]).

Lemma one_asleep_reached : rtc step two_idle one_asleep.
Proof.
  unfold two_idle, new. pool_by 0%nat park_call. pool_by 0%nat park_load_zero. pool_by 0%nat park_add.
  pool_by 0%nat park_wait. apply rtc_refl.
Qed.

End FutexTheorems.

(** C31: No wake is lost: in every interleaving [parked] is the number of workers
    that have announced a wait, and while a worker sleeps and no wake call is
    under way, the pending wakes are at most the workers a wake has taken out of
    the kernel's queue since a worker last went to sleep.  In particular no wake
    is pending when nobody has been woken since. *)
Theorem futex_no_lost_wakeup s :
  reachable FutexParking.step FutexParking.init s →
  FutexParking.parked_count s.1 = sum_over FutexParking.zone s.2 ∧
  (FutexParking.waiters s.1 ≠ [] → sum_over FutexParking.pending s.2 = 0 →
     FutexParking.futex s.1 ≤ FutexParking.woken s.1 ∧
     (FutexParking.woken s.1 = 0 → FutexParking.futex s.1 = 0)).
Proof.
  intros [_ Hf _ _ Hp _ Hi]%futex_reachable_inv. split; [done|]. intros Hne H0.
  specialize (Hi Hne). unfold in_u in Hf. lia.
Qed.

Lemma futex_no_lost_wakeup_witness :
  FutexParking.parked_count one_asleep.1 = sum_over FutexParking.zone one_asleep.2 ∧
  (FutexParking.waiters one_asleep.1 ≠ [] → sum_over FutexParking.pending one_asleep.2 = 0 →
     FutexParking.futex one_asleep.1 ≤ FutexParking.woken one_asleep.1 ∧
     (FutexParking.woken one_asleep.1 = 0 → FutexParking.futex one_asleep.1 = 0)).
Proof.
  apply (futex_no_lost_wakeup one_asleep). exists two_idle. split; [apply two_idle_init|apply one_asleep_reached].
Defined.

(** A worker that [wake_one] takes out of the kernel's queue does not consume
    the wake, so that its next [park] returns at once: one call of [wake_one] can
    make two calls of [park] return [true]. *)
Theorem futex_wake_counts_twice :
  ∃ s, reachable FutexParking.step FutexParking.init s ∧
    FutexParking.issued s.1 = 1 ∧ FutexParking.trues s.1 = 2 ∧ FutexParking.waiters s.1 = [].
Proof.
  eexists. split.
  - exists two_idle. split; [apply two_idle_init|]. etrans; [apply one_asleep_reached|]. unfold one_asleep.
    pool_by 1%nat FutexParking.wake_one_add. pool_by 1%nat FutexParking.wake_one_some.
    pool_by 1%nat (FutexParking.wake_one_wake _ [] 0%nat []).
    pool_by 0%nat FutexParking.park_woken. pool_by 0%nat FutexParking.park_sub.
    pool_by 0%nat FutexParking.park_call. pool_by 0%nat FutexParking.park_load.
    pool_by 0%nat FutexParking.park_cas. apply rtc_refl.
  - by vm_compute.
Qed.

Module FallbackParking.

(** The mutex with its flag, the count of parked workers and the queue of the
    condition variable; [next] is the next ticket. *)
Record shared := Shared { locked : bool; flag : bool; parked : Z; waiters : list nat; next : nat }.

Definition new : shared := Shared false false 0 [] 0.
Definition parked_count (s : shared) : Z := parked s.

Definition acquire (s : shared) : shared := Shared true (flag s) (parked s) (waiters s) (next s).
Definition release (s : shared) : shared := Shared false (flag s) (parked s) (waiters s) (next s).
Definition set_flag (s : shared) (b : bool) : shared := Shared (locked s) b (parked s) (waiters s) (next s).
Definition set_parked (s : shared) (n : Z) : shared := Shared (locked s) (flag s) n (waiters s) (next s).
Definition set_waiters (s : shared) (ws : list nat) : shared := Shared (locked s) (flag s) (parked s) ws (next s).

(** [Condvar::wait] releases the mutex and enters the queue in one step. *)
Definition cond_wait (s : shared) : shared :=
  Shared false (flag s) (parked s) (waiters s ++ [next s]) (S (next s)).

(** [park]: [Lock] after the increment, [Check] with the guard, [Waiting] in the
    condition variable, [Relock] after it with the result, [Clear] with the guard
    again, [Sub] before the decrement, [Unlock] the drop of the guard.
    [wake_one] and [wake_all] ([all]): [WLock] after the load, [WSet] with the
    guard, [WNotify] after it. *)
Inductive pc :=
| Idle
| Lock | Check | Waiting (k : nat) | Relock (r : bool) | Clear (r : bool) | Sub (r : bool) | Unlock (r : bool)
| WLock (all : bool) | WSet (all : bool) | WNotify (all : bool).

Inductive tstep : shared → pc → shared → pc → Prop :=
| park_add s : tstep s Idle (set_parked s (parked s +[64] 1)) Lock
| park_lock s : locked s = false → tstep s Lock (acquire s) Check
| park_pending s : flag s = true → tstep s Check (set_flag s false) (Sub true)
| park_wait s : flag s = false → tstep s Check (cond_wait s) (Waiting (next s))
| park_notified s k : k ∉ waiters s → tstep s (Waiting k) s (Relock true)
| park_spurious s k :
    k ∈ waiters s → tstep s (Waiting k) (set_waiters s (filter (λ j, j ≠ k) (waiters s))) (Relock true)
| park_timeout s k :
    k ∈ waiters s → tstep s (Waiting k) (set_waiters s (filter (λ j, j ≠ k) (waiters s))) (Relock false)
| park_relock s r : locked s = false → tstep s (Relock r) (acquire s) (Clear r)
| park_clear s r : tstep s (Clear r) (set_flag s false) (Sub r)
| park_sub s r : tstep s (Sub r) (set_parked s (parked s -[64] 1)) (Unlock r)
| park_unlock s r : tstep s (Unlock r) (release s) Idle
| wake_none s : parked s = 0 → tstep s Idle s Idle
| wake_some s all : parked s ≠ 0 → tstep s Idle s (WLock all)
| wake_lock s all : locked s = false → tstep s (WLock all) (acquire s) (WSet all)
| wake_set s all : tstep s (WSet all) (release (set_flag s true)) (WNotify all)
| wake_one_notify s l1 k l2 :
    waiters s = l1 ++ k :: l2 → tstep s (WNotify false) (set_waiters s (l1 ++ l2)) Idle
| wake_one_empty s : waiters s = [] → tstep s (WNotify false) s Idle
| wake_all_notify s : tstep s (WNotify true) (set_waiters s []) Idle.

Definition step := pool_step tstep.
Definition init (s : shared * list pc) : Prop := ∃ n, Z.of_nat n < 2 ^ 64 ∧ s = (new, replicate n Idle).

Definition zone (p : pc) : Z :=
  match p with Lock | Check | Waiting _ | Relock _ | Clear _ | Sub _ => 1 | _ => 0 end.
Definition guard (p : pc) : Z := match p with Check | Clear _ | Sub _ | Unlock _ | WSet _ => 1 | _ => 0 end.
Definition ticket (p : pc) : list nat := match p with Waiting k => [k] | _ => [] end.

(** A thread that will notify or has been notified and will clear the flag. *)
Definition helps (ws : list nat) (p : pc) : Prop :=
  match p with WNotify _ | Relock _ | Clear _ => True | Waiting k => k ∉ ws | _ => False end.

Record inv (s : shared * list pc) : Prop := {
  inv_len : Z.of_nat (length s.2) < 2 ^ 64;
  inv_lock : sum_over guard s.2 = if locked s.1 then 1 else 0;
  inv_parked : parked s.1 = sum_over zone s.2;
  inv_fresh : NoDup (waiters s.1) ∧ Forall (λ k, (k < next s.1)%nat) (waiters s.1);
  inv_tickets : ∀ k, k ∈ waiters s.1 → k ∈ collect ticket s.2;
  inv_wake : flag s.1 = true → waiters s.1 ≠ [] → ∃ p, p ∈ s.2 ∧ helps (waiters s.1) p
}.

Lemma fallback_zone_bounds ls : 0 ≤ sum_over zone ls ≤ Z.of_nat (length ls).
Proof.
  induction ls as [|p ls IH]; [done|]. cbn [sum_over foldr length] in *. fold (sum_over zone ls) in *.
  destruct p; simpl; lia.
Qed.

Lemma guard_nonneg ls : 0 ≤ sum_over guard ls.
Proof. apply sum_over_nonneg. intros [] _; simpl; lia. Qed.

Lemma fallback_inv_init s : init s → inv s.
Proof.
  intros (n & Hn & ->). constructor; cbn [fst snd new locked flag parked waiters next]; try done.
  - by rewrite length_replicate.
  - apply sum_over_zero. by intros l [-> _]%elem_of_replicate.
  - symmetry. apply sum_over_zero. by intros l [-> _]%elem_of_replicate.
  - split; constructor.
  - by intros k ?%elem_of_nil.
Qed.

Lemma sums_step sh p sh' p' g z :
  tstep sh p sh' p' → 0 ≤ z → zone p + z < 2 ^ 64 → zone p' + z < 2 ^ 64 → 0 ≤ g →
  guard p + g = (if locked sh then 1 else 0) → parked sh = zone p + z →
  guard p' + g = (if locked sh' then 1 else 0) ∧ parked sh' = zone p' + z.
Proof.
  intros Hstep Hz H1 H2 Hg Hl Hp.
  destruct Hstep; simpl in *; (split; [try (destruct (locked s); lia)|]); try done;
    rewrite wrap_small; unfold in_u; lia.
Qed.

Lemma fallback_tickets_step sh p sh' p' rest :
  tstep sh p sh' p' →
  (∀ k, k ∈ waiters sh → k ∈ ticket p ++ rest) → ∀ k, k ∈ waiters sh' → k ∈ ticket p' ++ rest.
Proof.
  intros Hstep Hk k Hin. destruct Hstep; simpl in *; try (by apply Hk).
  - apply elem_of_app in Hin as [?%Hk|?]; set_solver.
  - pose proof (Hk k Hin) as Hc. by apply elem_of_cons in Hc as [->|?].
  - apply list_elem_of_filter in Hin as [? ?%Hk]. set_solver.
  - apply list_elem_of_filter in Hin as [? ?%Hk]. set_solver.
  - apply Hk. rewrite H. set_solver.
  - by apply elem_of_nil in Hin.
Qed.

Lemma Forall_filter_keep {A} (P Q : A → Prop) `{!∀ x, Decision (Q x)} l : Forall P l → Forall P (filter Q l).
Proof. intros HP. apply Forall_forall. intros x [_ Hx]%list_elem_of_filter. by eapply Forall_forall in HP. Qed.

Lemma fresh_step sh p sh' p' :
  tstep sh p sh' p' → NoDup (waiters sh) ∧ Forall (λ k, (k < next sh)%nat) (waiters sh) →
  NoDup (waiters sh') ∧ Forall (λ k, (k < next sh')%nat) (waiters sh').
Proof.
  intros Hstep [Hn Hf]. destruct Hstep; simpl in *; try done.
  - split.
    + apply NoDup_app. split_and!; [done| |apply NoDup_singleton].
      intros k Hk ->%list_elem_of_singleton. eapply Forall_forall in Hf; [|done]. lia.
    + apply Forall_app. split; [|by constructor; [lia|]]. eapply Forall_impl; [exact Hf|]. simpl. lia.
  - split; [by apply NoDup_filter|by apply Forall_filter_keep].
  - split; [by apply NoDup_filter|by apply Forall_filter_keep].
  - rewrite H in Hn, Hf. rewrite NoDup_app, NoDup_cons in Hn. rewrite Forall_app, Forall_cons in Hf.
    rewrite NoDup_app, Forall_app. set_solver.
  - split; constructor.
Qed.

(** A helper among the other threads stays one. *)
Lemma helps_mono ws ws' p : (∀ k, k ∈ ws' → k ∈ ws) → helps ws p → helps ws' p.
Proof. intros Hs. destruct p; simpl; auto. Qed.

Lemma waiters_shrink sh p sh' p' :
  tstep sh p sh' p' → flag sh' = true → ∀ k, k ∈ waiters sh' → k ∈ waiters sh.
Proof.
  intros Hstep Hf k Hk. destruct Hstep; simpl in *; try done; try congruence.
  - by apply list_elem_of_filter in Hk as [_ ?].
  - by apply list_elem_of_filter in Hk as [_ ?].
  - rewrite H. set_solver.
  - by apply elem_of_nil in Hk.
Qed.

(** The moving thread helps before and after its step, or leaves a thread it
    has notified. *)
Lemma helps_step sh p sh' p' :
  tstep sh p sh' p' → NoDup (waiters sh) → flag sh' = true → waiters sh' ≠ [] →
  (flag sh = true → helps (waiters sh) p) →
  helps (waiters sh') p' ∨ (∃ k, (k ∈ waiters sh) ∧ (k ∉ waiters sh') ∧ ticket p = []).
Proof.
  intros Hstep Hn Hf Hne Hh. destruct Hstep; simpl in *; try done; try congruence; try tauto.
  - right. exists k. rewrite H in *. apply NoDup_app in Hn as (? & ? & [??]%NoDup_cons). set_solver.
Qed.

Lemma fallback_inv_step s s' : inv s → step s s' → inv s'.
Proof.
  intros [Hlen Hl Hp [Hn Hfr] Hk Hw] Hstep. destruct Hstep as [sh p sh' p' l1 l2 Hstep].
  assert (Hk' : ∀ k, k ∈ waiters sh → k ∈ ticket p ++ collect ticket (l1 ++ l2))
    by (intros k ?; rewrite <- collect_middle; by apply Hk).
  clear Hk. pool_simpl. rewrite length_app in Hlen. cbn [length] in Hlen.
  pose proof (fallback_zone_bounds (l1 ++ l2)) as Hz. rewrite length_app in Hz. pose proof (guard_nonneg (l1 ++ l2)).
  assert (Hzp : ∀ q, 0 ≤ zone q ≤ 1) by (intros []; simpl; lia).
  pose proof (Hzp p). pose proof (Hzp p').
  destruct (sums_step _ _ _ _ (sum_over guard (l1 ++ l2)) (sum_over zone (l1 ++ l2)) Hstep) as [Hl' Hp'];
    [lia..|].
  constructor; cbn [fst snd]; rewrite ?sum_over_middle, ?length_app; try done.
  - by eapply fresh_step.
  - intros k Hin. rewrite collect_middle. by eapply fallback_tickets_step.
  - intros Hf' Hne. pose proof (waiters_shrink _ _ _ _ Hstep Hf') as Hsub.
    assert (Hmove : (flag sh = true → helps (waiters sh) p) →
      ∃ q, q ∈ l1 ++ p' :: l2 ∧ helps (waiters sh') q).
    { intros Hh. destruct (helps_step _ _ _ _ Hstep Hn Hf' Hne Hh) as [?|(k & Hk & Hk2 & Ht)].
      - exists p'. split; [|done]. apply elem_of_app. right. constructor.
      - specialize (Hk' k Hk). rewrite Ht in Hk'. apply elem_of_collect in Hk' as (q & Hq & Hqk).
        exists q. rewrite elem_of_app, elem_of_cons. apply elem_of_app in Hq. split; [tauto|].
        destruct q; simpl in *; try by apply elem_of_nil in Hqk. by apply list_elem_of_singleton in Hqk as ->. }
    destruct (flag sh) eqn:Ef; [|by apply Hmove].
    assert (waiters sh ≠ []) as Hne2.
    { destruct (waiters sh') as [|k ws]; [done|]. intros E. rewrite E in Hsub.
      by specialize (Hsub k (list_elem_of_here _ _)) as ?%elem_of_nil. }
    destruct (Hw eq_refl Hne2) as (q & Hq & Hh). rewrite elem_of_app, elem_of_cons in Hq.
    destruct Hq as [?|[->|?]]; [|by apply Hmove|]; (exists q; rewrite elem_of_app, elem_of_cons; split; [tauto|by eapply helps_mono]).
Qed.

End FallbackParking.

Section FallbackTheorems.
Import FallbackParking.

Lemma fallback_reachable_inv s : reachable step init s → inv s.
Proof. apply reachable_invariant; eauto using fallback_inv_init, fallback_inv_step. Qed.

(** A worker in the condition variable, one that has announced its wait, and a
    [wake_all] that has seen both. *)
Definition waiting_and_coming : shared * list pc :=
  (Shared false false 2 [0%nat] 1, [Waiting 0; Lock; WLock true]).

Lemma waiting_and_coming_reached : reachable step init waiting_and_coming.
Proof.
  exists (new, [Idle; Idle; Idle]). split; [by exists 3%nat|]. unfold new.
  pool_by 0%nat park_add. pool_by 0%nat park_lock. pool_by 0%nat park_wait. pool_by 1%nat park_add.
  pool_by 2%nat (wake_some _ true). apply rtc_refl.
Qed.

End FallbackTheorems.

(** The fallback parker: at most one thread holds the mutex, [parked] is the
    number of workers inside [park], and no [wake_one] is lost: while the flag is
    set and a worker waits in the condition variable, some thread is about to
    notify, or has been notified (or has given up) and is about to clear the
    flag. *)
Theorem fallback_no_lost_wakeup s :
  reachable FallbackParking.step FallbackParking.init s →
  sum_over FallbackParking.guard s.2 ≤ 1 ∧
  FallbackParking.parked_count s.1 = sum_over FallbackParking.zone s.2 ∧
  (FallbackParking.flag s.1 = true → FallbackParking.waiters s.1 ≠ [] →
     ∃ p, p ∈ s.2 ∧ FallbackParking.helps (FallbackParking.waiters s.1) p).
Proof.
  intros [_ Hl Hp _ _ Hw]%fallback_reachable_inv. split_and!; [|done|done].
  rewrite Hl. by destruct (FallbackParking.locked s.1).
Qed.

Lemma fallback_no_lost_wakeup_witness :
  sum_over FallbackParking.guard waiting_and_coming.2 ≤ 1 ∧
  FallbackParking.parked_count waiting_and_coming.1 = sum_over FallbackParking.zone waiting_and_coming.2 ∧
  (FallbackParking.flag waiting_and_coming.1 = true → FallbackParking.waiters waiting_and_coming.1 ≠ [] →
     ∃ p, p ∈ waiting_and_coming.2 ∧ FallbackParking.helps (FallbackParking.waiters waiting_and_coming.1) p).
Proof. apply (fallback_no_lost_wakeup waiting_and_coming), waiting_and_coming_reached. Defined.

(** [wake_all] of the fallback parker can miss a worker it has counted: the
    worker that was waiting clears the flag before the one that was about to wait
    looks at it, and the second one sleeps after [wake_all] has returned. *)
Theorem fallback_wake_all_misses :
  ∃ s, rtc FallbackParking.step waiting_and_coming s ∧
    s.2 = [FallbackParking.Idle; FallbackParking.Waiting 1; FallbackParking.Idle] ∧
    FallbackParking.waiters s.1 = [1%nat] ∧ FallbackParking.flag s.1 = false.
Proof.
  eexists. split.
  - unfold waiting_and_coming. pool_by 2%nat FallbackParking.wake_lock. pool_by 2%nat FallbackParking.wake_set.
    pool_by 2%nat FallbackParking.wake_all_notify.
    pool_by 0%nat FallbackParking.park_notified. pool_by 0%nat FallbackParking.park_relock.
    pool_by 0%nat FallbackParking.park_clear. pool_by 0%nat FallbackParking.park_sub.
    pool_by 0%nat FallbackParking.park_unlock.
    pool_by 1%nat FallbackParking.park_lock. pool_by 1%nat FallbackParking.park_wait. apply rtc_refl.
  - by vm_compute.
Qed.
