(* ===== verification/Sched.v ===== *)
(** * The scheduler

    Models [gvthread-runtime/src/scheduler.rs] with [tls.rs], [worker.rs] and
    the sleep queue and timer loop of [timer/mod.rs], as operations on one
    state: the global scheduler, the memory region, the metadata of the slots,
    the worker states and the sleep queue.  Metadata records are kept in a map
    by slot beside the address space; a slot that was never written reads as
    zero, and so does one whose pages [deactivate_slot] gave back.  What runs
    between the operations, and their interleaving, is in [SchedPool]. *)

From S2P Require Import Prelude CoreTypes Slots Metadata Memory ReadyQueue TimerHeap Config Arch.

(** ** Thread-local storage *)
Module Tls.
Record t : Type := mk { WORKER_ID : Z; CURRENT_GVTHREAD : Z; GVTHREAD_BASE : Z }.

Definition initial : t := mk USIZE_MAX Constants.GVTHREAD_NONE 0.
Definition set_worker_id (l : t) (id : Z) : t := mk id (CURRENT_GVTHREAD l) (GVTHREAD_BASE l).
Definition worker_id (l : t) : Z := WORKER_ID l.
Definition set_current_gvthread (l : t) (id base : Z) : t := mk (WORKER_ID l) (GVThreadId.as_u32 id) base.
Definition clear_current_gvthread (l : t) : t := mk (WORKER_ID l) Constants.GVTHREAD_NONE 0.
Definition current_gvthread_id (l : t) : Z := GVThreadId.new (CURRENT_GVTHREAD l).
Definition current_gvthread_base (l : t) : Z := GVTHREAD_BASE l.
Definition is_in_gvthread (l : t) : bool := negb (CURRENT_GVTHREAD l =? Constants.GVTHREAD_NONE).
Definition try_current_worker_id (l : t) : option Z := if WORKER_ID l =? USIZE_MAX then None else Some (WORKER_ID l).
End Tls.

(** ** Worker states and the worker pool *)
Module Workers.
Abbreviation WorkerStates := (list WorkerState.t).
Definition new_boxed : WorkerStates := replicate (Z.to_nat Constants.MAX_WORKERS) WorkerState.new.
Definition get (s : WorkerStates) (id : Z) : outcome WorkerState.t := index s id.

Record WorkerPool : Type := Pool {
  handles : list Z;
  num_workers : Z;
  num_low_priority_workers : Z;
  shutdown_flag : bool;
  started_count : Z
}.
Definition new (num_workers num_low_priority_workers : Z) : WorkerPool :=
  Pool [] num_workers num_low_priority_workers false 0.

(** One turn of the loop of [start]; the handle of a thread is its index. *)
Definition start_one (p : WorkerPool) (s : WorkerStates) (i : Z) : outcome (WorkerPool * WorkerStates) :=
  let is_low_priority := num_workers p -[64] num_low_priority_workers p <=? i in
  w ← get s i;
  s' ← index_set s i (WorkerState.init w (wrap 8 i) is_low_priority);
  Ret (Pool (push_back (handles p) i) (num_workers p) (num_low_priority_workers p)
            (shutdown_flag p) (started_count p), s').
Fixpoint start_from (ids : list Z) (p : WorkerPool) (s : WorkerStates) : outcome (WorkerPool * WorkerStates) :=
  match ids with
  | [] => Ret (p, s)
  | i :: ids' => r ← start_one p s i; start_from ids' r.1 r.2
  end.
Definition start (p : WorkerPool) (s : WorkerStates) : outcome (WorkerPool * WorkerStates) :=
  start_from (seqZ 0 (num_workers p)) p s.

Definition shutdown (p : WorkerPool) : WorkerPool :=
  Pool (handles p) (num_workers p) (num_low_priority_workers p) true (started_count p).
Definition is_shutdown (p : WorkerPool) : bool := shutdown_flag p.
End Workers.

(** ** The sleep queue *)
Module SleepEntry.
Record t : Type := mk { wake_time_ns : Z; gvthread_id : Z; generation : Z }.

(** Reversed, so that the greatest entry is the earliest. *)
Definition cmp (a b : t) : comparison := wake_time_ns b ?= wake_time_ns a.
Definition leb (a b : t) : bool := match cmp a b with Gt => false | _ => true end.
Definition le (a b : t) : Prop := leb a b = true.

Lemma leb_spec a b : leb a b = true ↔ wake_time_ns b ≤ wake_time_ns a.
Proof. unfold leb, cmp. destruct (Z.compare_spec (wake_time_ns b) (wake_time_ns a)); split; done || lia. Qed.
End SleepEntry.

#[global] Instance sleep_heap : BinaryHeap SleepEntry.t (list SleepEntry.t) SleepEntry.le.
Proof.
  refine {| elems := λ h, h; heap_empty := []; heap_push := λ h x, SortedHeap.insert SleepEntry.leb x h;
            heap_pop := SortedHeap.take_max SleepEntry.leb |}.
  - done.
  - intros h x. apply SortedHeap.insert_perm.
  - intros h. apply SortedHeap.take_max_none.
  - intros h x h'. apply SortedHeap.take_max_some.
    + intros a b Hab%not_true_iff_false. rewrite SleepEntry.leb_spec in *. lia.
    + intros a b c. rewrite !SleepEntry.leb_spec. lia.
    + intros a. rewrite SleepEntry.leb_spec. lia.
Defined.

(** ** The timer thread of the scheduler *)
Module TimerThread.
Record t : Type := mk {
  started : bool;
  shutdown_flag : bool;
  time_slice_ns : Z;
  grace_period_ns : Z;
  enable_forced_preempt : bool
}.
Definition new (c : SchedulerConfig.t) : t :=
  mk false false (wrap 64 (SchedulerConfig.time_slice c)) (wrap 64 (SchedulerConfig.grace_period c))
     (SchedulerConfig.enable_forced_preempt c).
Definition start (x : t) : t :=
  mk true (shutdown_flag x) (time_slice_ns x) (grace_period_ns x) (enable_forced_preempt x).
Definition shutdown (x : t) : t :=
  mk (started x) true (time_slice_ns x) (grace_period_ns x) (enable_forced_preempt x).
Definition join (x : t) : t :=
  mk false (shutdown_flag x) (time_slice_ns x) (grace_period_ns x) (enable_forced_preempt x).

(** What the loop remembers of a worker. *)
Record WorkerWatch : Type := Watch { last_counter : Z; first_stall_time : option Z }.
Definition watch0 : WorkerWatch := Watch 0 None.

(** The scan of one worker: the new watch, and whether its GVThread is to be
    handled as stuck. *)
Definition check_worker (time_slice_ns now : Z) (w : WorkerState.t) (watch : WorkerWatch) : WorkerWatch * option Z :=
  let gthread_id := WorkerState.current_gthread w in
  if gthread_id =? Constants.GVTHREAD_NONE then (Watch (last_counter watch) None, None)
  else
    let counter := WorkerState.activity_counter w in
    if counter =? last_counter watch then
      match first_stall_time watch with
      | None => (Watch (last_counter watch) (Some now), None)
      | Some stall_start =>
          let stall_ns := wrap 64 (saturating_sub now stall_start) in
          if time_slice_ns <? stall_ns then (Watch (last_counter watch) None, Some gthread_id)
          else (watch, None)
      end
    else (Watch counter None, None).

(** The length of the sleep before a scan. *)
Definition sleep_duration (max_sleep_ms : Z) (until_next : option Z) : Z :=
  match until_next with
  | Some d => if d =? 0 then 100000 else Z.min d (max_sleep_ms * 1000000)
  | None => max_sleep_ms * 1000000
  end.
End TimerThread.

(** ** The scheduler *)
Module Scheduler.

Record t : Type := mk {
  config : SchedulerConfig.t;
  slot_allocator : SlotAllocator.t;
  ready_queue : SimpleQueue.t;
  worker_pool : option Workers.WorkerPool;
  timer_thread : option TimerThread.t;
  running : bool
}.

(** [config.validate().expect(..)] panics on an invalid configuration. *)
Definition new (c : SchedulerConfig.t) : outcome t :=
  match SchedulerConfig.validate c with
  | Err _ => Panic
  | Ok _ =>
      Ret (mk c (SlotAllocator.new (SchedulerConfig.max_gvthreads c))
              (SimpleQueue.init SimpleQueue.new (SchedulerConfig.num_workers c)) None None false)
  end.

Definition with_allocator (s : t) (a : SlotAllocator.t) : t :=
  mk (config s) a (ready_queue s) (worker_pool s) (timer_thread s) (running s).
Definition with_queue (s : t) (q : SimpleQueue.t) : t :=
  mk (config s) (slot_allocator s) q (worker_pool s) (timer_thread s) (running s).
Definition with_threads (s : t) (w : option Workers.WorkerPool) (x : option TimerThread.t) : t :=
  mk (config s) (slot_allocator s) (ready_queue s) w x (running s).
Definition with_running (s : t) (b : bool) : t :=
  mk (config s) (slot_allocator s) (ready_queue s) (worker_pool s) (timer_thread s) b.

Section System.
Context {space : Type} `{VirtualMemory space}.

(** The state of the process. *)
Record sys : Type := Sys {
  SCHEDULER : option t;
  SCHEDULER_INIT : bool;
  SCHEDULER_RUNNING : bool;
  MEMORY_REGION : MemoryRegion.t;
  vm : space;
  metas : gmap Z GVThreadMetadata.t;
  WORKER_STATES : Workers.WorkerStates;
  SLEEP_QUEUE : option (list SleepEntry.t)
}.

Definition boot (s : space) : sys := Sys None false false MemoryRegion.new s ∅ Workers.new_boxed None.

Definition set_sched (g : sys) (s : option t) : sys :=
  Sys s (SCHEDULER_INIT g) (SCHEDULER_RUNNING g) (MEMORY_REGION g) (vm g) (metas g) (WORKER_STATES g) (SLEEP_QUEUE g).
Definition set_flags (g : sys) (i r : bool) : sys :=
  Sys (SCHEDULER g) i r (MEMORY_REGION g) (vm g) (metas g) (WORKER_STATES g) (SLEEP_QUEUE g).
Definition set_memory (g : sys) (r : MemoryRegion.t) (s : space) : sys :=
  Sys (SCHEDULER g) (SCHEDULER_INIT g) (SCHEDULER_RUNNING g) r s (metas g) (WORKER_STATES g) (SLEEP_QUEUE g).
Definition set_metas (g : sys) (m : gmap Z GVThreadMetadata.t) : sys :=
  Sys (SCHEDULER g) (SCHEDULER_INIT g) (SCHEDULER_RUNNING g) (MEMORY_REGION g) (vm g) m (WORKER_STATES g) (SLEEP_QUEUE g).
Definition set_workers (g : sys) (w : Workers.WorkerStates) : sys :=
  Sys (SCHEDULER g) (SCHEDULER_INIT g) (SCHEDULER_RUNNING g) (MEMORY_REGION g) (vm g) (metas g) w (SLEEP_QUEUE g).
Definition set_sleepers (g : sys) (q : option (list SleepEntry.t)) : sys :=
  Sys (SCHEDULER g) (SCHEDULER_INIT g) (SCHEDULER_RUNNING g) (MEMORY_REGION g) (vm g) (metas g) (WORKER_STATES g) q.

(** [memory::get_metadata_ptr], and a store through it. *)
Definition meta_of (g : sys) (id : Z) : GVThreadMetadata.t := default GVThreadMetadata.zeroed (metas g !! id).
Definition set_meta (g : sys) (id : Z) (m : GVThreadMetadata.t) : sys := set_metas g (<[id := m]> (metas g)).
Definition set_state (g : sys) (id : Z) (st : GVThreadState.t) : sys :=
  set_meta g id (GVThreadMetadata.set_state (meta_of g id) st).

(** *** Life cycle *)
Definition init_global_scheduler (g : sys) (c : SchedulerConfig.t) : outcome (SchedResult () * sys) :=
  if SCHEDULER_INIT g then Ret (Err SchedError.AlreadyInitialized, g)
  else
    let g1 := set_sleepers (set_flags g true (SCHEDULER_RUNNING g)) (Some heap_empty) in
    s ← new c;
    Ret (Ok (), set_sched g1 (Some s)).

(** [start]; [thread::Builder::spawn] is taken to succeed. *)
Definition start (g : sys) (s : t) : outcome (SchedResult () * sys) :=
  if running s then Ret (Err SchedError.AlreadyInitialized, g)
  else
    let s1 := with_running s true in
    let g1 := set_sched g (Some s1) in
    let '(r, region, sp) := MemoryRegion.init (MEMORY_REGION g1) (vm g1) (SchedulerConfig.max_gvthreads (config s)) in
    let g2 := set_memory g1 region sp in
    match r with
    | Err e => Ret (Err e, g2)
    | Ok _ =>
        let g3 := set_flags g2 (SCHEDULER_INIT g2) true in
        let timer := TimerThread.start (TimerThread.new (config s)) in
        let pool := Workers.new (SchedulerConfig.num_workers (config s))
                                (SchedulerConfig.num_low_priority_workers (config s)) in
        pw ← Workers.start pool (WORKER_STATES g3);
        Ret (Ok (), set_workers (set_sched g3 (Some (with_threads s1 (Some pw.1) (Some timer)))) pw.2)
    end.

Definition start_global_scheduler (g : sys) : outcome (SchedResult () * sys) :=
  match SCHEDULER g with
  | Some s => start g s
  | None => Ret (Err SchedError.NotInitialized, g)
  end.

Definition is_running (s : t) : bool := running s.

(** [shutdown]: the flags, then both thread handles are taken and joined. *)
Definition shutdown (g : sys) (s : t) : sys :=
  if negb (running s) then g
  else set_flags (set_sched g (Some (with_threads (with_running s false) None None))) (SCHEDULER_INIT g) false.
Definition shutdown_global_scheduler (g : sys) : sys :=
  match SCHEDULER g with Some s => shutdown g s | None => g end.

(** *** Operations on GVThreads

    [l] is the thread-local storage of the caller.  [gvthread_entry] and the
    trampoline are code addresses, [closure_ptr] the boxed closure. *)
Definition expect {A E} (r : Result A E) : outcome A := match r with Ok v => Ret v | Err _ => Panic end.

Definition push_ready (g : sys) (s : t) (id : Z) (p : Priority.t) (hint : option Z) : outcome sys :=
  q ← SimpleQueue.push (ready_queue s) id p hint;
  Ret (set_sched g (Some (with_queue s q))).

(** The metadata that [spawn] leaves in a slot: [init], the entry, the
    context and the state [Ready]. *)
Definition spawn_meta (m : GVThreadMetadata.t) (id parent : Z) (p : Priority.t)
    (stack_top gvthread_entry trampoline closure_ptr : Z) : GVThreadMetadata.t :=
  let m1 := GVThreadMetadata.with_entry (GVThreadMetadata.init m id parent p) gvthread_entry closure_ptr in
  let m2 := GVThreadMetadata.with_voluntary_regs m1 (init_context stack_top gvthread_entry closure_ptr trampoline) in
  GVThreadMetadata.set_state m2 GVThreadState.Ready.

Definition spawn (g : sys) (s : t) (l : Tls.t) (p : Priority.t)
    (gvthread_entry trampoline closure_ptr : Z) : outcome (Z * sys) :=
  let '(r, a) := SlotAllocator.allocate (slot_allocator s) in
  id ← expect r;
  let s1 := with_allocator s a in
  let '(act, sp) := MemoryRegion.activate_slot (MEMORY_REGION g) (vm g) (GVThreadId.as_u32 id) in
  _ ← expect act;
  let g1 := set_memory (set_sched g (Some s1)) (MEMORY_REGION g) sp in
  let parent := if Tls.is_in_gvthread l then Tls.current_gvthread_id l else GVThreadId.NONE in
  let stack_top := MemoryRegion.stack_top (MEMORY_REGION g1) (GVThreadId.as_u32 id) in
  let g2 := set_meta g1 id (spawn_meta (meta_of g1 id) id parent p stack_top gvthread_entry trampoline closure_ptr) in
  g3 ← push_ready g2 s1 id p None;
  Ret (id, g3).

Definition get_next (g : sys) (s : t) (worker_id : Z) (low_priority_only : bool)
    : outcome (option (Z * Priority.t) * sys) :=
  r ← SimpleQueue.pop (ready_queue s) worker_id;
  Ret (r.1, set_sched g (Some (with_queue s r.2))).

Definition mark_ready (g : sys) (s : t) (l : Tls.t) (id : Z) (p : Priority.t) : outcome sys :=
  push_ready (set_state g id GVThreadState.Ready) s id p (Tls.try_current_worker_id l).
Definition mark_blocked (g : sys) (id : Z) : sys := set_state g id GVThreadState.Blocked.

(** The method [Scheduler::wake_gvthread]. *)
Definition wake (g : sys) (s : t) (l : Tls.t) (id : Z) (p : Priority.t) : outcome sys :=
  if bool_decide (GVThreadMetadata.get_state (meta_of g id) = GVThreadState.Blocked) then
    push_ready (set_state g id GVThreadState.Ready) s id p (Tls.try_current_worker_id l)
  else Ret g.

(** The result of [deactivate_slot] is ignored; when the pages are given back
    the metadata reads as zero. *)
Definition mark_finished (g : sys) (s : t) (id : Z) : sys :=
  let g1 := set_state g id GVThreadState.Finished in
  let '(r, sp) := MemoryRegion.deactivate_slot (MEMORY_REGION g1) (vm g1) (GVThreadId.as_u32 id) in
  let g2 := set_memory g1 (MEMORY_REGION g1) sp in
  let g3 := match r with Ok _ => set_meta g2 id GVThreadMetadata.zeroed | Err _ => g2 end in
  set_sched g3 (Some (with_allocator s (SlotAllocator.release (slot_allocator s) id))).

(** The free functions on the global scheduler. *)
Definition wake_gvthread (g : sys) (l : Tls.t) (id : Z) (p : Priority.t) : outcome sys :=
  match SCHEDULER g with Some s => wake g s l id p | None => Ret g end.
Definition wake_gvthread_checked (g : sys) (l : Tls.t) (id : Z) (p : Priority.t) (expected_generation : Z) : outcome sys :=
  if negb (GVThreadMetadata.get_generation (meta_of g id) =? expected_generation) then Ret g
  else wake_gvthread g l id p.
Definition spawn_global (g : sys) (l : Tls.t) (p : Priority.t) (gvthread_entry trampoline closure_ptr : Z)
    : outcome (Z * sys) :=
  match SCHEDULER g with Some s => spawn g s l p gvthread_entry trampoline closure_ptr | None => Panic end.

(** *** Running a GVThread

    [run_gvthread] up to the switch and after it; [yield_now], [block_current]
    and [gvthread_finished] up to their switch. *)
Definition run_begin (g : sys) (l : Tls.t) (worker_id id now_ns : Z) : outcome (Tls.t * sys) :=
  w ← Workers.get (WORKER_STATES g) worker_id;
  ws ← index_set (WORKER_STATES g) worker_id (WorkerState.start_running w id now_ns);
  let l1 := Tls.set_current_gvthread l id (MemoryRegion.metadata_addr (MEMORY_REGION g) id) in
  let m := GVThreadMetadata.clear_preempt
             (GVThreadMetadata.with_worker_id
                (GVThreadMetadata.set_state (meta_of g id) GVThreadState.Running) (wrap 32 worker_id)) in
  Ret (l1, set_workers (set_meta g id m) ws).

Definition run_end (g : sys) (l : Tls.t) (worker_id id : Z) (p : Priority.t) : outcome (Tls.t * sys) :=
  g1 ← match SCHEDULER g with
       | None => Ret g
       | Some s =>
           match GVThreadMetadata.get_state (meta_of g id) with
           | GVThreadState.Ready => push_ready g s id p (Some worker_id)
           | GVThreadState.Finished => Ret (mark_finished g s id)
           | GVThreadState.Blocked => Ret g
           | GVThreadState.Preempted => mark_ready g s l id p
           | _ => Ret g
           end
       end;
  w ← Workers.get (WORKER_STATES g1) worker_id;
  ws ← index_set (WORKER_STATES g1) worker_id (WorkerState.stop_running w);
  Ret (Tls.clear_current_gvthread l, set_workers g1 ws).

(** [None] when the caller is not a GVThread and nothing is switched. *)
Definition yield_now (g : sys) (l : Tls.t) (worker_id now_ns : Z) : outcome (option sys) :=
  if negb (Tls.is_in_gvthread l) then Ret None
  else if (Tls.current_gvthread_base l =? 0) || GVThreadId.is_none (Tls.current_gvthread_id l) then Ret None
  else
    let g1 := set_state g (Tls.current_gvthread_id l) GVThreadState.Ready in
    w ← Workers.get (WORKER_STATES g1) worker_id;
    ws ← index_set (WORKER_STATES g1) worker_id (WorkerState.record_activity w now_ns);
    Ret (Some (set_workers g1 ws)).
Definition block_current (g : sys) (l : Tls.t) : option sys :=
  if negb (Tls.is_in_gvthread l) then None
  else if (Tls.current_gvthread_base l =? 0) || GVThreadId.is_none (Tls.current_gvthread_id l) then None
  else Some (set_state g (Tls.current_gvthread_id l) GVThreadState.Blocked).
(** A null base makes [gvthread_finished] spin for ever. *)
Definition gvthread_finished (g : sys) (l : Tls.t) : option sys :=
  if Tls.current_gvthread_base l =? 0 then None
  else Some (set_state g (Tls.current_gvthread_id l) GVThreadState.Finished).

(** *** Sleeping *)
Definition init_sleep_queue (g : sys) : sys := set_sleepers g (Some heap_empty).
Definition add_to_sleep_queue (g : sys) (e : SleepEntry.t) : sys :=
  match SLEEP_QUEUE g with Some q => set_sleepers g (Some (heap_push q e)) | None => g end.

(** [sleep] up to the switch of [block_current]; [None] sleeps the OS thread. *)
Definition sleep (g : sys) (l : Tls.t) (now_ns duration : Z) : option sys :=
  if negb (Tls.is_in_gvthread l) then None
  else if Tls.current_gvthread_base l =? 0 then None
  else
    let id := Tls.current_gvthread_id l in
    let wake_time_ns := now_ns +[64] wrap 64 duration in
    let m := meta_of g id in
    let g1 := set_meta g id (GVThreadMetadata.with_sleep m (GVThreadMetadata.sleep_flag m) wake_time_ns) in
    let g2 := add_to_sleep_queue g1 (SleepEntry.mk wake_time_ns (GVThreadId.as_u32 id) (GVThreadMetadata.get_generation m)) in
    block_current g2 l.

(** The locked part of one turn of [process_sleep_queue]. *)
Definition pop_expired (g : sys) (now : Z) : option (SleepEntry.t * sys) :=
  match SLEEP_QUEUE g with
  | Some q =>
      match heap_pop q with
      | Some (e, q') => if SleepEntry.wake_time_ns e <=? now then Some (e, set_sleepers g (Some q')) else None
      | None => None
      end
  | None => None
  end.
Definition wake_sleeper (g : sys) (l : Tls.t) (e : SleepEntry.t) : outcome sys :=
  let m := meta_of g (SleepEntry.gvthread_id e) in
  if GVThreadMetadata.get_generation m =? SleepEntry.generation e then
    wake_gvthread g l (GVThreadId.new (SleepEntry.gvthread_id e)) (GVThreadMetadata.get_priority m)
  else Ret g.
Fixpoint process_loop (fuel : nat) (g : sys) (l : Tls.t) (now : Z) : outcome sys :=
  match fuel with
  | O => Ret g
  | S n =>
      match pop_expired g now with
      | Some (e, g1) => g2 ← wake_sleeper g1 l e; process_loop n g2 l now
      | None => Ret g
      end
  end.
(** Every turn removes an entry, so one turn more than there are entries is enough. *)
Definition process_sleep_queue (g : sys) (l : Tls.t) (now : Z) : outcome sys :=
  process_loop (S (length (default [] (SLEEP_QUEUE g)))) g l now.

Definition time_until_next_wake (g : sys) (now : Z) : option Z :=
  match SLEEP_QUEUE g with
  | Some q =>
      match heap_peek q with
      | Some top => Some (if now <? SleepEntry.wake_time_ns top then SleepEntry.wake_time_ns top - now else 0)
      | None => None
      end
  | None => None
  end.

(** [send_sigurg] does nothing. *)
Definition handle_stuck_gvthread (g : sys) (gthread_id : Z) : sys :=
  set_meta g gthread_id (GVThreadMetadata.with_preempt_flag (meta_of g gthread_id) 1).

(** The scan of the workers by the timer loop. *)
Fixpoint scan_workers (is_ : list Z) (time_slice_ns now : Z) (g : sys) (ws : list TimerThread.WorkerWatch)
    : outcome (sys * list TimerThread.WorkerWatch) :=
  match is_ with
  | [] => Ret (g, ws)
  | i :: rest =>
      w ← Workers.get (WORKER_STATES g) i;
      watch ← index ws i;
      let '(watch', stuck) := TimerThread.check_worker time_slice_ns now w watch in
      ws' ← index_set ws i watch';
      let g1 := match stuck with Some id => handle_stuck_gvthread g id | None => g end in
      scan_workers rest time_slice_ns now g1 ws'
  end.
(** One turn of [timer_loop] after its sleep. *)
Definition timer_turn (num_workers time_slice_ns now : Z) (g : sys) (l : Tls.t) (ws : list TimerThread.WorkerWatch)
    : outcome (sys * list TimerThread.WorkerWatch) :=
  g1 ← process_sleep_queue g l now;
  scan_workers (seqZ 0 num_workers) time_slice_ns now g1 ws.
End System.

(** What an idle worker does next, with its new spin count. *)
Inductive idle_action : Type := WaitIo | Spin | Park.
Definition idle (idle_spins spin_limit : Z) (has_io : bool) : idle_action * Z :=
  if has_io then (WaitIo, 0)
  else if idle_spins <? spin_limit then (Spin, idle_spins + 1)
  else (Park, 0).
End Scheduler.

(** ** Lemmas: starting the workers *)
Section StartWorkers.
Import Workers.
Implicit Types (p : WorkerPool) (s : WorkerStates).

Lemma start_one_ok p s i w :
  0 ≤ i → s !! Z.to_nat i = Some w →
  start_one p s i = Ret (Pool (push_back (handles p) i) (num_workers p) (num_low_priority_workers p)
                              (shutdown_flag p) (started_count p),
    <[Z.to_nat i := WorkerState.init w (wrap 8 i) (num_workers p -[64] num_low_priority_workers p <=? i)]> s).
Proof.
  intros Hi Hw. unfold start_one, get. rewrite (proj2 (index_Ret s i w)) by done. cbn [mbind outcome_bind].
  rewrite index_set_Ret; [done|]. apply lookup_lt_Some in Hw. lia.
Qed.

Lemma start_from_ok n k p s :
  0 ≤ k → k + Z.of_nat n ≤ Z.of_nat (length s) →
  ∃ p' s', start_from (seqZ k (Z.of_nat n)) p s = Ret (p', s') ∧ length s' = length s ∧
    handles p' = handles p ++ seqZ k (Z.of_nat n) ∧
    ∀ i w, 0 ≤ i → s !! Z.to_nat i = Some w →
      s' !! Z.to_nat i = Some (if decide (k ≤ i < k + Z.of_nat n)
        then WorkerState.init w (wrap 8 i) (num_workers p -[64] num_low_priority_workers p <=? i) else w).
Proof.
  revert k p s. induction n as [|n IH]; intros k p s Hk Hn.
  { exists p, s. change (seqZ k (Z.of_nat 0)) with (@nil Z). rewrite app_nil_r. split_and!; try done.
    intros i w Hi Hw. by rewrite decide_False by lia. }
  rewrite Nat2Z.inj_succ, seqZ_cons by lia. rewrite Z.pred_succ. cbn [start_from].
  destruct (lookup_lt_is_Some_2 s (Z.to_nat k)) as [w0 Hw0]; [lia|].
  rewrite (start_one_ok p s k w0) by done. cbn [mbind outcome_bind fst snd].
  set (p1 := Pool _ _ _ _ _). set (s1 := <[_ := _]> s).
  assert (Hlen : length s1 = length s) by apply length_insert.
  destruct (IH (Z.succ k) p1 s1) as (p' & s' & Hr & Hl & Hh & Hs); [lia|lia|].
  exists p', s'. split_and!; [done|lia| |].
  - rewrite Hh. unfold p1, push_back. simpl. by rewrite <- (assoc (++)).
  - intros i w Hi Hw. destruct (decide (i = k)) as [->|Hne].
    + rewrite Hw0 in Hw. injection Hw as ->. rewrite (Hs k (WorkerState.init w (wrap 8 k) (num_workers p -[64] num_low_priority_workers p <=? k)) Hk).
      * by rewrite decide_False, decide_True by lia.
      * apply list_lookup_insert_eq. lia.
    + rewrite (Hs i w Hi).
      * do 2 case_decide; done || lia.
      * rewrite <- Hw. apply list_lookup_insert_ne. lia.
Qed.

Lemma start_from_panic ids p s :
  Forall (λ i, 0 ≤ i) ids → Exists (λ i, Z.of_nat (length s) ≤ i) ids → start_from ids p s = Panic.
Proof.
  intros H0 Hex. revert p s H0 Hex. induction ids as [|i ids IH]; intros p s H0 Hex; [by inversion Hex|].
  apply Forall_cons in H0 as [Hi H0]. cbn [start_from].
  destruct (s !! Z.to_nat i) as [w|] eqn:Hw.
  - rewrite (start_one_ok p s i w) by done. cbn [mbind outcome_bind fst snd]. apply IH; [done|].
    rewrite length_insert. apply lookup_lt_Some in Hw. apply Exists_cons in Hex as [?|?]; [lia|done].
  - unfold start_one, get, index. destruct (Z.ltb_spec i 0); [lia|]. by rewrite Hw.
Qed.

Lemma start_spec p s :
  0 ≤ num_workers p →
  (num_workers p ≤ Z.of_nat (length s) →
    ∃ p' s', start p s = Ret (p', s') ∧ handles p' = handles p ++ seqZ 0 (num_workers p) ∧
      ∀ i w, 0 ≤ i < num_workers p → s !! Z.to_nat i = Some w →
        s' !! Z.to_nat i = Some (WorkerState.init w (wrap 8 i) (num_workers p -[64] num_low_priority_workers p <=? i))) ∧
  (Z.of_nat (length s) < num_workers p → start p s = Panic).
Proof.
  intros Hn. split; intros Hlen; unfold start.
  - destruct (start_from_ok (Z.to_nat (num_workers p)) 0 p s) as (p' & s' & Hr & _ & Hh & Hs); [lia|lia|].
    rewrite Z2Nat.id in * by lia. exists p', s'. split_and!; try done.
    intros i w Hi Hw. rewrite (Hs i w) by (done || lia). by rewrite decide_True by lia.
  - apply start_from_panic.
    + apply Forall_forall. intros i Hi%elem_of_seqZ. lia.
    + apply Exists_exists. exists (Z.of_nat (length s)). rewrite elem_of_seqZ. lia.
Qed.
End StartWorkers.

(** ** Lemmas: metadata in the state *)
Section MetaFacts.
Context {space : Type} `{VirtualMemory space}.
Import Scheduler.
Implicit Types (g : @sys space).

Lemma meta_of_set_meta g id m id' :
  meta_of (set_meta g id m) id' = if decide (id' = id) then m else meta_of g id'.
Proof.
  unfold meta_of, set_meta. simpl. destruct (decide (id' = id)) as [->|Hne].
  - by rewrite lookup_insert_eq.
  - by rewrite lookup_insert_ne.
Qed.

Lemma push_ready_spec g s id p hint :
  simple_wf (ready_queue s) → match hint with Some w => 0 ≤ w | None => True end →
  ∃ q, push_ready g s id p hint = Ret (set_sched g (Some (with_queue s q))) ∧ simple_wf q ∧
       simple_contents q ≡ₚ id :: simple_contents (ready_queue s).
Proof.
  intros Hwf Hh. destruct (@push_spec _ simple_ready_queue (ready_queue s) id p hint Hwf Hh) as (q & Hq & Hwf' & _ & Hc).
  exists q. split_and!; [|done|done]. unfold push_ready. change (SimpleQueue.push (ready_queue s) id p hint = Ret q) in Hq. by rewrite Hq.
Qed.
End MetaFacts.

(** ** Lemmas: processing the sleep queue *)
Section Sleepers.
Context {space : Type} `{VirtualMemory space}.
Import Scheduler.
Implicit Types (g : @sys space) (e : SleepEntry.t) (q : list SleepEntry.t).

Definition late (now : Z) e : Prop := now < SleepEntry.wake_time_ns e.
#[global] Instance late_dec now e : Decision (late now e).
Proof. unfold late. apply _. Defined.

(** A GVThread that a pass at [now] is to wake: blocked, with a due entry of
    its present generation. *)
Definition wakeable g (now : Z) q (id : Z) : Prop :=
  GVThreadMetadata.get_state (meta_of g id) = GVThreadState.Blocked ∧
  ∃ e, e ∈ q ∧ ¬ late now e ∧ SleepEntry.gvthread_id e = id ∧
       SleepEntry.generation e = GVThreadMetadata.get_generation (meta_of g id).

(** The effect of a pass that wakes the GVThreads [ws]. *)
Record woken g g' (s s' : Scheduler.t) (ws : list Z) : Prop := {
  wk_sched : SCHEDULER g' = Some s';
  wk_wf : simple_wf (ready_queue s');
  wk_queue : simple_contents (ready_queue s') ≡ₚ ws ++ simple_contents (ready_queue s);
  wk_meta : ∀ id, meta_of g' id = if decide (id ∈ ws)
              then GVThreadMetadata.set_state (meta_of g id) GVThreadState.Ready else meta_of g id
}.

(** A wake reaches a blocked GVThread and no other. *)
Lemma wake_spec g l s id p :
  SCHEDULER g = Some s → simple_wf (ready_queue s) → 0 ≤ Tls.WORKER_ID l →
  ∃ g' s' ws, wake_gvthread g l id p = Ret g' ∧ woken g g' s s' ws ∧ SLEEP_QUEUE g' = SLEEP_QUEUE g ∧
    (ws = [id] ∧ GVThreadMetadata.get_state (meta_of g id) = GVThreadState.Blocked ∨
     ws = [] ∧ g' = g ∧ GVThreadMetadata.get_state (meta_of g id) ≠ GVThreadState.Blocked).
Proof.
  intros Hs Hwf Hl. unfold wake_gvthread. rewrite Hs. unfold wake. case_bool_decide as Hb.
  2: { exists g, s, []. split_and!; [done|by split|done|by right]. }
  destruct (push_ready_spec (set_state g id GVThreadState.Ready) s id p (Tls.try_current_worker_id l))
    as (q & Hq & Hwf' & Hc); [done| |].
  { unfold Tls.try_current_worker_id. by destruct (_ =? _). }
  rewrite Hq. eexists _, (with_queue s q), [id]. split_and!; [done| |done|by left].
  split; [done|done|done|]. intros id'. cbn. unfold set_state at 1.
  change (meta_of (set_sched ?g ?s) id') with (meta_of g id'). rewrite meta_of_set_meta.
  destruct (decide (id' = id)) as [->|Hne].
  - by rewrite decide_True by set_solver.
  - by rewrite decide_False by set_solver.
Qed.

Lemma wake_sleeper_spec g l s e :
  SCHEDULER g = Some s → simple_wf (ready_queue s) → 0 ≤ Tls.WORKER_ID l →
  let id := SleepEntry.gvthread_id e in
  ∃ g' s' ws, wake_sleeper g l e = Ret g' ∧ woken g g' s s' ws ∧ SLEEP_QUEUE g' = SLEEP_QUEUE g ∧
    (ws = [id] ∧ GVThreadMetadata.get_state (meta_of g id) = GVThreadState.Blocked ∧
       GVThreadMetadata.get_generation (meta_of g id) = SleepEntry.generation e ∨
     ws = [] ∧ ¬ (GVThreadMetadata.get_state (meta_of g id) = GVThreadState.Blocked ∧
       GVThreadMetadata.get_generation (meta_of g id) = SleepEntry.generation e)).
Proof.
  intros Hs Hwf Hl id. unfold wake_sleeper. fold id.
  assert (Hno : ∃ s', woken g g s s' []) by (exists s; by split).
  destruct Hno as [s0 Hno].
  destruct (Z.eqb_spec (GVThreadMetadata.get_generation (meta_of g id)) (SleepEntry.generation e)) as [Hg|Hg].
  2: { exists g, s0, []. split_and!; try done. right. split; [done|]. by intros [_ ?]. }
  destruct (wake_spec g l s (GVThreadId.new id) (GVThreadMetadata.get_priority (meta_of g id)) Hs Hwf Hl)
    as (g' & s' & ws & Hw & Hwk & Hsl & Hcase). unfold GVThreadId.new in *.
  exists g', s', ws. split_and!; [done..|]. destruct Hcase as [(-> & Hb)|(-> & _ & Hb)]; [by left|right].
  split; [done|]. by intros [? _].
Qed.

Lemma pop_expired_spec g now q :
  SLEEP_QUEUE g = Some q →
  match pop_expired g now with
  | Some (e, g1) => ∃ q1, g1 = set_sleepers g (Some q1) ∧ q ≡ₚ e :: q1 ∧ ¬ late now e
  | None => Forall (late now) q
  end.
Proof.
  intros Hq. unfold pop_expired. rewrite Hq. unfold late.
  destruct (heap_pop q) as [[e q1]|] eqn:Hp.
  - destruct (pop_some _ _ _ Hp) as [Hperm Hmax]. destruct (Z.leb_spec (SleepEntry.wake_time_ns e) now).
    + exists q1. split_and!; [done|exact Hperm|lia].
    + apply Forall_forall. intros y Hy. specialize (Hmax y Hy). apply SleepEntry.leb_spec in Hmax. lia.
  - apply pop_none in Hp. simpl in Hp. by subst.
Qed.

(** Waking for the popped entry [e] first does not change what is to be woken. *)
Lemma wakeable_cons g g2 now q q1 e w1 id :
  q ≡ₚ e :: q1 → ¬ late now e →
  (∀ id, meta_of g2 id = if decide (id ∈ w1)
           then GVThreadMetadata.set_state (meta_of g id) GVThreadState.Ready else meta_of g id) →
  (w1 = [SleepEntry.gvthread_id e] ∧
     GVThreadMetadata.get_state (meta_of g (SleepEntry.gvthread_id e)) = GVThreadState.Blocked ∧
     GVThreadMetadata.get_generation (meta_of g (SleepEntry.gvthread_id e)) = SleepEntry.generation e ∨
   w1 = [] ∧ ¬ (GVThreadMetadata.get_state (meta_of g (SleepEntry.gvthread_id e)) = GVThreadState.Blocked ∧
     GVThreadMetadata.get_generation (meta_of g (SleepEntry.gvthread_id e)) = SleepEntry.generation e)) →
  id ∈ w1 ∨ wakeable g2 now q1 id ↔ wakeable g now q id.
Proof.
  intros Hperm Hdue Hm Hcase. unfold wakeable. setoid_rewrite Hperm. rewrite Hm.
  destruct (decide (id ∈ w1)) as [Hi|Hi].
  - rewrite get_set_state. destruct Hcase as [(-> & Hb & Hg)|[-> _]]; [|set_solver].
    apply list_elem_of_singleton in Hi as ->.
    split; [|intros _; left; set_solver]. intros _. split; [done|]. exists e. set_solver.
  - split.
    + intros [?|(Hb & e' & He' & Hrest)]; [done|]. split; [done|]. exists e'. set_solver.
    + intros (Hb & e' & He' & Hd & Hid & Hg). right. split; [done|]. exists e'. split_and!; try done.
      apply elem_of_cons in He' as [->|?]; [|done]. exfalso. subst id.
      destruct Hcase as [(-> & _)|[_ Hn]]; [set_solver|]. by apply Hn.
Qed.

Lemma process_loop_spec fuel g l now s q :
  SCHEDULER g = Some s → simple_wf (ready_queue s) → 0 ≤ Tls.WORKER_ID l →
  SLEEP_QUEUE g = Some q → (length q < fuel)%nat →
  ∃ g' s' q' ws, process_loop fuel g l now = Ret g' ∧ woken g g' s s' ws ∧
    SLEEP_QUEUE g' = Some q' ∧ q' ≡ₚ filter (late now) q ∧
    NoDup ws ∧ (∀ id, id ∈ ws ↔ wakeable g now q id).
Proof.
  revert g s q. induction fuel as [|fuel IH]; intros g s q Hs Hwf Hl Hq Hf; [lia|]. cbn [process_loop].
  pose proof (pop_expired_spec g now q Hq) as Hpop. destruct (pop_expired g now) as [[e g1]|].
  2: { exists g, s, q, []. rewrite Forall_forall in Hpop. split_and!; try done.
       - by rewrite list_filter_all.
       - constructor.
       - intros id. split; [by intros ?%elem_of_nil|]. intros (_ & e & He & Hd & _). by destruct (Hd (Hpop e He)). }
  destruct Hpop as (q1 & -> & Hperm & Hdue).
  destruct (wake_sleeper_spec (set_sleepers g (Some q1)) l s e Hs Hwf Hl) as (g2 & s2 & w1 & -> & Hw1 & Hq2 & Hcase).
  cbn [mbind outcome_bind]. destruct Hw1 as [Hs2 Hwf2 Hc2 Hm2].
  assert (Hlen : length q = S (length q1)) by (by apply Permutation_length in Hperm).
  destruct (IH g2 s2 q1 Hs2 Hwf2 Hl Hq2) as (g' & s' & q' & ws & -> & [Hs' Hwf' Hc' Hm'] & Hq' & Hf' & Hnd & Hws); [lia|].
  change (meta_of (set_sleepers g (Some q1))) with (meta_of g) in *.
  assert (Hready : ∀ id, id ∈ w1 → GVThreadMetadata.get_state (meta_of g2 id) = GVThreadState.Ready).
  { intros id Hid. rewrite Hm2, decide_True by done. apply get_set_state. }
  assert (Hdisj : ∀ id, id ∈ w1 → id ∉ ws).
  { intros id Hid Hin. apply Hws in Hin as [Hb _]. by rewrite Hready in Hb. }
  exists g', s', q', (w1 ++ ws). split_and!; [done| |done| | |].
  - split; [done|done| |].
    + rewrite Hc', Hc2, !(assoc (++)). by rewrite (comm (++) ws w1).
    + intros id. rewrite Hm', Hm2. destruct (decide (id ∈ w1)) as [Hi1|Hi1].
      * rewrite decide_False by (by apply Hdisj). by rewrite decide_True by set_solver.
      * do 2 case_decide; set_solver.
  - rewrite Hf', Hperm, filter_cons, decide_False by done. done.
  - apply NoDup_app. split_and!; [|done|done]. destruct Hcase as [[-> _]|[-> _]]; [apply NoDup_singleton|constructor].
  - intros id. rewrite elem_of_app, Hws. apply (wakeable_cons g g2 now q q1 e w1 id); done.
Qed.
End Sleepers.

(** ** Properties *)

Section SchedProperties.
Context {space : Type} `{VirtualMemory space}.
Import Scheduler.
Implicit Types (g : @sys space).


(** C29: A pass over the sleep queue wakes the right GVThreads.  It terminates
    without panic, removes exactly the entries that are due, and pushes exactly
    the GVThreads that are blocked and have a due entry of their present
    generation, each once however many entries it has; their state becomes
    [Ready] and no other metadata changes. *)
Theorem process_sleep_queue_spec g l now s q :
  SCHEDULER g = Some s → simple_wf (ready_queue s) → 0 ≤ Tls.WORKER_ID l → SLEEP_QUEUE g = Some q →
  ∃ g' s' q' ws, process_sleep_queue g l now = Ret g' ∧ SCHEDULER g' = Some s' ∧
    SLEEP_QUEUE g' = Some q' ∧ q' ≡ₚ filter (late now) q ∧
    simple_contents (ready_queue s') ≡ₚ ws ++ simple_contents (ready_queue s) ∧
    NoDup ws ∧ (∀ id, id ∈ ws ↔ wakeable g now q id) ∧
    ∀ id, meta_of g' id = if decide (id ∈ ws)
      then GVThreadMetadata.set_state (meta_of g id) GVThreadState.Ready else meta_of g id.
Proof.
  intros Hs Hwf Hl Hq. unfold process_sleep_queue. rewrite Hq.
  destruct (process_loop_spec (S (length q)) g l now s q Hs Hwf Hl Hq) as (g' & s' & q' & ws & Hr & [] & H1); [lia|].
  destruct H1 as (? & ? & ? & ?). exists g', s', q', ws. by split_and!.
Qed.

(** Starting the scheduler.  For a valid configuration whose memory can be
    reserved, the start of a fresh scheduler succeeds exactly up to 64 workers:
    then every worker has its own initialised state, the last
    [num_low_priority_workers] of them marked as low priority, and both kinds of
    threads run.  [validate] accepts up to 256 workers, and with more than 64
    the start panics. *)
Theorem scheduler_start_spec g c s region sp :
  new c = Ret s → WORKER_STATES g = Workers.new_boxed → 0 ≤ SchedulerConfig.num_workers c →
  0 ≤ SchedulerConfig.num_low_priority_workers c →
  MemoryRegion.init (MEMORY_REGION g) (vm g) (SchedulerConfig.max_gvthreads c) = (Ok (), region, sp) →
  (SchedulerConfig.num_workers c ≤ 64 →
     ∃ g' s' pool, start g s = Ret (Ok (), g') ∧ SCHEDULER g' = Some s' ∧ SCHEDULER_RUNNING g' = true ∧
       worker_pool s' = Some pool ∧ Workers.handles pool = seqZ 0 (SchedulerConfig.num_workers c) ∧
       running s' = true ∧
       ∀ i, 0 ≤ i < SchedulerConfig.num_workers c → ∃ w, WORKER_STATES g' !! Z.to_nat i = Some w ∧
         WorkerState.worker_index w = i ∧ WorkerState.current_gthread w = Constants.GVTHREAD_NONE ∧
         (WorkerState.is_low_priority w = true ↔
            SchedulerConfig.num_workers c - SchedulerConfig.num_low_priority_workers c ≤ i)) ∧
  (64 < SchedulerConfig.num_workers c → start g s = Panic).
Proof.
  intros Hnew Hws H0 Hlow Hmem. unfold new in Hnew.
  destruct (SchedulerConfig.validate c) as [u|] eqn:Hval; [|done]. injection Hnew as <-.
  assert (Hlt : SchedulerConfig.num_low_priority_workers c < SchedulerConfig.num_workers c ≤ 256).
  { unfold SchedulerConfig.validate in Hval. repeat case_match; simplify_eq; lia. }
  unfold start. cbn [running config]. cbn [set_sched MEMORY_REGION vm]. rewrite Hmem.
  cbn [set_memory set_flags WORKER_STATES set_sched]. rewrite Hws.
  destruct (start_spec (Workers.new (SchedulerConfig.num_workers c) (SchedulerConfig.num_low_priority_workers c))
    Workers.new_boxed H0) as [Hok Hbad]. cbn [Workers.num_workers Workers.new] in *.
  change (Z.of_nat (length Workers.new_boxed)) with 64 in *. split; intros Hn.
  - destruct (Hok Hn) as (pool & ws & -> & Hh & Hw). cbn [mbind outcome_bind fst snd].
    eexists _, _, pool. split_and!; try done. intros i Hi.
    assert (Hnth : Workers.new_boxed !! Z.to_nat i = Some WorkerState.new).
    { apply lookup_replicate_2. unfold Constants.MAX_WORKERS. lia. }
    eexists. split; [exact (Hw i _ Hi Hnth)|]. cbn [WorkerState.init WorkerState.worker_index
      WorkerState.current_gthread WorkerState.is_low_priority Workers.num_low_priority_workers Workers.new].
    rewrite !wrap_small by (unfold in_u; lia). split_and!; try done. by rewrite Z.leb_le.
  - by rewrite (Hbad Hn).
Qed.

End SchedProperties.

(** How the timer thread finds GVThreads to preempt.  A worker whose
    activity counter does not move between two scans further apart than the
    time slice has its GVThread marked; one that has recorded activity in
    between is left alone.  But the counter restarts at zero with every
    GVThread, and the watch does not remember which one it saw: a worker that
    went from one GVThread to another between the scans has the second one
    marked, even if it has only just started. *)
Theorem preempt_watch_spec slice t1 t2 w id1 id2 now1 now2 :
  0 ≤ t1 → t1 + slice < t2 → t2 < 2 ^ 64 → 0 ≤ slice →
  id1 ≠ Constants.GVTHREAD_NONE → id2 ≠ Constants.GVTHREAD_NONE →
  let w1 := WorkerState.start_running w id1 now1 in
  let w2 := WorkerState.start_running (WorkerState.stop_running w1) id2 now2 in
  let seen := TimerThread.Watch 0 (Some t1) in
  TimerThread.check_worker slice t1 w1 TimerThread.watch0 = (seen, None) ∧
  TimerThread.check_worker slice t2 w1 seen = (TimerThread.watch0, Some id1) ∧
  TimerThread.check_worker slice t2 (WorkerState.record_activity w1 t2) seen = (TimerThread.Watch 1 None, None) ∧
  TimerThread.check_worker slice t2 w2 seen = (TimerThread.watch0, Some id2).
Proof.
  intros H1 H2 H3 H4 Hid1 Hid2 w1 w2 seen. subst w1 w2 seen.
  assert (Hstall : (slice <? wrap 64 (saturating_sub t2 t1)) = true).
  { apply Z.ltb_lt. unfold saturating_sub. rewrite wrap_small by (unfold in_u; lia). lia. }
  unfold TimerThread.check_worker, WorkerState.start_running, WorkerState.record_activity, GVThreadId.as_u32.
  cbn [WorkerState.current_gthread WorkerState.activity_counter TimerThread.last_counter
       TimerThread.first_stall_time TimerThread.watch0].
  apply Z.eqb_neq in Hid1, Hid2. rewrite Hstall, Hid1, Hid2. split_and!; reflexivity.
Qed.

Lemma preempt_watch_spec_witness :
  TimerThread.check_worker 10 20
    (WorkerState.start_running (WorkerState.stop_running (WorkerState.start_running WorkerState.new 3 0)) 4 19)
    (TimerThread.Watch 0 (Some 5)) = (TimerThread.watch0, Some 4).
Proof. apply (preempt_watch_spec 10 5 20 WorkerState.new 3 4 0 19); (lia || discriminate). Defined.

(** ** Witnesses, on the concrete address space *)
Definition demo_config (workers : Z) : SchedulerConfig.t :=
  SchedulerConfig.with_max_gvthreads
    (SchedulerConfig.with_num_workers (SchedulerConfig.new SchedulerConfig.library_defaults) workers) 2.
Definition demo_sched : Scheduler.t :=
  Scheduler.mk (demo_config 2) (SlotAllocator.new 2) (SimpleQueue.init SimpleQueue.new 2) None None false.
Definition demo_sys : @Scheduler.sys FlatVM.space :=
  Scheduler.Sys (Some demo_sched) true true flat_region flat_mapped
    {[ 1 := GVThreadMetadata.set_state GVThreadMetadata.zeroed GVThreadState.Blocked ]}
    Workers.new_boxed (Some [SleepEntry.mk 40 1 0]).

Lemma demo_queue_wf : simple_wf (Scheduler.ready_queue demo_sched).
Proof. apply simple_init_wf. lia. Qed.


Lemma process_sleep_queue_spec_witness :
  ∃ g' s' q' ws, Scheduler.process_sleep_queue demo_sys Tls.initial 50 = Ret g' ∧ Scheduler.SCHEDULER g' = Some s' ∧
    Scheduler.SLEEP_QUEUE g' = Some q' ∧ simple_contents (Scheduler.ready_queue s') ≡ₚ ws ++ [] ∧ 1 ∈ ws.
Proof.
  destruct (process_sleep_queue_spec demo_sys Tls.initial 50 demo_sched [SleepEntry.mk 40 1 0] eq_refl demo_queue_wf)
    as (g' & s' & q' & ws & H1 & H2 & H3 & _ & H4 & _ & H5 & _); [vm_compute; discriminate|reflexivity|].
  exists g', s', q', ws. split_and!; [exact H1|exact H2|exact H3|exact H4|].
  apply H5. split; [vm_compute; reflexivity|]. exists (SleepEntry.mk 40 1 0).
  split_and!; [apply list_elem_of_singleton; reflexivity|unfold late; simpl; lia|reflexivity|vm_compute; reflexivity].
Defined.

Lemma scheduler_start_spec_witness :
  ∃ s, Scheduler.new (demo_config 65) = Ret s ∧ Scheduler.start (Scheduler.boot FlatVM.empty) s = Panic.
Proof.
  destruct (Scheduler.new (demo_config 65)) as [s|] eqn:Hs; [|vm_compute in Hs; discriminate].
  exists s. split; [reflexivity|].
  refine (proj2 (scheduler_start_spec (Scheduler.boot FlatVM.empty) (demo_config 65) s
    flat_region flat_mapped Hs eq_refl _ _ _) _); [simpl; lia|simpl; lia|reflexivity|simpl; lia].
Defined.
