(* ===== verification/SchedPool.v ===== *)
(** * Interleavings of the scheduler

    The operations of [Sched] as atomic steps of OS threads: workers in
    [worker_main_loop] and [run_gvthread], the GVThreads they run ([yield_now],
    [block_current], [sleep], the end of the entry function, [spawn],
    [wake_gvthread]), the timer thread and other threads of the process.  A
    step is one access to the state that another thread can observe: a load or
    store of a state byte, or an operation under the lock of the ready queue,
    of the sleep queue or of the allocator.  The ready queue is any
    implementation of the trait, the sleep queue any binary heap. *)

From S2P Require Import Prelude CoreTypes Slots Metadata Memory ReadyQueue TimerHeap Sched.

Section SchedPool.
Context {Q H : Type} `{!ReadyQueue Q} `{!BinaryHeap SleepEntry.t H SleepEntry.le}.

Record shared : Type := Shared {
  queue : Q;
  metas : gmap Z GVThreadMetadata.t;
  slots : SlotAllocator.t;
  sleepers : H;
  clock : Z
}.

Definition meta_at (sh : shared) (id : Z) : GVThreadMetadata.t := default GVThreadMetadata.zeroed (metas sh !! id).
Definition state_at (sh : shared) (id : Z) : GVThreadState.t := GVThreadMetadata.get_state (meta_at sh id).
Definition put_meta (sh : shared) (id : Z) (m : GVThreadMetadata.t) : shared :=
  Shared (queue sh) (<[id := m]> (metas sh)) (slots sh) (sleepers sh) (clock sh).
Definition put_state (sh : shared) (id : Z) (st : GVThreadState.t) : shared :=
  put_meta sh id (GVThreadMetadata.set_state (meta_at sh id) st).
Definition put_queue (sh : shared) (q : Q) : shared := Shared q (metas sh) (slots sh) (sleepers sh) (clock sh).
Definition put_slots (sh : shared) (a : SlotAllocator.t) : shared := Shared (queue sh) (metas sh) a (sleepers sh) (clock sh).
Definition put_sleepers (sh : shared) (h : H) : shared := Shared (queue sh) (metas sh) (slots sh) h (clock sh).
Definition put_clock (sh : shared) (c : Z) : shared := Shared (queue sh) (metas sh) (slots sh) (sleepers sh) c.

(** Where an OS thread is.  [w] is the index of a worker, [id] and [p] the
    GVThread in its hands. *)
Inductive pc : Type :=
| Loop (w : Z)                                  (* top of the main loop *)
| Popped (w id : Z) (p : Priority.t)            (* in [run_gvthread] before the switch *)
| In (w id : Z) (p : Priority.t)                (* the code of the GVThread runs *)
| Yielding (w id : Z) (p : Priority.t)          (* [yield_now] has stored [Ready] *)
| Blocking (w id : Z) (p : Priority.t)          (* [block_current] has stored [Blocked] *)
| Sleeping (w id : Z) (p : Priority.t)          (* [sleep] has queued the entry *)
| Finishing (w id : Z) (p : Priority.t)         (* [gvthread_finished] has stored [Finished] *)
| Back (w id : Z) (p : Priority.t)              (* the context is saved, the worker is back *)
| Requeue (w id : Z) (p : Priority.t) (hint : option Z)
| Remark (w id : Z) (p : Priority.t)            (* in [mark_ready] *)
| Reap (w id : Z)                               (* in [mark_finished] *)
| Release (w id : Z)                            (* before [slot_allocator.release] *)
| Wake1 (tgt : Z) (p : Priority.t) (k : pc)     (* in [wake_gvthread] before the load *)
| Wake2 (tgt : Z) (p : Priority.t) (k : pc)     (* has seen [Blocked] *)
| Wake3 (tgt : Z) (p : Priority.t) (k : pc)     (* has stored [Ready] *)
| Spawn1 (id : Z) (p : Priority.t) (k : pc)     (* in [spawn], with the slot *)
| Spawn2 (id : Z) (p : Priority.t) (k : pc)     (* before the push *)
| Timer                                         (* the timer thread *)
| TimerGot (e : SleepEntry.t)                   (* has popped an expired entry *)
| Other.                                        (* any other thread of the process *)

(** The threads that run code of the application. *)
Definition runs_code (k : pc) : bool := match k with In _ _ _ | Other => true | _ => false end.

Inductive tstep : shared → pc → shared → pc → Prop :=
(* worker_main_loop and run_gvthread *)
| pop_work sh w id p q :
    pop (queue sh) w = Ret (Some (id, p), q) → tstep sh (Loop w) (put_queue sh q) (Popped w id p)
| pop_nothing sh w q :
    pop (queue sh) w = Ret (None, q) → tstep sh (Loop w) (put_queue sh q) (Loop w)
| switch_in sh w id p :
    tstep sh (Popped w id p)
      (put_meta sh id (GVThreadMetadata.clear_preempt (GVThreadMetadata.with_worker_id
         (GVThreadMetadata.set_state (meta_at sh id) GVThreadState.Running) (wrap 32 w))))
      (In w id p)
| back_ready sh w id p :
    state_at sh id = GVThreadState.Ready → tstep sh (Back w id p) sh (Requeue w id p (Some w))
| back_finished sh w id p :
    state_at sh id = GVThreadState.Finished → tstep sh (Back w id p) sh (Reap w id)
| back_blocked sh w id p :
    state_at sh id = GVThreadState.Blocked → tstep sh (Back w id p) sh (Loop w)
| back_preempted sh w id p :
    state_at sh id = GVThreadState.Preempted → tstep sh (Back w id p) sh (Remark w id p)
| back_other sh w id p :
    state_at sh id ∈ [GVThreadState.Created; GVThreadState.Running; GVThreadState.Cancelled] →
    tstep sh (Back w id p) sh (Loop w)
| remark sh w id p :
    tstep sh (Remark w id p) (put_state sh id GVThreadState.Ready) (Requeue w id p None)
| requeue sh w id p hint q :
    push (queue sh) id p hint = Ret q → tstep sh (Requeue w id p hint) (put_queue sh q) (Loop w)
| reap_given_back sh w id :
    tstep sh (Reap w id) (put_meta sh id GVThreadMetadata.zeroed) (Release w id)
| reap_kept sh w id :
    tstep sh (Reap w id) (put_state sh id GVThreadState.Finished) (Release w id)
| release_slot sh w id :
    tstep sh (Release w id) (put_slots sh (SlotAllocator.release (slots sh) id)) (Loop w)
(* the GVThread *)
| yield_store sh w id p :
    tstep sh (In w id p) (put_state sh id GVThreadState.Ready) (Yielding w id p)
| yield_switch sh w id p : tstep sh (Yielding w id p) sh (Back w id p)
| block_store sh w id p :
    tstep sh (In w id p) (put_state sh id GVThreadState.Blocked) (Blocking w id p)
| block_switch sh w id p : tstep sh (Blocking w id p) sh (Back w id p)
| sleep_queue sh w id p d :
    0 ≤ d →
    tstep sh (In w id p)
      (let m := meta_at sh id in let t := clock sh +[64] wrap 64 d in
       put_sleepers (put_meta sh id (GVThreadMetadata.with_sleep m (GVThreadMetadata.sleep_flag m) t))
         (heap_push (sleepers sh) (SleepEntry.mk t id (GVThreadMetadata.get_generation m))))
      (Sleeping w id p)
| sleep_store sh w id p :
    tstep sh (Sleeping w id p) (put_state sh id GVThreadState.Blocked) (Blocking w id p)
| finish_store sh w id p :
    tstep sh (In w id p) (put_state sh id GVThreadState.Finished) (Finishing w id p)
| finish_switch sh w id p : tstep sh (Finishing w id p) sh (Back w id p)
(* wake_gvthread by application code, also when wake_gvthread_checked has compared the generation *)
| wake_call sh k tgt p : runs_code k = true → tstep sh k sh (Wake1 tgt p k)
| wake_load_blocked sh k tgt p :
    state_at sh tgt = GVThreadState.Blocked → tstep sh (Wake1 tgt p k) sh (Wake2 tgt p k)
| wake_load_other sh k tgt p :
    state_at sh tgt ≠ GVThreadState.Blocked → tstep sh (Wake1 tgt p k) sh k
| wake_store sh k tgt p :
    tstep sh (Wake2 tgt p k) (put_state sh tgt GVThreadState.Ready) (Wake3 tgt p k)
| wake_push sh k tgt p q :
    push (queue sh) tgt p None = Ret q → tstep sh (Wake3 tgt p k) (put_queue sh q) k
(* spawn, by application code *)
| spawn_slot sh k id p a :
    runs_code k = true → SlotAllocator.allocate (slots sh) = (Ok id, a) →
    tstep sh k (put_slots sh a) (Spawn1 id p k)
| spawn_init sh k id p parent top entry tramp closure :
    tstep sh (Spawn1 id p k)
      (put_meta sh id (Scheduler.spawn_meta (meta_at sh id) id parent p top entry tramp closure)) (Spawn2 id p k)
| spawn_push sh k id p q :
    push (queue sh) id p None = Ret q → tstep sh (Spawn2 id p k) (put_queue sh q) k
(* the timer thread *)
| tick sh c : clock sh ≤ c → tstep sh Timer (put_clock sh c) Timer
| timer_pop sh e h :
    heap_pop (sleepers sh) = Some (e, h) → SleepEntry.wake_time_ns e ≤ clock sh →
    tstep sh Timer (put_sleepers sh h) (TimerGot e)
| timer_match sh e :
    GVThreadMetadata.get_generation (meta_at sh (SleepEntry.gvthread_id e)) = SleepEntry.generation e →
    tstep sh (TimerGot e) sh
      (Wake1 (SleepEntry.gvthread_id e) (GVThreadMetadata.get_priority (meta_at sh (SleepEntry.gvthread_id e))) Timer)
| timer_stale sh e :
    GVThreadMetadata.get_generation (meta_at sh (SleepEntry.gvthread_id e)) ≠ SleepEntry.generation e →
    tstep sh (TimerGot e) sh Timer.

(** The GVThread on whose behalf an OS thread runs or that it carries to the
    queue; while it is here no other thread may take it. *)
Fixpoint holds (l : pc) : list Z :=
  match l with
  | Popped _ id _ | In _ id _ | Yielding _ id _ | Blocking _ id _ | Sleeping _ id _
  | Finishing _ id _ | Back _ id _ | Requeue _ id _ _ | Remark _ id _ | Reap _ id | Release _ id => [id]
  | Wake1 _ _ k => holds k
  | Wake2 tgt _ k | Wake3 tgt _ k => tgt :: holds k
  | Spawn1 id _ k | Spawn2 id _ k => id :: holds k
  | Loop _ | Timer | TimerGot _ | Other => []
  end.

(** The GVThread whose code (or whose stack) an OS thread is on. *)
Fixpoint on_stack (l : pc) : option Z :=
  match l with
  | In _ id _ | Yielding _ id _ | Blocking _ id _ | Sleeping _ id _ | Finishing _ id _ => Some id
  | Wake1 _ _ k | Wake2 _ _ k | Wake3 _ _ k | Spawn1 _ _ k | Spawn2 _ _ k => on_stack k
  | _ => None
  end.

(** The start: an empty queue and allocator, idle threads. *)
Definition idle_pc (l : pc) : Prop := match l with Loop w => 0 ≤ w | Timer | Other => True | _ => False end.
Definition initial (max_slots : Z) (s : shared * list pc) : Prop :=
  wf (queue s.1) ∧ contents (queue s.1) = [] ∧ metas s.1 = ∅ ∧ slots s.1 = SlotAllocator.new max_slots ∧
  Forall idle_pc s.2.

(** A step that begins to wake a GVThread. *)
Definition takes (l l' : pc) : option Z :=
  match l, l' with Wake1 tgt _ _, Wake2 _ _ _ => Some tgt | _, _ => None end.

(** The interleavings in which a GVThread is found [Blocked] by a waker only
    when its worker is done with it and no other waker carries it. *)
Inductive orderly_step : shared * list pc → shared * list pc → Prop :=
| orderly_intro sh l sh' l' l1 l2 :
    tstep sh l sh' l' →
    (∀ tgt, takes l l' = Some tgt → tgt ∉ collect holds (l1 ++ l :: l2)) →
    orderly_step (sh, l1 ++ l :: l2) (sh', l1 ++ l' :: l2).
End SchedPool.

(** ** The invariant of orderly interleavings *)
Section Orderly.
Context {Q H : Type} `{!ReadyQueue Q} `{!BinaryHeap SleepEntry.t H SleepEntry.le}.
Implicit Types (sh : @shared Q H) (l k : pc) (ls : list pc) (st : Z → GVThreadState.t).

(** The state byte of the GVThread in the hands of a thread. *)
Fixpoint pc_ok st l : Prop :=
  match l with
  | Loop w => 0 ≤ w
  | Popped w id _ | Yielding w id _ => 0 ≤ w ∧ st id = GVThreadState.Ready
  | In w id _ | Sleeping w id _ => 0 ≤ w ∧ st id = GVThreadState.Running
  | Blocking w id _ => 0 ≤ w ∧ st id = GVThreadState.Blocked
  | Finishing w id _ | Reap w id => 0 ≤ w ∧ st id = GVThreadState.Finished
  | Back w id _ => 0 ≤ w ∧ st id ∈ [GVThreadState.Ready; GVThreadState.Blocked; GVThreadState.Finished]
  | Requeue w id _ hint => 0 ≤ w ∧ st id = GVThreadState.Ready ∧ match hint with Some v => 0 ≤ v | None => True end
  | Remark _ _ _ => False
  | Release w id => 0 ≤ w ∧ st id ≠ GVThreadState.Blocked
  | Wake1 _ _ k => pc_ok st k
  | Wake2 tgt _ k => st tgt = GVThreadState.Blocked ∧ pc_ok st k
  | Wake3 tgt _ k => st tgt = GVThreadState.Ready ∧ pc_ok st k
  | Spawn1 id _ k => st id ≠ GVThreadState.Blocked ∧ pc_ok st k
  | Spawn2 id _ k => st id = GVThreadState.Ready ∧ pc_ok st k
  | Timer | TimerGot _ | Other => True
  end.

Lemma pc_ok_ext st st' l : (∀ id, id ∈ holds l → st' id = st id) → pc_ok st l → pc_ok st' l.
Proof.
  induction l; simpl; intros Hst Hok; try done;
    try (rewrite (Hst id) by set_solver; done);
    try (rewrite (Hst tgt) by set_solver; split; [tauto|apply IHl; set_solver]);
    try (rewrite (Hst id) by set_solver; split; [tauto|apply IHl; set_solver]).
  by apply IHl.
Qed.

(** Everything that is not parked: queued, in the hands of a thread, or free. *)
Definition places sh ls : list Z :=
  contents (queue sh) ++ collect holds ls ++ SlotAllocator.free_stack (slots sh).

Record orderly sh ls : Prop := {
  inv_wf : wf (queue sh);
  inv_nodup : NoDup (places sh ls);
  inv_range : ∀ id, id ∈ places sh ls → 0 ≤ id < SlotAllocator.next_fresh (slots sh);
  inv_fresh : 0 ≤ SlotAllocator.next_fresh (slots sh) ≤ SlotAllocator.max_slots (slots sh);
  inv_max : SlotAllocator.max_slots (slots sh) < 2 ^ 32;
  inv_queue : ∀ id, id ∈ contents (queue sh) → state_at sh id = GVThreadState.Ready;
  inv_pcs : Forall (pc_ok (state_at sh)) ls;
  inv_parked : ∀ id, 0 ≤ id < SlotAllocator.next_fresh (slots sh) → id ∉ places sh ls →
    state_at sh id = GVThreadState.Blocked;
  inv_blocked : ∀ id, state_at sh id = GVThreadState.Blocked →
    0 ≤ id < SlotAllocator.next_fresh (slots sh) ∧ id ∉ SlotAllocator.free_stack (slots sh)
}.

(** What one thread sees of the places. *)
Definition view sh l : list Z := contents (queue sh) ++ holds l ++ SlotAllocator.free_stack (slots sh).

Lemma places_view sh (l1 l2 : list pc) l : places sh (l1 ++ l :: l2) ≡ₚ view sh l ++ collect holds (l1 ++ l2).
Proof.
  unfold places, view. rewrite collect_middle. rewrite <- !(assoc_L (++)). f_equiv. f_equiv.
  apply Permutation_app_comm.
Qed.

(** A step of the thread at [l] that puts the ids [added] in and takes
    [dropped] out keeps the invariant, if it changes only states of ids it holds. *)
Lemma orderly_frame added dropped sh sh' l l' (l1 l2 : list pc) :
  orderly sh (l1 ++ l :: l2) → wf (queue sh') →
  SlotAllocator.max_slots (slots sh') = SlotAllocator.max_slots (slots sh) →
  SlotAllocator.next_fresh (slots sh) ≤ SlotAllocator.next_fresh (slots sh') ≤ SlotAllocator.max_slots (slots sh) →
  dropped ++ view sh' l' ≡ₚ added ++ view sh l →
  NoDup (added ++ places sh (l1 ++ l :: l2)) →
  (∀ id, id ∈ added → 0 ≤ id < SlotAllocator.next_fresh (slots sh')) →
  (∀ id, SlotAllocator.next_fresh (slots sh) ≤ id < SlotAllocator.next_fresh (slots sh') → id ∈ added) →
  (∀ id, id ∈ dropped → state_at sh' id = GVThreadState.Blocked) →
  (∀ id, id ∉ added → id ∉ holds l → state_at sh' id = state_at sh id) →
  (∀ id, id ∈ contents (queue sh') → state_at sh' id = GVThreadState.Ready) →
  pc_ok (state_at sh') l' →
  (∀ id, id ∈ added ++ holds l → id ∈ SlotAllocator.free_stack (slots sh') → state_at sh' id ≠ GVThreadState.Blocked) →
  orderly sh' (l1 ++ l' :: l2).
Proof.
  intros Hinv Hwf Hmax Hnext Hperm Hnd Hadd Hnew Hdrop Hst Hq Hpc Hfree.
  set (rest := collect holds (l1 ++ l2)).
  assert (Hall : dropped ++ places sh' (l1 ++ l' :: l2) ≡ₚ added ++ places sh (l1 ++ l :: l2)).
  { rewrite !places_view, !(assoc_L (++)). by rewrite Hperm. }
  assert (Hnd' : NoDup (dropped ++ places sh' (l1 ++ l' :: l2))) by (by rewrite Hall).
  assert (Hsep : ∀ id, id ∈ rest → (id ∉ added) ∧ (id ∉ holds l)).
  { rewrite places_view, (assoc_L (++)) in Hnd. fold rest in Hnd. apply NoDup_app in Hnd as (_ & Hsep & _).
    intros id Hid. split; intros Hin; apply (Hsep id); unfold view; set_solver. }
  assert (Hin : ∀ id, id ∈ places sh' (l1 ++ l' :: l2) → id ∈ added ∨ id ∈ places sh (l1 ++ l :: l2)).
  { intros id Hid. apply elem_of_app. rewrite <- Hall. set_solver. }
  destruct Hinv as [Hi1 Hi2 Hi3 Hi4 Hi5 Hi6 Hi7 Hi8 Hi9]. split.
  - done.
  - by apply NoDup_app in Hnd' as (_ & _ & ?).
  - intros id [Hid|Hid]%Hin; [by apply Hadd|]. specialize (Hi3 id Hid). lia.
  - lia.
  - lia.
  - done.
  - apply Forall_forall. intros x [Hx|[->|Hx]%elem_of_cons]%elem_of_app; [|done|];
      (eapply pc_ok_ext; [|rewrite Forall_forall in Hi7; apply Hi7; set_solver]);
      intros id Hid; apply Hst; apply Hsep; apply elem_of_collect; exists x; set_solver.
  - intros id Hid Hnot. destruct (decide (id ∈ dropped)) as [Hd|Hd]; [by apply Hdrop|].
    assert (Hno : id ∉ added ++ places sh (l1 ++ l :: l2)) by (rewrite <- Hall; set_solver).
    assert (Hh : id ∉ holds l).
    { intros Hh. apply Hno. rewrite places_view. unfold view. set_solver. }
    rewrite Hst by set_solver. apply Hi8; [|set_solver].
    destruct (decide (id < SlotAllocator.next_fresh (slots sh))); [lia|]. exfalso. apply Hno.
    apply elem_of_app. left. apply Hnew. lia.
  - intros id Hb. destruct (decide (id ∈ added ++ holds l)) as [Hh|Hh].
    + split; [|by intros ?; eapply Hfree].
      apply elem_of_app in Hh as [Hh|Hh]; [by apply Hadd|].
      enough (0 ≤ id < SlotAllocator.next_fresh (slots sh)) by lia. apply Hi3. rewrite places_view. unfold view. set_solver.
    + rewrite not_elem_of_app in Hh. rewrite Hst in Hb by tauto. destruct (Hi9 id Hb) as [Hr Hf]. split; [lia|].
      intros Hf'. assert (Hv : id ∈ added ++ view sh l) by (rewrite <- Hperm; unfold view; set_solver).
      unfold view in Hv. rewrite !elem_of_app in Hv. destruct Hv as [?|[Hc|[?|?]]]; try tauto.
      by rewrite Hi6 in Hb.
Qed.

(** *** Kinds of steps *)
Lemma state_at_put_meta sh id m id' :
  state_at (put_meta sh id m) id' = if decide (id' = id) then GVThreadMetadata.get_state m else state_at sh id'.
Proof.
  unfold state_at, meta_at, put_meta. simpl. destruct (decide (id' = id)) as [->|Hne].
  - by rewrite lookup_insert_eq.
  - by rewrite lookup_insert_ne.
Qed.

Section Kinds.
Context (sh : @shared Q H) (l1 l2 : list pc) (l : pc).
Hypothesis Hinv : orderly sh (l1 ++ l :: l2).

Lemma view_nodup : NoDup (view sh l).
Proof. pose proof (inv_nodup _ _ Hinv) as Hn. rewrite places_view in Hn. by apply NoDup_app in Hn as (? & _ & _). Qed.

Lemma view_sep id : id ∈ holds l → (id ∉ contents (queue sh)) ∧ (id ∉ SlotAllocator.free_stack (slots sh)).
Proof.
  intros Hid. pose proof view_nodup as Hn. unfold view in Hn. apply NoDup_app in Hn as (_ & Hc & Hn).
  apply NoDup_app in Hn as (_ & Hf & _). split; [|by apply Hf]. intros Hq. apply (Hc id Hq). set_solver.
Qed.

Lemma holds_nodup : NoDup (holds l).
Proof. pose proof view_nodup as Hn. unfold view in Hn. apply NoDup_app in Hn as (_ & _ & Hn). by apply NoDup_app in Hn as (? & _ & _). Qed.

Lemma own_ok : pc_ok (state_at sh) l.
Proof. pose proof (inv_pcs _ _ Hinv) as Hp. rewrite Forall_forall in Hp. apply Hp. set_solver. Qed.

(** Only the program counter changes. *)
Lemma orderly_pc l' :
  holds l' = holds l → pc_ok (state_at sh) l' → orderly sh (l1 ++ l' :: l2).
Proof.
  intros Hh Hpc. apply (orderly_frame [] [] sh sh l l'); try done.
  - apply Hinv.
  - pose proof (inv_fresh _ _ Hinv). lia.
  - unfold view. by rewrite Hh.
  - apply Hinv.
  - intros id. set_solver.
  - intros id. lia.
  - intros id. set_solver.
  - apply Hinv.
  - intros id Hid Hf. by destruct (view_sep id Hid).
Qed.

(** The thread writes the metadata of a GVThread in its hands. *)
Lemma orderly_meta l' id m :
  id ∈ holds l → holds l' = holds l → pc_ok (state_at (put_meta sh id m)) l' →
  orderly (put_meta sh id m) (l1 ++ l' :: l2).
Proof.
  intros Hid Hh Hpc. apply (orderly_frame [] [] sh (put_meta sh id m) l l'); try done.
  - apply Hinv.
  - pose proof (inv_fresh _ _ Hinv). simpl. lia.
  - unfold view. by rewrite Hh.
  - apply Hinv.
  - intros ?. set_solver.
  - intros ?. simpl. lia.
  - intros ?. set_solver.
  - intros id' _ Hn. rewrite state_at_put_meta, decide_False; set_solver.
  - intros id' Hc. simpl in Hc. rewrite state_at_put_meta, decide_False; [by apply Hinv|].
    intros ->. by destruct (view_sep id Hid).
  - intros id' Hid' Hf. by destruct (view_sep id' Hid').
Qed.

(** The thread pushes a ready GVThread from its hands. *)
Lemma orderly_push l' id p hint q :
  holds l = id :: holds l' → state_at sh id = GVThreadState.Ready →
  match hint with Some w => 0 ≤ w | None => True end →
  push (queue sh) id p hint = Ret q → pc_ok (state_at sh) l' →
  orderly (put_queue sh q) (l1 ++ l' :: l2).
Proof.
  intros Hh Hr Hhint Hpush Hpc.
  destruct (push_spec (queue sh) id p hint (inv_wf _ _ Hinv) Hhint) as (q2 & Hq2 & Hwf & _ & Hc).
  rewrite Hpush in Hq2. injection Hq2 as <-.
  apply (orderly_frame [] [] sh (put_queue sh q) l l'); try done.
  - pose proof (inv_fresh _ _ Hinv). simpl. lia.
  - unfold view. simpl. rewrite Hc, Hh. simpl. apply Permutation_middle.
  - apply Hinv.
  - intros ?. set_solver.
  - intros ?. simpl. lia.
  - intros ?. set_solver.
  - simpl. intros id'. rewrite Hc. intros [->|Hin]%elem_of_cons; [done|by apply Hinv].
  - intros id' Hid' Hf. by destruct (view_sep id' Hid').
Qed.

(** A waker takes a parked GVThread. *)
Lemma orderly_take l' tgt :
  holds l' = tgt :: holds l → state_at sh tgt = GVThreadState.Blocked →
  tgt ∉ collect holds (l1 ++ l :: l2) → pc_ok (state_at sh) l' → orderly sh (l1 ++ l' :: l2).
Proof.
  intros Hh Hb Hnot Hpc. destruct (inv_blocked _ _ Hinv tgt Hb) as [Hr Hf].
  apply (orderly_frame [tgt] [] sh sh l l'); try done.
  - apply Hinv.
  - pose proof (inv_fresh _ _ Hinv). lia.
  - unfold view. rewrite Hh. simpl. symmetry. apply Permutation_middle.
  - apply NoDup_cons. split; [|apply Hinv]. unfold places. rewrite !elem_of_app. intros [Hc|[?|?]]; try done.
    by rewrite (inv_queue _ _ Hinv tgt Hc) in Hb.
  - intros id ->%list_elem_of_singleton. done.
  - intros id. lia.
  - intros id. set_solver.
  - apply Hinv.
  - intros id [->%list_elem_of_singleton|Hid]%elem_of_app Hfr; [done|]. by destruct (view_sep id Hid).
Qed.

(** A worker leaves a blocked GVThread parked. *)
Lemma orderly_park l' id :
  holds l = id :: holds l' → state_at sh id = GVThreadState.Blocked →
  pc_ok (state_at sh) l' → orderly sh (l1 ++ l' :: l2).
Proof.
  intros Hh Hb Hpc. apply (orderly_frame [] [id] sh sh l l'); try done.
  - apply Hinv.
  - pose proof (inv_fresh _ _ Hinv). lia.
  - unfold view. rewrite Hh. simpl. apply Permutation_middle.
  - apply Hinv.
  - intros ?. set_solver.
  - intros ?. lia.
  - intros id' ->%list_elem_of_singleton. done.
  - apply Hinv.
  - intros id' Hid Hf. by destruct (view_sep id' Hid).
Qed.

(** A worker pops a GVThread, or finds none. *)
Lemma orderly_pop w r q :
  l = Loop w → pop (queue sh) w = Ret (r, q) →
  orderly (put_queue sh q) (l1 ++ match r with Some (id, p) => Popped w id p | None => Loop w end :: l2).
Proof.
  intros Hl Hpop. assert (Hw : 0 ≤ w) by (pose proof own_ok as Ho; by rewrite Hl in Ho).
  destruct (pop_spec (queue sh) w (inv_wf _ _ Hinv) Hw) as (r2 & q2 & Hp2 & Hwf & _ & Hc).
  rewrite Hpop in Hp2. injection Hp2 as <- <-.
  assert (Hsub : ∀ id, id ∈ contents q → id ∈ contents (queue sh)).
  { intros id. destruct r as [[id' p]|]; rewrite Hc; set_solver. }
  apply (orderly_frame [] [] sh (put_queue sh q) l); try done.
  - pose proof (inv_fresh _ _ Hinv). simpl. lia.
  - unfold view. rewrite Hl. simpl. destruct r as [[id p]|]; simpl; [|by rewrite Hc].
    rewrite Hc. simpl. symmetry. apply Permutation_middle.
  - apply Hinv.
  - intros ?. set_solver.
  - intros ?. simpl. lia.
  - intros ?. set_solver.
  - intros id Hid. apply Hinv. by apply Hsub.
  - destruct r as [[id p]|]; simpl; [|done]. split; [done|]. apply Hinv. rewrite Hc. set_solver.
  - intros id Hid. rewrite Hl in Hid. set_solver.
Qed.

(** [spawn] takes a slot from the free stack or a fresh one. *)
Lemma orderly_alloc id p a :
  SlotAllocator.allocate (slots sh) = (Ok id, a) →
  orderly (put_slots sh a) (l1 ++ Spawn1 id p l :: l2).
Proof.
  intros Ha. unfold SlotAllocator.allocate, GVThreadId.new in Ha.
  pose proof (inv_fresh _ _ Hinv) as Hfr. pose proof (inv_max _ _ Hinv) as Hmx.
  destruct (vec_pop (SlotAllocator.free_stack (slots sh))) as [[id' f]|] eqn:Hvp.
  - apply vec_pop_Some in Hvp. injection Ha as -> <-.
    apply (orderly_frame [] [] sh _ l); try done.
    + apply Hinv.
    + simpl. lia.
    + unfold view. simpl. rewrite Hvp. rewrite (Permutation_app_comm f [id]). simpl.
      apply Permutation_app_head. apply (Permutation_middle (holds l)).
    + apply Hinv.
    + intros ?. set_solver.
    + intros ?. simpl. lia.
    + intros ?. set_solver.
    + apply Hinv.
    + split; [|apply own_ok]. intros Hb. apply (inv_blocked _ _ Hinv) in Hb as [_ Hb]. apply Hb. rewrite Hvp. set_solver.
    + intros id' Hid' Hf. destruct (view_sep id' Hid') as [_ Hn]. simpl in Hf. rewrite Hvp in Hn. set_solver.
  - destruct (Z.leb_spec (SlotAllocator.max_slots (slots sh)) (SlotAllocator.next_fresh (slots sh))); [done|].
    injection Ha as <- <-. rewrite wrap_small by (unfold in_u; lia).
    apply (orderly_frame [SlotAllocator.next_fresh (slots sh)] [] sh _ l); try done.
    + apply Hinv.
    + simpl. lia.
    + unfold view. simpl. symmetry. apply Permutation_middle.
    + apply NoDup_cons. split; [|apply Hinv]. intros Hp%(inv_range _ _ Hinv). lia.
    + intros id ->%list_elem_of_singleton. simpl. lia.
    + intros id. simpl. intros. apply list_elem_of_singleton. lia.
    + intros ?. set_solver.
    + apply Hinv.
    + split; [|apply own_ok]. intros Hb. apply (inv_blocked _ _ Hinv) in Hb as [Hb _]. lia.
    + simpl. intros id [->|Hid]%elem_of_cons Hf.
      * assert (Hp : SlotAllocator.next_fresh (slots sh) ∈ places sh (l1 ++ l :: l2)) by (unfold places; set_solver).
        apply (inv_range _ _ Hinv) in Hp. lia.
      * by destruct (view_sep id Hid).
Qed.

(** A finished GVThread's slot goes to the free stack. *)
Lemma orderly_release w id :
  l = Release w id → orderly (put_slots sh (SlotAllocator.release (slots sh) id)) (l1 ++ Loop w :: l2).
Proof.
  intros Hl. pose proof own_ok as Ho. rewrite Hl in Ho. destruct Ho as [Hw Hnb].
  assert (Hr : 0 ≤ id < SlotAllocator.next_fresh (slots sh)).
  { apply (inv_range _ _ Hinv). rewrite places_view. unfold view. rewrite Hl. set_solver. }
  pose proof (inv_fresh _ _ Hinv) as Hfr. pose proof (inv_max _ _ Hinv) as Hmx.
  assert (Hnn : GVThreadId.is_none id = false).
  { unfold GVThreadId.is_none, U32_MAX. apply Z.eqb_neq. lia. }
  unfold SlotAllocator.release. rewrite Hnn. unfold GVThreadId.as_u32.
  apply (orderly_frame [] [] sh _ l); try done.
  - apply Hinv.
  - simpl. lia.
  - unfold view, push_back. rewrite Hl. simpl. apply Permutation_app_head. symmetry. apply Permutation_cons_append.
  - apply Hinv.
  - intros ?. set_solver.
  - intros ?. simpl. lia.
  - intros ?. set_solver.
  - apply Hinv.
  - intros id' Hid _. rewrite Hl in Hid. apply list_elem_of_singleton in Hid as ->. done.
Qed.
End Kinds.

(** The sleep queue and the clock are not part of the invariant. *)
Lemma orderly_ext sh' sh ls :
  queue sh' = queue sh → metas sh' = metas sh → slots sh' = slots sh → orderly sh ls → orderly sh' ls.
Proof. destruct sh, sh'. simpl. intros -> -> -> []. by split. Qed.

(** The two frequent kinds of steps; what is left is the new [pc_ok]. *)
Ltac pc_step Hinv := eapply orderly_pc; [exact Hinv|reflexivity|]; simpl.
Ltac meta_step Hinv :=
  eapply orderly_meta; [exact Hinv|simpl; set_solver|reflexivity|]; simpl;
  rewrite state_at_put_meta, decide_True by done; rewrite ?get_set_state.
(** The threads below in the call stack keep their states. *)
Lemma pc_ok_below sh id m k : NoDup (id :: holds k) → pc_ok (state_at sh) k → pc_ok (state_at (put_meta sh id m)) k.
Proof.
  intros [Hn _]%NoDup_cons. apply pc_ok_ext. intros id' Hid. rewrite state_at_put_meta, decide_False; [done|].
  by intros ->.
Qed.

(** Every orderly step keeps the invariant. *)
Lemma orderly_preserved s s' : orderly s.1 s.2 → orderly_step s s' → orderly s'.1 s'.2.
Proof.
  intros Hinv Hstep. destruct Hstep as [sh l sh' l' l1 l2 Hstep Htake]. simpl in *.
  pose proof (own_ok sh l1 l2 l Hinv) as Hown. pose proof (holds_nodup sh l1 l2 l Hinv) as Hnd.
  destruct Hstep; simpl in Hown, Hnd.
  - by apply (orderly_pop sh l1 l2 (Loop w) Hinv w (Some (id, p)) q).
  - by apply (orderly_pop sh l1 l2 (Loop w) Hinv w None q).
  - meta_step Hinv. split; [tauto|done].
  - pc_step Hinv. tauto.
  - pc_step Hinv. tauto.
  - eapply orderly_park; [exact Hinv|done|done|]. simpl. tauto.
  - rewrite H0 in Hown. set_solver.
  - destruct Hown as [_ Hown]. set_unfold in Hown. set_unfold in H0. intuition congruence.
  - done.
  - eapply orderly_push; [exact Hinv|done|tauto|..|done|simpl; tauto]. tauto.
  - meta_step Hinv. split; [tauto|done].
  - meta_step Hinv. split; [tauto|done].
  - by eapply orderly_release.
  - meta_step Hinv. tauto.
  - pc_step Hinv. set_solver.
  - meta_step Hinv. tauto.
  - pc_step Hinv. set_solver.
  - eapply (orderly_ext _ (put_meta sh id _)); [done|done|done|]. meta_step Hinv. done.
  - meta_step Hinv. tauto.
  - meta_step Hinv. tauto.
  - pc_step Hinv. set_solver.
  - pc_step Hinv. done.
  - eapply orderly_take; [exact Hinv|done|done|by apply Htake|done].
  - pc_step Hinv. done.
  - meta_step Hinv. split; [done|apply pc_ok_below; [done|tauto]].
  - apply (orderly_push sh l1 l2 _ Hinv k tgt p None q); (done || tauto).
  - by apply orderly_alloc.
  - meta_step Hinv. split; [done|apply pc_ok_below; [done|tauto]].
  - apply (orderly_push sh l1 l2 _ Hinv k id p None q); (done || tauto).
  - apply (orderly_ext _ sh); [done|done|done|]. pc_step Hinv. done.
  - apply (orderly_ext _ sh); [done|done|done|]. pc_step Hinv. done.
  - pc_step Hinv. done.
  - pc_step Hinv. done.
Qed.
End Orderly.

(** Two threads that hold the same thing are one. *)
Lemma collect_nodup_same {L A} (f : L → list A) ls i j l l' x :
  NoDup (collect f ls) → ls !! i = Some l → ls !! j = Some l' → x ∈ f l → x ∈ f l' → i = j.
Proof.
  intros Hnd Hi Hj Hx Hx'. destruct (decide (i = j)) as [|Hne]; [done|]. exfalso.
  rewrite <- (take_drop_middle ls i l Hi), collect_middle in Hnd.
  apply NoDup_app in Hnd as (_ & Hsep & _). apply (Hsep x Hx). apply elem_of_collect. exists l'. split; [|done].
  apply elem_of_app. apply list_elem_of_lookup_2 in Hj as Hj'.
  destruct (decide (j < i)%nat).
  - left. apply (list_elem_of_lookup_2 _ j). by rewrite lookup_take_lt.
  - right. apply (list_elem_of_lookup_2 _ (j - S i)). rewrite lookup_drop. rewrite <- Hj. f_equal. lia.
Qed.

(** ** Properties *)

Section PoolProperties.
Context {Q H : Type} `{!ReadyQueue Q} `{!BinaryHeap SleepEntry.t H SleepEntry.le}.

Lemma orderly_initial max_slots (s : @shared Q H * list pc) :
  0 ≤ max_slots → initial max_slots s → orderly s.1 s.2.
Proof.
  intros Hm (Hwf & Hc & Hme & Hsl & Hpc). destruct s as [sh ls]. simpl in *.
  assert (Hnil : collect holds ls = []).
  { apply collect_nil. rewrite Forall_forall in Hpc. intros l Hl. specialize (Hpc l Hl). by destruct l. }
  assert (Hpl : places sh ls = []) by (unfold places; by rewrite Hc, Hnil, Hsl).
  assert (Hst : ∀ id, state_at sh id = GVThreadState.Created) by (intros; unfold state_at, meta_at; by rewrite Hme).
  pose proof (Z.mod_pos_bound max_slots (2 ^ 32) ltac:(lia)) as Hw.
  split; rewrite ?Hpl, ?Hc, ?Hsl; simpl; try done.
  - constructor.
  - intros id. set_solver.
  - unfold wrap. lia.
  - unfold wrap. lia.
  - intros id. set_solver.
  - eapply Forall_impl; [exact Hpc|]. intros l Hl. by destruct l.
  - intros id ?. lia.
  - intros id. by rewrite Hst.
Qed.

(** C1: The scheduler runs every GVThread on at most one worker and forgets
    none.  In every interleaving in which a waker finds a GVThread [Blocked]
    only after its worker has left it and no other waker carries it: no
    GVThread is in the ready queue twice, or queued while a thread has it in
    hand, and two threads never have the same GVThread in hand, so that no two
    workers execute it; and every GVThread whose slot is allocated is queued
    and [Ready], or in hand of a thread, or parked as [Blocked]. *)
Theorem scheduler_exclusive max_slots (s : @shared Q H * list pc) :
  0 ≤ max_slots → reachable orderly_step (initial max_slots) s →
  let sh := s.1 in
  NoDup (contents (queue sh) ++ collect holds s.2) ∧
  (∀ i j l l' id, s.2 !! i = Some l → s.2 !! j = Some l' → id ∈ holds l → id ∈ holds l' → i = j) ∧
  (∀ id, 0 ≤ id < SlotAllocator.next_fresh (slots sh) → id ∉ SlotAllocator.free_stack (slots sh) →
     id ∈ contents (queue sh) ∧ state_at sh id = GVThreadState.Ready ∨
     id ∈ collect holds s.2 ∨ state_at sh id = GVThreadState.Blocked).
Proof.
  intros Hm Hr sh.
  assert (Hinv : orderly s.1 s.2).
  { revert Hr. apply (reachable_invariant _ _ (λ s, orderly s.1 s.2)).
    - intros x. by apply orderly_initial.
    - intros x y. apply orderly_preserved. }
  pose proof (inv_nodup _ _ Hinv) as Hnd. unfold places in Hnd. rewrite (assoc_L (++)) in Hnd.
  apply NoDup_app in Hnd as (Hnd & _ & _). split_and!; [done| |].
  - apply NoDup_app in Hnd as (_ & _ & Hnd). intros i j l l' id Hi Hj Hl Hl'.
    by apply (collect_nodup_same holds s.2 i j l l' id).
  - intros id Hid Hf. destruct (decide (id ∈ contents (queue sh))) as [Hc|Hc].
    { left. split; [done|]. by apply Hinv. }
    destruct (decide (id ∈ collect holds s.2)) as [Hh|Hh]; [by right; left|]. right. right.
    apply Hinv; [done|]. unfold places. set_solver.
Qed.
End PoolProperties.

(** ** Disorderly interleavings

    The runs below are of the queue and heap of the program, with two workers,
    the timer thread and one application thread. *)
Definition pool0 : @shared SimpleQueue.t (list SleepEntry.t) :=
  Shared (SimpleQueue.init SimpleQueue.new 2) ∅ (SlotAllocator.new 4) [] 0.
Definition threads0 : list pc := [Loop 0; Loop 1; Timer; Other].

Lemma pool0_initial : initial 4 (pool0, threads0).
Proof.
  split_and!; try done.
  - apply simple_init_wf. lia.
  - repeat constructor; simpl; lia.
Qed.

(** *** Executing a schedule

    An action resolves what the step relation leaves open: what the code of a
    GVThread does next, and whether the pages of a slot are given back.  All
    other steps are [Go]. *)
Inductive action : Type :=
| Go | Yield | Block | SleepFor (d : Z) | Finish | WakeUp (tgt : Z) (p : Priority.t) | SpawnNew (p : Priority.t).

Section Execute.
Context {Q H : Type} `{!ReadyQueue Q} `{!BinaryHeap SleepEntry.t H SleepEntry.le}.

(** A step of application code. *)
Definition exec_code (a : action) (sh : @shared Q H) (l : pc) : option (shared * pc) :=
  match a with
  | WakeUp tgt p => Some (sh, Wake1 tgt p l)
  | SpawnNew p =>
      match SlotAllocator.allocate (slots sh) with
      | (Ok id, al) => Some (put_slots sh al, Spawn1 id p l)
      | _ => None
      end
  | _ => None
  end.

Definition exec_push (sh : @shared Q H) (id : Z) (p : Priority.t) (hint : option Z) (l : pc) : option (shared * pc) :=
  match push (queue sh) id p hint with Ret q => Some (put_queue sh q, l) | Panic => None end.

Definition exec_in (a : action) (sh : @shared Q H) (w id : Z) (p : Priority.t) : option (shared * pc) :=
  match a with
  | Yield => Some (put_state sh id GVThreadState.Ready, Yielding w id p)
  | Block => Some (put_state sh id GVThreadState.Blocked, Blocking w id p)
  | SleepFor d =>
      if 0 <=? d then
        Some (let m := meta_at sh id in let t := clock sh +[64] wrap 64 d in
              put_sleepers (put_meta sh id (GVThreadMetadata.with_sleep m (GVThreadMetadata.sleep_flag m) t))
                (heap_push (sleepers sh) (SleepEntry.mk t id (GVThreadMetadata.get_generation m))), Sleeping w id p)
      else None
  | Finish => Some (put_state sh id GVThreadState.Finished, Finishing w id p)
  | _ => exec_code a sh (In w id p)
  end.

Definition exec_back (sh : @shared Q H) (w id : Z) (p : Priority.t) : pc :=
  match state_at sh id with
  | GVThreadState.Ready => Requeue w id p (Some w)
  | GVThreadState.Finished => Reap w id
  | GVThreadState.Preempted => Remark w id p
  | _ => Loop w
  end.

Definition exec_timer (sh : @shared Q H) : option (shared * pc) :=
  match heap_pop (sleepers sh) with
  | Some (e, h) => if SleepEntry.wake_time_ns e <=? clock sh then Some (put_sleepers sh h, TimerGot e)
                   else Some (put_clock sh (SleepEntry.wake_time_ns e), Timer)
  | None => None
  end.

Definition exec (a : action) (sh : @shared Q H) (l : pc) : option (shared * pc) :=
  match l with
  | Loop w =>
      match pop (queue sh) w with
      | Ret (Some (id, p), q) => Some (put_queue sh q, Popped w id p)
      | Ret (None, q) => Some (put_queue sh q, Loop w)
      | Panic => None
      end
  | Popped w id p =>
      Some (put_meta sh id (GVThreadMetadata.clear_preempt (GVThreadMetadata.with_worker_id
              (GVThreadMetadata.set_state (meta_at sh id) GVThreadState.Running) (wrap 32 w))), In w id p)
  | In w id p => exec_in a sh w id p
  | Yielding w id p | Blocking w id p | Finishing w id p => Some (sh, Back w id p)
  | Sleeping w id p => Some (put_state sh id GVThreadState.Blocked, Blocking w id p)
  | Back w id p => Some (sh, exec_back sh w id p)
  | Requeue w id p hint => exec_push sh id p hint (Loop w)
  | Remark w id p => Some (put_state sh id GVThreadState.Ready, Requeue w id p None)
  | Reap w id => Some (put_meta sh id GVThreadMetadata.zeroed, Release w id)
  | Release w id => Some (put_slots sh (SlotAllocator.release (slots sh) id), Loop w)
  | Wake1 tgt p k =>
      Some (sh, if bool_decide (state_at sh tgt = GVThreadState.Blocked) then Wake2 tgt p k else k)
  | Wake2 tgt p k => Some (put_state sh tgt GVThreadState.Ready, Wake3 tgt p k)
  | Wake3 tgt p k => exec_push sh tgt p None k
  | Spawn1 id p k =>
      Some (put_meta sh id (Scheduler.spawn_meta (meta_at sh id) id GVThreadId.NONE p 0 0 0 0), Spawn2 id p k)
  | Spawn2 id p k => exec_push sh id p None k
  | Timer => exec_timer sh
  | TimerGot e =>
      let m := meta_at sh (SleepEntry.gvthread_id e) in
      Some (sh, if GVThreadMetadata.get_generation m =? SleepEntry.generation e
                then Wake1 (SleepEntry.gvthread_id e) (GVThreadMetadata.get_priority m) Timer else Timer)
  | Other => exec_code a sh Other
  end.

Lemma exec_code_sound a sh l sh' l' :
  runs_code l = true → exec_code a sh l = Some (sh', l') → tstep sh l sh' l'.
Proof.
  intros Hl. destruct a; simpl; intros He; simplify_eq.
  - by constructor.
  - destruct (SlotAllocator.allocate (slots sh)) as [[id|e] al] eqn:Ha; simplify_eq. by constructor.
Qed.

Lemma exec_push_spec sh id p hint l sh' l' :
  exec_push sh id p hint l = Some (sh', l') → ∃ q, push (queue sh) id p hint = Ret q ∧ sh' = put_queue sh q ∧ l' = l.
Proof. unfold exec_push. destruct (push _ _ _ _) eqn:Hp; intros; simplify_eq. eauto. Qed.

Lemma exec_sound a sh l sh' l' : exec a sh l = Some (sh', l') → tstep sh l sh' l'.
Proof.
  destruct l; simpl; intros He.
  - destruct (pop (queue sh) w) as [[[[id p]|] q]|] eqn:Hp; simplify_eq; by constructor.
  - simplify_eq. constructor.
  - destruct a; cbn [exec_in] in He.
    + done.
    + simplify_eq. constructor.
    + simplify_eq. constructor.
    + destruct (Z.leb_spec 0 d); simplify_eq. by constructor.
    + simplify_eq. constructor.
    + by apply exec_code_sound in He.
    + by apply exec_code_sound in He.
  - simplify_eq. constructor.
  - simplify_eq. constructor.
  - simplify_eq. constructor.
  - simplify_eq. constructor.
  - simplify_eq. unfold exec_back. destruct (state_at sh' id) eqn:Hst;
      first [by apply back_ready|by apply back_finished|by apply back_blocked|by apply back_preempted|apply back_other; rewrite Hst; set_solver].
  - apply exec_push_spec in He as (q & Hq & -> & ->). by constructor.
  - simplify_eq. constructor.
  - simplify_eq. constructor.
  - simplify_eq. constructor.
  - simplify_eq. case_bool_decide; by constructor.
  - simplify_eq. constructor.
  - apply exec_push_spec in He as (q & Hq & -> & ->). by constructor.
  - simplify_eq. constructor.
  - apply exec_push_spec in He as (q & Hq & -> & ->). by constructor.
  - unfold exec_timer in He. destruct (heap_pop (sleepers sh)) as [[e h]|] eqn:Hh; [|done].
    destruct (Z.leb_spec (SleepEntry.wake_time_ns e) (clock sh)); simplify_eq; by constructor; try lia.
  - simplify_eq. destruct (Z.eqb_spec (GVThreadMetadata.get_generation (meta_at sh' (SleepEntry.gvthread_id e))) (SleepEntry.generation e));
      by constructor.
  - by apply exec_code_sound in He.
Qed.

(** A schedule says which thread moves and how. *)
Fixpoint play (xs : list (nat * action)) (s : @shared Q H * list pc) : option (shared * list pc) :=
  match xs with
  | [] => Some s
  | (i, a) :: xs' =>
      match s.2 !! i with
      | Some l => match exec a s.1 l with Some (sh, l') => play xs' (sh, <[i := l']> s.2) | None => None end
      | None => None
      end
  end.

Lemma play_sound xs s s' : play xs s = Some s' → rtc (pool_step tstep) s s'.
Proof.
  revert s. induction xs as [|[i a] xs IH]; intros [sh ls]; simpl; [by intros [= ->]; constructor|].
  destruct (ls !! i) as [l|] eqn:Hi; [|done]. destruct (exec a sh l) as [[sh1 l1]|] eqn:He; [|done].
  intros Hp%IH. eapply rtc_l; [|exact Hp]. eapply pool_step_at; [done|]. by apply exec_sound in He.
Qed.

(** A schedule that reaches a state with a decidable property. *)
Lemma play_reaches xs s (P : @shared Q H * list pc → bool) :
  match play xs s with Some s' => P s' | None => false end = true →
  ∃ s', rtc (pool_step tstep) s s' ∧ P s' = true.
Proof. destruct (play xs s) as [s'|] eqn:Hp; [|done]. eauto using play_sound. Qed.
End Execute.

(** *** The runs *)
Definition spawn_and_run : list (nat * action) :=
  [(3%nat, SpawnNew Priority.Normal); (3%nat, Go); (3%nat, Go); (0%nat, Go); (0%nat, Go)].

(** The application wakes GVThread 0: load, store, push. *)
Definition wake_0 : list (nat * action) :=
  [(3%nat, WakeUp 0 Priority.Normal); (3%nat, Go); (3%nat, Go); (3%nat, Go)].

#[global] Instance pc_eq_dec : EqDecision pc.
Proof.
  assert (EqDecision SleepEntry.t) by solve_decision.
  solve_decision.
Defined.

(** A wake that comes too early breaks the exclusion.  Between the store of
    [Blocked] and the end of the context switch a waker already finds the
    GVThread blocked: it is then queued and a second worker runs it while the
    first is still on its stack, with its context not saved.  And between the
    end of the switch and the worker's look at the state, the wake is seen as a
    yield, and the GVThread is queued twice. *)
Theorem early_wake_breaks_exclusion :
  (∃ s, reachable (pool_step tstep) (initial 4) s ∧
     s.2 = [Blocking 0 0 Priority.Normal; In 1 0 Priority.Normal; Timer; Other]) ∧
  (∃ s : @shared SimpleQueue.t (list SleepEntry.t) * list pc,
     reachable (pool_step tstep) (initial 4) s ∧ s.2 = threads0 ∧ contents (queue s.1) = [0; 0]).
Proof.
  split.
  - destruct (play_reaches (spawn_and_run ++ [(0%nat, Block)] ++ wake_0 ++ [(1%nat, Go); (1%nat, Go)])
      (pool0, threads0)
      (λ s, bool_decide (s.2 = [Blocking 0 0 Priority.Normal; In 1 0 Priority.Normal; Timer; Other])))
      as (s & Hr & Hs); [vm_compute; reflexivity|].
    apply bool_decide_eq_true in Hs. exists s. split; [|done]. exists (pool0, threads0). split; [apply pool0_initial|done].
  - destruct (play_reaches (spawn_and_run ++ [(0%nat, Block); (0%nat, Go)] ++ wake_0 ++ [(0%nat, Go); (0%nat, Go)])
      (pool0, threads0)
      (λ s, bool_decide (s.2 = threads0 ∧ contents (queue s.1) = [0; 0])))
      as (s & Hr & Hs); [vm_compute; reflexivity|].
    apply bool_decide_eq_true in Hs. exists s. split; [|done]. exists (pool0, threads0). split; [apply pool0_initial|done].
Qed.

(** [sleep] can lose its wake-up.  The entry is in the sleep queue before
    the state says [Blocked], so the timer thread may pop it, find the GVThread
    still [Running] and drop it.  The GVThread then blocks with no entry left:
    all threads are idle, both queues are empty, and nothing will wake it. *)
Theorem sleep_can_lose_wakeup :
  ∃ s : @shared SimpleQueue.t (list SleepEntry.t) * list pc,
    reachable (pool_step tstep) (initial 4) s ∧ s.2 = threads0 ∧
    state_at s.1 0 = GVThreadState.Blocked ∧ contents (queue s.1) = [] ∧ sleepers s.1 = [].
Proof.
  destruct (play_reaches (spawn_and_run ++ [(0%nat, SleepFor 0); (2%nat, Go); (2%nat, Go); (2%nat, Go);
      (0%nat, Go); (0%nat, Go); (0%nat, Go)]) (pool0, threads0)
    (λ s, bool_decide (s.2 = threads0 ∧ state_at s.1 0 = GVThreadState.Blocked ∧ contents (queue s.1) = []) &&
          match sleepers s.1 with [] => true | _ => false end))
    as (s & Hr & [Hs He]%andb_true_iff); [vm_compute; reflexivity|].
  apply bool_decide_eq_true in Hs as (H1 & H2 & H3). exists s. split_and!; try done.
  - exists (pool0, threads0). split; [apply pool0_initial|done].
  - by destruct (sleepers s.1).
Qed.

(** The generation check does not stop stale wakes.  A GVThread that was
    woken early and has finished leaves its entry in the sleep queue; the next
    GVThread in the same slot has the same generation, and the timer thread
    goes on to wake it with the entry of its predecessor. *)
Theorem stale_entry_wakes_successor :
  ∃ (s1 s2 : @shared SimpleQueue.t (list SleepEntry.t) * list pc) e,
    reachable (pool_step tstep) (initial 4) s1 ∧ rtc (pool_step tstep) s1 s2 ∧
    s1.2 = [Release 0 0; Loop 1; Timer; Other] ∧ sleepers s1.1 = [e] ∧ SleepEntry.gvthread_id e = 0 ∧
    s2.2 = [Loop 0; Loop 1; Wake2 0 Priority.Normal Timer; Other] ∧ sleepers s2.1 = [].
Proof.
  destruct (play_reaches (spawn_and_run ++ [(0%nat, SleepFor 1000); (0%nat, Go); (0%nat, Go); (0%nat, Go)] ++ wake_0 ++
      [(0%nat, Go); (0%nat, Go); (0%nat, Finish); (0%nat, Go); (0%nat, Go); (0%nat, Go)]) (pool0, threads0)
    (λ s, bool_decide (s.2 = [Release 0 0; Loop 1; Timer; Other]) &&
          match sleepers s.1 with [e] => bool_decide (SleepEntry.gvthread_id e = 0) | _ => false end &&
          match play ([(0%nat, Go)] ++ spawn_and_run ++ [(0%nat, Block); (0%nat, Go); (0%nat, Go); (2%nat, Go); (2%nat, Go); (2%nat, Go); (2%nat, Go)]) s with
          | Some s2 => bool_decide (s2.2 = [Loop 0; Loop 1; Wake2 0 Priority.Normal Timer; Other]) &&
                       match sleepers s2.1 with [] => true | _ => false end
          | None => false
          end))
    as (s1 & Hr & [[Hs He]%andb_true_iff Hp]%andb_true_iff); [vm_compute; reflexivity|].
  apply play_reaches in Hp as (s2 & Hr2 & [Hs2 He2]%andb_true_iff).
  apply bool_decide_eq_true in Hs, Hs2.
  destruct (sleepers s1.1) as [|e [|]] eqn:Hse; try done. apply bool_decide_eq_true in He.
  exists s1, s2, e. split_and!; try done.
  - exists (pool0, threads0). split; [apply pool0_initial|done].
  - by destruct (sleepers s2.1).
Qed.

Lemma scheduler_exclusive_witness :
  ∃ s, reachable orderly_step (initial 4) s ∧ NoDup (contents (queue s.1) ++ collect holds s.2) ∧
    s.2 = [Loop 0; Loop 1; Timer; Spawn1 0 Priority.High Other].
Proof.
  assert (Hr : reachable orderly_step (initial 4)
    (put_slots pool0 (SlotAllocator.allocate (slots pool0)).2, [Loop 0; Loop 1; Timer; Spawn1 0 Priority.High Other])).
  { exists (pool0, threads0). split; [exact pool0_initial|]. apply rtc_once.
    apply (orderly_intro pool0 Other _ (Spawn1 0 Priority.High Other) [Loop 0; Loop 1; Timer] []); [|discriminate].
    apply spawn_slot; vm_compute; reflexivity. }
  eexists. split; [exact Hr|]. split; [|reflexivity].
  apply (scheduler_exclusive 4 _ ltac:(lia) Hr).
Defined.

(** ** The steps implement the functions of [Sched] *)
Section Refines.
Context {space : Type} `{VirtualMemory space}.
Import Scheduler.
Implicit Types (g : @sys space) (s : Scheduler.t).

(** What the threads share of the state of the process, at time [c]. *)
Definition abs g s (c : Z) : @shared SimpleQueue.t (list SleepEntry.t) :=
  Shared (ready_queue s) (Scheduler.metas g) (slot_allocator s) (default [] (SLEEP_QUEUE g)) c.

Abbreviation alone := (rtc (solo_step tstep)).

Lemma alone_step sh l sh' l' y : tstep sh l sh' l' → alone (sh', l') y → alone (sh, l) y.
Proof. intros Hs. by apply rtc_l. Qed.

Lemma push_ready_Ret g s id p hint g' :
  push_ready g s id p hint = Ret g' →
  ∃ q, SimpleQueue.push (ready_queue s) id p hint = Ret q ∧ g' = set_sched g (Some (with_queue s q)).
Proof.
  unfold push_ready. destruct (SimpleQueue.push _ _ _ _) as [q|] eqn:Hq; [|done]. intros [= <-]. eauto.
Qed.

Lemma wake_alone g s l id p g' c k :
  SCHEDULER g = Some s → Tls.try_current_worker_id l = None → wake g s l id p = Ret g' →
  ∃ s', SCHEDULER g' = Some s' ∧ alone (abs g s c, Wake1 id p k) (abs g' s' c, k).
Proof.
  intros Hs Hl. unfold wake. rewrite Hl. case_bool_decide as Hb.
  - intros (q & Hq & ->)%push_ready_Ret. eexists. split; [done|].
    eapply alone_step; [by apply wake_load_blocked|]. eapply alone_step; [apply wake_store|].
    eapply alone_step; [by apply wake_push|]. constructor.
  - intros [= <-]. exists s. split; [done|]. eapply alone_step; [by apply wake_load_other|]. constructor.
Qed.

Lemma spawn_alone g s l p entry tramp closure id g' c k :
  runs_code k = true → spawn g s l p entry tramp closure = Ret (id, g') →
  ∃ s', SCHEDULER g' = Some s' ∧ alone (abs g s c, k) (abs g' s' c, k).
Proof.
  intros Hk. unfold spawn. destruct (SlotAllocator.allocate (slot_allocator s)) as [[i|e] a] eqn:Ha; [|done].
  cbn [expect mbind outcome_bind]. unfold GVThreadId.as_u32.
  destruct (MemoryRegion.activate_slot (MEMORY_REGION g) (vm g) i) as [[u|e] sp]; [|done].
  cbn [expect mbind outcome_bind]. destruct (push_ready _ _ _ _ _) as [g1|] eqn:Hp; [|done].
  cbn [mbind outcome_bind]. intros [= <- <-]. apply push_ready_Ret in Hp as (q & Hq & ->).
  eexists. split; [done|]. eapply alone_step; [by apply spawn_slot|]. eapply alone_step; [apply spawn_init|].
  eapply alone_step; [by apply spawn_push|]. constructor.
Qed.

Lemma finish_alone g s w id c :
  ∃ s', SCHEDULER (mark_finished g s id) = Some s' ∧
    alone (abs g s c, Reap w id) (abs (mark_finished g s id) s' c, Loop w).
Proof.
  unfold mark_finished. destruct (MemoryRegion.deactivate_slot _ _ _) as [[u|e] sp].
  - eexists. split; [done|]. eapply alone_step; [apply reap_given_back|]. eapply alone_step; [apply release_slot|].
    unfold abs, put_slots, put_meta. simpl. rewrite insert_insert_eq. constructor.
  - eexists. split; [done|]. eapply alone_step; [apply reap_kept|]. eapply alone_step; [apply release_slot|]. constructor.
Qed.

Lemma run_end_alone g s l w id p l' g' c :
  SCHEDULER g = Some s → Tls.try_current_worker_id l = None → run_end g l w id p = Ret (l', g') →
  ∃ s', SCHEDULER g' = Some s' ∧ alone (abs g s c, Back w id p) (abs g' s' c, Loop w).
Proof.
  intros Hs Hl. unfold run_end. rewrite Hs.
  set (r := match GVThreadMetadata.get_state (meta_of g id) with GVThreadState.Ready => _ | _ => _ end).
  assert (Hr : ∀ g1, r = Ret g1 → ∃ s', SCHEDULER g1 = Some s' ∧ alone (abs g s c, Back w id p) (abs g1 s' c, Loop w)).
  { intros g1. subst r.
    assert (Hother : ∀ st, GVThreadMetadata.get_state (meta_of g id) = st →
      st ∈ [GVThreadState.Created; GVThreadState.Running; GVThreadState.Cancelled] →
      alone (abs g s c, Back w id p) (abs g s c, Loop w)).
    { intros st <- Hin. eapply alone_step; [by apply back_other|]. constructor. }
    destruct (GVThreadMetadata.get_state (meta_of g id)) eqn:Hst.
    - intros [= <-]. exists s. split; [done|]. eapply Hother; [reflexivity|set_solver].
    - intros (q & Hq & ->)%push_ready_Ret. eexists. split; [done|].
      eapply alone_step; [by apply back_ready|]. eapply alone_step; [by apply requeue|]. constructor.
    - intros [= <-]. exists s. split; [done|]. eapply Hother; [reflexivity|set_solver].
    - intros [= <-]. exists s. split; [done|]. eapply alone_step; [by apply back_blocked|]. constructor.
    - unfold mark_ready. rewrite Hl. intros (q & Hq & ->)%push_ready_Ret. eexists. split; [done|].
      eapply alone_step; [by apply back_preempted|]. eapply alone_step; [apply remark|].
      eapply alone_step; [by apply requeue|]. constructor.
    - intros [= <-]. destruct (finish_alone g s w id c) as (s' & Hs' & Ha). exists s'. split; [done|].
      eapply alone_step; [by apply back_finished|exact Ha].
    - intros [= <-]. exists s. split; [done|]. eapply Hother; [reflexivity|set_solver]. }
  destruct r as [g1|]; [|done]. cbn [mbind outcome_bind].
  destruct (Workers.get _ _) as [ws|]; [|done]. cbn [mbind outcome_bind].
  destruct (index_set _ _ _) as [wl|]; [|done]. intros [= <- <-]. exact (Hr g1 eq_refl).
Qed.

Lemma timer_alone g s l e g1 g2 c :
  SCHEDULER g = Some s → Tls.try_current_worker_id l = None →
  pop_expired g c = Some (e, g1) → wake_sleeper g1 l e = Ret g2 →
  ∃ s', SCHEDULER g2 = Some s' ∧ alone (abs g s c, Timer) (abs g2 s' c, Timer).
Proof.
  intros Hs Hl Hp Hw. unfold pop_expired in Hp. destruct (SLEEP_QUEUE g) as [q|] eqn:Hq; [|done].
  destruct (heap_pop q) as [[e' q']|] eqn:Hh; [|done].
  destruct (Z.leb_spec (SleepEntry.wake_time_ns e') c) as [Hle|]; [|done]. injection Hp as -> <-.
  assert (Hpop : tstep (abs g s c) Timer (abs (set_sleepers g (Some q')) s c) (TimerGot e)).
  { apply (timer_pop (abs g s c) e q'); simpl; [by rewrite Hq|done]. }
  unfold wake_sleeper in Hw. destruct (Z.eqb_spec (GVThreadMetadata.get_generation
    (meta_of (set_sleepers g (Some q')) (SleepEntry.gvthread_id e))) (SleepEntry.generation e)) as [Hg|Hg].
  - unfold wake_gvthread in Hw. cbn [set_sleepers SCHEDULER] in Hw. rewrite Hs in Hw.
    apply (wake_alone _ s l _ _ g2 c Timer) in Hw as (s' & Hs' & Ha); [|done|done]. exists s'. split; [done|].
    eapply alone_step; [exact Hpop|]. eapply alone_step; [by apply timer_match|exact Ha].
  - injection Hw as <-. exists s. split; [done|]. eapply alone_step; [exact Hpop|].
    eapply alone_step; [by apply timer_stale|]. constructor.
Qed.

Lemma sleep_alone g s l w p d g' q c :
  SLEEP_QUEUE g = Some q → 0 ≤ d → sleep g l c d = Some g' →
  let id := Tls.current_gvthread_id l in
  alone (abs g s c, In w id p) (abs g' s c, Blocking w id p).
Proof.
  intros Hq Hd. unfold sleep, block_current. destruct (Tls.is_in_gvthread l); [|done].
  destruct (Tls.current_gvthread_base l =? 0); [done|]. cbn [negb].
  destruct (_ || _); [done|]. intros [= <-]. cbv zeta.
  eapply alone_step; [by apply (sleep_queue _ w _ p d)|].
  eapply alone_step; [apply sleep_store|].
  unfold add_to_sleep_queue. cbn [set_meta set_metas SLEEP_QUEUE]. rewrite Hq.
  unfold abs, put_state, put_meta, put_sleepers, set_state, set_meta, set_metas, set_sleepers, meta_at, meta_of. simpl.
  rewrite Hq. constructor.
Qed.

End Refines.

