(* ===== verification/Facade.v ===== *)
(** * The public runtime handle

    Models [gvthread/src/lib.rs]: the [Runtime] handle over the global
    scheduler of Sched, and the free functions user code calls.  The life of a
    handle is shown to be that of a small abstract automaton, whatever user
    code and workers do to the scheduler in between. *)

From S2P Require Import Prelude CoreTypes Slots Metadata Memory ReadyQueue TimerHeap Config Arch Sched.

Module Runtime.
Import Scheduler.
Section Runtime.
Context {space : Type} `{VirtualMemory space}.
Local Abbreviation sys := (@sys space).

Record t : Type := mk { started : bool }.

(** [init_global_scheduler(..).expect(..)] *)
Definition new (g : sys) (c : SchedulerConfig.t) : outcome (t * sys) :=
  r ← init_global_scheduler g c;
  match r.1 with Ok _ => Ret (mk false, r.2) | Err _ => Panic end.

Definition start (rt : t) (g : sys) : outcome (SchedResult () * t * sys) :=
  if started rt then Ret (Err SchedError.AlreadyInitialized, mk true, g)
  else r ← start_global_scheduler g; Ret (r.1, mk true, r.2).

Definition shutdown (rt : t) (g : sys) : t * sys :=
  (mk false, if started rt then shutdown_global_scheduler g else g).

(** [f] is the caller's closure, a function of the state it runs in. *)
Definition block_on {T} (rt : t) (g : sys) (f : sys → outcome (T * sys)) : outcome (T * t * sys) :=
  r ← start rt g;
  let '(_, rt1, g1) := r in
  x ← f g1;
  let '(rt2, g2) := shutdown rt1 x.2 in
  Ret (x.1, rt2, g2).

Definition drop (rt : t) (g : sys) : sys := (shutdown rt g).2.

Definition spawn_with_priority (g : sys) (l : Tls.t) (entry tramp closure : Z) (p : Priority.t) : outcome (Z * sys) :=
  spawn_global g l p entry tramp closure.
Definition spawn (g : sys) (l : Tls.t) (entry tramp closure : Z) : outcome (Z * sys) :=
  spawn_global g l Priority.Normal entry tramp closure.
Definition yield_now (g : sys) (l : Tls.t) (worker_id now_ns : Z) : outcome (option sys) :=
  Scheduler.yield_now g l worker_id now_ns.
Definition current_id (l : Tls.t) : Z := Tls.current_gvthread_id l.
Definition is_in_gvthread (l : Tls.t) : bool := Tls.is_in_gvthread l.
(** The macro [safepoint!]: its body is empty in and outside of a GVThread. *)
Definition safepoint (g : sys) (l : Tls.t) : sys := if is_in_gvthread l then g else g.

(** ** The automaton *)

(** Whether workers run and whether they can ever run (again); the flag of
    [Down] says that the handle counts as started. *)
Inductive phase := Fresh | Up | Down (b : bool).

Definition a_start (ph : phase) : SchedResult () * phase :=
  match ph with
  | Fresh => (Ok (), Up)
  | Up => (Err SchedError.AlreadyInitialized, Up)
  | Down false => (Err (SchedError.from_memory SchedError.MemAlreadyInitialized), Down true)
  | Down true => (Err SchedError.AlreadyInitialized, Down true)
  end.
Definition a_shutdown (ph : phase) : phase :=
  match ph with Fresh => Fresh | Up | Down _ => Down false end.

(** What user code, workers and timer may do between the calls of a handle. *)
Record undisturbed (g g' : sys) : Prop := {
  u_sched : ∀ s, SCHEDULER g = Some s → ∃ s', SCHEDULER g' = Some s' ∧ running s' = running s ∧ config s' = config s;
  u_running : SCHEDULER_RUNNING g' = SCHEDULER_RUNNING g;
  u_region : MEMORY_REGION g' = MEMORY_REGION g;
  u_vm : MemoryRegion.initialized (MEMORY_REGION g) = false → vm g' = vm g;
  u_workers : length (WORKER_STATES g') = length (WORKER_STATES g)
}.

Inductive event := Started (r : SchedResult ()) | Stopped | Work.

(** The calls on a handle, and the rest of the process. *)
Inductive step : event → t * sys → t * sys → Prop :=
| step_start rt g r rt' g' : start rt g = Ret (r, rt', g') → step (Started r) (rt, g) (rt', g')
| step_shutdown rt g : step Stopped (rt, g) (shutdown rt g)
| step_work rt g g' : undisturbed g g' → step Work (rt, g) (rt, g').

Definition a_step (e : event) (ph ph' : phase) : Prop :=
  match e with
  | Started r => a_start ph = (r, ph')
  | Stopped => a_shutdown ph = ph'
  | Work => ph = ph'
  end.

Section Simulation.
Context (c : SchedulerConfig.t).

(** The state of a process with one handle for configuration [c]. *)
Definition sim (ph : phase) (x : t * sys) : Prop :=
  let '(rt, g) := x in
  ∃ s, SCHEDULER g = Some s ∧ config s = c ∧ length (WORKER_STATES g) = 64%nat ∧
    match ph with
    | Fresh => started rt = false ∧ running s = false ∧ SCHEDULER_RUNNING g = false ∧
        MemoryRegion.initialized (MEMORY_REGION g) = false ∧
        ∃ region sp, MemoryRegion.init (MEMORY_REGION g) (vm g) (SchedulerConfig.max_gvthreads c) = (Ok (), region, sp)
    | Up => started rt = true ∧ running s = true ∧ SCHEDULER_RUNNING g = true ∧
        MemoryRegion.initialized (MEMORY_REGION g) = true
    | Down b => started rt = b ∧ running s = b ∧ SCHEDULER_RUNNING g = false ∧
        MemoryRegion.initialized (MEMORY_REGION g) = true
    end.

Hypothesis (Hn : 0 ≤ SchedulerConfig.num_workers c ≤ 64).

Lemma init_initializes r s n u region sp : MemoryRegion.init r s n = (Ok u, region, sp) → MemoryRegion.initialized region = true.
Proof. unfold MemoryRegion.init. intros Hi. repeat case_match; simplify_eq; done. Qed.

Lemma init_twice r s n :
  MemoryRegion.initialized r = true →
  MemoryRegion.init r s n = (Err (SchedError.from_memory SchedError.MemAlreadyInitialized), r, s).
Proof. unfold MemoryRegion.init. by intros ->. Qed.

Lemma pool_starts ws low :
  length ws = 64%nat →
  ∃ p ws', Workers.start (Workers.new (SchedulerConfig.num_workers c) low) ws = Ret (p, ws') ∧ length ws' = 64%nat.
Proof.
  intros Hl. unfold Workers.start. cbn [Workers.num_workers Workers.new].
  destruct (start_from_ok (Z.to_nat (SchedulerConfig.num_workers c)) 0 (Workers.new (SchedulerConfig.num_workers c) low) ws)
    as (p & ws' & Hr & Hlen & _); [lia|lia|]. rewrite Z2Nat.id in Hr by lia. exists p, ws'. split; [exact Hr|lia].
Qed.

Lemma sim_start ph rt g :
  sim ph (rt, g) → ∃ rt' g', start rt g = Ret ((a_start ph).1, rt', g') ∧ sim (a_start ph).2 (rt', g').
Proof.
  intros (s & Hs & Hc & Hl & Hph). unfold start, start_global_scheduler. rewrite Hs. unfold Scheduler.start.
  destruct ph as [| |[|]]; cbn [a_start fst snd].
  - destruct Hph as (-> & -> & Hrun & Hi & region & sp & Hm). cbn [set_sched MEMORY_REGION vm]. rewrite Hc, Hm.
    cbn [set_memory set_flags WORKER_STATES set_sched].
    destruct (pool_starts (WORKER_STATES g) (SchedulerConfig.num_low_priority_workers c) Hl) as (p & ws' & -> & Hl').
    cbn [mbind outcome_bind fst snd]. eexists _, _. split; [done|]. eexists. split; [done|].
    split_and!; [done|done|done|done|done|by eapply init_initializes].
  - destruct Hph as (-> & Hr & Hrun & Hi). eexists _, _. split; [done|]. exists s. by split_and!.
  - destruct Hph as (-> & Hr & Hrun & Hi). eexists _, _. split; [done|]. exists s. by split_and!.
  - destruct Hph as (-> & -> & Hrun & Hi). cbn [set_sched MEMORY_REGION vm]. rewrite init_twice by done.
    cbn [mbind outcome_bind fst snd]. eexists _, _. split; [done|]. eexists. split; [done|]. by split_and!.
Qed.

Lemma sim_shutdown ph rt g : sim ph (rt, g) → sim (a_shutdown ph) (shutdown rt g).
Proof.
  intros (s & Hs & Hc & Hl & Hph). unfold shutdown, shutdown_global_scheduler. rewrite Hs. unfold Scheduler.shutdown.
  destruct ph as [| |[|]]; cbn [a_shutdown].
  - destruct Hph as (-> & Hr & ? & ? & ?). exists s. by split_and!.
  - destruct Hph as (-> & -> & Hrun & Hi). eexists. split; [done|]. by split_and!.
  - destruct Hph as (-> & -> & Hrun & Hi). eexists. split; [done|]. by split_and!.
  - destruct Hph as (-> & Hr & Hrun & Hi). exists s. by split_and!.
Qed.

Lemma sim_work ph rt g g' : undisturbed g g' → sim ph (rt, g) → sim ph (rt, g').
Proof.
  intros [Hu Hur Hreg Hvm Hw] (s & Hs & Hc & Hl & Hph). destruct (Hu s Hs) as (s' & Hs' & Hr' & Hc').
  exists s'. split; [done|]. split; [congruence|]. split; [congruence|].
  destruct ph as [| |b]; rewrite ?Hur, ?Hreg, ?Hr'; [|done..].
  destruct Hph as (? & ? & ? & Hi & ?). rewrite Hvm by done. by split_and!.
Qed.

Lemma sim_step e ph x x' : sim ph x → step e x x' → ∃ ph', a_step e ph ph' ∧ sim ph' x'.
Proof.
  intros Hsim Hst. destruct Hst as [rt g r rt' g' Hr|rt g|rt g g' Hu].
  - destruct (sim_start ph rt g Hsim) as (rt1 & g1 & Hr' & Hsim'). rewrite Hr' in Hr. injection Hr as <- <- <-.
    exists (a_start ph).2. split; [apply surjective_pairing|done].
  - exists (a_shutdown ph). split; [done|by apply sim_shutdown].
  - exists ph. split; [done|by eapply sim_work].
Qed.
End Simulation.
End Runtime.
Arguments sim {_ _} _ _ _.
End Runtime.

(** ** Theorems *)
Section Traces.
Context {E A : Type} (R : E → A → A → Prop).

Inductive traces : list E → A → A → Prop :=
| traces_nil x : traces [] x x
| traces_cons e es x y z : R e x y → traces es y z → traces (e :: es) x z.
End Traces.

Section Life.
Context {space : Type} `{VirtualMemory space}.
Import Scheduler Runtime.
Implicit Types (g : @sys space) (x : Runtime.t * @sys space).

(** A process in which nothing was started, with memory for the handle. *)
Definition ready_for (c : SchedulerConfig.t) (g : @sys space) : Prop :=
  0 ≤ SchedulerConfig.num_workers c ≤ 64 ∧ SCHEDULER_RUNNING g = false ∧ length (WORKER_STATES g) = 64%nat ∧
  ∃ region sp, MemoryRegion.init (MEMORY_REGION g) (vm g) (SchedulerConfig.max_gvthreads c) = (Ok (), region, sp).

Lemma new_sim g c x : ready_for c g → Runtime.new g c = Ret x → sim c Fresh x.
Proof.
  intros (Hn & Hrun & Hl & region & sp & Hm). unfold Runtime.new, init_global_scheduler.
  destruct (SCHEDULER_INIT g); [done|]. unfold Scheduler.new. destruct (SchedulerConfig.validate c); [|done].
  cbn [mbind outcome_bind fst snd]. intros [= <-]. eexists. split; [done|]. split_and!; try done; [|by exists region, sp].
  unfold MemoryRegion.init in Hm. by destruct (MemoryRegion.initialized _).
Qed.

Lemma sim_traces c es ph x x' :
  0 ≤ SchedulerConfig.num_workers c ≤ 64 → sim c ph x → traces step es x x' →
  ∃ ph', traces a_step es ph ph' ∧ sim c ph' x'.
Proof.
  intros Hn Hs Ht. revert ph Hs. induction Ht as [|e es x y z Hst _ IH]; intros ph Hs; [eauto using @traces_nil|].
  destruct (sim_step c Hn e ph x y Hs Hst) as (ph1 & Ha & Hs1). destruct (IH ph1 Hs1) as (ph' & Ht' & Hs').
  exists ph'. split; [by econstructor|done].
Qed.

Definition succeeded (e : event) : bool := match e with Started (Ok _) => true | _ => false end.

(** Whether workers run after the events, if they did not or did before. *)
Definition runs_after (b : bool) (es : list event) : bool :=
  fold_left (λ b e, match e with Started (Ok _) => true | Stopped => false | _ => b end) es b.
Definition is_up (ph : phase) : bool := match ph with Up => true | _ => false end.
Definition starts_left (ph : phase) : nat := match ph with Fresh => 1 | _ => 0 end.

Lemma a_traces es ph ph' :
  traces a_step es ph ph' →
  is_up ph' = runs_after (is_up ph) es ∧ (length (filter succeeded es) + starts_left ph' ≤ starts_left ph)%nat.
Proof.
  induction 1 as [ph|e es ph1 ph2 ph3 Hst _ [IH1 IH2]]; [done|].
  assert (Hb : is_up ph2 = runs_after (is_up ph1) [e] ∧
    ((if succeeded e then 1 else 0) + starts_left ph2 ≤ starts_left ph1)%nat).
  { destruct e as [r| |]; simpl in Hst; [|subst ph2; by destruct ph1|by subst].
    by destruct ph1 as [| |[|]]; injection Hst as <- <-. }
  destruct Hb as [Hb1 Hb2]. rewrite Hb1 in IH1. split; [exact IH1|]. rewrite filter_cons.
  destruct (succeeded e) eqn:He; (case_decide as Hd; [|]); simpl in *; (done || lia).
Qed.

Lemma sim_running c ph x : sim c ph x → SCHEDULER_RUNNING x.2 = is_up ph.
Proof. destruct x as [rt g]. intros (s & _ & _ & _ & Hph). by destruct ph; destruct Hph as (_ & _ & ? & _). Qed.


(** A closure that returns and leaves the scheduler alone. *)
Definition well_behaved {T} (f : @sys space → outcome (T * @sys space)) : Prop :=
  ∀ g1, ∃ v g2, f g1 = Ret (v, g2) ∧ undisturbed g1 g2.

Lemma block_on_sim {T} c ph rt g (f : @sys space → outcome (T * @sys space)) :
  0 ≤ SchedulerConfig.num_workers c ≤ 64 → well_behaved f → sim c ph (rt, g) →
  ∃ ga v gx rt' g', f ga = Ret (v, gx) ∧ SCHEDULER_RUNNING ga = is_up (a_start ph).2 ∧
    block_on rt g f = Ret (v, rt', g') ∧ sim c (a_shutdown (a_start ph).2) (rt', g').
Proof.
  intros Hw Hf Hs. destruct (sim_start c Hw ph rt g Hs) as (rt1 & ga & Hst & Hs1).
  destruct (Hf ga) as (v & gx & Hfa & Hu). exists ga, v, gx, (shutdown rt1 gx).1, (shutdown rt1 gx).2.
  pose proof (sim_shutdown c _ _ _ (sim_work c _ _ _ _ Hu Hs1)) as Hs2.
  split_and!; [done|by apply (sim_running c _ (rt1, ga))| |done].
  unfold block_on. rewrite Hst. cbn [mbind outcome_bind]. rewrite Hfa. done.
Qed.

(** What [block_on] does with such a closure: the first call runs it with
    workers and returns its value with the workers stopped; the second call
    runs it as well, but without any worker, and says nothing of the failed
    start. *)
Theorem block_on_twice {T} g c rt g0 (f : @sys space → outcome (T * @sys space)) :
  ready_for c g → Runtime.new g c = Ret (rt, g0) → well_behaved f →
  ∃ ga va gx rt1 g1 gb vb gy rt2 g2,
    block_on rt g0 f = Ret (va, rt1, g1) ∧ f ga = Ret (va, gx) ∧ SCHEDULER_RUNNING ga = true ∧
    SCHEDULER_RUNNING g1 = false ∧
    block_on rt1 g1 f = Ret (vb, rt2, g2) ∧ f gb = Ret (vb, gy) ∧ SCHEDULER_RUNNING gb = false.
Proof.
  intros Hr Hn Hf. pose proof (new_sim g c _ Hr Hn) as Hs. destruct Hr as [Hw _].
  destruct (block_on_sim c _ _ _ f Hw Hf Hs) as (ga & va & gx & rt1 & g1 & Ha & Hra & Hb & Hs1).
  destruct (block_on_sim c _ _ _ f Hw Hf Hs1) as (gb & vb & gy & rt2 & g2 & Hfb & Hrb & Hb2 & _).
  exists ga, va, gx, rt1, g1, gb, vb, gy, rt2, g2. split_and!; try done. apply (sim_running c _ (rt1, g1) Hs1).
Qed.

(** The operations of user code on the scheduler leave it undisturbed. *)
Lemma spawn_undisturbed g l p entry tramp closure id g' :
  Runtime.spawn_with_priority g l entry tramp closure p = Ret (id, g') → undisturbed g g'.
Proof.
  unfold Runtime.spawn_with_priority, spawn_global. destruct (SCHEDULER g) as [s|] eqn:Hs; [|done].
  unfold Scheduler.spawn. destruct (SlotAllocator.allocate (slot_allocator s)) as [[id'|] a]; [|done].
  cbn [expect mbind outcome_bind]. destruct (MemoryRegion.activate_slot _ _ _) as [act sp] eqn:Ha.
  destruct act as [u|]; [|done]. cbn [expect mbind outcome_bind]. unfold push_ready.
  destruct (SimpleQueue.push _ _ _ _) as [q|]; [|done]. cbn [mbind outcome_bind]. intros [= <- <-].
  constructor; try done.
  - intros s0 Hs0. simplify_eq. eexists. by split_and!.
  - intros Hi. unfold MemoryRegion.activate_slot, MemoryRegion.is_initialized in Ha. by rewrite Hi in Ha.
Qed.

Lemma wake_undisturbed g l id p g' : wake_gvthread g l id p = Ret g' → undisturbed g g'.
Proof.
  unfold wake_gvthread, wake, push_ready. destruct (SCHEDULER g) as [s|] eqn:Hs.
  - case_bool_decide; [|intros [= <-]; constructor; eauto].
    destruct (SimpleQueue.push _ _ _ _) as [q|]; [|done]. cbn [mbind outcome_bind]. intros [= <-].
    constructor; try done. intros s0 Hs0. simplify_eq. eexists. by split_and!.
  - intros [= <-]. constructor; eauto.
Qed.

End Life.

(** A closure that spawns a GVThread of high priority, if it can. *)
Definition spawn_one (g : @Scheduler.sys FlatVM.space) : outcome (bool * @Scheduler.sys FlatVM.space) :=
  match Runtime.spawn_with_priority g Tls.initial 500 2000 600 Priority.High with
  | Ret (_, g') => Ret (true, g')
  | Panic => Ret (false, g)
  end.

Lemma spawn_one_ok : well_behaved spawn_one.
Proof.
  intros g. unfold spawn_one. destruct (Runtime.spawn_with_priority _ _ _ _ _ _) as [[id g']|] eqn:E.
  - exists true, g'. split; [done|]. by eapply spawn_undisturbed.
  - exists false, g. split; [done|]. constructor; eauto.
Qed.

Lemma demo_ready : ready_for (demo_config 2) (Scheduler.boot FlatVM.empty).
Proof. split_and!; [by vm_compute..|]. exists flat_region, flat_mapped. reflexivity. Qed.


Lemma block_on_twice_witness :
  ∃ rt g va rt1 g1, Runtime.new (Scheduler.boot FlatVM.empty) (demo_config 2) = Ret (rt, g) ∧
    Runtime.block_on rt g spawn_one = Ret (va, rt1, g1) ∧ Scheduler.SCHEDULER_RUNNING g1 = false.
Proof.
  destruct (Runtime.new (Scheduler.boot FlatVM.empty) (demo_config 2)) as [[rt g]|] eqn:E; [|by vm_compute in E].
  destruct (block_on_twice _ _ _ _ _ demo_ready E spawn_one_ok) as (ga & va & gx & rt1 & g1 & _ & _ & _ & _ & _ & H1 & _ & _ & H2 & _).
  exists rt, g, va, rt1, g1. split_and!; [reflexivity|exact H1|exact H2].
Defined.
