(* ===== verification/KsvcTypes.v ===== *)
(** * KSVC: entries, tiers and the interfaces of its components

    Models the crate [ksvc-core] and the small components of [ksvc-module]:
    the entries that travel through the rings, the tiers a system call can be
    handled by, the error type, the traits every component is written against
    (one class per trait), the buffer provider [heap_buffers.rs] and the
    notifier [eventfd_notifier.rs].  The result of a system call or of an
    allocation is an argument of the operation that makes it. *)

From stdpp Require Import pretty.
From S2P Require Import Prelude.

(** The [libc] error numbers the crates name (x86-64 Linux). *)
Module libc.
Definition EAGAIN : Z := 11.
Definition ENOSYS : Z := 38.
Definition EINTR : Z := 4.
End libc.

(** ** [entry.rs] *)

(** A correlation id is the id of the GVThread that waits. *)
Module CorrId.
Definition NONE : Z := U64_MAX.
Definition from_gvthread_id (id : Z) : Z := id.
Definition as_gvthread_id (c : Z) : Z := wrap 32 c.
End CorrId.

Module SubmitEntry.
Record t : Type := mk {
  corr_id : Z;
  syscall_nr : Z;
  flags : Z;
  args : list Z
}.
#[global] Instance eq_dec : EqDecision t.
Proof. solve_decision. Defined.
End SubmitEntry.

Module CompletionEntry.
Record t : Type := mk {
  corr_id : Z;
  result : Z;
  flags : Z;
  pad : Z
}.
#[global] Instance eq_dec : EqDecision t.
Proof. solve_decision. Defined.
End CompletionEntry.

Module submit_flags.
Definition LINKED : Z := Z.shiftl 1 0.
Definition DRAIN : Z := Z.shiftl 1 1.
End submit_flags.

Module comp_flags.
Definition MORE : Z := Z.shiftl 1 0.
End comp_flags.

(** ** [error.rs] *)
Module KsvcError.
Inductive t : Type :=
| RingFull
| IoUringSubmit (errno : Z)
| IoUringSetup (errno : Z)
| WorkerUnavailable
| Unsupported (nr : Z)
| NotInitialized
| MmapFailed (errno : Z)
| IoctlFailed (errno : Z)
| Os (errno : Z).

#[global] Instance eq_dec : EqDecision t.
Proof. solve_decision. Defined.

Definition display (e : t) : string :=
  match e with
  | RingFull => "ring full"
  | IoUringSubmit e => "io_uring submit: errno " +:+ pretty e
  | IoUringSetup e => "io_uring setup: errno " +:+ pretty e
  | WorkerUnavailable => "worker pool unavailable"
  | Unsupported nr => "unsupported syscall " +:+ pretty nr
  | NotInitialized => "KSVC instance not initialized"
  | MmapFailed e => "mmap failed: errno " +:+ pretty e
  | IoctlFailed e => "ioctl failed: errno " +:+ pretty e
  | Os e => "OS error: errno " +:+ pretty e
  end.
End KsvcError.

Abbreviation KResult A := (Result A KsvcError.t).

(** ** [tier.rs] and [router.rs] *)
Module Tier.
Inductive t : Type := SharedPage | IoUring | WorkerPool | Legacy.

#[global] Instance eq_dec : EqDecision t.
Proof. solve_decision. Defined.

Definition to_u8 (t : t) : Z :=
  match t with SharedPage => 0 | IoUring => 1 | WorkerPool => 2 | Legacy => 3 end.
End Tier.

Module RouteInfo.
Record t : Type := mk { tier : Tier.t; iouring_opcode : Z }.

#[global] Instance eq_dec : EqDecision t.
Proof. solve_decision. Defined.

Definition LEGACY : t := mk Tier.Legacy 0.
Definition iouring (opcode : Z) : t := mk Tier.IoUring opcode.
Definition worker : t := mk Tier.WorkerPool 0.
Definition shared_page : t := mk Tier.SharedPage 0.
End RouteInfo.

Module TierCounts.
Record t : Type := mk { tier0 : Z; tier1 : Z; tier2 : Z; tier3 : Z }.
Definition default : t := mk 0 0 0 0.

Definition count (c : t) (ti : Tier.t) : t :=
  match ti with
  | Tier.SharedPage => mk (tier0 c + 1) (tier1 c) (tier2 c) (tier3 c)
  | Tier.IoUring => mk (tier0 c) (tier1 c + 1) (tier2 c) (tier3 c)
  | Tier.WorkerPool => mk (tier0 c) (tier1 c) (tier2 c + 1) (tier3 c)
  | Tier.Legacy => mk (tier0 c) (tier1 c) (tier2 c) (tier3 c + 1)
  end.

Definition total (c : t) : Z := tier0 c + tier1 c + tier2 c + tier3 c.
End TierCounts.

Class SyscallRouter (R : Type) : Type := {
  route : R → Z → RouteInfo.t;
  table_size : R → nat
}.

(** The default method [tier_counts]: one query per table entry. *)
Definition tier_counts `{SyscallRouter R} (r : R) : TierCounts.t :=
  fold_left (λ c nr, TierCounts.count c (RouteInfo.tier (route r (Z.of_nat nr))))
    (seq 0 (table_size r)) TierCounts.default.

(** ** [io_backend.rs] *)
Module IoCompletion.
Record t : Type := mk { corr_id : Z; result : Z; flags : Z }.
#[global] Instance eq_dec : EqDecision t.
Proof. solve_decision. Defined.
End IoCompletion.

(** [poll_completions(&mut buf, max)] is given the length of the buffer and
    returns the completions it has written to the front of it; their number is
    the method's result. *)
Class IoBackend (B : Type) : Type := {
  io_submit : B → SubmitEntry.t → KResult unit * B;
  io_flush : B → KResult Z * B;
  io_poll_completions : B → nat → nat → list IoCompletion.t * B;
  io_cancel : B → Z → KResult unit * B;
  io_inflight : B → Z;
  io_capacity : B → Z;
  io_probe_opcodes : B → list Z;
  io_shutdown : B → B
}.

(** ** [worker.rs] *)
Module WorkerCompletion.
Record t : Type := mk { corr_id : Z; result : Z }.
#[global] Instance eq_dec : EqDecision t.
Proof. solve_decision. Defined.
End WorkerCompletion.

Class WorkerPool (W : Type) : Type := {
  wp_enqueue : W → SubmitEntry.t → KResult unit * W;
  wp_poll_completions : W → nat → nat → list WorkerCompletion.t * W;
  wp_active_workers : W → Z;
  wp_total_workers : W → Z;
  wp_max_workers : W → Z;
  wp_shutdown : W → W
}.

(** ** [notifier.rs] *)
Class Notifier (N : Type) : Type := {
  notify : N → KResult unit * N
}.

(** ** [completion.rs] *)
Class CompletionSink (Snk : Type) : Type := {
  sink_push : Snk → Z → Z → Z → KResult unit * Snk;
  sink_flush_and_notify : Snk → KResult unit * Snk
}.

(** The default method [push_batch]: it stops at the first error, and the
    entries before it stay pushed. *)
Fixpoint push_batch_from `{CompletionSink Snk} (s : Snk) (entries : list CompletionEntry.t) (count : Z)
    : KResult Z * Snk :=
  match entries with
  | [] => (Ok count, s)
  | e :: rest =>
      match sink_push s (CompletionEntry.corr_id e) (CompletionEntry.result e) (CompletionEntry.flags e) with
      | (Ok _, s') => push_batch_from s' rest (count + 1)
      | (Err err, s') => (Err err, s')
      end
  end.

Definition push_batch `{CompletionSink Snk} (s : Snk) (entries : list CompletionEntry.t) : KResult Z * Snk :=
  push_batch_from s entries 0.

(** ** [buffer.rs] *)
Module BufferHandle.
Record t : Type := mk { ptr : Z; len : Z; buf_index : Z }.
#[global] Instance eq_dec : EqDecision t.
Proof. solve_decision. Defined.
End BufferHandle.

Class BufferProvider (P : Type) : Type := {
  bp_is_registered : P → bool;
  bp_pool_size : P → Z;
  bp_in_use : P → Z
}.

(** ** [heap_buffers.rs] *)
Module HeapBuffers.
Record t : Type := mk { default_size : Z; in_use : Z; total : Z }.

Definition new (default_size : Z) : t := mk default_size 0 0.
Definition default : t := new 8192.

(** The size [acquire] asks [Vec::with_capacity] for. *)
Definition request (h : t) (min_size : Z) : Z := min_size `max` default_size h.

(** [ptr] and [capacity] are those of the vector it gets. *)
Definition acquire (h : t) (ptr capacity : Z) : option BufferHandle.t * t :=
  (Some (BufferHandle.mk ptr capacity (2 ^ 16 - 1)),
   mk (default_size h) (in_use h +[64] 1) (total h +[64] 1)).

(** The freed block is [handle.ptr] with capacity [handle.len]. *)
Definition release (h : t) (handle : BufferHandle.t) : (Z * Z) * t :=
  ((BufferHandle.ptr handle, BufferHandle.len handle),
   mk (default_size h) (in_use h -[64] 1) (total h)).

#[global] Instance provider : BufferProvider t := {
  bp_is_registered _ := false;
  bp_pool_size := total;
  bp_in_use := in_use
}.
End HeapBuffers.

(** ** [eventfd_notifier.rs] *)
Module EventFdNotifier.
Record t : Type := mk { fd : Z; owned : bool }.

Definition new (eventfd : Z) : t := mk eventfd false.

(** [fd] and [errno] are the results of [eventfd(0, NONBLOCK | CLOEXEC)]. *)
Definition create (fd errno : Z) : KResult t :=
  if fd <? 0 then Err (KsvcError.Os errno) else Ok (mk fd true).

(** [ret] and [errno] are the results of the 8-byte [write] of 1. *)
Definition notify_with (ret errno : Z) : KResult unit :=
  if ret <? 0 then
    if errno =? libc.EAGAIN then Ok () else Err (KsvcError.Os errno)
  else Ok ().

(** [drop] returns what it closes. *)
Definition drop (n : t) : list Z * t :=
  if owned n && (0 <=? fd n) then ([fd n], mk (-1) (owned n)) else ([], n).
End EventFdNotifier.

(** An eventfd opened with [EFD_NONBLOCK], as [eventfd(2)] documents it: a
    counter below [2^64 - 1] that a write adds to, or fails with [EAGAIN]. *)
Module EventFd.
Record t : Type := mk { notifier : EventFdNotifier.t; counter : Z }.

Definition write (c v : Z) : (Z * Z) * Z :=
  if c + v <=? U64_MAX - 1 then ((8, 0), c + v) else ((-1, libc.EAGAIN), c).

(** A read takes the whole counter. *)
Definition read (c : Z) : option Z * Z := if c =? 0 then (None, 0) else (Some c, 0).

#[global] Instance eventfd_notifier : Notifier t := {
  notify n :=
    let '((ret, errno), c) := write (counter n) 1 in
    (EventFdNotifier.notify_with ret errno, mk (notifier n) c)
}.
End EventFd.

(** ** Lemmas *)

(** A GVThread id survives the round trip through a correlation id. *)
Lemma corr_id_roundtrip id : in_u 32 id → CorrId.as_gvthread_id (CorrId.from_gvthread_id id) = id.
Proof. apply wrap_small. Qed.

Lemma count_total c ti : TierCounts.total (TierCounts.count c ti) = TierCounts.total c + 1.
Proof. unfold TierCounts.total. destruct ti; simpl; lia. Qed.

(** Every table entry is counted in exactly one tier. *)
Lemma tier_counts_total `{SyscallRouter R} (r : R) :
  TierCounts.total (tier_counts r) = Z.of_nat (table_size r).
Proof.
  unfold tier_counts. rewrite <- (length_seq (table_size r) 0) at 2.
  assert (∀ l c, TierCounts.total (fold_left (λ c nr, TierCounts.count c
    (RouteInfo.tier (route r (Z.of_nat nr)))) l c) = TierCounts.total c + Z.of_nat (length l)) as Hl.
  { induction l as [|nr l IH]; intros c; simpl; [lia|]. rewrite IH, count_total. lia. }
  rewrite Hl. done.
Qed.

(** Notifications are coalesced and never fail: a write that would overflow the
    counter is taken as success, since the reader has one pending. *)
Lemma eventfd_notify_ok n :
  0 ≤ EventFd.counter n →
  ∃ n', notify n = (Ok (), n') ∧ 0 < EventFd.counter n' ∧ EventFd.notifier n' = EventFd.notifier n.
Proof.
  intros H0. simpl. unfold EventFd.write, U64_MAX.
  destruct (Z.leb_spec (EventFd.counter n + 1) (2 ^ 64 - 1 - 1)); eexists; (split; [done|]); simpl; split_and_solve.
Qed.
