(* ===== verification/KsvcRouter.v ===== *)
(** * The routing table

    Models [ksvc-module/src/probe_router.rs]: the io_uring opcodes and system
    call numbers it names, and [ProbeRouter], which builds a table from system
    call number to tier out of the opcodes the kernel reports. *)

From S2P Require Import Prelude KsvcTypes.

(** ** Opcodes of io_uring *)
Module op.
Definition NOP : Z := 0.
Definition READV : Z := 1.
Definition WRITEV : Z := 2.
Definition FSYNC : Z := 3.
Definition READ_FIXED : Z := 4.
Definition WRITE_FIXED : Z := 5.
Definition POLL_ADD : Z := 6.
Definition POLL_REMOVE : Z := 7.
Definition SYNC_FILE_RANGE : Z := 8.
Definition SENDMSG : Z := 9.
Definition RECVMSG : Z := 10.
Definition TIMEOUT : Z := 11.
Definition TIMEOUT_REMOVE : Z := 12.
Definition ACCEPT : Z := 13.
Definition ASYNC_CANCEL : Z := 14.
Definition LINK_TIMEOUT : Z := 15.
Definition CONNECT : Z := 16.
Definition FALLOCATE : Z := 17.
Definition OPENAT : Z := 18.
Definition CLOSE : Z := 19.
Definition FILES_UPDATE : Z := 20.
Definition STATX : Z := 21.
Definition READ : Z := 22.
Definition WRITE : Z := 23.
Definition FADVISE : Z := 24.
Definition MADVISE : Z := 25.
Definition SEND : Z := 26.
Definition RECV : Z := 27.
Definition OPENAT2 : Z := 28.
Definition EPOLL_CTL : Z := 29.
Definition SPLICE : Z := 30.
Definition PROVIDE_BUFFERS : Z := 31.
Definition REMOVE_BUFFERS : Z := 32.
Definition TEE : Z := 33.
Definition SHUTDOWN : Z := 34.
Definition RENAMEAT : Z := 35.
Definition UNLINKAT : Z := 36.
Definition MKDIRAT : Z := 37.
Definition SYMLINKAT : Z := 38.
Definition LINKAT : Z := 39.
Definition MSG_RING : Z := 40.
Definition FSETXATTR : Z := 41.
Definition SETXATTR : Z := 42.
Definition FGETXATTR : Z := 43.
Definition GETXATTR : Z := 44.
Definition SOCKET : Z := 45.
Definition URING_CMD : Z := 46.
Definition SEND_ZC : Z := 47.
Definition SENDMSG_ZC : Z := 48.
Definition WAITID : Z := 53.
Definition FUTEX_WAIT : Z := 54.
Definition FUTEX_WAKE : Z := 55.
Definition FUTEX_WAITV : Z := 56.
Definition FIXED_FD_INSTALL : Z := 57.
Definition FTRUNCATE : Z := 58.
Definition BIND : Z := 59.
Definition LISTEN : Z := 60.

(** The module, with the names of the source. *)
Definition constants : list (string * Z) :=
  [("NOP", NOP); ("READV", READV); ("WRITEV", WRITEV); ("FSYNC", FSYNC); ("READ_FIXED", READ_FIXED);
   ("WRITE_FIXED", WRITE_FIXED); ("POLL_ADD", POLL_ADD); ("POLL_REMOVE", POLL_REMOVE);
   ("SYNC_FILE_RANGE", SYNC_FILE_RANGE); ("SENDMSG", SENDMSG); ("RECVMSG", RECVMSG); ("TIMEOUT", TIMEOUT);
   ("TIMEOUT_REMOVE", TIMEOUT_REMOVE); ("ACCEPT", ACCEPT); ("ASYNC_CANCEL", ASYNC_CANCEL);
   ("LINK_TIMEOUT", LINK_TIMEOUT); ("CONNECT", CONNECT); ("FALLOCATE", FALLOCATE); ("OPENAT", OPENAT);
   ("CLOSE", CLOSE); ("FILES_UPDATE", FILES_UPDATE); ("STATX", STATX); ("READ", READ); ("WRITE", WRITE);
   ("FADVISE", FADVISE); ("MADVISE", MADVISE); ("SEND", SEND); ("RECV", RECV); ("OPENAT2", OPENAT2);
   ("EPOLL_CTL", EPOLL_CTL); ("SPLICE", SPLICE); ("PROVIDE_BUFFERS", PROVIDE_BUFFERS);
   ("REMOVE_BUFFERS", REMOVE_BUFFERS); ("TEE", TEE); ("SHUTDOWN", SHUTDOWN); ("RENAMEAT", RENAMEAT);
   ("UNLINKAT", UNLINKAT); ("MKDIRAT", MKDIRAT); ("SYMLINKAT", SYMLINKAT); ("LINKAT", LINKAT);
   ("MSG_RING", MSG_RING); ("FSETXATTR", FSETXATTR); ("SETXATTR", SETXATTR); ("FGETXATTR", FGETXATTR);
   ("GETXATTR", GETXATTR); ("SOCKET", SOCKET); ("URING_CMD", URING_CMD); ("SEND_ZC", SEND_ZC);
   ("SENDMSG_ZC", SENDMSG_ZC); ("WAITID", WAITID); ("FUTEX_WAIT", FUTEX_WAIT); ("FUTEX_WAKE", FUTEX_WAKE);
   ("FUTEX_WAITV", FUTEX_WAITV); ("FIXED_FD_INSTALL", FIXED_FD_INSTALL); ("FTRUNCATE", FTRUNCATE);
   ("BIND", BIND); ("LISTEN", LISTEN)].
End op.

(** ** System call numbers of x86-64 Linux *)
Module nr.
Definition READ : Z := 0.
Definition WRITE : Z := 1.
Definition OPEN : Z := 2.
Definition CLOSE : Z := 3.
Definition STAT : Z := 4.
Definition FSTAT : Z := 5.
Definition LSTAT : Z := 6.
Definition POLL : Z := 7.
Definition LSEEK : Z := 8.
Definition MMAP : Z := 9.
Definition MPROTECT : Z := 10.
Definition MUNMAP : Z := 11.
Definition BRK : Z := 12.
Definition IOCTL : Z := 16.
Definition PREAD64 : Z := 17.
Definition PWRITE64 : Z := 18.
Definition READV : Z := 19.
Definition WRITEV : Z := 20.
Definition ACCESS : Z := 21.
Definition PIPE : Z := 22.
Definition DUP : Z := 32.
Definition DUP2 : Z := 33.
Definition NANOSLEEP : Z := 35.
Definition GETPID : Z := 39.
Definition SOCKET : Z := 41.
Definition CONNECT : Z := 42.
Definition ACCEPT : Z := 43.
Definition SENDTO : Z := 44.
Definition RECVFROM : Z := 45.
Definition SENDMSG : Z := 46.
Definition RECVMSG : Z := 47.
Definition SHUTDOWN : Z := 48.
Definition BIND : Z := 49.
Definition LISTEN : Z := 50.
Definition GETSOCKNAME : Z := 51.
Definition GETPEERNAME : Z := 52.
Definition SETSOCKOPT : Z := 54.
Definition GETSOCKOPT : Z := 55.
Definition CLONE : Z := 56.
Definition FORK : Z := 57.
Definition VFORK : Z := 58.
Definition EXECVE : Z := 59.
Definition EXIT : Z := 60.
Definition WAIT4 : Z := 61.
Definition KILL : Z := 62.
Definition UNAME : Z := 63.
Definition FCNTL : Z := 72.
Definition FLOCK : Z := 73.
Definition FSYNC : Z := 74.
Definition FDATASYNC : Z := 75.
Definition FTRUNCATE : Z := 77.
Definition GETDENTS : Z := 78.
Definition GETCWD : Z := 79.
Definition CHDIR : Z := 80.
Definition FCHDIR : Z := 81.
Definition RENAME : Z := 82.
Definition MKDIR : Z := 83.
Definition RMDIR : Z := 84.
Definition LINK : Z := 86.
Definition UNLINK : Z := 87.
Definition SYMLINK : Z := 88.
Definition READLINK : Z := 89.
Definition CHMOD : Z := 90.
Definition FCHMOD : Z := 91.
Definition CHOWN : Z := 92.
Definition FCHOWN : Z := 93.
Definition UMASK : Z := 95.
Definition GETUID : Z := 102.
Definition SYSLOG : Z := 103.
Definition GETGID : Z := 104.
Definition SETUID : Z := 105.
Definition SETGID : Z := 106.
Definition GETEUID : Z := 107.
Definition GETEGID : Z := 108.
Definition SETPGID : Z := 109.
Definition GETPPID : Z := 110.
Definition GETPGRP : Z := 111.
Definition SETSID : Z := 112.
Definition GETGROUPS : Z := 115.
Definition SIGALTSTACK : Z := 131.
Definition MLOCK : Z := 149.
Definition MUNLOCK : Z := 150.
Definition PRCTL : Z := 157.
Definition ARCH_PRCTL : Z := 158.
Definition SYNC_FILE_RANGE : Z := 277.
Definition SPLICE : Z := 275.
Definition TEE : Z := 276.
Definition FALLOCATE : Z := 285.
Definition ACCEPT4 : Z := 288.
Definition DUP3 : Z := 292.
Definition PIPE2 : Z := 293.
Definition PREADV : Z := 295.
Definition PWRITEV : Z := 296.
Definition SENDMMSG : Z := 307.
Definition RENAMEAT2 : Z := 316.
Definition GETRANDOM : Z := 318.
Definition STATX : Z := 332.
Definition CLONE3 : Z := 435.
Definition OPENAT : Z := 257.
Definition MKDIRAT : Z := 258.
Definition FCHOWNAT : Z := 260.
Definition UNLINKAT : Z := 263.
Definition RENAMEAT : Z := 264.
Definition LINKAT : Z := 265.
Definition SYMLINKAT : Z := 266.
Definition READLINKAT : Z := 267.
Definition FCHMODAT : Z := 268.
Definition FACCESSAT : Z := 269.
Definition UTIMENSAT : Z := 280.
Definition OPENAT2 : Z := 437.
Definition GETDENTS64 : Z := 217.
Definition FADVISE64 : Z := 221.
Definition MADVISE : Z := 28.
Definition GETSID : Z := 124.
Definition EXIT_GROUP : Z := 231.
Definition EPOLL_CTL : Z := 233.
Definition TGKILL : Z := 234.
Definition WAITID : Z := 247.
Definition FSETXATTR : Z := 190.
Definition FGETXATTR : Z := 193.
Definition SETXATTR : Z := 188.
Definition GETXATTR : Z := 191.
Definition SET_TID_ADDRESS : Z := 218.
Definition SET_ROBUST_LIST : Z := 273.
Definition GETRLIMIT : Z := 97.
Definition SETRLIMIT : Z := 160.
Definition PRLIMIT64 : Z := 302.

(** The module, with the names of the source. *)
Definition constants : list (string * Z) :=
  [("READ", READ); ("WRITE", WRITE); ("OPEN", OPEN); ("CLOSE", CLOSE); ("STAT", STAT); ("FSTAT", FSTAT);
   ("LSTAT", LSTAT); ("POLL", POLL); ("LSEEK", LSEEK); ("MMAP", MMAP); ("MPROTECT", MPROTECT);
   ("MUNMAP", MUNMAP); ("BRK", BRK); ("IOCTL", IOCTL); ("PREAD64", PREAD64); ("PWRITE64", PWRITE64);
   ("READV", READV); ("WRITEV", WRITEV); ("ACCESS", ACCESS); ("PIPE", PIPE); ("DUP", DUP); ("DUP2", DUP2);
   ("NANOSLEEP", NANOSLEEP); ("GETPID", GETPID); ("SOCKET", SOCKET); ("CONNECT", CONNECT); ("ACCEPT", ACCEPT);
   ("SENDTO", SENDTO); ("RECVFROM", RECVFROM); ("SENDMSG", SENDMSG); ("RECVMSG", RECVMSG);
   ("SHUTDOWN", SHUTDOWN); ("BIND", BIND); ("LISTEN", LISTEN); ("GETSOCKNAME", GETSOCKNAME);
   ("GETPEERNAME", GETPEERNAME); ("SETSOCKOPT", SETSOCKOPT); ("GETSOCKOPT", GETSOCKOPT); ("CLONE", CLONE);
   ("FORK", FORK); ("VFORK", VFORK); ("EXECVE", EXECVE); ("EXIT", EXIT); ("WAIT4", WAIT4); ("KILL", KILL);
   ("UNAME", UNAME); ("FCNTL", FCNTL); ("FLOCK", FLOCK); ("FSYNC", FSYNC); ("FDATASYNC", FDATASYNC);
   ("FTRUNCATE", FTRUNCATE); ("GETDENTS", GETDENTS); ("GETCWD", GETCWD); ("CHDIR", CHDIR); ("FCHDIR", FCHDIR);
   ("RENAME", RENAME); ("MKDIR", MKDIR); ("RMDIR", RMDIR); ("LINK", LINK); ("UNLINK", UNLINK);
   ("SYMLINK", SYMLINK); ("READLINK", READLINK); ("CHMOD", CHMOD); ("FCHMOD", FCHMOD); ("CHOWN", CHOWN);
   ("FCHOWN", FCHOWN); ("UMASK", UMASK); ("GETUID", GETUID); ("SYSLOG", SYSLOG); ("GETGID", GETGID);
   ("SETUID", SETUID); ("SETGID", SETGID); ("GETEUID", GETEUID); ("GETEGID", GETEGID); ("SETPGID", SETPGID);
   ("GETPPID", GETPPID); ("GETPGRP", GETPGRP); ("SETSID", SETSID); ("GETGROUPS", GETGROUPS);
   ("SIGALTSTACK", SIGALTSTACK); ("MLOCK", MLOCK); ("MUNLOCK", MUNLOCK); ("PRCTL", PRCTL);
   ("ARCH_PRCTL", ARCH_PRCTL); ("SYNC_FILE_RANGE", SYNC_FILE_RANGE); ("SPLICE", SPLICE); ("TEE", TEE);
   ("FALLOCATE", FALLOCATE); ("ACCEPT4", ACCEPT4); ("DUP3", DUP3); ("PIPE2", PIPE2); ("PREADV", PREADV);
   ("PWRITEV", PWRITEV); ("SENDMMSG", SENDMMSG); ("RENAMEAT2", RENAMEAT2); ("GETRANDOM", GETRANDOM);
   ("STATX", STATX); ("CLONE3", CLONE3); ("OPENAT", OPENAT); ("MKDIRAT", MKDIRAT); ("FCHOWNAT", FCHOWNAT);
   ("UNLINKAT", UNLINKAT); ("RENAMEAT", RENAMEAT); ("LINKAT", LINKAT); ("SYMLINKAT", SYMLINKAT);
   ("READLINKAT", READLINKAT); ("FCHMODAT", FCHMODAT); ("FACCESSAT", FACCESSAT); ("UTIMENSAT", UTIMENSAT);
   ("OPENAT2", OPENAT2); ("GETDENTS64", GETDENTS64); ("FADVISE64", FADVISE64); ("MADVISE", MADVISE);
   ("GETSID", GETSID); ("EXIT_GROUP", EXIT_GROUP); ("EPOLL_CTL", EPOLL_CTL); ("TGKILL", TGKILL);
   ("WAITID", WAITID); ("FSETXATTR", FSETXATTR); ("FGETXATTR", FGETXATTR); ("SETXATTR", SETXATTR);
   ("GETXATTR", GETXATTR); ("SET_TID_ADDRESS", SET_TID_ADDRESS); ("SET_ROBUST_LIST", SET_ROBUST_LIST);
   ("GETRLIMIT", GETRLIMIT); ("SETRLIMIT", SETRLIMIT); ("PRLIMIT64", PRLIMIT64)].
End nr.

(** ** [ProbeRouter] *)
Module ProbeRouter.

Definition TABLE_SIZE : nat := 512.

Abbreviation table := (list RouteInfo.t).

Record t : Type := mk { tbl : table }.

Definition tier0 : list Z := [
  nr.GETPID; nr.GETPPID; nr.GETUID; nr.GETGID;
  nr.GETEUID; nr.GETEGID; nr.GETSID; nr.UNAME;
  nr.GETPGRP; nr.GETRLIMIT
].

(** (system call, opcode, fall back to the worker pool if unsupported) *)
Definition tier1_candidates : list (Z * Z * bool) := [
  (nr.READ, op.READ, false); (nr.WRITE, op.WRITE, false);
  (nr.PREAD64, op.READ, false); (nr.PWRITE64, op.WRITE, false);
  (nr.READV, op.READV, false); (nr.WRITEV, op.WRITEV, false);
  (nr.PREADV, op.READV, false); (nr.PWRITEV, op.WRITEV, false);
  (nr.OPENAT, op.OPENAT, false); (nr.OPENAT2, op.OPENAT2, false);
  (nr.CLOSE, op.CLOSE, false); (nr.STATX, op.STATX, false);
  (nr.FALLOCATE, op.FALLOCATE, false); (nr.FTRUNCATE, op.FTRUNCATE, false);
  (nr.FSYNC, op.FSYNC, false); (nr.FDATASYNC, op.FSYNC, false);
  (nr.SYNC_FILE_RANGE, op.SYNC_FILE_RANGE, false); (nr.RENAMEAT2, op.RENAMEAT, false);
  (nr.RENAMEAT, op.RENAMEAT, false); (nr.UNLINKAT, op.UNLINKAT, false);
  (nr.MKDIRAT, op.MKDIRAT, false); (nr.SYMLINKAT, op.SYMLINKAT, false);
  (nr.LINKAT, op.LINKAT, false); (nr.FADVISE64, op.FADVISE, false);
  (nr.MADVISE, op.MADVISE, false); (nr.SETXATTR, op.SETXATTR, true);
  (nr.GETXATTR, op.GETXATTR, true); (nr.FSETXATTR, op.FSETXATTR, true);
  (nr.FGETXATTR, op.FGETXATTR, true); (nr.ACCEPT4, op.ACCEPT, false);
  (nr.CONNECT, op.CONNECT, false); (nr.SENDTO, op.SEND, false);
  (nr.RECVFROM, op.RECV, false); (nr.SENDMSG, op.SENDMSG, false);
  (nr.RECVMSG, op.RECVMSG, false); (nr.SHUTDOWN, op.SHUTDOWN, false);
  (nr.SOCKET, op.SOCKET, true); (nr.BIND, op.BIND, true);
  (nr.LISTEN, op.LISTEN, true); (nr.SPLICE, op.SPLICE, false);
  (nr.TEE, op.TEE, false); (nr.WAITID, op.WAITID, true);
  (nr.EPOLL_CTL, op.EPOLL_CTL, false)
].

Definition tier2_always : list Z := [
  nr.DUP; nr.DUP2; nr.DUP3; nr.FCNTL; nr.IOCTL;
  nr.LSEEK; nr.SETSOCKOPT; nr.GETSOCKOPT; nr.GETSOCKNAME; nr.GETPEERNAME;
  nr.GETDENTS64; nr.ACCESS; nr.FACCESSAT; nr.FCHMOD; nr.FCHMODAT;
  nr.FCHOWN; nr.FCHOWNAT; nr.UTIMENSAT; nr.FLOCK; nr.READLINKAT;
  nr.READLINK; nr.PIPE2; nr.GETCWD; nr.GETRANDOM
].

(** Old system calls that share the route of their [*at] version. *)
Definition legacy_to_at : list (Z * Z) := [
  (nr.OPEN, nr.OPENAT); (nr.RENAME, nr.RENAMEAT); (nr.UNLINK, nr.UNLINKAT);
  (nr.MKDIR, nr.MKDIRAT); (nr.SYMLINK, nr.SYMLINKAT); (nr.LINK, nr.LINKAT);
  (nr.RMDIR, nr.UNLINKAT)
].

Definition set_tier0 (tb : table) (s : Z) : outcome table := index_set tb s RouteInfo.shared_page.

Definition set_supported (ops : list bool) (opc : Z) : outcome (list bool) := index_set ops opc true.

Definition set_candidate (ops : list bool) (tb : table) (c : Z * Z * bool) : outcome table :=
  let '(syscall_nr, opcode, tier2_fallback) := c in
  b ← index ops opcode;
  if (b : bool) then index_set tb syscall_nr (RouteInfo.iouring opcode)
  else if tier2_fallback then index_set tb syscall_nr RouteInfo.worker
  else Ret tb.

Definition set_tier2 (tb : table) (s : Z) : outcome table :=
  r ← index tb s;
  if decide (RouteInfo.tier r = Tier.Legacy) then index_set tb s RouteInfo.worker else Ret tb.

(** [table[old] = table[at_ver]] *)
Definition copy_route (tb : table) (c : Z * Z) : outcome table :=
  r ← index tb c.2; index_set tb c.1 r.

Definition new (supported_opcodes : list Z) : outcome t :=
  let tb := replicate TABLE_SIZE RouteInfo.LEGACY in
  tb ← fold_outcome set_tier0 tb tier0;
  ops ← fold_outcome set_supported (replicate 256 false) supported_opcodes;
  tb ← fold_outcome (set_candidate ops) tb tier1_candidates;
  tb ← fold_outcome set_tier2 tb tier2_always;
  tb ← fold_outcome copy_route tb legacy_to_at;
  tb ← copy_route tb (nr.STAT, nr.STATX);
  tb ← copy_route tb (nr.FSTAT, nr.STATX);
  tb ← copy_route tb (nr.LSTAT, nr.STATX);
  Ret (mk tb).

Definition all_opcodes : outcome t := new (seqZ 0 81).
Definition kernel_6_8 : outcome t := new (seqZ 0 (op.FTRUNCATE + 1)).

Definition route (r : t) (syscall_nr : Z) : RouteInfo.t :=
  if syscall_nr <? Z.of_nat TABLE_SIZE then default RouteInfo.LEGACY (tbl r !! Z.to_nat syscall_nr)
  else RouteInfo.LEGACY.

#[global] Instance router : SyscallRouter t := {
  route := route;
  table_size _ := TABLE_SIZE
}.
End ProbeRouter.

(** ** What the table is meant to hold *)

(** [sup] says which opcodes the kernel supports.  The first rule that names
    the system call decides. *)
Definition classify_base (sup : Z → bool) (n : Z) : RouteInfo.t :=
  if existsb (Z.eqb n) ProbeRouter.tier0 then RouteInfo.shared_page
  else match List.find (λ c, c.1.1 =? n) ProbeRouter.tier1_candidates with
  | Some (_, o, fallback) =>
      if sup o then RouteInfo.iouring o
      else if (fallback : bool) then RouteInfo.worker else RouteInfo.LEGACY
  | None =>
      if existsb (Z.eqb n) ProbeRouter.tier2_always then RouteInfo.worker else RouteInfo.LEGACY
  end.

Definition classify (sup : Z → bool) (n : Z) : RouteInfo.t :=
  match List.find (λ c, c.1 =? n) ProbeRouter.legacy_to_at with
  | Some (_, at_version) => classify_base sup at_version
  | None =>
      if existsb (Z.eqb n) [nr.STAT; nr.FSTAT; nr.LSTAT] then classify_base sup nr.STATX
      else classify_base sup n
  end.

(** ** The table as a function *)

Section View.
Context {R : Type}.

(** [v] has the [n] entries [g 0], [g 1], ... *)
Definition represents (n : nat) (v : list R) (g : Z → R) : Prop :=
  length v = n ∧ ∀ k, 0 ≤ k < Z.of_nat n → index v k = Ret (g k).

Definition fn_set (g : Z → R) (k : Z) (x : R) : Z → R := λ j, if j =? k then x else g j.

Lemma represents_set n v g k x :
  represents n v g → 0 ≤ k < Z.of_nat n →
  ∃ v', index_set v k x = Ret v' ∧ represents n v' (fn_set g k x).
Proof.
  intros [Hn Hg] Hk. exists (<[Z.to_nat k := x]> v). split; [apply index_set_Ret; lia|].
  split; [by rewrite length_insert|]. intros j Hj. apply index_Ret. split; [lia|]. unfold fn_set.
  destruct (Z.eqb_spec j k) as [->|]; [apply list_lookup_insert_eq; lia|].
  rewrite list_lookup_insert_ne by lia. by apply index_Ret, Hg.
Qed.

Lemma represents_replicate n x : represents n (replicate n x) (λ _, x).
Proof.
  split; [apply length_replicate|]. intros k Hk. apply index_Ret. split; [lia|]. apply lookup_replicate_2. lia.
Qed.

Lemma represents_lookup n v g k :
  represents n v g → 0 ≤ k < Z.of_nat n → v !! Z.to_nat k = Some (g k).
Proof. intros [_ Hg] Hk. by apply index_Ret, Hg. Qed.

(** A loop that keeps the representation does so for all its turns. *)
Lemma represents_fold {A} n (f : list R → A → outcome (list R)) (u : (Z → R) → A → Z → R) l v g :
  (∀ x v g, x ∈ l → represents n v g → ∃ v', f v x = Ret v' ∧ represents n v' (u g x)) →
  represents n v g → ∃ v', fold_outcome f v l = Ret v' ∧ represents n v' (fold_left u l g).
Proof.
  revert v g. induction l as [|x l IH]; intros v g Hf Hv; simpl; [eauto|].
  destruct (Hf x v g ltac:(set_solver) Hv) as (v' & -> & Hv'). simpl.
  apply IH; [|done]. intros. apply Hf; [set_solver|done].
Qed.
End View.

(** The turns of the loops, on functions. *)
Definition fn_tier0 (g : Z → RouteInfo.t) (s : Z) := fn_set g s RouteInfo.shared_page.
Definition fn_candidate (sup : Z → bool) (g : Z → RouteInfo.t) (c : Z * Z * bool) :=
  fn_set g c.1.1 (if sup c.1.2 then RouteInfo.iouring c.1.2
                  else if (c.2 : bool) then RouteInfo.worker else g c.1.1).
Definition fn_tier2 (g : Z → RouteInfo.t) (s : Z) :=
  fn_set g s (if decide (RouteInfo.tier (g s) = Tier.Legacy) then RouteInfo.worker else g s).
Definition fn_copy (g : Z → RouteInfo.t) (c : Z * Z) := fn_set g c.1 (g c.2).

Definition fn_new (sup : Z → bool) : Z → RouteInfo.t :=
  let g := fold_left fn_tier0 ProbeRouter.tier0 (λ _, RouteInfo.LEGACY) in
  let g := fold_left (fn_candidate sup) ProbeRouter.tier1_candidates g in
  let g := fold_left fn_tier2 ProbeRouter.tier2_always g in
  fold_left fn_copy (ProbeRouter.legacy_to_at ++
    [(nr.STAT, nr.STATX); (nr.FSTAT, nr.STATX); (nr.LSTAT, nr.STATX)]) g.

(** ** Lemmas *)

Abbreviation size := ProbeRouter.TABLE_SIZE.

(** Side conditions: every constant index is within its array. *)
Ltac in_table P l :=
  intros; apply (Forall_forall P l); [|assumption]; apply (bool_decide_unpack _); vm_compute; exact I.

Lemma in_range_tier0 s : s ∈ ProbeRouter.tier0 → 0 ≤ s < Z.of_nat size.
Proof. in_table (λ k, 0 ≤ k < Z.of_nat size) ProbeRouter.tier0. Qed.

Lemma in_range_tier2 s : s ∈ ProbeRouter.tier2_always → 0 ≤ s < Z.of_nat size.
Proof. in_table (λ k, 0 ≤ k < Z.of_nat size) ProbeRouter.tier2_always. Qed.

Definition copies : list (Z * Z) :=
  ProbeRouter.legacy_to_at ++ [(nr.STAT, nr.STATX); (nr.FSTAT, nr.STATX); (nr.LSTAT, nr.STATX)].

Lemma in_range_copies c : c ∈ copies → 0 ≤ c.1 < Z.of_nat size ∧ 0 ≤ c.2 < Z.of_nat size.
Proof. in_table (λ c : Z * Z, 0 ≤ c.1 < Z.of_nat size ∧ 0 ≤ c.2 < Z.of_nat size) copies. Qed.

Lemma in_range_candidates c :
  c ∈ ProbeRouter.tier1_candidates → 0 ≤ c.1.1 < Z.of_nat size ∧ 0 ≤ c.1.2 < 256.
Proof.
  in_table (λ c : Z * Z * bool, 0 ≤ c.1.1 < Z.of_nat size ∧ 0 ≤ c.1.2 < 256) ProbeRouter.tier1_candidates.
Qed.

Lemma supported_spec supported :
  Forall (in_u 8) supported →
  ∃ ops, fold_outcome ProbeRouter.set_supported (replicate 256 false) supported = Ret ops ∧
    represents 256 ops (λ o, bool_decide (o ∈ supported)).
Proof.
  intros Hs. destruct (represents_fold 256 ProbeRouter.set_supported (λ g o, fn_set g o true)
    supported (replicate 256 false) (λ _, false)) as (ops & Hops & Hr).
  - intros o v g Ho Hv. apply represents_set; [done|].
    rewrite Forall_forall in Hs. apply (Hs o Ho).
  - apply represents_replicate.
  - exists ops. split; [done|]. destruct Hr as [Hl Hr]. split; [done|]. intros k Hk. rewrite Hr by done. f_equal.
    clear -k. assert (∀ l g, fold_left (λ (g : Z → bool) o, fn_set g o true) l g k = bool_decide (k ∈ l) || g k) as H.
    { induction l as [|o l IH]; intros g; simpl.
      - done.
      - rewrite IH. unfold fn_set. destruct (Z.eqb_spec k o) as [->|].
        + rewrite orb_true_r. symmetry. rewrite bool_decide_eq_true_2 by set_solver. done.
        + destruct (decide (k ∈ l)).
          * by rewrite !bool_decide_eq_true_2 by set_solver.
          * by rewrite !bool_decide_eq_false_2 by set_solver. }
    by rewrite H, orb_false_r.
Qed.

Lemma set_candidate_view ops sup c v g :
  c ∈ ProbeRouter.tier1_candidates → represents 256 ops sup → represents size v g →
  ∃ v', ProbeRouter.set_candidate ops v c = Ret v' ∧ represents size v' (fn_candidate sup g c).
Proof.
  intros Hc Hops Hv. destruct (in_range_candidates c Hc) as [Hn Ho]. destruct c as [[n o] fb].
  unfold ProbeRouter.set_candidate, fn_candidate. simpl in *.
  rewrite (proj2 Hops o Ho). simpl. destruct (sup o); [by apply represents_set|].
  destruct fb; [by apply represents_set|]. exists v. split; [done|]. destruct Hv as [Hl Hg]. split; [done|].
  intros k Hk. rewrite Hg by done. unfold fn_set. by destruct (Z.eqb_spec k n) as [->|].
Qed.

Lemma set_tier2_view s v g :
  s ∈ ProbeRouter.tier2_always → represents size v g →
  ∃ v', ProbeRouter.set_tier2 v s = Ret v' ∧ represents size v' (fn_tier2 g s).
Proof.
  intros Hs Hv. apply in_range_tier2 in Hs. unfold ProbeRouter.set_tier2, fn_tier2.
  rewrite (proj2 Hv s Hs). simpl. case_decide; [by apply represents_set|].
  exists v. split; [done|]. destruct Hv as [Hl Hg]. split; [done|].
  intros k Hk. rewrite Hg by done. unfold fn_set. by destruct (Z.eqb_spec k s) as [->|].
Qed.

Lemma copy_route_view c v g :
  c ∈ copies → represents size v g →
  ∃ v', ProbeRouter.copy_route v c = Ret v' ∧ represents size v' (fn_copy g c).
Proof.
  intros [Hc1 Hc2]%in_range_copies Hv. unfold ProbeRouter.copy_route, fn_copy.
  rewrite (proj2 Hv _ Hc2). simpl. by apply represents_set.
Qed.

Lemma fold_outcome_app {A B} (f : B → A → outcome B) b l1 l2 :
  fold_outcome f b (l1 ++ l2) = (b' ← fold_outcome f b l1; fold_outcome f b' l2).
Proof. revert b. induction l1 as [|x l1 IH]; intros b; simpl; [done|]. destruct (f b x); simpl; [apply IH|done]. Qed.

Lemma new_represents supported :
  Forall (in_u 8) supported →
  ∃ tb, ProbeRouter.new supported = Ret (ProbeRouter.mk tb) ∧
    represents size tb (fn_new (λ o, bool_decide (o ∈ supported))).
Proof.
  intros Hs. destruct (supported_spec supported Hs) as (ops & Hops & Hrops).
  destruct (represents_fold size ProbeRouter.set_tier0 fn_tier0 ProbeRouter.tier0
    (replicate size RouteInfo.LEGACY) (λ _, RouteInfo.LEGACY)) as (t0 & H0 & Hr0);
    [intros; apply represents_set; [done|by apply in_range_tier0]|apply represents_replicate|].
  destruct (represents_fold size (ProbeRouter.set_candidate ops) (fn_candidate (λ o, bool_decide (o ∈ supported)))
    ProbeRouter.tier1_candidates t0 _ (λ x v g Hx, set_candidate_view ops _ x v g Hx Hrops) Hr0) as (t1 & H1 & Hr1).
  destruct (represents_fold size ProbeRouter.set_tier2 fn_tier2 ProbeRouter.tier2_always t1 _ set_tier2_view Hr1)
    as (t2 & H2 & Hr2).
  destruct (represents_fold size ProbeRouter.copy_route fn_copy copies t2 _ copy_route_view Hr2) as (t3 & H3 & Hr3).
  exists t3. split; [|done]. unfold copies in H3. rewrite fold_outcome_app in H3. unfold ProbeRouter.new.
  rewrite H0. cbn [mbind outcome_bind]. rewrite Hops. cbn [mbind outcome_bind]. rewrite H1. cbn [mbind outcome_bind].
  rewrite H2. cbn [mbind outcome_bind].
  destruct (fold_outcome ProbeRouter.copy_route t2 ProbeRouter.legacy_to_at) as [t'|]; [|done].
  cbn [mbind outcome_bind fold_outcome] in H3 |- *.
  repeat (destruct (ProbeRouter.copy_route _ _) as [?|]; [|done]; cbn [mbind outcome_bind] in H3 |- *).
  by injection H3 as ->.
Qed.

(** The loops compute the classification, for every system call of the table. *)
Lemma fn_new_classify sup k : 0 ≤ k < Z.of_nat size → fn_new sup k = classify sup k.
Proof.
  intros Hk. assert (fn_new sup <$> seqZ 0 (Z.of_nat size) = classify sup <$> seqZ 0 (Z.of_nat size)) as H
    by (vm_compute; reflexivity).
  assert (k ∈ seqZ 0 (Z.of_nat size)) as Hin by (apply elem_of_seqZ; lia).
  apply list_elem_of_lookup in Hin as [i Hi]. apply (f_equal (lookup i)) in H.
  rewrite !list_lookup_fmap, Hi in H. by injection H.
Qed.

Lemma new_routes supported :
  Forall (in_u 8) supported →
  ∃ r, ProbeRouter.new supported = Ret r ∧
    ∀ n, 0 ≤ n → route r n =
      if n <? Z.of_nat size then classify (λ o, bool_decide (o ∈ supported)) n else RouteInfo.LEGACY.
Proof.
  intros Hs. destruct (new_represents supported Hs) as (tb & Hnew & Hr). exists (ProbeRouter.mk tb).
  split; [done|]. intros n Hn. cbn [route ProbeRouter.router]. unfold ProbeRouter.route. cbn [ProbeRouter.tbl].
  destruct (Z.ltb_spec n (Z.of_nat size)); [|done].
  rewrite (represents_lookup _ _ _ n Hr) by lia. apply fn_new_classify. lia.
Qed.

Lemma classify_base_promotes (sup sup' : Z → bool) n :
  (∀ o, sup o = true → sup' o = true) →
  classify_base sup' n = classify_base sup n ∨
  (RouteInfo.tier (classify_base sup' n) = Tier.IoUring ∧
   (RouteInfo.tier (classify_base sup n) = Tier.WorkerPool ∨ RouteInfo.tier (classify_base sup n) = Tier.Legacy)).
Proof.
  intros Hsup. unfold classify_base. destruct (existsb _ ProbeRouter.tier0); [by left|].
  destruct (List.find _ _) as [[[m o] fb]|]; [|by left]. specialize (Hsup o).
  destruct (sup o); [rewrite Hsup by done; by left|]. destruct (sup' o); [right|by left].
  split; [done|]. destruct fb; auto.
Qed.

(** ** Theorems *)


(** A newer kernel only promotes: with more opcodes a route is unchanged, or it
    moves from the worker pool or the caller to io_uring. *)
Theorem router_promotes supported supported' :
  Forall (in_u 8) supported → Forall (in_u 8) supported' → supported ⊆ supported' →
  ∃ r r', ProbeRouter.new supported = Ret r ∧ ProbeRouter.new supported' = Ret r' ∧
    ∀ n, 0 ≤ n → route r' n = route r n ∨
      (RouteInfo.tier (route r' n) = Tier.IoUring ∧
       (RouteInfo.tier (route r n) = Tier.WorkerPool ∨ RouteInfo.tier (route r n) = Tier.Legacy)).
Proof.
  intros Hs Hs' Hsub. destruct (new_routes _ Hs) as (r & -> & Hr), (new_routes _ Hs') as (r' & -> & Hr').
  exists r, r'. do 2 (split; [done|]). intros n Hn. rewrite Hr, Hr' by done.
  destruct (n <? Z.of_nat size); [|by left].
  assert (∀ o, bool_decide (o ∈ supported) = true → bool_decide (o ∈ supported') = true) as Hp
    by (intros o; rewrite !bool_decide_eq_true; auto).
  unfold classify. destruct (List.find _ _) as [[m a]|]; [by apply classify_base_promotes|].
  destruct (existsb _ _); by apply classify_base_promotes.
Qed.

(** The counts of the two tables the crate's tests use. *)
Lemma kernel_6_8_counts :
  (r ← ProbeRouter.kernel_6_8; Ret (tier_counts r)) = Ret (TierCounts.mk 10 51 26 425) ∧
  (r ← ProbeRouter.all_opcodes; Ret (tier_counts r)) = Ret (TierCounts.mk 10 53 24 425).
Proof. split; vm_compute; reflexivity. Qed.

(** ** Witnesses *)


Lemma router_promotes_witness :
  ∃ r r', ProbeRouter.kernel_6_8 = Ret r ∧ ProbeRouter.all_opcodes = Ret r' ∧
    (route r' nr.BIND = route r nr.BIND ∨
      (RouteInfo.tier (route r' nr.BIND) = Tier.IoUring ∧
       (RouteInfo.tier (route r nr.BIND) = Tier.WorkerPool ∨ RouteInfo.tier (route r nr.BIND) = Tier.Legacy))).
Proof.
  destruct (router_promotes (seqZ 0 (op.FTRUNCATE + 1)) (seqZ 0 81)) as (r & r' & Hr & Hr' & Hn).
  1,2: apply (bool_decide_unpack _); vm_compute; exact I.
  { intros o. rewrite !elem_of_seqZ. change (op.FTRUNCATE + 1) with 59. lia. }
  exists r, r'. split; [exact Hr|]. split; [exact Hr'|]. apply Hn. vm_compute. discriminate.
Defined.
