(* ===== verification/KsvcRing.v ===== *)
(** * The KSVC rings

    Models the rings that user space, the dispatcher and the kernel module
    share: [ksvc-module/src/ksvc_sys.rs] (constants and layouts),
    [submit_ring.rs] (the multi-producer submit ring), [ring_completion.rs]
    (the completion sink) and the two ring structs of
    [ksvc-executor/src/lib.rs].  [RingPool] has the atomic steps of concurrent
    producers and of the consumer of the submit ring.

    A mapped region is its header words [head] and [tail] and the entries at
    byte offsets from its base.  Plain [+] and [-] on integers wrap, as they do
    in the release profile. *)

From S2P Require Import Prelude Metadata KsvcTypes.

(** ** [ksvc_sys.rs] *)
Module ksvc_sys.
Definition KSVC_MAGIC : Z := 0x4B535643.
Definition KSVC_RING_MAGIC : Z := 0x4B52494E.
Definition KSVC_SHARED_MAGIC : Z := 0x4B534850.
Definition KSVC_VERSION : Z := 2.

Definition KSVC_OFF_SUBMIT_RING : Z := 0.
Definition KSVC_OFF_COMPLETE_RING : Z := 0x100000.
Definition KSVC_OFF_SHARED_PAGE : Z := 0x200000.

Definition KSVC_MAX_RING_ENTRIES : Z := 4096.
Definition KSVC_MIN_RING_ENTRIES : Z := 16.
Definition KSVC_MAX_BATCH : Z := 64.

Record KsvcCreateParams : Type := mkParams {
  submit_ring_entries : Z;
  complete_ring_entries : Z;
  flags : Z;
  eventfd : Z;
  reserved : list Z
}.
Definition default_params : KsvcCreateParams := mkParams 256 256 0 (-1) (replicate 4 0).

(** [KsvcEntry] and [KsvcCompletion] have the fields of [SubmitEntry] and
    [CompletionEntry], with [CorrId] as a plain [u64]. *)
Definition entry_zeroed : SubmitEntry.t := SubmitEntry.mk 0 0 0 (replicate 6 0).
Definition completion_zeroed : CompletionEntry.t := CompletionEntry.mk 0 0 0 0.

Definition entry_fields : list Layout.field :=
  [Layout.u64 "corr_id"; Layout.u32 "syscall_nr"; Layout.u32 "flags"; Layout.Field "args" (6 * 8) 8].
Definition completion_fields : list Layout.field :=
  [Layout.u64 "corr_id"; Layout.u64 "result"; Layout.u32 "flags"; Layout.u32 "_pad"].
Definition header_fields : list Layout.field :=
  [Layout.u32 "magic"; Layout.u32 "ring_size"; Layout.u32 "mask"; Layout.u32 "entry_size";
   Layout.u64 "head"; Layout.u64 "tail"; Layout.Field "_reserved" (3 * 8) 8].

Definition entry_size : Z := Layout.size_of 64 entry_fields.
Definition completion_size : Z := Layout.size_of 32 completion_fields.
Definition header_size : Z := Layout.size_of 64 header_fields.

Record KsvcRingHeader : Type := mkHeader {
  magic : Z; ring_size : Z; mask : Z; hdr_entry_size : Z
}.
End ksvc_sys.

(** The words and entries of a mapped ring. *)
Record region (A : Type) : Type := mkRegion { head : Z; tail : Z; cells : Z → A }.
Arguments mkRegion {A} head tail cells.
Arguments head {A} r.
Arguments tail {A} r.
Arguments cells {A} r.

Definition with_head {A} (r : region A) (h : Z) : region A := mkRegion h (tail r) (cells r).
Definition with_tail {A} (r : region A) (t : Z) : region A := mkRegion (head r) t (cells r).
Definition with_cell {A} (r : region A) (off : Z) (x : A) : region A :=
  mkRegion (head r) (tail r) (λ o, if o =? off then x else cells r o).

Definition is_power_of_two (n : Z) : bool := (0 <? n) && (Z.land n (n - 1) =? 0).

(** ** [submit_ring.rs] *)
Module SubmitRing.
Record t : Type := mk { mmap_len : Z; mask : Z; ring_size : Z }.

Inductive RingFullError : Type := RingFull.

Definition from_mmap (null : bool) (h : ksvc_sys.KsvcRingHeader) (mmap_len : Z) : Result t string :=
  if null then Err "null base pointer"
  else if negb (ksvc_sys.magic h =? ksvc_sys.KSVC_RING_MAGIC) then Err "bad ring magic"
  else
    let ring_size := ksvc_sys.ring_size h in
    let mask := ksvc_sys.mask h in
    if (ring_size =? 0) || negb (Z.land ring_size (ring_size - 1) =? 0) then Err "ring_size not power of 2"
    else if negb (mask =? ring_size - 1) then Err "mask mismatch"
    else if negb (ksvc_sys.hdr_entry_size h =? ksvc_sys.entry_size) then Err "entry_size mismatch"
    else Ok (mk mmap_len mask ring_size).

(** The byte offset of the entry at position [p]: the data starts at page 1. *)
Definition slot (r : t) (p : Z) : Z := 4096 + ksvc_sys.entry_size * Z.land (wrap 32 p) (mask r).

(** One turn of [try_push] that nobody interferes with: full, or claimed
    and written. *)
Definition push_once (r : t) (m : region SubmitEntry.t) (e : SubmitEntry.t)
    : Result unit RingFullError * region SubmitEntry.t :=
  let tl := tail m in
  let hd := head m in
  if ring_size r <=? tl -[64] hd then (Err RingFull, m)
  else (Ok (), with_cell (with_tail m (tl +[64] 1)) (slot r tl) e).

(** [try_push]: the weak compare-exchange may fail without cause and send the
    loop back; [spurious] is how often it does. *)
Fixpoint try_push (spurious : nat) (r : t) (m : region SubmitEntry.t) (e : SubmitEntry.t)
    : Result unit RingFullError * region SubmitEntry.t :=
  match spurious with
  | O => push_once r m e
  | S n => if ring_size r <=? tail m -[64] head m then (Err RingFull, m) else try_push n r m e
  end.

Definition submit (spurious : nat) (r : t) (m : region SubmitEntry.t) (corr_id syscall_nr : Z) (args : list Z) :=
  try_push spurious r m (SubmitEntry.mk corr_id syscall_nr 0 args).

(** [dequeue_batch(buf, max)] returns what it has put into the buffer. *)
Definition dequeue_batch (r : t) (m : region SubmitEntry.t) (buf_len max : nat)
    : list SubmitEntry.t * region SubmitEntry.t :=
  let hd := head m in
  let available := Z.to_nat (tail m -[64] hd) in
  let count := ((available `min` max) `min` buf_len)%nat in
  let out := (λ i : nat, cells m (slot r (hd +[64] Z.of_nat i))) <$> seq 0 count in
  (out, if (0 <? count)%nat then with_head m (hd +[64] Z.of_nat count) else m).

Definition is_empty (m : region SubmitEntry.t) : bool := head m =? tail m.
Definition len (m : region SubmitEntry.t) : Z := tail m -[64] head m.
Definition capacity (r : t) : Z := ring_size r.

(** [Drop::drop] returns the length it unmaps, if any. *)
Definition on_drop (null : bool) (r : t) : option Z :=
  if negb null && (0 <? mmap_len r) then Some (mmap_len r) else None.
End SubmitRing.

(** ** The rings of the executor *)
Module ExecSubmitRing.
Record t : Type := mk { size : Z; mask : Z; local_head : Z }.

Definition new (m : region SubmitEntry.t) (size : Z) : outcome t :=
  if is_power_of_two size then Ret (mk size (size - 1) (head m)) else Panic.

(** The entries are taken to follow the 64-byte header. *)
Definition slot (r : t) (p : Z) : Z := 64 + ksvc_sys.entry_size * Z.land p (mask r).

Fixpoint read_loop (r : t) (m : region SubmitEntry.t) (count : nat) : list SubmitEntry.t * t :=
  match count with
  | O => ([], r)
  | S n =>
      let e := cells m (slot r (local_head r)) in
      let '(es, r') := read_loop (mk (size r) (mask r) (local_head r +[64] 1)) m n in
      (e :: es, r')
  end.

Definition dequeue_batch (r : t) (m : region SubmitEntry.t) (buf_len max : nat)
    : list SubmitEntry.t * t * region SubmitEntry.t :=
  let available := Z.to_nat (tail m -[64] local_head r) in
  let count := ((available `min` max) `min` buf_len)%nat in
  let '(es, r') := read_loop r m count in
  (es, r', if (0 <? count)%nat then with_head m (local_head r') else m).
End ExecSubmitRing.

Module CompletionRing.
Record t : Type := mk { size : Z; mask : Z; local_tail : Z; completions_written : Z }.

Definition new (m : region CompletionEntry.t) (size : Z) : outcome t :=
  if is_power_of_two size then Ret (mk size (size - 1) (tail m) 0) else Panic.

Definition slot (r : t) (p : Z) : Z := 64 + ksvc_sys.completion_size * Z.land p (mask r).

Definition available (r : t) (m : region CompletionEntry.t) : Z :=
  size r -[32] wrap 32 (local_tail r -[64] head m).

Definition push (r : t) (m : region CompletionEntry.t) (corr_id result flags : Z)
    : bool * t * region CompletionEntry.t :=
  if available r m =? 0 then (false, r, m)
  else
    (true,
     mk (size r) (mask r) (local_tail r +[64] 1) (completions_written r +[32] 1),
     with_cell m (slot r (local_tail r)) (CompletionEntry.mk corr_id result flags 0)).

Definition flush (r : t) (m : region CompletionEntry.t) : Z * t * region CompletionEntry.t :=
  let n := completions_written r in
  if 0 <? n then (n, mk (size r) (mask r) (local_tail r) 0, with_tail m (local_tail r)) else (n, r, m).
End CompletionRing.

(** ** [ring_completion.rs] *)
Module RingCompletionSink.
Section Sink.
Context {N : Type} `{!Notifier N}.

(** The sink and the ring it writes to. *)
Record t : Type := mk {
  mem : region CompletionEntry.t;
  size : Z; mask : Z; local_tail : Z; buffered : Z; notifier : N
}.

Definition new (m : region CompletionEntry.t) (size : Z) (n : N) : outcome t :=
  if is_power_of_two size then Ret (mk m size (size - 1) (tail m) 0 n) else Panic.

Definition slot (s : t) (p : Z) : Z := 64 + ksvc_sys.completion_size * Z.land p (mask s).

Definition available (s : t) : Z := size s -[32] wrap 32 (local_tail s -[64] head (mem s)).

(** [push] takes [&self]: it writes the entry and leaves [local_tail] and
    [buffered] as they are. *)
Definition push (s : t) (corr_id result flags : Z) : KResult unit * t :=
  if available s =? 0 then (Err KsvcError.RingFull, s)
  else
    (Ok (), mk (with_cell (mem s) (slot s (local_tail s)) (CompletionEntry.mk corr_id result flags 0))
      (size s) (mask s) (local_tail s) (buffered s) (notifier s)).

Definition publish_tail (s : t) : t :=
  mk (with_tail (mem s) (local_tail s)) (size s) (mask s) (local_tail s) (buffered s) (notifier s).

Definition flush_and_notify (s : t) : KResult unit * t :=
  let s := publish_tail s in
  if 0 <? buffered s then
    let '(r, n) := notify (notifier s) in
    (r, mk (mem s) (size s) (mask s) (local_tail s) (buffered s) n)
  else (Ok (), s).

#[global] Instance sink : CompletionSink t := {
  sink_push := push;
  sink_flush_and_notify := flush_and_notify
}.
End Sink.
Arguments t : clear implicits.
End RingCompletionSink.

(** What a reader of a completion ring does: all entries between the two words,
    in order. *)
Definition published (size esize : Z) (m : region CompletionEntry.t) : list CompletionEntry.t :=
  (λ i : nat, cells m (64 + esize * Z.land (head m +[64] Z.of_nat i) (size - 1)))
    <$> seq 0 (Z.to_nat (tail m -[64] head m)).

(** ** Lemmas on ring positions *)

(** A ring of [2^k] entries, in a [u32]. *)
Definition ring_order (size k : Z) : Prop := 0 ≤ k ≤ 31 ∧ size = 2 ^ k.

Lemma power_of_two_order n : 0 < n < 2 ^ 32 → Z.land n (n - 1) = 0 → ∃ k, ring_order n k.
Proof.
  intros Hn Hl. exists (Z.log2 n). pose proof (Z.log2_spec n ltac:(lia)) as [Hlo Hhi].
  assert (0 ≤ Z.log2 n) by apply Z.log2_nonneg.
  assert (Z.log2 n < 32) by (apply Z.log2_lt_pow2; lia).
  split; [lia|]. destruct (decide (n = 2 ^ Z.log2 n)) as [|Hne]; [done|]. exfalso.
  assert (Z.log2 (n - 1) = Z.log2 n) as Hpred by (apply Z.log2_unique; lia).
  assert (Z.testbit (Z.land n (n - 1)) (Z.log2 n) = true) as Hb.
  { rewrite Z.land_spec, Z.bit_log2 by lia. rewrite <- Hpred at 1. rewrite Z.bit_log2; [done|].
    assert (1 ≤ 2 ^ Z.log2 n) by (apply (Z.pow_le_mono_r 2 0); lia). lia. }
  rewrite Hl, Z.bits_0 in Hb. done.
Qed.

Lemma land_mask size k p : ring_order size k → Z.land p (size - 1) = p `mod` size.
Proof. intros [Hk ->]. rewrite <- Z.land_ones by lia. by rewrite Z.ones_equiv, Z.sub_1_r. Qed.

Lemma mod_window_inj size h i j :
  0 ≤ i < size → 0 ≤ j < size → (h + i) `mod` size = (h + j) `mod` size → i = j.
Proof.
  intros Hi Hj Hm. assert ((i - j) `mod` size = 0) as H0.
  { replace (i - j) with ((h + i) - (h + j)) by lia. rewrite Zminus_mod, Hm, Z.sub_diag. apply Z.mod_0_l. lia. }
  apply Z.mod_divide in H0 as [q Hq]; [|lia].
  destruct (Z.lt_trichotomy q 0) as [|[->|]]; [|lia|].
  - assert (q * size ≤ -1 * size) by (apply Z.mul_le_mono_nonneg_r; lia). lia.
  - assert (1 * size ≤ q * size) by (apply Z.mul_le_mono_nonneg_r; lia). lia.
Qed.

Lemma ring_order_pos size k : ring_order size k → 0 < size ≤ 2 ^ 31.
Proof. intros [Hk ->]. split; [lia|]. apply Z.pow_le_mono_r; lia. Qed.

Lemma ring_order_wrap size k w p : ring_order size k → 32 ≤ w → wrap w p `mod` size = p `mod` size.
Proof. intros [Hk ->] Hw. apply wrap_mod. lia. Qed.

(** [q] is what a ring holds from position [from] on; [f] gives the offset of a
    position, and only depends on the position modulo the size. *)
Section Window.
Context {A : Type} (size esize off : Z).
Hypothesis esize_pos : 0 < esize.

Definition offset (p : Z) : Z := off + esize * (p `mod` size).

Definition window (m : region A) (from : Z) (q : list A) : Prop :=
  ∀ i x, q !! i = Some x → cells m (offset (from + Z.of_nat i)) = x.

Lemma window_write m from q x :
  Z.of_nat (length q) < size → window m from q →
  window (with_cell m (offset (from + Z.of_nat (length q))) x) from (q ++ [x]).
Proof.
  intros Hlen Hw i y Hy. simpl. apply lookup_snoc_Some in Hy as [[Hi Hy]|[-> <-]].
  - destruct (Z.eqb_spec (offset (from + Z.of_nat i)) (offset (from + Z.of_nat (length q)))) as [E|].
    + unfold offset in E. assert (i = length q) as ->; [|lia].
      apply Nat2Z.inj, (mod_window_inj size from); [lia..|nia].
    + by apply Hw.
  - by rewrite Z.eqb_refl.
Qed.

Lemma window_drop m from q n : window m from q → window m (from + Z.of_nat n) (drop n q).
Proof.
  intros Hw i x Hx. rewrite lookup_drop in Hx. replace (from + Z.of_nat n + Z.of_nat i)
    with (from + Z.of_nat (n + i)) by lia. by apply Hw.
Qed.

Lemma window_take m from q n :
  (n ≤ length q)%nat → window m from q →
  (λ i : nat, cells m (offset (from + Z.of_nat i))) <$> seq 0 n = take n q.
Proof.
  intros Hn Hw. apply list_eq. intros i. rewrite list_lookup_fmap.
  destruct (decide (i < n)%nat) as [Hi|Hi].
  - rewrite lookup_seq_lt, lookup_take_lt by done. simpl.
    destruct (lookup_lt_is_Some_2 q i) as [x Hx]; [lia|]. rewrite Hx. f_equal. by apply Hw.
  - rewrite lookup_seq_ge, lookup_take_ge by lia. done.
Qed.

(** Positions are only used modulo [2^64]. *)
Lemma window_wrap k m from q : ring_order size k → window m from q → window m (wrap 64 from) q.
Proof.
  intros Hk Hw i x Hx. rewrite <- (Hw i x Hx). unfold offset. f_equal. f_equal. f_equal.
  rewrite <- (ring_order_wrap size k 64 (wrap 64 from + _) Hk), wrap_add_l by lia. by apply (ring_order_wrap size k).
Qed.
End Window.

Lemma wrap_sub_small h n : in_u 64 h → 0 ≤ n < 2 ^ 64 → wrap 64 (wrap 64 (h + n) - h) = n.
Proof.
  intros Hh Hn. rewrite wrap_sub_l. replace (h + n - h) with n by lia. by apply wrap_small.
Qed.

(** ** The submit ring is a queue *)
Section SubmitRingFacts.
Import SubmitRing.
Implicit Types (r : SubmitRing.t) (m : region SubmitEntry.t) (q : list SubmitEntry.t).

(** The ring [r], mapped at [m], holds [q]. *)
Definition ring_rep r m q : Prop :=
  (∃ k, ring_order (ring_size r) k) ∧ mask r = ring_size r - 1 ∧ in_u 64 (head m) ∧
  tail m = wrap 64 (head m + Z.of_nat (length q)) ∧ Z.of_nat (length q) ≤ ring_size r ∧
  window (ring_size r) 64 4096 m (head m) q.

Lemma slot_offset r p k :
  ring_order (ring_size r) k → mask r = ring_size r - 1 → slot r p = offset (ring_size r) 64 4096 p.
Proof.
  intros Hk Hm. unfold slot, offset. rewrite Hm, (land_mask _ k) by done.
  rewrite (ring_order_wrap _ k) by (done || lia). done.
Qed.

Lemma slot_wrap r p k :
  ring_order (ring_size r) k → mask r = ring_size r - 1 → slot r (wrap 64 p) = slot r p.
Proof.
  intros Hk Hm. rewrite !(slot_offset r _ k) by done. unfold offset.
  rewrite (ring_order_wrap _ k) by (done || lia). done.
Qed.

Lemma rep_len r m q : ring_rep r m q → len m = Z.of_nat (length q).
Proof.
  intros ((k & Hk) & Hm & Hh & Ht & Hq & _). apply ring_order_pos in Hk. unfold len.
  rewrite Ht. apply wrap_sub_small; [done|]. lia.
Qed.

Lemma push_once_rep r m q e :
  ring_rep r m q →
  if decide (Z.of_nat (length q) < ring_size r) then
    ∃ m', push_once r m e = (Ok (), m') ∧ ring_rep r m' (q ++ [e])
  else push_once r m e = (Err RingFull, m).
Proof.
  intros Hrep. pose proof (rep_len _ _ _ Hrep) as Hlen. unfold len in Hlen. unfold push_once. rewrite Hlen.
  destruct Hrep as ((k & Hk) & Hm & Hh & Ht & Hq & Hw).
  destruct (Z.leb_spec (ring_size r) (Z.of_nat (length q))); case_decide; try lia; [done|].
  eexists. split; [done|]. unfold ring_rep. cbn [head tail with_cell with_tail].
  split; [by exists k|]. do 2 (split; [done|]). rewrite length_app. cbn [length].
  split; [rewrite Ht, wrap_add_l; f_equal; lia|]. split; [lia|].
  rewrite Ht, (slot_wrap _ _ k), (slot_offset _ _ k) by done. apply window_write; [lia|lia|]. exact Hw.
Qed.

Lemma try_push_once n r m e : try_push n r m e = push_once r m e.
Proof. induction n as [|n IH]; simpl; [done|]. rewrite IH. unfold push_once. by destruct (_ <=? _). Qed.

Lemma dequeue_rep r m q buf_len max :
  ring_rep r m q →
  let n := ((length q `min` max) `min` buf_len)%nat in
  ∃ m', dequeue_batch r m buf_len max = (take n q, m') ∧ ring_rep r m' (drop n q).
Proof.
  intros Hrep n. pose proof (rep_len _ _ _ Hrep) as Hlen. unfold len in Hlen.
  destruct Hrep as ((k & Hk) & Hm & Hh & Ht & Hq & Hw).
  unfold dequeue_batch. rewrite Hlen, Nat2Z.id. fold n.
  assert ((λ i : nat, cells m (slot r (wrap 64 (head m + Z.of_nat i)))) <$> seq 0 n = take n q) as ->.
  { rewrite <- (window_take (ring_size r) 64 4096 m (head m) q n) by (lia || done).
    apply list_fmap_ext. intros j x _. by rewrite (slot_wrap r _ k), (slot_offset r _ k). }
  eexists. split; [done|]. destruct (Nat.ltb_spec 0 n) as [Hn|Hn].
  - unfold ring_rep. cbn [head tail with_head]. split; [by exists k|]. split; [done|].
    split; [apply wrap_in_u; lia|]. rewrite length_drop. split.
    { rewrite wrap_add_l, Ht. f_equal. lia. }
    split; [lia|]. apply (window_wrap _ _ _ k); [done|]. change (window (ring_size r) 64 4096 m (head m + Z.of_nat n) (drop n q)).
    by apply window_drop.
  - replace n with O by lia. rewrite drop_0. by repeat (split; [by eauto|]).
Qed.
End SubmitRingFacts.

(** ** The completion ring of the executor *)
Section CompletionRingFacts.
Import CompletionRing.
Implicit Types (r : CompletionRing.t) (m : region CompletionEntry.t) (q p : list CompletionEntry.t).

(** The ring holds [q], which its reader can see, and [p], which it cannot see
    until the next [flush]. *)
Definition comp_rep r m q p : Prop :=
  (∃ k, ring_order (size r) k) ∧ mask r = size r - 1 ∧ in_u 64 (head m) ∧
  tail m = wrap 64 (head m + Z.of_nat (length q)) ∧
  local_tail r = wrap 64 (head m + Z.of_nat (length (q ++ p))) ∧
  Z.of_nat (length (q ++ p)) ≤ size r ∧
  completions_written r = Z.of_nat (length p) ∧
  window (size r) 32 64 m (head m) (q ++ p).

Lemma comp_slot_offset r (x : Z) k :
  ring_order (size r) k → mask r = size r - 1 → slot r x = offset (size r) 32 64 x.
Proof. intros Hk Hm. unfold slot, offset. rewrite Hm, (land_mask _ k) by done. done. Qed.

Lemma comp_available r m q p : comp_rep r m q p → available r m = size r - Z.of_nat (length (q ++ p)).
Proof.
  intros ((k & Hk) & _ & Hh & _ & Hl & Hlen & _). apply ring_order_pos in Hk. unfold available.
  rewrite Hl, wrap_sub_small by (done || lia). rewrite (wrap_small 32 (Z.of_nat _)) by (split; lia).
  apply wrap_small. split; lia.
Qed.

Lemma comp_push_rep r m q p c v f :
  comp_rep r m q p →
  if decide (Z.of_nat (length (q ++ p)) < size r) then
    ∃ r' m', push r m c v f = (true, r', m') ∧ comp_rep r' m' q (p ++ [CompletionEntry.mk c v f 0])
  else push r m c v f = (false, r, m).
Proof.
  intros Hrep. pose proof (comp_available _ _ _ _ Hrep) as Ha. unfold push. rewrite Ha.
  destruct Hrep as ((k & Hk) & Hm & Hh & Ht & Hl & Hlen & Hc & Hw). pose proof (ring_order_pos _ _ Hk).
  destruct (Z.eqb_spec (size r - Z.of_nat (length (q ++ p))) 0); case_decide; try lia; [done|].
  do 2 eexists. split; [done|]. unfold comp_rep. cbn. rewrite (assoc_L (++)), length_app. cbn [length].
  split; [by exists k|]. do 3 (split; [done|]). rewrite length_app in Hlen.
  split; [rewrite Hl, wrap_add_l; f_equal; lia|]. split; [lia|].
  rewrite Hc, (length_app p), wrap_small by (split; simpl; lia). split; [simpl; lia|].
  rewrite Hl, (comp_slot_offset _ _ k) by done.
  replace (offset (size r) 32 64 (wrap 64 _)) with (offset (size r) 32 64 (head m + Z.of_nat (length (q ++ p)))).
  - apply window_write; [lia..|done].
  - unfold offset. by rewrite (ring_order_wrap _ k) by (done || lia).
Qed.

Lemma comp_flush_rep r m q p :
  comp_rep r m q p →
  ∃ r' m', flush r m = (Z.of_nat (length p), r', m') ∧ comp_rep r' m' (q ++ p) [].
Proof.
  intros (Hk & Hm & Hh & Ht & Hl & Hlen & Hc & Hw). unfold flush. rewrite Hc.
  destruct (Z.ltb_spec 0 (Z.of_nat (length p))).
  - do 2 eexists. split; [done|]. unfold comp_rep. cbn. rewrite app_nil_r. by repeat (split; [done|]).
  - destruct p; [|simpl in *; lia]. do 2 eexists. split; [done|]. unfold comp_rep. rewrite !app_nil_r in *.
    by repeat (split; [done|]).
Qed.

Lemma comp_published r m q p : comp_rep r m q p → published (size r) 32 m = q.
Proof.
  intros ((k & Hk) & _ & Hh & Ht & _ & Hlen & _ & Hw). pose proof (ring_order_pos _ _ Hk). unfold published.
  rewrite length_app in Hlen. rewrite Ht, wrap_sub_small, Nat2Z.id by (done || lia).
  rewrite <- (take_app_length q p) at 2. rewrite <- (window_take (size r) 32 64 m (head m)) by (rewrite ?length_app; lia || done).
  apply list_fmap_ext. intros i x _. unfold offset. rewrite (land_mask _ k) by done.
  by rewrite (ring_order_wrap _ k) by (done || lia).
Qed.
End CompletionRingFacts.

(** ** Theorems *)

(** C5: The submit ring is a bounded FIFO queue.  A ring that holds the
    entries [q] takes a new one at its end exactly while fewer than
    [ring_size] are in it, however often the weak compare-exchange fails, and
    otherwise reports [RingFull] and is unchanged; [dequeue_batch] returns the
    oldest entries, as many as the ring, the limit and the buffer allow, and
    leaves the rest; [len] and [is_empty] agree with [q].  This includes the
    wrap-around of the 64-bit positions and of the 32-bit index. *)
Theorem submit_ring_refines_queue r m q :
  ring_rep r m q →
  (∀ n e, if decide (Z.of_nat (length q) < SubmitRing.capacity r)
     then ∃ m', SubmitRing.try_push n r m e = (Ok (), m') ∧ ring_rep r m' (q ++ [e])
     else SubmitRing.try_push n r m e = (Err SubmitRing.RingFull, m)) ∧
  (∀ buf_len max, let n := ((length q `min` max) `min` buf_len)%nat in
     ∃ m', SubmitRing.dequeue_batch r m buf_len max = (take n q, m') ∧ ring_rep r m' (drop n q)) ∧
  SubmitRing.len m = Z.of_nat (length q) ∧ (SubmitRing.is_empty m = true ↔ q = []).
Proof.
  intros Hrep. split; [intros n e; rewrite try_push_once; by apply push_once_rep|].
  split; [intros; by apply dequeue_rep|]. pose proof (rep_len _ _ _ Hrep) as Hlen. split; [done|].
  unfold SubmitRing.len in Hlen. unfold SubmitRing.is_empty. rewrite Z.eqb_eq.
  destruct Hrep as (Hk & _ & Hh & Ht & _). split.
  - intros E. rewrite E, Z.sub_diag in Hlen. destruct q; [done|]. simpl in Hlen. discriminate Hlen.
  - intros ->. rewrite Ht, Z.add_0_r. symmetry. by apply wrap_small.
Qed.

(** The executor's completion ring publishes whole batches in order: a
    completion is refused exactly when the published and the pending ones fill
    the ring; until [flush] the reader sees what it saw before; [flush] reports
    how many were pending and makes all of them visible behind the old ones. *)
Theorem completion_ring_publishes r m q p c v f :
  comp_rep r m q p →
  published (CompletionRing.size r) 32 m = q ∧
  (if decide (Z.of_nat (length (q ++ p)) < CompletionRing.size r) then
     ∃ r' m', CompletionRing.push r m c v f = (true, r', m') ∧
       comp_rep r' m' q (p ++ [CompletionEntry.mk c v f 0])
   else CompletionRing.push r m c v f = (false, r, m)) ∧
  ∃ r' m', CompletionRing.flush r m = (Z.of_nat (length p), r', m') ∧ comp_rep r' m' (q ++ p) [] ∧
    published (CompletionRing.size r') 32 m' = q ++ p.
Proof.
  intros Hrep. split; [by eapply comp_published|]. split; [by apply comp_push_rep|].
  destruct (comp_flush_rep _ _ _ _ Hrep) as (r' & m' & Hf & Hr'). exists r', m'. split; [done|].
  split; [done|]. by eapply comp_published.
Qed.

Section SinkFacts.
Context {N : Type} `{!Notifier N}.
Implicit Types s : RingCompletionSink.t N.

(** Pushes change nothing but entries. *)
Definition same_but_cells s s' : Prop :=
  head (RingCompletionSink.mem s') = head (RingCompletionSink.mem s) ∧
  tail (RingCompletionSink.mem s') = tail (RingCompletionSink.mem s) ∧
  RingCompletionSink.size s' = RingCompletionSink.size s ∧
  RingCompletionSink.local_tail s' = RingCompletionSink.local_tail s ∧
  RingCompletionSink.buffered s' = RingCompletionSink.buffered s ∧
  RingCompletionSink.notifier s' = RingCompletionSink.notifier s.

Lemma sink_push_batch_from s l n :
  RingCompletionSink.available s ≠ 0 →
  ∃ s', push_batch_from s l n = (Ok (n + Z.of_nat (length l)), s') ∧ same_but_cells s s'.
Proof.
  revert s n. induction l as [|e l IH]; intros s n Ha; simpl; [exists s; split; [do 3 f_equal; lia|done]|].
  unfold RingCompletionSink.push. destruct (Z.eqb_spec (RingCompletionSink.available s) 0); [done|].
  match goal with |- context [push_batch_from ?s1 l _] => destruct (IH s1 (n + 1) Ha) as (s' & -> & Hs') end.
  exists s'. split; [do 2 f_equal; lia|]. exact Hs'.
Qed.
End SinkFacts.

(** Completions written through [RingCompletionSink] never reach user
    space.  [push] cannot advance [local_tail] (it takes [&self]), so for a sink
    over a ring that is not full, any batch is accepted as a success and any
    flush succeeds without a notification, and the ring's tail is where it was:
    the reader sees no new entry. *)
Theorem sink_publishes_nothing {T : Type} `{!Notifier T} (m : region CompletionEntry.t) size (n : T) s l :
  RingCompletionSink.new m size n = Ret s → in_u 64 (tail m) →
  RingCompletionSink.available s ≠ 0 →
  ∃ s1 s2, push_batch s l = (Ok (Z.of_nat (length l)), s1) ∧
    sink_flush_and_notify s1 = (Ok (), s2) ∧
    tail (RingCompletionSink.mem s2) = tail m ∧ head (RingCompletionSink.mem s2) = head m ∧
    RingCompletionSink.notifier s2 = n.
Proof.
  unfold RingCompletionSink.new. destruct (is_power_of_two size); [|done]. intros [= <-] Ht Ha.
  destruct (sink_push_batch_from _ l 0 Ha) as (s1 & Hp & Hh & Ht1 & _ & Hl & Hb & Hn). exists s1.
  eexists. split; [exact Hp|]. simpl in *. unfold RingCompletionSink.flush_and_notify. simpl. rewrite Hb. simpl.
  split; [done|]. simpl. rewrite Hl. done.
Qed.

(** The executor looks for submissions in the wrong place.  [SubmitRing]
    and the kernel module put the entries at the page after the header; the
    executor's ring reads them right behind the 64-byte header.  So when a
    fresh ring is given one entry, the executor dequeues one entry, but an
    all-zero one: a [read] of descriptor 0 for the GVThread with id 0. *)
Theorem executor_reads_header_page r size e n :
  ring_rep r (mkRegion 0 0 (λ _, ksvc_sys.entry_zeroed)) [] → SubmitRing.ring_size r = size →
  ∃ m x x' m', SubmitRing.try_push n r (mkRegion 0 0 (λ _, ksvc_sys.entry_zeroed)) e = (Ok (), m) ∧
    ExecSubmitRing.new m size = Ret x ∧
    ExecSubmitRing.dequeue_batch x m 64 64 = ([ksvc_sys.entry_zeroed], x', m').
Proof.
  intros ((k & Hk) & Hm & _) <-. pose proof (ring_order_pos _ _ Hk) as Hpos.
  rewrite try_push_once. unfold SubmitRing.push_once. cbn [head tail]. change (wrap 64 (0 - 0)) with 0.
  destruct (Z.leb_spec (SubmitRing.ring_size r) 0); [lia|].
  do 4 eexists. split; [done|]. unfold ExecSubmitRing.new. simpl.
  assert (is_power_of_two (SubmitRing.ring_size r) = true) as ->.
  { unfold is_power_of_two. rewrite (land_mask _ k), Z.mod_same by (done || lia).
    destruct (Z.ltb_spec 0 (SubmitRing.ring_size r)); [done|lia]. }
  split; [done|]. unfold ExecSubmitRing.dequeue_batch, ExecSubmitRing.slot. simpl.
  unfold SubmitRing.slot. rewrite Hm. done.
Qed.

(** ** Witnesses *)

Definition demo_ring : SubmitRing.t := SubmitRing.mk 8192 15 16.
Definition demo_entry : SubmitEntry.t := SubmitEntry.mk 100 1 0 [1; 2; 3; 4; 5; 6].

(** An empty ring whose positions are about to wrap. *)
Definition demo_region : region SubmitEntry.t := mkRegion U64_MAX U64_MAX (λ _, ksvc_sys.entry_zeroed).

Lemma demo_ring_rep h c : in_u 64 h → ring_rep demo_ring (mkRegion h h c) [].
Proof.
  intros Hh. split; [exists 4; split; [lia|done]|]. split; [done|]. split; [done|].
  split; [simpl; rewrite Z.add_0_r; symmetry; by apply wrap_small|]. split; [done|]. intros i x Hi. by rewrite lookup_nil in Hi.
Qed.

Lemma submit_ring_refines_queue_witness :
  ∃ m, SubmitRing.try_push 2 demo_ring demo_region demo_entry = (Ok (), m) ∧ ring_rep demo_ring m [demo_entry] ∧
    tail m = 0 ∧ (SubmitRing.dequeue_batch demo_ring m 8 8).1 = [demo_entry].
Proof.
  destruct (proj1 (submit_ring_refines_queue demo_ring demo_region [] (demo_ring_rep U64_MAX _ ltac:(done))) 2%nat demo_entry)
    as (m & Hm & Hr).
  exists m. split; [exact Hm|]. split; [exact Hr|].
  assert (m = (SubmitRing.try_push 2 demo_ring demo_region demo_entry).2) as -> by (by rewrite Hm).
  split; vm_compute; reflexivity.
Defined.

Definition demo_comp : CompletionRing.t := CompletionRing.mk 2 1 0 0.
Definition demo_comp_region : region CompletionEntry.t := mkRegion 0 0 (λ _, ksvc_sys.completion_zeroed).

Lemma demo_comp_rep : comp_rep demo_comp demo_comp_region [] [].
Proof.
  split; [exists 1; split; [lia|done]|]. repeat (split; [done|]). intros i x Hi. by destruct i.
Qed.

Lemma completion_ring_publishes_witness :
  published 2 32 demo_comp_region = [] ∧
  ∃ r m, CompletionRing.push demo_comp demo_comp_region 7 (-11) 0 = (true, r, m) ∧
    comp_rep r m [] [CompletionEntry.mk 7 (-11) 0 0].
Proof.
  destruct (completion_ring_publishes demo_comp demo_comp_region [] [] 7 (-11) 0 demo_comp_rep) as (Hp & Hpush & _).
  split; [exact Hp|]. exact Hpush.
Defined.

Lemma sink_publishes_nothing_witness :
  ∃ s s1 s2, RingCompletionSink.new demo_comp_region 2 (EventFd.mk (EventFdNotifier.new 5) 0) = Ret s ∧
    push_batch s [CompletionEntry.mk 7 0 0 0; CompletionEntry.mk 8 0 0 0] = (Ok 2, s1) ∧
    sink_flush_and_notify s1 = (Ok (), s2) ∧ tail (RingCompletionSink.mem s2) = 0.
Proof.
  destruct (sink_publishes_nothing demo_comp_region 2 (EventFd.mk (EventFdNotifier.new 5) 0)
    (RingCompletionSink.mk demo_comp_region 2 1 0 0 (EventFd.mk (EventFdNotifier.new 5) 0))
    [CompletionEntry.mk 7 0 0 0; CompletionEntry.mk 8 0 0 0] eq_refl ltac:(done) ltac:(vm_compute; discriminate))
    as (s1 & s2 & H1 & H2 & H3 & _).
  exists (RingCompletionSink.mk demo_comp_region 2 1 0 0 (EventFd.mk (EventFdNotifier.new 5) 0)), s1, s2.
  split; [reflexivity|]. split; [exact H1|]. split; [exact H2|exact H3].
Defined.

Lemma executor_reads_header_page_witness :
  ∃ m x x' m', SubmitRing.try_push 0 demo_ring (mkRegion 0 0 (λ _, ksvc_sys.entry_zeroed)) demo_entry = (Ok (), m) ∧
    ExecSubmitRing.new m 16 = Ret x ∧ ExecSubmitRing.dequeue_batch x m 64 64 = ([ksvc_sys.entry_zeroed], x', m').
Proof.
  exact (executor_reads_header_page demo_ring 16 demo_entry 0 (demo_ring_rep 0 _ ltac:(done)) eq_refl).
Defined.
