(* ===== verification/KsvcRingPool.v ===== *)
(** * Concurrent use of the submit ring

    The atomic steps of [SubmitRing::try_push], run by any number of producers,
    and of [SubmitRing::dequeue_batch], run by the one consumer
    ([ksvc-module/src/submit_ring.rs]). *)

From S2P Require Import Prelude Metadata KsvcTypes KsvcRing.

Module RingPool.

(** The mapped region, and two histories: the entries in the order their
    positions were claimed, and the entries the consumer has returned. *)
Record shared : Type := mkShared {
  mem : region SubmitEntry.t;
  log : list SubmitEntry.t;
  got : list SubmitEntry.t
}.

(** A producer in [try_push(e)]: before the load of the tail, with the tail, with
    the ring found not full, and with position [t] claimed but not written.
    [p] is the number of the claim. *)
Inductive producer : Type :=
| PIdle
| PStart (e : SubmitEntry.t)
| PLoaded (e : SubmitEntry.t) (t : Z)
| PChecked (e : SubmitEntry.t) (t : Z)
| PClaimed (e : SubmitEntry.t) (t : Z) (p : nat).

(** The consumer in [dequeue_batch]: with the head, and having read [i] of [n]
    entries.  [max] is the smaller of the limit and the length of the buffer. *)
Inductive consumer : Type :=
| CIdle
| CHead (h : Z) (max : nat)
| CRead (h : Z) (n i : nat) (acc : list SubmitEntry.t).

Section Steps.
Context (r : SubmitRing.t).
Implicit Types (sh : shared) (e : SubmitEntry.t).

Inductive pstep : shared → producer → shared → producer → Prop :=
| p_call sh e : pstep sh PIdle sh (PStart e)
| p_tail sh e : pstep sh (PStart e) sh (PLoaded e (tail (mem sh)))
| p_full sh e t :
    SubmitRing.ring_size r ≤ t -[64] head (mem sh) → pstep sh (PLoaded e t) sh PIdle
| p_check sh e t :
    t -[64] head (mem sh) < SubmitRing.ring_size r → pstep sh (PLoaded e t) sh (PChecked e t)
| p_cas sh e t :
    tail (mem sh) = t →
    pstep sh (PChecked e t)
      (mkShared (with_tail (mem sh) (t +[64] 1)) (log sh ++ [e]) (got sh)) (PClaimed e t (length (log sh)))
| p_retry sh e t : pstep sh (PChecked e t) sh (PStart e)
| p_write sh e t p :
    pstep sh (PClaimed e t p)
      (mkShared (with_cell (mem sh) (SubmitRing.slot r t) e) (log sh) (got sh)) PIdle.

Inductive cstep : shared → consumer → shared → consumer → Prop :=
| c_head sh max : cstep sh CIdle sh (CHead (head (mem sh)) max)
| c_tail sh h max :
    cstep sh (CHead h max) sh (CRead h (Z.to_nat (tail (mem sh) -[64] h) `min` max) 0 [])
| c_read sh h n i acc :
    (i < n)%nat →
    cstep sh (CRead h n i acc)
      sh (CRead h n (S i) (acc ++ [cells (mem sh) (SubmitRing.slot r (h +[64] Z.of_nat i))]))
| c_store sh h n acc :
    cstep sh (CRead h n n acc)
      (mkShared (if (0 <? n)%nat then with_head (mem sh) (h +[64] Z.of_nat n) else mem sh) (log sh) (got sh ++ acc)) CIdle.

Abbreviation state := (shared * consumer * list producer)%type.

(** A producer moves, or the consumer does where [ok] lets it. *)
Inductive step (ok : shared → consumer → list producer → Prop) : state → state → Prop :=
| producer_step sh c p sh' p' l1 l2 :
    pstep sh p sh' p' → step ok (sh, c, l1 ++ p :: l2) (sh', c, l1 ++ p' :: l2)
| consumer_step sh c sh' c' ps :
    cstep sh c sh' c' → ok sh c ps → step ok (sh, c, ps) (sh', c', ps).

(** The claims that are not written yet. *)
Definition claims (p : producer) : list nat := match p with PClaimed _ _ n => [n] | _ => [] end.

Definition unrestricted (sh : shared) (c : consumer) (ps : list producer) : Prop := True.

(** The consumer does not read a position that is claimed and not written. *)
Definition written (sh : shared) (c : consumer) (ps : list producer) : Prop :=
  match c with
  | CRead _ n i _ => (i < n)%nat → (length (got sh) + i)%nat ∉ collect claims ps
  | _ => True
  end.

Definition init (x : state) : Prop :=
  ∃ cs n, x = (mkShared (mkRegion 0 0 cs) [] [], CIdle, replicate n PIdle).

(** ** The invariant *)

(** How many entries of the running batch the consumer has read. *)
Definition nread (c : consumer) : nat := match c with CRead _ _ i _ => i | _ => O end.

Definition producer_ok (sh : shared) (p : producer) : Prop :=
  match p with
  | PIdle | PStart _ => True
  | PLoaded _ t => 0 ≤ t ≤ Z.of_nat (length (log sh))
  | PChecked _ t => 0 ≤ t ≤ Z.of_nat (length (log sh)) ∧ t < Z.of_nat (length (got sh)) + SubmitRing.ring_size r
  | PClaimed e t p => t = Z.of_nat p ∧ log sh !! p = Some e
  end.

Definition consumer_ok (sh : shared) (c : consumer) : Prop :=
  match c with
  | CIdle => True
  | CHead h _ => h = Z.of_nat (length (got sh))
  | CRead h n i acc =>
      h = Z.of_nat (length (got sh)) ∧ (i ≤ n)%nat ∧ (length (got sh) + n ≤ length (log sh))%nat ∧
      acc = take i (drop (length (got sh)) (log sh))
  end.

Record orderly (sh : shared) (c : consumer) (ps : list producer) : Prop := mkOrderly {
  o_head : head (mem sh) = Z.of_nat (length (got sh));
  o_tail : tail (mem sh) = Z.of_nat (length (log sh));
  o_got : got sh = take (length (got sh)) (log sh);
  o_le : (length (got sh) ≤ length (log sh))%nat;
  o_window : Z.of_nat (length (log sh)) - Z.of_nat (length (got sh)) ≤ SubmitRing.ring_size r;
  o_producers : Forall (producer_ok sh) ps;
  o_consumer : consumer_ok sh c;
  o_claims : NoDup (collect claims ps);
  o_ahead : ∀ p, p ∈ collect claims ps → (length (got sh) + nread c ≤ p < length (log sh))%nat;
  o_cells : ∀ p e, (length (got sh) ≤ p)%nat → log sh !! p = Some e → p ∉ collect claims ps →
    cells (mem sh) (offset (SubmitRing.ring_size r) 64 4096 (Z.of_nat p)) = e
}.

(** Fewer than [2^64] entries have been submitted. *)
Definition bounded (sh : shared) : Prop := Z.of_nat (length (log sh)) < 2 ^ 64.
End Steps.
End RingPool.

(** ** Preservation *)
Section Preservation.
Import RingPool.
Context (r : SubmitRing.t) (k : Z).
Hypothesis Hk : ring_order (SubmitRing.ring_size r) k.
Hypothesis Hmask : SubmitRing.mask r = SubmitRing.ring_size r - 1.
Implicit Types (sh : shared) (e : SubmitEntry.t) (ps : list producer).

Lemma producer_ok_mono sh sh' p :
  log sh `prefix_of` log sh' → (length (got sh) ≤ length (got sh'))%nat →
  producer_ok r sh p → producer_ok r sh' p.
Proof.
  intros Hl Hg. pose proof (prefix_length _ _ Hl). destruct p; simpl; [done|done|lia|lia|].
  intros [-> He]. split; [done|]. by eapply prefix_lookup_Some.
Qed.

Lemma producers_ok_mono sh sh' ps :
  log sh `prefix_of` log sh' → (length (got sh) ≤ length (got sh'))%nat →
  Forall (producer_ok r sh) ps → Forall (producer_ok r sh') ps.
Proof. intros Hl Hg Hf. eapply Forall_impl; [exact Hf|]. intros p. by apply producer_ok_mono. Qed.

(** A producer that only moves on. *)
Lemma orderly_local sh c p p' l1 l2 :
  orderly r sh c (l1 ++ p :: l2) → claims p = [] → claims p' = [] → producer_ok r sh p' →
  orderly r sh c (l1 ++ p' :: l2).
Proof.
  intros [] Hc Hc' Hp'.
  assert (collect claims (l1 ++ p :: l2) ≡ₚ collect claims (l1 ++ p' :: l2)) as Hcl
    by (by rewrite !collect_middle, Hc, Hc').
  rewrite Forall_app, Forall_cons in o_producers0. destruct o_producers0 as (Hf1 & _ & Hf2).
  constructor; try done.
  - rewrite Forall_app, Forall_cons. done.
  - by rewrite <- Hcl.
  - intros q. rewrite <- Hcl. apply o_ahead0.
  - intros q e. rewrite <- Hcl. apply o_cells0.
Qed.

Lemma orderly_cas sh c e t l1 l2 :
  orderly r sh c (l1 ++ PChecked e t :: l2) → tail (mem sh) = t → Z.of_nat (S (length (log sh))) < 2 ^ 64 →
  orderly r (mkShared (with_tail (mem sh) (t +[64] 1)) (log sh ++ [e]) (got sh)) c
    (l1 ++ PClaimed e t (length (log sh)) :: l2).
Proof.
  intros [] Ht Hb.
  assert (collect claims (l1 ++ PChecked e t :: l2) ≡ₚ collect claims (l1 ++ l2)) as Hcl by (by rewrite collect_middle).
  assert (collect claims (l1 ++ PClaimed e t (length (log sh)) :: l2) ≡ₚ length (log sh) :: collect claims (l1 ++ l2))
    as Hcl' by (by rewrite collect_middle).
  rewrite Forall_app, Forall_cons in o_producers0. destruct o_producers0 as (Hf1 & Hf & Hf2). simpl in Hf.
  rewrite Hcl in o_claims0.
  assert (∀ q, q ∈ collect claims (l1 ++ l2) → (length (got sh) + nread c ≤ q < length (log sh))%nat) as Hah
    by (intros q Hq; apply o_ahead0; by rewrite Hcl).
  assert (log sh `prefix_of` log sh ++ [e]) as Hpre by (by apply prefix_app_r).
  constructor; simpl; rewrite ?length_app; simpl.
  - done.
  - rewrite <- Ht, o_tail0, wrap_small by (split; lia). lia.
  - rewrite take_app_le by lia. done.
  - lia.
  - lia.
  - rewrite Forall_app, Forall_cons. split; [|split]; [by eapply producers_ok_mono; [| |exact Hf1]| |by eapply producers_ok_mono; [| |exact Hf2]].
    simpl. split; [lia|]. by apply list_lookup_middle.
  - destruct c; simpl in *; [done|done|]. rewrite length_app. destruct o_consumer0 as (-> & Hi & Hn & ->).
    repeat split; [lia|lia|]. rewrite drop_app_le, take_app_le by (rewrite ?length_drop; lia). done.
  - rewrite Hcl'. constructor; [|done]. intros Hin. specialize (Hah _ Hin). lia.
  - intros q. rewrite Hcl', elem_of_cons. intros [->|Hq]; [|specialize (Hah _ Hq); lia].
    split; [|lia]. destruct c; simpl in *; [lia|lia|]. destruct o_consumer0 as (_ & ? & ? & _). lia.
  - intros q e' Hq He'. rewrite Hcl', elem_of_cons. intros Hn. apply lookup_snoc_Some in He' as [[? He']|[-> _]]; [|tauto].
    apply o_cells0; [done|done|]. rewrite Hcl. tauto.
Qed.

Lemma window_distinct sh c ps p q :
  orderly r sh c ps → (length (got sh) ≤ p < length (log sh))%nat → (length (got sh) ≤ q < length (log sh))%nat →
  offset (SubmitRing.ring_size r) 64 4096 (Z.of_nat p) = offset (SubmitRing.ring_size r) 64 4096 (Z.of_nat q) → p = q.
Proof.
  intros Ho Hp Hq E. pose proof (o_window _ _ _ _ Ho). unfold offset in E.
  pose proof (mod_window_inj (SubmitRing.ring_size r) (Z.of_nat (length (got sh)))
    (Z.of_nat p - Z.of_nat (length (got sh))) (Z.of_nat q - Z.of_nat (length (got sh)))) as Hinj.
  rewrite !Zplus_minus in Hinj. specialize (Hinj ltac:(lia) ltac:(lia) ltac:(lia)). lia.
Qed.

Lemma orderly_write sh c e t p l1 l2 :
  orderly r sh c (l1 ++ PClaimed e t p :: l2) →
  orderly r (mkShared (with_cell (mem sh) (SubmitRing.slot r t) e) (log sh) (got sh)) c (l1 ++ PIdle :: l2).
Proof.
  intros Ho. assert (Ho' := Ho). destruct Ho'.
  assert (collect claims (l1 ++ PClaimed e t p :: l2) ≡ₚ p :: collect claims (l1 ++ l2)) as Hcl by (by rewrite collect_middle).
  assert (collect claims (l1 ++ PIdle :: l2) ≡ₚ collect claims (l1 ++ l2)) as Hcl' by (by rewrite collect_middle).
  rewrite Forall_app, Forall_cons in o_producers0. destruct o_producers0 as (Hf1 & [-> Hlog] & Hf2).
  rewrite Hcl in o_claims0. apply NoDup_cons in o_claims0 as [Hnp Hnd].
  assert (length (got sh) ≤ p < length (log sh))%nat as Hp.
  { assert (length (got sh) + nread c ≤ p < length (log sh))%nat; [|lia]. apply o_ahead0. rewrite Hcl. set_solver. }
  constructor; simpl; try done.
  - rewrite Forall_app, Forall_cons. done.
  - by rewrite Hcl'.
  - intros q Hq. apply o_ahead0. rewrite Hcl. rewrite Hcl' in Hq. set_solver.
  - intros q e' Hq He' Hn. rewrite Hcl' in Hn. rewrite (slot_offset r _ k) by done.
    case_match eqn:E; [apply Z.eqb_eq in E|apply Z.eqb_neq in E].
    + apply (window_distinct _ _ _ q p Ho) in E as ->; [congruence| |done]. split; [done|]. by eapply lookup_lt_Some.
    + apply o_cells0; [done..|]. rewrite Hcl, elem_of_cons. intros [->|]; done.
Qed.

Lemma orderly_pstep sh c p sh' p' l1 l2 :
  orderly r sh c (l1 ++ p :: l2) → pstep r sh p sh' p' → bounded sh' → orderly r sh' c (l1 ++ p' :: l2).
Proof.
  intros Ho Hs Hb. pose proof (ring_order_pos _ _ Hk) as Hsz. pose proof (o_head _ _ _ _ Ho) as Hh.
  pose proof (o_tail _ _ _ _ Ho) as Ht. pose proof (o_le _ _ _ _ Ho) as Hle.
  pose proof (o_producers _ _ _ _ Ho) as Hp. rewrite Forall_app, Forall_cons in Hp. destruct Hp as (_ & Hp & _).
  destruct Hs as [sh e|sh e|sh e t Hf|sh e t Hf|sh e t Et|sh e t|sh e t q]; unfold bounded in Hb; simpl in Hp, Hb.
  - by apply (orderly_local _ _ _ _ _ _ Ho).
  - apply (orderly_local _ _ _ _ _ _ Ho); [done..|]. simpl. rewrite Ht. lia.
  - by apply (orderly_local _ _ _ _ _ _ Ho).
  - apply (orderly_local _ _ _ _ _ _ Ho); [done..|]. simpl. split; [done|]. rewrite Hh in Hf.
    destruct (Z.le_gt_cases (Z.of_nat (length (got sh))) t).
    + rewrite wrap_small in Hf by (split; lia). lia.
    + lia.
  - apply orderly_cas; [done..|]. rewrite length_app in Hb. simpl in Hb. lia.
  - by apply (orderly_local _ _ _ _ _ _ Ho).
  - by eapply orderly_write.
Qed.
Lemma orderly_cstep sh c sh' c' ps :
  orderly r sh c ps → cstep r sh c sh' c' → written sh c ps → bounded sh → orderly r sh' c' ps.
Proof.
  intros Ho Hs Hw Hb. assert (Ho' := Ho). destruct Ho'. pose proof (ring_order_pos _ _ Hk) as Hsz. unfold bounded in Hb.
  destruct Hs as [sh mx|sh h mx|sh h n i acc Hi|sh h n acc]; simpl in *.
  - constructor; done.
  - subst h. constructor; try done. simpl. rewrite o_tail0, wrap_small by (split; lia).
    repeat split; lia.
  - destruct o_consumer0 as (-> & Hin & Hn & ->). specialize (Hw Hi). constructor; try done; simpl.
    + repeat split; [lia|lia|]. rewrite wrap_small by (split; lia).
      destruct (lookup_lt_is_Some_2 (log sh) (length (got sh) + i)) as [e He]; [lia|].
      rewrite (slot_offset r _ k), <- Nat2Z.inj_add, (o_cells0 _ e) by (done || lia).
      symmetry. apply take_S_r. by rewrite lookup_drop.
    + intros q Hq. specialize (o_ahead0 q Hq). assert (q ≠ (length (got sh) + i)%nat) by (intros ->; done). lia.
  - destruct o_consumer0 as (-> & _ & Hn & ->).
    assert (length (got sh ++ take n (drop (length (got sh)) (log sh))) = length (got sh) + n)%nat as Hlen.
    { rewrite length_app, length_take, length_drop. lia. }
    constructor; simpl; rewrite ?Hlen; try done.
    + destruct (Nat.ltb_spec 0 n); simpl; [rewrite wrap_small by (split; lia); lia|rewrite o_head0; lia].
    + by destruct (0 <? n)%nat.
    + by rewrite <- take_take_drop, <- o_got0.
    + lia.
    + eapply (producers_ok_mono sh); simpl; [done|lia|done].
    + intros q Hq. specialize (o_ahead0 q Hq). lia.
    + intros q e Hq He Hcl. destruct (0 <? n)%nat; simpl; apply o_cells0; (done || lia).
Qed.

Lemma orderly_init x : init x → orderly r x.1.1 x.1.2 x.2.
Proof.
  intros (cs & n & ->). pose proof (ring_order_pos _ _ Hk).
  assert (collect claims (replicate n PIdle) = []) as Hcl.
  { apply collect_nil. intros p Hp. apply elem_of_replicate in Hp as [-> _]. done. }
  constructor; simpl; rewrite ?Hcl; try done; try lia.
  - by apply Forall_replicate.
  - constructor.
  - intros p Hp. set_solver.
Qed.

Lemma log_grows x y : step r written x y → (length (log x.1.1) ≤ length (log y.1.1))%nat.
Proof. intros [sh c p sh' p' l1 l2 []|sh c sh' c' ps []]; simpl; rewrite ?length_app; lia. Qed.

Lemma orderly_reachable x :
  reachable (step r written) init x → bounded x.1.1 → orderly r x.1.1 x.1.2 x.2.
Proof.
  intros Hr. apply (reachable_invariant (step r written) init
    (λ x, bounded x.1.1 → orderly r x.1.1 x.1.2 x.2)); [|  |done].
  - intros y Hy _. by apply orderly_init.
  - intros y z IH Hs Hb. pose proof (log_grows _ _ Hs) as Hg.
    assert (bounded y.1.1) as Hby by (unfold bounded in *; lia). specialize (IH Hby).
    destruct Hs as [sh c p sh' p' l1 l2 Hp|sh c sh' c' ps Hc Hw]; simpl in *.
    + by eapply orderly_pstep.
    + by eapply orderly_cstep.
Qed.

(** A ring at rest is the queue of [ring_rep]. *)
Lemma orderly_rest sh ps :
  orderly r sh CIdle ps → bounded sh → collect claims ps = [] →
  ring_rep r (mem sh) (drop (length (got sh)) (log sh)).
Proof.
  intros [] Hb Hcl. unfold bounded in Hb. split; [by exists k|]. split; [done|].
  rewrite o_head0, o_tail0, length_drop. split; [split; lia|].
  split; [rewrite wrap_small by (split; lia); lia|]. split; [lia|].
  intros i x Hx. rewrite lookup_drop in Hx. rewrite <- Nat2Z.inj_add. apply o_cells0; [lia|done|].
  rewrite Hcl. set_solver.
Qed.
End Preservation.

(** ** Theorems *)
Section Theorems.
Import RingPool.

(** C3: Concurrent producers and one consumer use the submit ring as a FIFO
    queue, as long as the consumer does not read a claimed position before its
    producer has written it.  With any number of producers, in every such
    interleaving of their atomic steps: the consumer has returned exactly the
    first entries in the order of the claims, none lost, doubled or torn; no
    more than [ring_size] entries are outstanding; two producers are never
    about to write the same slot; and when nobody is inside an operation the
    ring holds the claimed entries that were not returned. *)
Theorem submit_ring_fifo r k x :
  ring_order (SubmitRing.ring_size r) k → SubmitRing.mask r = SubmitRing.ring_size r - 1 →
  reachable (step r written) init x → Z.of_nat (length (log x.1.1)) < 2 ^ 64 →
  got x.1.1 = take (length (got x.1.1)) (log x.1.1) ∧
  Z.of_nat (length (log x.1.1)) - Z.of_nat (length (got x.1.1)) ≤ SubmitRing.ring_size r ∧
  NoDup (SubmitRing.slot r <$> (Z.of_nat <$> collect claims x.2)) ∧
  (x.1.2 = CIdle → collect claims x.2 = [] →
    ring_rep r (mem x.1.1) (drop (length (got x.1.1)) (log x.1.1))).
Proof.
  intros Hk Hm Hr Hb. pose proof (orderly_reachable r k Hk Hm x Hr Hb) as Ho.
  destruct x as [[sh c] ps]. simpl in *. split; [apply Ho|]. split; [apply Ho|]. split.
  - rewrite <- list_fmap_compose. apply NoDup_fmap_2_strong; [|apply Ho]. intros p q Hp Hq E. simpl in E.
    apply (o_ahead _ _ _ _ Ho) in Hp, Hq. rewrite !(slot_offset r _ k) in E by done.
    apply (window_distinct r sh c ps); [done|lia|lia|done].
  - intros -> Hcl. by eapply orderly_rest.
Qed.

(** The consumer can return an entry that was never submitted.
    [try_push] publishes the new tail with its compare-exchange and writes the
    entry afterwards, so a consumer that runs in between reads the old contents
    of the slot: here the zeroes of a fresh ring, although the one entry claimed
    so far is another. *)
Theorem consumer_reads_unwritten_slot :
  ∃ x, reachable (step demo_ring unrestricted) init x ∧
    log x.1.1 = [demo_entry] ∧ got x.1.1 = [ksvc_sys.entry_zeroed] ∧ head (mem x.1.1) = 1.
Proof.
  exists (mkShared (mkRegion 1 1 (λ _, ksvc_sys.entry_zeroed)) [demo_entry] [ksvc_sys.entry_zeroed], CIdle, [PClaimed demo_entry 0 0]).
  split; [|done].
  exists (mkShared (mkRegion 0 0 (λ _, ksvc_sys.entry_zeroed)) [] [], CIdle, [PIdle]).
  split; [by exists (λ _, ksvc_sys.entry_zeroed), 1%nat|].
  eapply rtc_l; [eapply (producer_step _ _ _ _ _ _ _ [] []), (p_call _ _ demo_entry)|].
  do 3 (eapply rtc_l; [eapply (producer_step _ _ _ _ _ _ _ [] []); first [apply p_tail|apply p_check; vm_compute; done|by apply p_cas]|]).
  do 3 (eapply rtc_l; [eapply consumer_step; [first [apply (c_head _ _ 1)|apply c_tail|apply c_read; vm_compute; lia]|done]|]).
  eapply rtc_l; [eapply consumer_step; [apply (c_store _ _ 0 1)|done]|]. apply rtc_refl.
Qed.
End Theorems.

(** ** Witness *)

(** One entry is pushed and dequeued. *)
Lemma submit_ring_fifo_witness :
  ∃ sh, reachable (RingPool.step demo_ring RingPool.written) RingPool.init (sh, RingPool.CIdle, [RingPool.PIdle]) ∧
    RingPool.log sh = [demo_entry] ∧ RingPool.got sh = [demo_entry] ∧
    ring_rep demo_ring (RingPool.mem sh) [].
Proof.
  assert (∃ sh, reachable (RingPool.step demo_ring RingPool.written) RingPool.init (sh, RingPool.CIdle, [RingPool.PIdle]) ∧
    RingPool.log sh = [demo_entry] ∧ RingPool.got sh = [demo_entry]) as (sh & Hr & Hl & Hg).
  { eexists. split.
    - exists (RingPool.mkShared (mkRegion 0 0 (λ _, ksvc_sys.entry_zeroed)) [] [], RingPool.CIdle, [RingPool.PIdle]).
      split; [by exists (λ _, ksvc_sys.entry_zeroed), 1%nat|].
      eapply rtc_l; [eapply (RingPool.producer_step _ _ _ _ _ _ _ [] []), (RingPool.p_call _ _ demo_entry)|].
      do 4 (eapply rtc_l; [eapply (RingPool.producer_step _ _ _ _ _ _ _ [] []); first [apply RingPool.p_tail
        |apply RingPool.p_check; vm_compute; done|by apply RingPool.p_cas|apply RingPool.p_write]|]).
      do 2 (eapply rtc_l; [eapply RingPool.consumer_step; [first [apply (RingPool.c_head _ _ 1)|apply RingPool.c_tail]|done]|]).
      eapply rtc_l; [eapply RingPool.consumer_step; [apply RingPool.c_read; vm_compute; lia|intros _; simpl; set_solver]|].
      eapply rtc_l; [eapply RingPool.consumer_step; [apply (RingPool.c_store _ _ 0 1)|simpl; lia]|]. apply rtc_refl.
    - split; vm_compute; reflexivity. }
  exists sh. split; [exact Hr|]. split; [exact Hl|]. split; [exact Hg|].
  assert (Z.of_nat (length (RingPool.log sh)) < 2 ^ 64) as Hb by (rewrite Hl; vm_compute; reflexivity).
  destruct (submit_ring_fifo demo_ring 4 (sh, RingPool.CIdle, [RingPool.PIdle])
    ltac:(split; [lia|done]) eq_refl Hr Hb) as (_ & _ & _ & Hrep).
  specialize (Hrep eq_refl eq_refl). simpl in Hrep. rewrite Hl, Hg in Hrep. exact Hrep.
Defined.
