(* ===== verification/KsvcUring.v ===== *)
(** * The io_uring back end

    Models [ksvc-module/src/basic_iouring.rs].  The [io-uring] crate and the
    kernel behind it are the class [IoUring]; a submission entry is the call of
    the crate's builder that makes it, with the fields the caller sets. *)

From S2P Require Import Prelude KsvcTypes KsvcRouter.

(** [x as i32], [x as u32] and [x as i64] of a [u64]. *)
Definition as_i32 (x : Z) : Z := let y := wrap 32 x in if y <? 2 ^ 31 then y else y - 2 ^ 32.
Definition as_u32 (x : Z) : Z := wrap 32 x.
Definition as_i64 (x : Z) : Z := let y := wrap 64 x in if y <? 2 ^ 63 then y else y - 2 ^ 64.

(** A signed 32-bit value survives the trip through a wider unsigned one. *)
Lemma as_i32_wrap w x : 32 ≤ w → - 2 ^ 31 ≤ x < 2 ^ 31 → as_i32 (wrap w x) = x.
Proof.
  intros Hw Hx. unfold as_i32. assert (wrap 32 (wrap w x) = wrap 32 x) as -> by (apply wrap_mod; lia).
  destruct (Z.ltb_spec x 0).
  - replace (wrap 32 x) with (x + 2 ^ 32).
    + destruct (Z.ltb_spec (x + 2 ^ 32) (2 ^ 31)); lia.
    + symmetry. unfold wrap. rewrite <- (Z.mod_small (x + 2 ^ 32) (2 ^ 32)) by lia.
      rewrite Z.add_mod, Z.mod_same, Z.add_0_r, Z.mod_mod by lia. done.
  - rewrite wrap_small by (split; lia). destruct (Z.ltb_spec x (2 ^ 31)); lia.
Qed.

(** ** Submission and completion entries *)
Inductive sqe_op : Type :=
| Read (fd buf len offset : Z)
| Write (fd buf len offset : Z)
| Readv (fd iov cnt offset : Z)
| Writev (fd iov cnt offset : Z)
| OpenAt (dirfd path flags mode : Z)
| Close (fd : Z)
| Statx (dirfd path statxbuf flags mask : Z)
| Fallocate (fd len offset mode : Z)
| Fsync (fd : Z) (datasync : bool)
| Accept (fd addr addrlen flags : Z)
| Connect (fd addr addrlen : Z)
| Send (fd buf len flags : Z)
| Recv (fd buf len flags : Z)
| SendMsg (fd msg flags : Z)
| RecvMsg (fd msg flags : Z)
| Shutdown (fd how : Z)
| Socket (domain type protocol : Z)
| RenameAt (olddirfd oldpath newdirfd newpath flags : Z)
| UnlinkAt (dirfd path flags : Z)
| MkDirAt (dirfd path mode : Z)
| SymlinkAt (newdirfd target linkpath : Z)
| LinkAt (olddirfd oldpath newdirfd newpath flags : Z)
| Splice (fd_in off_in fd_out off_out len flags : Z)
| AsyncCancel (user_data : Z).

#[export] Instance sqe_op_eq_dec : EqDecision sqe_op.
Proof. solve_decision. Defined.

Record sqe : Type := mkSqe { sqe_body : sqe_op; sqe_user_data : Z }.
Record cqe : Type := mkCqe { cqe_user_data : Z; cqe_result : Z; cqe_flags : Z }.

(** ** What the crate and the kernel provide *)

(** An error carries [raw_os_error].  [completion] are the entries an iterator
    over the completion queue yields; each [next] consumes one, also when the
    loop body then leaves ([advance] is what the iterator has consumed when it
    is dropped). *)
Class IoUring (R : Type) : Type := {
  build : Z → Result R (option Z);
  sq_is_full : R → bool;
  sq_push : R → sqe → option R;
  submit : R → Result Z (option Z) * R;
  submit_and_wait : R → Z → Result Z (option Z) * R;
  completion : R → list cqe;
  advance : R → nat → R;
  sq_entries : R → Z;
  register_probe : R → option (Z → bool);
  completion_advance r n : completion (advance r n) = drop n (completion r)
}.

Definition raw_os_error_or (e : option Z) : Z := default (-1) e.

(** ** [BasicIoUring] *)
Module BasicIoUring.

Record Config : Type := mkConfig { cfg_sq_entries : Z; cfg_cq_entries : option Z }.
Definition default_config : Config := mkConfig 256 None.

Section Backend.
Context {R : Type} `{!IoUring R}.

Record t : Type := mk { ring : R; inflight : Z; pending_submit : Z }.

Definition new (config : Config) : KResult t :=
  match build (cfg_sq_entries config) with
  | Ok r => Ok (mk r 0 0)
  | Err e => Err (KsvcError.IoUringSetup (raw_os_error_or e))
  end.

Definition probe_opcodes_static (b : t) : list Z :=
  match register_probe (ring b) with
  | None => []
  | Some is_supported => filter (λ opc, is_supported opc = true) (seqZ 0 81)
  end.

(** [a[i]] of the six arguments. *)
Definition arg (e : SubmitEntry.t) (i : nat) : Z := nth i (SubmitEntry.args e) 0.

Definition build_op (e : SubmitEntry.t) (opcode : Z) : KResult sqe_op :=
  let a := arg e in
  let fd := as_i32 (a 0%nat) in
  if opcode =? op.READ then Ok (Read fd (a 1%nat) (as_u32 (a 2%nat)) U64_MAX)
  else if opcode =? op.WRITE then Ok (Write fd (a 1%nat) (as_u32 (a 2%nat)) U64_MAX)
  else if opcode =? op.READV then Ok (Readv fd (a 1%nat) (as_u32 (a 2%nat)) U64_MAX)
  else if opcode =? op.WRITEV then Ok (Writev fd (a 1%nat) (as_u32 (a 2%nat)) U64_MAX)
  else if opcode =? op.OPENAT then Ok (OpenAt fd (a 1%nat) (as_i32 (a 2%nat)) (as_u32 (a 3%nat)))
  else if opcode =? op.CLOSE then Ok (Close fd)
  else if opcode =? op.STATX then Ok (Statx fd (a 1%nat) (a 4%nat) (as_i32 (a 2%nat)) (as_u32 (a 3%nat)))
  else if opcode =? op.FALLOCATE then Ok (Fallocate fd (a 2%nat) (a 1%nat) (as_i32 (a 1%nat)))
  else if opcode =? op.FSYNC then Ok (Fsync fd (SubmitEntry.syscall_nr e =? 75))
  else if opcode =? op.ACCEPT then Ok (Accept fd (a 1%nat) (a 2%nat) (as_i32 (a 3%nat)))
  else if opcode =? op.CONNECT then Ok (Connect fd (a 1%nat) (as_u32 (a 2%nat)))
  else if opcode =? op.SEND then Ok (Send fd (a 1%nat) (as_u32 (a 2%nat)) (as_i32 (a 3%nat)))
  else if opcode =? op.RECV then Ok (Recv fd (a 1%nat) (as_u32 (a 2%nat)) (as_i32 (a 3%nat)))
  else if opcode =? op.SENDMSG then Ok (SendMsg fd (a 1%nat) (as_u32 (a 2%nat)))
  else if opcode =? op.RECVMSG then Ok (RecvMsg fd (a 1%nat) (as_u32 (a 2%nat)))
  else if opcode =? op.SHUTDOWN then Ok (Shutdown fd (as_i32 (a 1%nat)))
  else if opcode =? op.SOCKET then Ok (Socket (as_i32 (a 0%nat)) (as_i32 (a 1%nat)) (as_i32 (a 2%nat)))
  else if opcode =? op.RENAMEAT then
    Ok (RenameAt fd (a 1%nat) (as_i32 (a 2%nat)) (a 3%nat) (as_u32 (a 4%nat)))
  else if opcode =? op.UNLINKAT then Ok (UnlinkAt fd (a 1%nat) (as_i32 (a 2%nat)))
  else if opcode =? op.MKDIRAT then Ok (MkDirAt fd (a 1%nat) (as_u32 (a 2%nat)))
  else if opcode =? op.SYMLINKAT then Ok (SymlinkAt (as_i32 (a 1%nat)) (a 0%nat) (a 2%nat))
  else if opcode =? op.LINKAT then
    Ok (LinkAt fd (a 1%nat) (as_i32 (a 2%nat)) (a 3%nat) (as_i32 (a 4%nat)))
  else if opcode =? op.SPLICE then
    Ok (Splice fd (as_i64 (a 1%nat)) (as_i32 (a 2%nat)) (as_i64 (a 3%nat)) (as_u32 (a 4%nat)) (as_u32 (a 5%nat)))
  else Err (KsvcError.Unsupported (SubmitEntry.syscall_nr e)).

(** [build_sqe] stamps the correlation id. *)
Definition build_sqe (e : SubmitEntry.t) (opcode : Z) : KResult sqe :=
  match build_op e opcode with
  | Ok o => Ok (mkSqe o (SubmitEntry.corr_id e))
  | Err err => Err err
  end.

Definition translate_and_push (b : t) (e : SubmitEntry.t) (opcode : Z) : KResult unit * t :=
  if sq_is_full (ring b) then (Err KsvcError.RingFull, b)
  else match build_sqe e opcode with
  | Err err => (Err err, b)
  | Ok s =>
      match sq_push (ring b) s with
      | None => (Err KsvcError.RingFull, b)
      | Some r => (Ok (), mk r (inflight b) (pending_submit b +[32] 1))
      end
  end.

Definition submit_with_opcode (b : t) (e : SubmitEntry.t) (opcode : Z) : KResult unit * t :=
  translate_and_push b e opcode.

(** The trait's [submit] does not know the opcode and always refuses. *)
Definition trait_submit (b : t) (e : SubmitEntry.t) : KResult unit * t :=
  (Err (KsvcError.Unsupported (SubmitEntry.syscall_nr e)), b).

Definition after_enter (b : t) (res : Result Z (option Z) * R) : KResult Z * t :=
  match res with
  | (Err e, r) => (Err (KsvcError.IoUringSubmit (raw_os_error_or e)), mk r (inflight b) (pending_submit b))
  | (Ok submitted, r) => (Ok submitted, mk r (inflight b +[64] submitted) 0)
  end.

Definition flush (b : t) : KResult Z * t :=
  if pending_submit b =? 0 then (Ok 0, b) else after_enter b (submit (ring b)).

Definition flush_and_wait (b : t) (min_complete : Z) : KResult Z * t :=
  after_enter b (submit_and_wait (ring b) min_complete).

(** The [for] loop of [poll_completions]: what it has written, how many entries
    the iterator has consumed, and the new count of operations in flight. *)
Fixpoint poll_loop (cqes : list cqe) (count max buf_len : nat) (inflight : Z)
    : list IoCompletion.t * nat * Z :=
  match cqes with
  | [] => ([], O, inflight)
  | c :: rest =>
      if (max <=? count)%nat || (buf_len <=? count)%nat then ([], 1%nat, inflight)
      else
        let '(out, n, i) := poll_loop rest (S count) max buf_len (saturating_sub inflight 1) in
        (IoCompletion.mk (cqe_user_data c) (cqe_result c) (cqe_flags c) :: out, S n, i)
  end.

Definition poll_completions (b : t) (buf_len max : nat) : list IoCompletion.t * t :=
  let '(out, n, i) := poll_loop (completion (ring b)) 0 max buf_len (inflight b) in
  (out, mk (advance (ring b) n) i (pending_submit b)).

(** The cancellation carries a sentinel as its own user data. *)
Definition cancel (b : t) (corr_id : Z) : KResult unit * t :=
  match sq_push (ring b) (mkSqe (AsyncCancel corr_id) (U64_MAX - 1)) with
  | None => (Err KsvcError.RingFull, b)
  | Some r => (Ok (), mk r (inflight b) (pending_submit b +[32] 1))
  end.

Definition capacity (b : t) : Z := sq_entries (ring b).

(** [shutdown]: batches of 64 until one is empty.  [None] if [fuel] batches are
    not enough. *)
Fixpoint drain (fuel : nat) (b : t) : option t :=
  match fuel with
  | O => None
  | S n =>
      match poll_completions b 64 64 with
      | ([], b') => Some b'
      | (_ :: _, b') => drain n b'
      end
  end.

Definition shutdown (fuel : nat) (b : t) : option t :=
  b' ← drain fuel b; Some (mk (ring b') 0 0).

#[global] Instance backend : IoBackend t := {
  io_submit := trait_submit;
  io_flush := flush;
  io_poll_completions := poll_completions;
  io_cancel := cancel;
  io_inflight := inflight;
  io_capacity := capacity;
  io_probe_opcodes := probe_opcodes_static;
  io_shutdown b := default b (shutdown (S (length (completion (ring b)))) b)
}.
End Backend.
Arguments t : clear implicits.
End BasicIoUring.

(** ** What the translated system calls mean

    The entry that does what the system call's manual page says, with [None]
    for arguments no entry of the crate can express (a destination address).
    Arguments the call does not have are taken to be zero. *)
Module Abi.
Definition AT_FDCWD : Z := -100.
Definition AT_SYMLINK_NOFOLLOW : Z := 0x100.
Definition AT_REMOVEDIR : Z := 0x200.
Definition AT_EMPTY_PATH : Z := 0x1000.
Definition STATX_BASIC_STATS : Z := 0x7ff.

Definition sqe_of (n : Z) (e : SubmitEntry.t) : option sqe_op :=
  let a := BasicIoUring.arg e in
  let fd := as_i32 (a 0%nat) in
  if n =? nr.READ then Some (Read fd (a 1%nat) (as_u32 (a 2%nat)) U64_MAX)
  else if n =? nr.WRITE then Some (Write fd (a 1%nat) (as_u32 (a 2%nat)) U64_MAX)
  else if n =? nr.PREAD64 then Some (Read fd (a 1%nat) (as_u32 (a 2%nat)) (a 3%nat))
  else if n =? nr.PWRITE64 then Some (Write fd (a 1%nat) (as_u32 (a 2%nat)) (a 3%nat))
  else if n =? nr.READV then Some (Readv fd (a 1%nat) (as_u32 (a 2%nat)) U64_MAX)
  else if n =? nr.WRITEV then Some (Writev fd (a 1%nat) (as_u32 (a 2%nat)) U64_MAX)
  else if n =? nr.PREADV then Some (Readv fd (a 1%nat) (as_u32 (a 2%nat)) (a 3%nat))
  else if n =? nr.PWRITEV then Some (Writev fd (a 1%nat) (as_u32 (a 2%nat)) (a 3%nat))
  else if n =? nr.OPENAT then Some (OpenAt fd (a 1%nat) (as_i32 (a 2%nat)) (as_u32 (a 3%nat)))
  else if n =? nr.OPEN then Some (OpenAt AT_FDCWD (a 0%nat) (as_i32 (a 1%nat)) (as_u32 (a 2%nat)))
  else if n =? nr.CLOSE then Some (Close fd)
  else if n =? nr.STATX then Some (Statx fd (a 1%nat) (a 4%nat) (as_i32 (a 2%nat)) (as_u32 (a 3%nat)))
  else if n =? nr.STAT then Some (Statx AT_FDCWD (a 0%nat) (a 1%nat) 0 STATX_BASIC_STATS)
  else if n =? nr.LSTAT then Some (Statx AT_FDCWD (a 0%nat) (a 1%nat) AT_SYMLINK_NOFOLLOW STATX_BASIC_STATS)
  else if n =? nr.FSTAT then Some (Statx fd 0 (a 1%nat) AT_EMPTY_PATH STATX_BASIC_STATS)
  else if n =? nr.FALLOCATE then Some (Fallocate fd (a 3%nat) (a 2%nat) (as_i32 (a 1%nat)))
  else if n =? nr.FSYNC then Some (Fsync fd false)
  else if n =? nr.FDATASYNC then Some (Fsync fd true)
  else if n =? nr.ACCEPT4 then Some (Accept fd (a 1%nat) (a 2%nat) (as_i32 (a 3%nat)))
  else if n =? nr.CONNECT then Some (Connect fd (a 1%nat) (as_u32 (a 2%nat)))
  else if n =? nr.SENDTO then
    if a 4%nat =? 0 then Some (Send fd (a 1%nat) (as_u32 (a 2%nat)) (as_i32 (a 3%nat))) else None
  else if n =? nr.RECVFROM then
    if a 4%nat =? 0 then Some (Recv fd (a 1%nat) (as_u32 (a 2%nat)) (as_i32 (a 3%nat))) else None
  else if n =? nr.SENDMSG then Some (SendMsg fd (a 1%nat) (as_u32 (a 2%nat)))
  else if n =? nr.RECVMSG then Some (RecvMsg fd (a 1%nat) (as_u32 (a 2%nat)))
  else if n =? nr.SHUTDOWN then Some (Shutdown fd (as_i32 (a 1%nat)))
  else if n =? nr.SOCKET then Some (Socket fd (as_i32 (a 1%nat)) (as_i32 (a 2%nat)))
  else if n =? nr.RENAMEAT2 then
    Some (RenameAt fd (a 1%nat) (as_i32 (a 2%nat)) (a 3%nat) (as_u32 (a 4%nat)))
  else if n =? nr.RENAMEAT then
    if a 4%nat =? 0 then Some (RenameAt fd (a 1%nat) (as_i32 (a 2%nat)) (a 3%nat) (as_u32 (a 4%nat))) else None
  else if n =? nr.RENAME then Some (RenameAt AT_FDCWD (a 0%nat) AT_FDCWD (a 1%nat) 0)
  else if n =? nr.UNLINKAT then Some (UnlinkAt fd (a 1%nat) (as_i32 (a 2%nat)))
  else if n =? nr.UNLINK then Some (UnlinkAt AT_FDCWD (a 0%nat) 0)
  else if n =? nr.RMDIR then Some (UnlinkAt AT_FDCWD (a 0%nat) AT_REMOVEDIR)
  else if n =? nr.MKDIRAT then Some (MkDirAt fd (a 1%nat) (as_u32 (a 2%nat)))
  else if n =? nr.MKDIR then Some (MkDirAt AT_FDCWD (a 0%nat) (as_u32 (a 1%nat)))
  else if n =? nr.SYMLINKAT then Some (SymlinkAt (as_i32 (a 1%nat)) (a 0%nat) (a 2%nat))
  else if n =? nr.SYMLINK then Some (SymlinkAt AT_FDCWD (a 0%nat) (a 1%nat))
  else if n =? nr.LINKAT then
    Some (LinkAt fd (a 1%nat) (as_i32 (a 2%nat)) (a 3%nat) (as_i32 (a 4%nat)))
  else if n =? nr.LINK then Some (LinkAt AT_FDCWD (a 0%nat) AT_FDCWD (a 1%nat) 0)
  else if n =? nr.SPLICE then
    if (a 1%nat =? 0) && (a 3%nat =? 0) then
      Some (Splice fd (-1) (as_i32 (a 2%nat)) (-1) (as_u32 (a 4%nat)) (as_u32 (a 5%nat))) else None
  else None.

(** The system calls the router gives to io_uring, by what becomes of them. *)
Definition faithful : list Z :=
  [nr.READ; nr.WRITE; nr.READV; nr.WRITEV; nr.OPENAT; nr.CLOSE; nr.STATX; nr.FSYNC; nr.FDATASYNC;
   nr.RENAMEAT2; nr.RENAMEAT; nr.UNLINKAT; nr.MKDIRAT; nr.SYMLINKAT; nr.LINKAT; nr.ACCEPT4; nr.CONNECT;
   nr.SENDTO; nr.RECVFROM; nr.SENDMSG; nr.RECVMSG; nr.SHUTDOWN; nr.SOCKET].
Definition misdirected : list Z :=
  [nr.PREAD64; nr.PWRITE64; nr.PREADV; nr.PWRITEV; nr.FALLOCATE; nr.SPLICE; nr.OPEN; nr.RENAME; nr.UNLINK;
   nr.MKDIR; nr.SYMLINK; nr.LINK; nr.RMDIR; nr.STAT; nr.FSTAT; nr.LSTAT].
Definition untranslated : list Z :=
  [nr.OPENAT2; nr.FTRUNCATE; nr.SYNC_FILE_RANGE; nr.FADVISE64; nr.MADVISE; nr.SETXATTR; nr.GETXATTR;
   nr.FSETXATTR; nr.FGETXATTR; nr.BIND; nr.LISTEN; nr.TEE; nr.WAITID; nr.EPOLL_CTL].

(** A call with small positive arguments. *)
Definition sample (n : Z) : SubmitEntry.t :=
  SubmitEntry.mk 7 n 0 (if n =? nr.SPLICE then [3; 0; 4; 0; 5; 6] else [3; 1000; 2000; 4000; 5000; 6000]).

(** Equal to what [router_classifies] gives for all opcodes. *)
Definition newest (n : Z) : RouteInfo.t := classify (λ o, bool_decide (o ∈ seqZ 0 81)) n.
End Abi.

(** ** Lemmas *)

Section PollFacts.
Context {R : Type} `{!IoUring R}.

Definition to_completion (c : cqe) : IoCompletion.t :=
  IoCompletion.mk (cqe_user_data c) (cqe_result c) (cqe_flags c).

Lemma cqe_loop_spec cqes count max buf_len i :
  let n := ((max `min` buf_len) - count)%nat in
  BasicIoUring.poll_loop cqes count max buf_len i =
    (to_completion <$> take n cqes, (length cqes `min` S n)%nat,
     if decide (length (take n cqes) = 0%nat) then i
     else saturating_sub i (Z.of_nat (length (take n cqes)))).
Proof.
  intros n. subst n. revert count i. induction cqes as [|c cqes IH]; intros count i; simpl.
  { rewrite take_nil. by case_decide. }
  destruct (Nat.leb_spec max count); simpl.
  { replace (max `min` buf_len - count)%nat with 0%nat by lia. simpl. by rewrite Nat.min_0_r. }
  destruct (Nat.leb_spec buf_len count); simpl.
  { replace (max `min` buf_len - count)%nat with 0%nat by lia. simpl. by rewrite Nat.min_0_r. }
  rewrite IH. destruct (max `min` buf_len - count)%nat as [|n'] eqn:E; [lia|].
  replace (max `min` buf_len - S count)%nat with n' by lia. simpl. f_equal.
  case_decide as E0.
  - apply length_zero_iff_nil in E0. rewrite E0. done.
  - unfold saturating_sub. lia.
Qed.

Lemma poll_completions_spec (b : BasicIoUring.t R) buf_len max :
  let n := (max `min` buf_len)%nat in
  ∃ b', BasicIoUring.poll_completions b buf_len max =
    (to_completion <$> take n (completion (BasicIoUring.ring b)), b') ∧
    completion (BasicIoUring.ring b') = drop (S n) (completion (BasicIoUring.ring b)) ∧
    (0 ≤ BasicIoUring.inflight b → 0 ≤ BasicIoUring.inflight b' ≤ BasicIoUring.inflight b) ∧
    BasicIoUring.pending_submit b' = BasicIoUring.pending_submit b.
Proof.
  intros n. unfold BasicIoUring.poll_completions. rewrite cqe_loop_spec, Nat.sub_0_r. fold n.
  eexists. split; [done|]. simpl. split; [|split; [unfold saturating_sub; case_decide; lia|done]].
  rewrite completion_advance. destruct (decide (length (completion (BasicIoUring.ring b)) ≤ S n)%nat).
  - rewrite Nat.min_l, !drop_ge by lia. done.
  - by rewrite Nat.min_r by lia.
Qed.

Lemma drain_empties fuel (b : BasicIoUring.t R) :
  (length (completion (BasicIoUring.ring b)) < fuel)%nat →
  ∃ b', BasicIoUring.drain fuel b = Some b' ∧ completion (BasicIoUring.ring b') = [].
Proof.
  revert b. induction fuel as [|fuel IH]; intros b Hf; [lia|]. cbn [BasicIoUring.drain].
  destruct (poll_completions_spec b 64 64) as (b' & -> & Hc & _).
  destruct (completion (BasicIoUring.ring b)) as [|c l] eqn:E; simpl in *.
  - exists b'. split; [done|]. by rewrite Hc.
  - apply IH. rewrite Hc, length_drop. lia.
Qed.
End PollFacts.

(** ** A back end to evaluate: a queue of capacity [cap] whose operations
    complete, with result 0, when they are submitted. *)
Module Loopback.
Record t : Type := mk { cap : Z; sq : list sqe; cq : list cqe }.

Definition complete (s : sqe) : cqe := mkCqe (sqe_user_data s) 0 0.

#[global] Instance loopback : IoUring t := {
  build n := Ok (mk n [] []);
  sq_is_full r := cap r <=? Z.of_nat (length (sq r));
  sq_push r s := if cap r <=? Z.of_nat (length (sq r)) then None else Some (mk (cap r) (sq r ++ [s]) (cq r));
  submit r := (Ok (Z.of_nat (length (sq r))), mk (cap r) [] (cq r ++ (complete <$> sq r)));
  submit_and_wait r _ := (Ok (Z.of_nat (length (sq r))), mk (cap r) [] (cq r ++ (complete <$> sq r)));
  completion := cq;
  advance r n := mk (cap r) (sq r) (drop n (cq r));
  sq_entries := cap;
  register_probe _ := Some (λ o, o <? 61);
  completion_advance _ _ := eq_refl
}.
End Loopback.

(** ** Theorems *)

(** [poll_completions] loses a completion when more are ready than it may
    return.  It returns the oldest [n] entries, [n] being the smaller of the
    limit and the buffer, but its loop takes one entry more from the queue
    before it sees that the buffer is full: the queue is left with all but the
    first [n + 1] entries, so entry number [n], if there is one, is gone, and
    the GVThread that waits for it is never woken. *)
Theorem poll_loses_completion {R : Type} `{!IoUring R} (b : BasicIoUring.t R) buf_len max :
  let n := (max `min` buf_len)%nat in
  let ready := completion (BasicIoUring.ring b) in
  let '(out, b') := BasicIoUring.poll_completions b buf_len max in
  out = to_completion <$> take n ready ∧
  completion (BasicIoUring.ring b') = drop (S n) ready ∧
  ((length ready ≤ n)%nat → out = to_completion <$> ready ∧ completion (BasicIoUring.ring b') = []) ∧
  ∀ c, ready !! n = Some c →
    out ++ (to_completion <$> completion (BasicIoUring.ring b')) =
      to_completion <$> delete n ready.
Proof.
  intros n ready. destruct (poll_completions_spec b buf_len max) as (b' & Hp & Hc & _).
  fold n in Hp, Hc. fold ready in Hp, Hc. rewrite Hp. split; [done|]. split; [done|]. split.
  - intros Hn. rewrite take_ge, Hc, drop_ge by lia. done.
  - intros c Hr. by rewrite Hc, delete_take_drop, <- fmap_app.
Qed.

(** The loop of [shutdown] ends: with one batch more than there are ready
    entries it has seen an empty batch, and then no completion is left and the
    counters are zero. *)
Theorem shutdown_terminates {R : Type} `{!IoUring R} (b : BasicIoUring.t R) :
  ∃ b', BasicIoUring.shutdown (S (length (completion (BasicIoUring.ring b)))) b = Some b' ∧
    completion (BasicIoUring.ring b') = [] ∧
    BasicIoUring.inflight b' = 0 ∧ BasicIoUring.pending_submit b' = 0.
Proof.
  destruct (drain_empties (S (length (completion (BasicIoUring.ring b)))) b) as (b' & Hd & Hc); [lia|].
  unfold BasicIoUring.shutdown. rewrite Hd. eexists. split; [done|]. done.
Qed.

Lemma in_singletons {A} (P : A → Prop) l : Forall P l → ∀ x, x ∈ l → P x.
Proof. by rewrite Forall_forall. Qed.

(** The part of [translation_coverage] each of the three groups has. *)
Definition translated_as_abi (n : Z) : Prop :=
  ∀ e o, SubmitEntry.syscall_nr e = n → Abi.sqe_of n e = Some o →
    BasicIoUring.build_op e (RouteInfo.iouring_opcode (Abi.newest n)) = Ok o.
Definition translated_otherwise (n : Z) : Prop :=
  ∃ o o', Abi.sqe_of n (Abi.sample n) = Some o ∧
    BasicIoUring.build_op (Abi.sample n) (RouteInfo.iouring_opcode (Abi.newest n)) = Ok o' ∧ o' ≠ o.
Definition never_translated (n : Z) : Prop :=
  ∀ e, SubmitEntry.syscall_nr e = n →
    BasicIoUring.build_op e (RouteInfo.iouring_opcode (Abi.newest n)) = Err (KsvcError.Unsupported n).

(** Evaluates the two chains of tests at a given system call number. *)
Ltac eval_opcode :=
  match goal with |- context [RouteInfo.iouring_opcode ?x] =>
    let v := eval vm_compute in (RouteInfo.iouring_opcode x) in
    replace (RouteInfo.iouring_opcode x) with v by (vm_compute; reflexivity)
  end.
Ltac eval_chains := cbv - [as_i32 as_u32 as_i64 BasicIoUring.arg SubmitEntry.syscall_nr U64_MAX].

Lemma faithful_ok : Forall translated_as_abi Abi.faithful.
Proof.
  unfold Abi.faithful. repeat (apply Forall_cons; split); [..|apply Forall_nil; exact I];
    intros e o Hn; eval_opcode; unfold BasicIoUring.build_op; rewrite Hn;
    eval_chains; try (destruct (BasicIoUring.arg e 4)); congruence.
Qed.

Lemma misdirected_ok : Forall translated_otherwise Abi.misdirected.
Proof.
  unfold Abi.misdirected. repeat (apply Forall_cons; split); [..|apply Forall_nil; exact I]; unfold translated_otherwise;
    do 2 eexists; (split; [vm_compute; reflexivity|]); (split; [vm_compute; reflexivity|]); discriminate.
Qed.

Lemma untranslated_ok : Forall never_translated Abi.untranslated.
Proof.
  unfold Abi.untranslated. repeat (apply Forall_cons; split); [..|apply Forall_nil; exact I];
    intros e Hn; eval_opcode; unfold BasicIoUring.build_op; rewrite Hn; reflexivity.
Qed.

Lemma newest_tier1 n :
  0 ≤ n < 512 →
  (RouteInfo.tier (Abi.newest n) = Tier.IoUring ↔ n ∈ Abi.faithful ++ Abi.misdirected ++ Abi.untranslated).
Proof.
  intros Hn. assert (forallb (λ n, Bool.eqb (bool_decide (RouteInfo.tier (Abi.newest n) = Tier.IoUring))
    (bool_decide (n ∈ Abi.faithful ++ Abi.misdirected ++ Abi.untranslated))) (seqZ 0 512) = true) as H
    by (vm_compute; reflexivity).
  rewrite List.forallb_forall in H. specialize (H n). rewrite <- list_elem_of_In, elem_of_seqZ in H.
  specialize (H ltac:(lia)). apply eqb_prop in H.
  rewrite <- (bool_decide_eq_true (RouteInfo.tier _ = _)), H. apply bool_decide_eq_true.
Qed.

(** What becomes of the system calls that the router gives to io_uring on
    the newest kernel.  They are three groups: those whose entry is the one
    their manual page asks for, stamped with the correlation id; those that are
    turned into a different operation (the positioned reads and writes lose
    their offset, [fallocate] its length, [splice] takes pointers for offsets,
    and the calls without a directory descriptor have their arguments read as
    those of the [*at] version); and those that always fail as unsupported. *)
Theorem translation_coverage r :
  ProbeRouter.all_opcodes = Ret r →
  (∀ n, 0 ≤ n < 512 → RouteInfo.tier (route r n) = Tier.IoUring ↔
     n ∈ Abi.faithful ∨ n ∈ Abi.misdirected ∨ n ∈ Abi.untranslated) ∧
  (∀ n e o, n ∈ Abi.faithful → SubmitEntry.syscall_nr e = n → Abi.sqe_of n e = Some o →
     BasicIoUring.build_sqe e (RouteInfo.iouring_opcode (route r n)) = Ok (mkSqe o (SubmitEntry.corr_id e))) ∧
  (∀ n, n ∈ Abi.misdirected → ∃ e o s, SubmitEntry.syscall_nr e = n ∧ Abi.sqe_of n e = Some o ∧
     BasicIoUring.build_sqe e (RouteInfo.iouring_opcode (route r n)) = Ok s ∧ sqe_body s ≠ o) ∧
  (∀ n e, n ∈ Abi.untranslated → SubmitEntry.syscall_nr e = n →
     BasicIoUring.build_sqe e (RouteInfo.iouring_opcode (route r n)) = Err (KsvcError.Unsupported n)).
Proof.
  intros Hr. destruct (new_routes (seqZ 0 81)) as (r' & Hr' & Hroute).
  { apply (bool_decide_unpack _). vm_compute. exact I. }
  unfold ProbeRouter.all_opcodes in Hr. rewrite Hr' in Hr. injection Hr as ->.
  assert (∀ n, 0 ≤ n < 512 → route r n = Abi.newest n) as Hnew.
  { intros n Hn. rewrite Hroute by lia. destruct (Z.ltb_spec n (Z.of_nat size)) as [|Hge]; [done|].
    change (Z.of_nat size) with 512 in Hge. lia. }
  assert (∀ n, n ∈ Abi.faithful ++ Abi.misdirected ++ Abi.untranslated → 0 ≤ n < 512) as Hrange
    by (apply in_singletons; apply (bool_decide_unpack _); vm_compute; exact I).
  unfold BasicIoUring.build_sqe. repeat split.
  - intros Ht. rewrite Hnew, newest_tier1, !elem_of_app in Ht by done. done.
  - intros Ht. rewrite Hnew, newest_tier1, !elem_of_app by done. done.
  - intros n e o Hn He Ho. rewrite Hnew by (apply Hrange; rewrite !elem_of_app; tauto).
    by rewrite (in_singletons _ _ faithful_ok n Hn e o He Ho).
  - intros n Hn. destruct (in_singletons _ _ misdirected_ok n Hn) as (o & o' & Ho & Ho' & Hne).
    exists (Abi.sample n), o, (mkSqe o' 7). rewrite Hnew, Ho' by (apply Hrange; rewrite !elem_of_app; tauto).
    split; [reflexivity|]. split; [exact Ho|]. split; [reflexivity|exact Hne].
  - intros n e Hn He. rewrite Hnew by (apply Hrange; rewrite !elem_of_app; tauto).
    by rewrite (in_singletons _ _ untranslated_ok n Hn e He).
Qed.

(** ** Witnesses *)

Lemma translation_coverage_witness :
  ∃ r e o s, ProbeRouter.all_opcodes = Ret r ∧ SubmitEntry.syscall_nr e = nr.OPEN ∧ Abi.sqe_of nr.OPEN e = Some o ∧
    BasicIoUring.build_sqe e (RouteInfo.iouring_opcode (route r nr.OPEN)) = Ok s ∧ sqe_body s ≠ o.
Proof.
  destruct ProbeRouter.all_opcodes as [r|] eqn:Hr; [|exfalso; vm_compute in Hr; discriminate Hr].
  destruct (proj1 (proj2 (proj2 (translation_coverage r Hr))) nr.OPEN) as (e & o & s & H).
  { apply (bool_decide_unpack _). vm_compute. exact I. }
  exists r, e, o, s. split; [reflexivity|exact H].
Defined.

(** Three completions are ready and two are asked for: the third is lost. *)
Lemma poll_three_by_two :
  let b := BasicIoUring.mk (Loopback.mk 8 [] [mkCqe 1 10 0; mkCqe 2 20 0; mkCqe 3 30 0]) 3 0 in
  let '(out, b') := BasicIoUring.poll_completions b 2 2 in
  out = [IoCompletion.mk 1 10 0; IoCompletion.mk 2 20 0] ∧
  completion (BasicIoUring.ring b') = [] ∧ BasicIoUring.inflight b' = 1.
Proof. vm_compute. repeat split. Qed.
