(* ===== verification/KsvcPool.v ===== *)
(** * The worker pool

    Models [ksvc-module/src/fixed_pool.rs]: the operations of [FixedPool] and,
    in [FixedPoolRun], the atomic steps of its worker threads together with the
    dispatcher's.  The queues are those of [crossbeam_queue], by the class
    [ArrayQueue] of what its documentation promises. *)

From S2P Require Import Prelude KsvcTypes.

(** A bounded multi-producer multi-consumer FIFO queue; [aq_new 0] panics. *)
Class ArrayQueue (Q : Type → Type) : Type := {
  aq_new : ∀ A, nat → outcome (Q A);
  aq_push : ∀ {A}, Q A → A → option (Q A);
  aq_pop : ∀ {A}, Q A → option (A * Q A);
  aq_items : ∀ {A}, Q A → list A;
  aq_cap : ∀ {A}, Q A → nat;
  aq_new_spec A n :
    if decide (n = 0%nat) then aq_new A n = Panic
    else ∃ q, aq_new A n = Ret q ∧ aq_items q = [] ∧ aq_cap q = n;
  aq_push_spec A (q : Q A) x :
    if decide (length (aq_items q) < aq_cap q)%nat
    then ∃ q', aq_push q x = Some q' ∧ aq_items q' = aq_items q ++ [x] ∧ aq_cap q' = aq_cap q
    else aq_push q x = None;
  aq_pop_spec A (q : Q A) :
    match aq_items q with
    | [] => aq_pop q = None
    | x :: l => ∃ q', aq_pop q = Some (x, q') ∧ aq_items q' = l ∧ aq_cap q' = aq_cap q
    end
}.

(** A list with a capacity is one. *)
Record list_queue (A : Type) : Type := mkListQueue { lq_cap : nat; lq_items : list A }.
Arguments mkListQueue {A} _ _.
Arguments lq_cap {A} _.
Arguments lq_items {A} _.

#[export, refine] Instance list_array_queue : ArrayQueue list_queue := {
  aq_new A n := if decide (n = 0%nat) then Panic else Ret (mkListQueue n []);
  aq_push A q x :=
    if decide (length (lq_items q) < lq_cap q)%nat then Some (mkListQueue (lq_cap q) (lq_items q ++ [x])) else None;
  aq_pop A q :=
    match lq_items q with [] => None | x :: l => Some (x, mkListQueue (lq_cap q) l) end;
  aq_items A q := lq_items q;
  aq_cap A q := lq_cap q
}.
Proof.
  - intros A n. case_decide; eauto.
  - intros A q x. case_decide; eauto.
  - intros A q. destruct (lq_items q); eauto.
Defined.

Section QueueFacts.
Context {Q : Type → Type} `{!ArrayQueue Q} {A : Type}.

Lemma aq_push_Some (q q' : Q A) x : aq_push q x = Some q' → aq_items q' = aq_items q ++ [x] ∧ aq_cap q' = aq_cap q.
Proof. intros Hp. pose proof (aq_push_spec A q x) as Hs. case_decide; [|congruence]. destruct Hs as (q1 & Hq & ? & ?). by simplify_eq. Qed.

Lemma aq_pop_Some (q q' : Q A) x : aq_pop q = Some (x, q') → aq_items q = x :: aq_items q' ∧ aq_cap q' = aq_cap q.
Proof.
  intros Hp. pose proof (aq_pop_spec A q) as Hs. destruct (aq_items q); [congruence|].
  destruct Hs as (q1 & Hq & ? & ?). by simplify_eq.
Qed.

Lemma aq_push_room (q : Q A) x : (length (aq_items q) < aq_cap q)%nat → ∃ q', aq_push q x = Some q'.
Proof. intros Hr. pose proof (aq_push_spec A q x) as Hs. rewrite decide_True in Hs by done. naive_solver. Qed.

Lemma aq_push_full (q : Q A) x : (aq_cap q ≤ length (aq_items q))%nat → aq_push q x = None.
Proof. intros Hr. pose proof (aq_push_spec A q x) as Hs. by rewrite decide_False in Hs by lia. Qed.
End QueueFacts.

(** ** [FixedPool] *)
Module FixedPool.
Section Pool.
Context {Q : Type → Type} `{!ArrayQueue Q}.

(** [PoolInner]; a [WorkItem] is its entry. *)
Record inner : Type := mkInner {
  work_queue : Q SubmitEntry.t;
  result_queue : Q WorkerCompletion.t;
  active : Z;
  shutdown : bool;
  total : Z
}.

Definition clamp_workers (n : Z) : Z := (n `max` 1) `min` 32.

(** [new]: the shared state; one thread per worker runs [worker_loop]. *)
Definition new (n : Z) (queue_depth : nat) : outcome inner :=
  match aq_new SubmitEntry.t queue_depth, aq_new WorkerCompletion.t queue_depth with
  | Ret wq, Ret rq => Ret (mkInner wq rq 0 false (clamp_workers n))
  | _, _ => Panic
  end.

(** [cpus] is [available_parallelism], if it is known. *)
Definition auto_workers (cpus : option Z) : Z := ((default 4 cpus / 2) `max` 2) `min` 8.
Definition auto_sized (cpus : option Z) (queue_depth : nat) : outcome inner := new (auto_workers cpus) queue_depth.

Definition enqueue (p : inner) (e : SubmitEntry.t) : KResult unit * inner :=
  if shutdown p then (Err KsvcError.WorkerUnavailable, p)
  else match aq_push (work_queue p) e with
  | Some q => (Ok (), mkInner q (result_queue p) (active p) (shutdown p) (total p))
  | None => (Err KsvcError.WorkerUnavailable, p)
  end.

(** [n] is the number of places left in the buffer and below [max]. *)
Fixpoint poll_loop (p : inner) (n : nat) : list WorkerCompletion.t * inner :=
  match n with
  | O => ([], p)
  | S n' =>
      match aq_pop (result_queue p) with
      | Some (c, q) =>
          let '(out, p') := poll_loop (mkInner (work_queue p) q (active p) (shutdown p) (total p)) n' in
          (c :: out, p')
      | None => ([], p)
      end
  end.

Definition poll_completions (p : inner) (buf_len max : nat) : list WorkerCompletion.t * inner :=
  poll_loop p (max `min` buf_len).

Definition set_shutdown (p : inner) : inner := mkInner (work_queue p) (result_queue p) (active p) true (total p).

(** The return value of [libc::syscall] and [errno] as one result. *)
Definition syscall_result (ret errno : Z) : Z := if ret <? 0 then - errno else ret.

#[global] Instance pool : WorkerPool inner := {
  wp_enqueue := enqueue;
  wp_poll_completions := poll_completions;
  wp_active_workers := active;
  wp_total_workers := total;
  wp_max_workers := total;
  wp_shutdown := set_shutdown
}.
End Pool.
Arguments inner : clear implicits.
End FixedPool.

(** ** Workers and dispatcher as threads *)
Module FixedPoolRun.
Section Run.
Context {Q : Type → Type} `{!ArrayQueue Q}.
Import FixedPool.

(** The shared state and three histories: what [enqueue] accepted, what the
    dispatcher took, what a worker threw away. *)
Record shared : Type := mkShared {
  pool : inner Q;
  accepted : list Z;
  delivered : list Z;
  dropped : list Z
}.

(** A worker at the top of its loop, with an item, inside the system call, after
    it, publishing a completion after [n] failures, or gone; the dispatcher,
    idle or inside [enqueue] past the test of the flag. *)
Inductive thread : Type :=
| WTop
| WPop
| WGot (e : SubmitEntry.t)
| WExec (e : SubmitEntry.t)
| WDone (e : SubmitEntry.t) (result : Z)
| WPush (c : WorkerCompletion.t) (retries : Z)
| WExit
| Dispatcher
| DEnqueue (e : SubmitEntry.t).

Definition with_pool (s : shared) (p : inner Q) : shared := mkShared p (accepted s) (delivered s) (dropped s).
Definition with_active (p : inner Q) (a : Z) : inner Q :=
  mkInner (work_queue p) (result_queue p) a (shutdown p) (total p).
Definition with_work (p : inner Q) (q : Q SubmitEntry.t) : inner Q :=
  mkInner q (result_queue p) (active p) (shutdown p) (total p).
Definition with_results (p : inner Q) (q : Q WorkerCompletion.t) : inner Q :=
  mkInner (work_queue p) q (active p) (shutdown p) (total p).

Inductive tstep : shared → thread → shared → thread → Prop :=
| w_exit s : shutdown (pool s) = true → tstep s WTop s WExit
| w_enter s : shutdown (pool s) = false → tstep s WTop s WPop
| w_idle s : aq_pop (work_queue (pool s)) = None → tstep s WPop s WTop
| w_take s e q :
    aq_pop (work_queue (pool s)) = Some (e, q) →
    tstep s WPop (with_pool s (with_work (pool s) q)) (WGot e)
| w_begin s e : tstep s (WGot e) (with_pool s (with_active (pool s) (active (pool s) +[64] 1))) (WExec e)
| w_syscall s e ret errno : tstep s (WExec e) s (WDone e (syscall_result ret errno))
| w_end s e res :
    tstep s (WDone e res) (with_pool s (with_active (pool s) (active (pool s) -[64] 1)))
      (WPush (WorkerCompletion.mk (SubmitEntry.corr_id e) res) 0)
| w_publish s c n q :
    aq_push (result_queue (pool s)) c = Some q →
    tstep s (WPush c n) (with_pool s (with_results (pool s) q)) WTop
| w_retry s c n :
    aq_push (result_queue (pool s)) c = None → n + 1 ≤ 1000 → shutdown (pool s) = false →
    tstep s (WPush c n) s (WPush c (n + 1))
| w_drop s c n :
    aq_push (result_queue (pool s)) c = None → 1000 < n + 1 ∨ shutdown (pool s) = true →
    tstep s (WPush c n)
      (mkShared (pool s) (accepted s) (delivered s) (dropped s ++ [WorkerCompletion.corr_id c])) WTop
| d_check s e : shutdown (pool s) = false → tstep s Dispatcher s (DEnqueue e)
| d_refuse s e : aq_push (work_queue (pool s)) e = None → tstep s (DEnqueue e) s Dispatcher
| d_accept s e q :
    aq_push (work_queue (pool s)) e = Some q →
    tstep s (DEnqueue e)
      (mkShared (with_work (pool s) q) (accepted s ++ [SubmitEntry.corr_id e]) (delivered s) (dropped s)) Dispatcher
| d_poll s c q :
    aq_pop (result_queue (pool s)) = Some (c, q) →
    tstep s Dispatcher
      (mkShared (with_results (pool s) q) (accepted s) (delivered s ++ [WorkerCompletion.corr_id c]) (dropped s)) Dispatcher
| d_shutdown s : tstep s Dispatcher (with_pool s (set_shutdown (pool s))) Dispatcher.

(** The request a thread is responsible for. *)
Definition holds (l : thread) : list Z :=
  match l with
  | WGot e | WExec e | WDone e _ => [SubmitEntry.corr_id e]
  | WPush c _ => [WorkerCompletion.corr_id c]
  | _ => []
  end.

Definition busy (l : thread) : Z := match l with WExec _ | WDone _ _ => 1 | _ => 0 end.

Definition init (x : shared * list thread) : Prop :=
  ∃ p n depth workers, FixedPool.new n depth = Ret p ∧
    x = (mkShared p [] [] [], Dispatcher :: replicate workers WTop).

Record conserved (s : shared) (ls : list thread) : Prop := mkConserved {
  c_requests :
    accepted s ≡ₚ (SubmitEntry.corr_id <$> aq_items (work_queue (pool s))) ++ collect holds ls ++
      (WorkerCompletion.corr_id <$> aq_items (result_queue (pool s))) ++ delivered s ++ dropped s;
  c_active : active (pool s) = wrap 64 (sum_over busy ls)
}.
End Run.
Arguments shared : clear implicits.
End FixedPoolRun.

(** ** Lemmas *)
Section PoolFacts.
Context {Q : Type → Type} `{!ArrayQueue Q}.
Import FixedPool FixedPoolRun.
Implicit Types (s : shared Q) (ls : list thread).

Lemma conserved_init x : init (Q := Q) x → conserved x.1 x.2.
Proof.
  intros (p & n & depth & workers & Hp & ->). unfold FixedPool.new in Hp.
  pose proof (aq_new_spec SubmitEntry.t depth) as Hw. pose proof (aq_new_spec WorkerCompletion.t depth) as Hr.
  case_decide; [by rewrite Hw in Hp|]. destruct Hw as (wq & Hw & Hwi & _), Hr as (rq & Hr & Hri & _).
  rewrite Hw, Hr in Hp. injection Hp as <-. constructor; simpl.
  - rewrite Hwi, Hri. unfold collect. simpl.
    assert (collect holds (replicate workers WTop) = []) as Hc.
    { apply collect_nil. intros l Hl. apply elem_of_replicate in Hl as [-> _]. done. }
    unfold collect in Hc. rewrite Hc. done.
  - rewrite sum_over_zero; [done|]. intros l Hl. apply elem_of_replicate in Hl as [-> _]. done.
Qed.

Lemma conserved_step x y : pool_step tstep x y → conserved (Q := Q) x.1 x.2 → conserved y.1 y.2.
Proof.
  intros [s l s' l' l1 l2 Ht] [Hreq Hact]; simpl in *. rewrite collect_middle in Hreq. rewrite sum_over_middle in Hact.
  destruct Ht; constructor; simpl; rewrite ?collect_middle, ?sum_over_middle; simpl in *; try done;
    repeat match goal with
    | H : aq_pop _ = Some _ |- _ => apply aq_pop_Some in H as [H _]; rewrite H in Hreq; clear H
    | H : aq_push _ _ = Some _ |- _ => apply aq_push_Some in H as [H _]; rewrite H; clear H
    end; rewrite ?fmap_app, ?fmap_cons, ?fmap_nil in *; try (rewrite Hact, ?wrap_add_l, ?wrap_sub_l; f_equal; lia); perm_solver.
Qed.

Lemma conserved_reachable x : reachable (pool_step tstep) (init (Q := Q)) x → conserved x.1 x.2.
Proof.
  apply (reachable_invariant _ _ (λ x, conserved x.1 x.2)); [apply conserved_init|].
  intros y z Hy Hs. by eapply conserved_step.
Qed.

(** A worker that finds the result queue full tries again. *)
Lemma retries s ls i c n :
  ls !! i = Some (WPush c 0) → aq_push (result_queue (pool s)) c = None → shutdown (pool s) = false →
  (n ≤ 1000)%nat → rtc (pool_step tstep) (s, ls) (s, <[i := WPush c (Z.of_nat n)]> ls).
Proof.
  intros Hi Hfull Hsd. induction n as [|n IH]; intros Hn.
  - rewrite list_insert_id by done. apply rtc_refl.
  - eapply rtc_r; [apply IH; lia|]. pose proof (lookup_lt_Some _ _ _ Hi).
    rewrite <- (list_insert_insert_eq ls i (WPush c (Z.of_nat (S n))) (WPush c (Z.of_nat n))).
    eapply pool_step_at; [by apply list_lookup_insert_eq|].
    replace (Z.of_nat (S n)) with (Z.of_nat n + 1) by lia. apply w_retry; [done|lia|done].
Qed.

(** No thread is a worker that still runs. *)
Definition retired (l : thread) : Prop := match l with WExit | Dispatcher | DEnqueue _ => True | _ => False end.

Definition abandoned (x : shared Q * list thread) : Prop :=
  Forall retired x.2 ∧ aq_items (result_queue (pool x.1)) = [] ∧ delivered x.1 = [].

Lemma abandoned_step x y : abandoned x → pool_step tstep x y → abandoned y.
Proof.
  intros Ha Hs. destruct Hs as [s l s' l' l1 l2 Ht]. destruct Ha as (Hr & Hres & Hd). simpl in *.
  rewrite Forall_app, Forall_cons in Hr.
  destruct Hr as (H1 & Hl & H2). destruct Ht; simpl in Hl; try done; unfold abandoned; simpl;
    try (match goal with H : aq_pop _ = Some _ |- _ => apply aq_pop_Some in H as [H _]; congruence end);
    rewrite Forall_app, Forall_cons; done.
Qed.
End PoolFacts.

(** ** Theorems *)
Section PoolTheorems.
Import FixedPool FixedPoolRun.

(** C9: The worker pool accounts for every request.  In every interleaving of
    any number of workers with the dispatcher, each accepted request is in
    exactly one place: the work queue, a worker's hands, the result queue,
    delivered to the dispatcher, or thrown away; and [active] counts the workers
    that are inside a system call. *)
Theorem pool_conserves_requests {Q : Type → Type} `{!ArrayQueue Q} (x : shared Q * list thread) :
  reachable (pool_step tstep) init x →
  accepted x.1 ≡ₚ (SubmitEntry.corr_id <$> aq_items (work_queue (pool x.1))) ++ collect holds x.2 ++
    (WorkerCompletion.corr_id <$> aq_items (result_queue (pool x.1))) ++ delivered x.1 ++ dropped x.1 ∧
  wp_active_workers (pool x.1) = wrap 64 (sum_over busy x.2).
Proof. intros Hr. destruct (conserved_reachable x Hr) as [Hreq Hact]. split; [exact Hreq|exact Hact]. Qed.

Definition demo_request (n : Z) : SubmitEntry.t := SubmitEntry.mk n 32 0 [1; 0; 0; 0; 0; 0].
Definition pool_of (w : list SubmitEntry.t) (r : list WorkerCompletion.t) (sd : bool) : inner list_queue :=
  mkInner (mkListQueue 1 w) (mkListQueue 1 r) 0 sd 1.

Lemma demo_init : init (mkShared (pool_of [] [] false) [] [] [], [Dispatcher; WTop]).
Proof. by exists (pool_of [] [] false), 1, 1%nat, 1%nat. Qed.

(** One request is accepted and executed by the worker, up to its publication. *)
Lemma run_request n acc res :
  rtc (pool_step tstep) (mkShared (pool_of [] res false) acc [] [], [Dispatcher; WTop])
    (mkShared (pool_of [] res false) (acc ++ [n]) [] [],
     [Dispatcher; WPush (WorkerCompletion.mk n 5) 0]).
Proof.
  pool_by 0%nat (d_check _ (demo_request n)). pool_by 0%nat d_accept.
  pool_by 1%nat w_enter. pool_by 1%nat w_take. pool_by 1%nat w_begin.
  pool_by 1%nat (w_syscall _ _ 5 0). pool_by 1%nat w_end. apply rtc_refl.
Qed.

(** A worker can throw a finished result away while the pool is in use.
    When the dispatcher is slow and the result queue is full, a worker gives up
    after 1001 attempts to publish: the accepted request 2 is then in no queue
    and in no worker's hands, and nobody is told. *)
Theorem pool_drops_result :
  ∃ x : shared list_queue * list thread, reachable (pool_step tstep) init x ∧
    shutdown (pool x.1) = false ∧ accepted x.1 = [1; 2] ∧ dropped x.1 = [2] ∧ delivered x.1 = [] ∧
    aq_items (work_queue (pool x.1)) = [] ∧ collect holds x.2 = [] ∧
    aq_items (result_queue (pool x.1)) = [WorkerCompletion.mk 1 5].
Proof.
  exists (mkShared (pool_of [] [WorkerCompletion.mk 1 5] false) [1; 2] [] [2], [Dispatcher; WTop]).
  split; [|done]. exists (mkShared (pool_of [] [] false) [] [] [], [Dispatcher; WTop]). split; [apply demo_init|].
  etrans; [apply (run_request 1 [] [])|]. pool_by 1%nat w_publish.
  etrans; [apply (run_request 2 [1] [WorkerCompletion.mk 1 5])|].
  etrans; [apply (retries _ _ 1 (WorkerCompletion.mk 2 5) 1000); done || lia|].
  apply rtc_once.
  apply (pool_step_at tstep _ [Dispatcher; WPush (WorkerCompletion.mk 2 5) 1000] 1 (WPush (WorkerCompletion.mk 2 5) 1000)
    _ WTop); [done|].
  apply (w_drop (mkShared (pool_of [] [WorkerCompletion.mk 1 5] false) [1; 2] [] [])); [done|lia].
Qed.

(** [shutdown] does not drain the pool, although its trait says that it
    blocks until it has: the workers leave at the next test of the flag, and a
    request that was accepted and is still queued is never executed, so
    whatever happens afterwards it is never delivered. *)
Theorem shutdown_abandons_work :
  ∃ x : shared list_queue * list thread, reachable (pool_step tstep) init x ∧
    accepted x.1 = [1] ∧ aq_items (work_queue (pool x.1)) = [demo_request 1] ∧
    ∀ y, rtc (pool_step tstep) x y → delivered y.1 = [].
Proof.
  exists (mkShared (pool_of [demo_request 1] [] true) [1] [] [], [Dispatcher; WExit]). split; [|split; [done|split; [done|]]].
  - exists (mkShared (pool_of [] [] false) [] [] [], [Dispatcher; WTop]). split; [apply demo_init|].
    pool_by 0%nat (d_check _ (demo_request 1)). pool_by 0%nat d_accept. pool_by 0%nat d_shutdown.
    pool_by 1%nat w_exit. apply rtc_refl.
  - intros y Hy. assert (abandoned y) as (_ & _ & Hd); [|done].
    eapply (rtc_invariant (pool_step tstep) abandoned); [apply abandoned_step|exact Hy|].
    split; [by repeat constructor|done].
Qed.
End PoolTheorems.

(** ** Witness *)

(** The state in which a worker has executed request 3. *)
Lemma pool_conserves_requests_witness :
  let x := (FixedPoolRun.mkShared (pool_of [] [] false) [3] [] [],
            [FixedPoolRun.Dispatcher; FixedPoolRun.WPush (WorkerCompletion.mk 3 5) 0]) in
  reachable (pool_step FixedPoolRun.tstep) FixedPoolRun.init x ∧
  FixedPoolRun.accepted x.1 ≡ₚ [3] ++ [] ∧ wp_active_workers (FixedPoolRun.pool x.1) = 0.
Proof.
  assert (Hr : reachable (pool_step FixedPoolRun.tstep) FixedPoolRun.init
    (FixedPoolRun.mkShared (pool_of [] [] false) [3] [] [],
     [FixedPoolRun.Dispatcher; FixedPoolRun.WPush (WorkerCompletion.mk 3 5) 0])).
  { eexists. split; [apply demo_init|apply (run_request 3 [] [])]. }
  split; [exact Hr|]. exact (pool_conserves_requests _ Hr).
Defined.
