(* ===== verification/KsvcDispatch.v ===== *)
(** * The dispatcher and the instance

    Models [ksvc-executor/src/lib.rs] ([dispatcher_loop]) and
    [ksvc-module/src/instance.rs] ([InstanceBuilder], the ordered shutdown), for
    any implementation of the traits. *)

From S2P Require Import Prelude Metadata KsvcTypes KsvcRouter KsvcRing KsvcUring KsvcPool.

(** ** The dispatcher loop *)
Module Dispatcher.

Record Config : Type := mkConfig {
  max_batch : nat;
  max_io_completions : nat;
  max_worker_completions : nat;
  idle_sleep_us : Z
}.
Definition default_config : Config := mkConfig 64 128 64 100.

Section Loop.
Context {R B W Nt : Type}.
Context `{!SyscallRouter R, !IoBackend B, !WorkerPool W, !Notifier Nt}.
Context (router : R) (config : Config).

(** The two rings with the memory they are mapped to, and the components. *)
Record state : Type := mk {
  submit_ring : ExecSubmitRing.t;
  submit_mem : region SubmitEntry.t;
  completion_ring : CompletionRing.t;
  completion_mem : region CompletionEntry.t;
  io_backend : B;
  worker_pool : W;
  notifier : Nt
}.

Definition with_ring (s : state) (cr : CompletionRing.t) (cm : region CompletionEntry.t) : state :=
  mk (submit_ring s) (submit_mem s) cr cm (io_backend s) (worker_pool s) (notifier s).
Definition with_io (s : state) (b : B) : state :=
  mk (submit_ring s) (submit_mem s) (completion_ring s) (completion_mem s) b (worker_pool s) (notifier s).
Definition with_pool (s : state) (w : W) : state :=
  mk (submit_ring s) (submit_mem s) (completion_ring s) (completion_mem s) (io_backend s) w (notifier s).
Definition with_notifier (s : state) (n : Nt) : state :=
  mk (submit_ring s) (submit_mem s) (completion_ring s) (completion_mem s) (io_backend s) (worker_pool s) n.

(** [completion_ring.push(...)], whose result is ignored. *)
Definition push (s : state) (corr_id result flags : Z) : state :=
  let '(_, cr, cm) := CompletionRing.push (completion_ring s) (completion_mem s) corr_id result flags in
  with_ring s cr cm.

(** Steps 1 and 2: drain the back end, then the pool. *)
Definition drain_io (s : state) : nat * state :=
  let '(cs, b) := io_poll_completions (io_backend s) (max_io_completions config) (max_io_completions config) in
  (length cs,
   fold_left (λ s c, push s (IoCompletion.corr_id c) (IoCompletion.result c) (IoCompletion.flags c)) cs (with_io s b)).

Definition drain_workers (s : state) : nat * state :=
  let '(cs, w) :=
    wp_poll_completions (worker_pool s) (max_worker_completions config) (max_worker_completions config) in
  (length cs,
   fold_left (λ s c, push s (WorkerCompletion.corr_id c) (WorkerCompletion.result c) 0) cs (with_pool s w)).

(** Steps 3 and 6b: publish, and notify if there was anything. *)
Definition flush_and_notify (s : state) : state :=
  let '(n, cr, cm) := CompletionRing.flush (completion_ring s) (completion_mem s) in
  let s := with_ring s cr cm in
  if 0 <? n then with_notifier s (notify (notifier s)).2 else s.

(** Step 5 for one entry; [q] counts the entries given to io_uring. *)
Definition route_entry (qs : nat * state) (e : SubmitEntry.t) : nat * state :=
  let '(q, s) := qs in
  let reject errno := (q, push s (SubmitEntry.corr_id e) (- errno) 0) in
  match RouteInfo.tier (route router (SubmitEntry.syscall_nr e)) with
  | Tier.SharedPage => reject libc.ENOSYS
  | Tier.IoUring =>
      match io_submit (io_backend s) e with
      | (Ok _, b) => (S q, with_io s b)
      | (Err KsvcError.RingFull, b) => (q, push (with_io s b) (SubmitEntry.corr_id e) (- libc.EAGAIN) 0)
      | (Err _, b) => (q, push (with_io s b) (SubmitEntry.corr_id e) (- libc.ENOSYS) 0)
      end
  | Tier.WorkerPool =>
      match wp_enqueue (worker_pool s) e with
      | (Ok _, w) => (q, with_pool s w)
      | (Err _, w) => (q, push (with_pool s w) (SubmitEntry.corr_id e) (- libc.EAGAIN) 0)
      end
  | Tier.Legacy => reject libc.ENOSYS
  end.

(** Step 4. *)
Definition dequeue (s : state) : list SubmitEntry.t * state :=
  let '(es, sr, sm) :=
    ExecSubmitRing.dequeue_batch (submit_ring s) (submit_mem s) (max_batch config) (max_batch config) in
  (es, mk sr sm (completion_ring s) (completion_mem s) (io_backend s) (worker_pool s) (notifier s)).

(** One turn of the loop, and whether it did any work (otherwise the thread
    sleeps for [idle_sleep_us]). *)
Definition turn (s : state) : bool * state :=
  let '(n_io, s) := drain_io s in
  let '(n_worker, s) := drain_workers s in
  let s := flush_and_notify s in
  let '(es, s) := dequeue s in
  let '(sqes_queued, s) := fold_left route_entry es (0%nat, s) in
  let s := if (0 <? sqes_queued)%nat then with_io s (io_flush (io_backend s)).2 else s in
  let s := flush_and_notify s in
  ((0 <? n_io)%nat || (0 <? n_worker)%nat || (0 <? length es)%nat, s).

(** What follows the loop. *)
Definition finish (s : state) : state :=
  let '(_, s) := drain_io s in
  let '(_, s) := drain_workers s in
  let s := flush_and_notify s in
  with_pool s (wp_shutdown (worker_pool s)).

(** The loop: before every turn the other threads change what they share. *)
Definition dispatcher_loop (others : list (state → state)) (s : state) : state :=
  finish (fold_left (λ s f, (turn (f s)).2) others s).
End Loop.
Arguments state : clear implicits.
End Dispatcher.

(** ** [instance.rs] *)
Module KsvcInstance.
Section Instance.
Context {Ring : Type} `{!IoUring Ring} {Q : Type → Type} `{!ArrayQueue Q}.

Record t : Type := mk {
  router : ProbeRouter.t;
  io_backend : BasicIoUring.t Ring;
  worker_pool : FixedPool.inner Q;
  notifier : EventFdNotifier.t;
  buffer_provider : HeapBuffers.t;
  eventfd_raw : Z
}.

Record builder : Type := mkBuilder {
  sq_entries : Z; worker_count : Z; worker_queue_depth : nat; buffer_size : Z
}.
Definition default_builder : builder := mkBuilder 256 0 256 8192.

Definition with_sq_entries (b : builder) (n : Z) := mkBuilder n (worker_count b) (worker_queue_depth b) (buffer_size b).
Definition with_worker_count (b : builder) (n : Z) := mkBuilder (sq_entries b) n (worker_queue_depth b) (buffer_size b).
Definition with_worker_queue_depth (b : builder) (n : nat) := mkBuilder (sq_entries b) (worker_count b) n (buffer_size b).
Definition with_buffer_size (b : builder) (n : Z) := mkBuilder (sq_entries b) (worker_count b) (worker_queue_depth b) n.

(** [build]; [cpus] is the parallelism, [fd] and [errno] what [eventfd] gives. *)
Definition build (b : builder) (cpus : option Z) (fd errno : Z) : outcome (KResult t) :=
  match BasicIoUring.new (BasicIoUring.mkConfig (sq_entries b) None) with
  | Err e => Ret (Err e)
  | Ok io =>
      r ← ProbeRouter.new (BasicIoUring.probe_opcodes_static io);
      w ← (if worker_count b =? 0 then FixedPool.auto_sized cpus (worker_queue_depth b)
           else FixedPool.new (worker_count b) (worker_queue_depth b));
      match EventFdNotifier.create fd errno with
      | Err e => Ret (Err e)
      | Ok n => Ret (Ok (mk r io w n (HeapBuffers.new (buffer_size b)) (EventFdNotifier.fd n)))
      end
  end.

(** [drop]: the pool first, then io_uring. *)
Definition drop (i : t) : t :=
  let w := wp_shutdown (worker_pool i) in
  mk (router i) (io_shutdown (io_backend i)) w (notifier i) (buffer_provider i) (eventfd_raw i).
End Instance.
Arguments t : clear implicits.
End KsvcInstance.

(** ** What a turn does to the entries *)
Section DispatchFacts.
Import Dispatcher.
Context {R B W Nt : Type}.
Context `{!SyscallRouter R, !IoBackend B, !WorkerPool W, !Notifier Nt}.
Context (router : R) (config : Config).
Implicit Types (s : state B W Nt) (e : SubmitEntry.t).

(** What becomes of an entry: accepted by the back end or the pool ([None]), or
    refused with an error number. *)
Definition answer (b : B) (w : W) e : option Z * B * W :=
  match RouteInfo.tier (route router (SubmitEntry.syscall_nr e)) with
  | Tier.SharedPage | Tier.Legacy => (Some libc.ENOSYS, b, w)
  | Tier.IoUring =>
      match io_submit b e with
      | (Ok _, b') => (None, b', w)
      | (Err KsvcError.RingFull, b') => (Some libc.EAGAIN, b', w)
      | (Err _, b') => (Some libc.ENOSYS, b', w)
      end
  | Tier.WorkerPool =>
      match wp_enqueue w e with
      | (Ok _, w') => (None, b, w')
      | (Err _, w') => (Some libc.EAGAIN, b, w')
      end
  end.

Fixpoint answers (b : B) (w : W) (es : list SubmitEntry.t) : list (SubmitEntry.t * option Z) * B * W :=
  match es with
  | [] => ([], b, w)
  | e :: es' =>
      let '(a, b, w) := answer b w e in
      let '(l, b, w) := answers b w es' in
      ((e, a) :: l, b, w)
  end.

(** The completions of the refused entries. *)
Definition refusals (l : list (SubmitEntry.t * option Z)) : list CompletionEntry.t :=
  omap (λ x, (λ errno, CompletionEntry.mk (SubmitEntry.corr_id x.1) (- errno) 0 0) <$> x.2) l.

Definition of_io (c : IoCompletion.t) : CompletionEntry.t :=
  CompletionEntry.mk (IoCompletion.corr_id c) (IoCompletion.result c) (IoCompletion.flags c) 0.
Definition of_worker (c : WorkerCompletion.t) : CompletionEntry.t :=
  CompletionEntry.mk (WorkerCompletion.corr_id c) (WorkerCompletion.result c) 0 0.

(** The completion ring of [s] holds [q], published, and [p], pending; the
    components are [b], [w] and [sr]/[sm]. *)
Record holds s q p (b : B) (w : W) sr sm size : Prop := mkHolds {
  h_ring : comp_rep (completion_ring s) (completion_mem s) q p;
  h_size : CompletionRing.size (completion_ring s) = size;
  h_io : io_backend s = b;
  h_pool : worker_pool s = w;
  h_submit : submit_ring s = sr ∧ submit_mem s = sm
}.

Lemma push_holds s q p b w sr sm size c v f :
  holds s q p b w sr sm size → Z.of_nat (length (q ++ p)) < size →
  holds (push s c v f) q (p ++ [CompletionEntry.mk c v f 0]) b w sr sm size.
Proof.
  intros [Hr Hs Hb Hw Hsub] Hroom. pose proof (comp_push_rep _ _ _ _ c v f Hr) as Hp. rewrite Hs in Hp.
  rewrite decide_True in Hp by done. destruct Hp as (r' & m' & Hp & Hr'). unfold push. rewrite Hp.
  constructor; simpl; try done. unfold CompletionRing.push in Hp.
  destruct (_ =? 0); [done|]. injection Hp as <- _. exact Hs.
Qed.

Lemma pushes_hold {A} (l : list A) (f : A → Z * Z * Z) s q p b w sr sm size :
  holds s q p b w sr sm size → Z.of_nat (length (q ++ p) + length l) ≤ size →
  holds (fold_left (λ s x, push s (f x).1.1 (f x).1.2 (f x).2) l s) q
    (p ++ ((λ x, CompletionEntry.mk (f x).1.1 (f x).1.2 (f x).2 0) <$> l)) b w sr sm size.
Proof.
  revert s p. induction l as [|x l IH]; intros s p Hs Hroom; simpl in *; [by rewrite app_nil_r|].
  rewrite cons_middle, (assoc_L (++)). apply IH; [apply push_holds; [done|lia]|].
  rewrite !length_app in *. simpl. lia.
Qed.

Lemma flush_holds s q p b w sr sm size :
  holds s q p b w sr sm size → holds (flush_and_notify s) (q ++ p) [] b w sr sm size.
Proof.
  intros [Hr Hs Hb Hw Hsub]. destruct (comp_flush_rep _ _ _ _ Hr) as (r' & m' & Hf & Hr').
  assert (CompletionRing.size r' = size) as Hs'.
  { unfold CompletionRing.flush in Hf. destruct (0 <? _); injection Hf as _ <- _; exact Hs. }
  unfold flush_and_notify. rewrite Hf. destruct (0 <? Z.of_nat (length p)); constructor; done.
Qed.

Lemma route_entry_answer n s e q p b w sr sm size :
  holds s q p b w sr sm size → Z.of_nat (length (q ++ p)) < size →
  let '(a, b', w') := answer b w e in
  holds (route_entry router (n, s) e).2 q (p ++ refusals [(e, a)]) b' w' sr sm size.
Proof.
  intros Hh Hroom. assert (Hh' := Hh). destruct Hh' as [Hr Hs <- <- Hsub]. unfold answer, route_entry.
  assert (∀ (s1 : state B W Nt) b' w', holds s1 q p b' w' sr sm size → holds s1 q (p ++ []) b' w' sr sm size) as Hnil
    by (intros; by rewrite app_nil_r).
  assert (∀ b', holds (with_io s b') q p b' (worker_pool s) sr sm size) as Hio by (intros b'; constructor; done).
  assert (∀ w', holds (with_pool s w') q p (io_backend s) w' sr sm size) as Hpool by (intros w'; constructor; done).
  destruct (RouteInfo.tier _); [by apply push_holds| | |by apply push_holds].
  - destruct (io_submit (io_backend s) e) as [[[]|[]] b']; simpl; try (by apply push_holds); by apply Hnil.
  - destruct (wp_enqueue (worker_pool s) e) as [[[]|err] w']; simpl; [by apply Hnil|by apply push_holds].
Qed.

Lemma answers_fst b w es : (answers b w es).1.1.*1 = es.
Proof.
  revert b w. induction es as [|e es IH]; intros b w; simpl; [done|]. destruct (answer b w e) as [[a b'] w'].
  specialize (IH b' w'). destruct (answers b' w' es) as [[l b''] w'']. simpl. f_equal. exact IH.
Qed.

Lemma refusals_cons x l : refusals (x :: l) = refusals [x] ++ refusals l.
Proof. unfold refusals. simpl. by destruct (_ <$> x.2). Qed.

Lemma length_refusals_1 x : (length (refusals [x]) ≤ 1)%nat.
Proof. unfold refusals. simpl. destruct (_ <$> x.2); simpl; lia. Qed.

Lemma route_all_answers es n s q p b w sr sm size :
  holds s q p b w sr sm size → Z.of_nat (length (q ++ p) + length es) ≤ size →
  let '(l, b', w') := answers b w es in
  holds (fold_left (route_entry router) es (n, s)).2 q (p ++ refusals l) b' w' sr sm size.
Proof.
  revert n s p b w. induction es as [|e es IH]; intros n s p b w Hs Hroom; [simpl; by rewrite app_nil_r|].
  cbn [fold_left answers length] in *.
  pose proof (route_entry_answer n s e q p b w sr sm size Hs ltac:(lia)) as He.
  destruct (answer b w e) as [[a b'] w']. destruct (route_entry router (n, s) e) as [n' s']. simpl in He.
  specialize (IH n' s' (p ++ refusals [(e, a)]) b' w' He). pose proof (length_refusals_1 (e, a)).
  rewrite !length_app in *. specialize (IH ltac:(lia)).
  revert IH. destruct (answers b' w' es) as [[l b''] w'']. intros IH. by rewrite refusals_cons, (assoc_L (++)).
Qed.

(** The completions and entries a turn finds. *)
Definition found_io s := (io_poll_completions (io_backend s) (max_io_completions config) (max_io_completions config)).1.
Definition found_workers s :=
  (wp_poll_completions (worker_pool s) (max_worker_completions config) (max_worker_completions config)).1.
Definition found_entries s := (dequeue config s).1.

Lemma turn_holds s q p :
  comp_rep (completion_ring s) (completion_mem s) q p →
  Z.of_nat (length (q ++ p) + length (found_io s) + length (found_workers s) + length (found_entries s)) ≤
    CompletionRing.size (completion_ring s) →
  ∃ l b w, answers
      (io_poll_completions (io_backend s) (max_io_completions config) (max_io_completions config)).2
      (wp_poll_completions (worker_pool s) (max_worker_completions config) (max_worker_completions config)).2
      (found_entries s) = (l, b, w) ∧
    comp_rep (completion_ring (turn router config s).2) (completion_mem (turn router config s).2)
      (q ++ p ++ (of_io <$> found_io s) ++ (of_worker <$> found_workers s) ++ refusals l) [] ∧
    CompletionRing.size (completion_ring (turn router config s).2) = CompletionRing.size (completion_ring s) ∧
    worker_pool (turn router config s).2 = w ∧
    (io_backend (turn router config s).2 = b ∨ io_backend (turn router config s).2 = (io_flush b).2).
Proof.
  intros Hrep Hroom. unfold found_io, found_workers, found_entries, turn, drain_io, drain_workers, dequeue in *.
  set (size := CompletionRing.size (completion_ring s)) in *.
  assert (holds s q p (io_backend s) (worker_pool s) (submit_ring s) (submit_mem s) size) as H0 by (constructor; done).
  destruct (io_poll_completions (io_backend s) _ _) as [ios b1] eqn:Eio. cbn [fst snd] in *.
  assert (holds (with_io s b1) q p b1 (worker_pool s) (submit_ring s) (submit_mem s) size) as H1 by (destruct H0; constructor; done).
  apply (pushes_hold ios (λ c, (IoCompletion.corr_id c, IoCompletion.result c, IoCompletion.flags c))) in H1; [|lia].
  cbn [fst snd] in H1. set (s1 := fold_left _ ios _) in *. rewrite (h_pool _ _ _ _ _ _ _ _ H1).
  destruct (wp_poll_completions (worker_pool s) _ _) as [wks w1] eqn:Ewk. cbn [fst snd] in *.
  assert (holds (with_pool s1 w1) q (p ++ (of_io <$> ios)) b1 w1 (submit_ring s) (submit_mem s) size) as H2
    by (destruct H1; constructor; done).
  apply (pushes_hold wks (λ c, (WorkerCompletion.corr_id c, WorkerCompletion.result c, 0))) in H2;
    [|rewrite !length_app, length_fmap in *; lia].
  cbn [fst snd] in H2. set (s2 := fold_left _ wks _) in *. apply flush_holds in H2.
  set (s3 := flush_and_notify s2) in *. destruct (h_submit _ _ _ _ _ _ _ _ H2) as [Esr Esm]. rewrite Esr, Esm.
  destruct (ExecSubmitRing.dequeue_batch (submit_ring s) (submit_mem s) _ _) as [[es sr] sm] eqn:Ede. cbn [fst snd] in *.
  set (s4 := mk sr sm _ _ _ _ _). assert (holds s4 (q ++ (p ++ (of_io <$> ios)) ++ (of_worker <$> wks)) [] b1 w1 sr sm size) as H4.
  { destruct H2. constructor; done. }
  apply (route_all_answers es 0) in H4; [|rewrite !length_app, !length_fmap in *; simpl; lia].
  destruct (answers b1 w1 es) as [[l b] w] eqn:Ean. exists l, b, w. split; [done|].
  destruct (fold_left (route_entry router) es (0%nat, s4)) as [n s5]. cbn [fst snd app] in *.
  assert (holds (if (0 <? n)%nat then with_io s5 (io_flush (io_backend s5)).2 else s5)
    (q ++ (p ++ (of_io <$> ios)) ++ (of_worker <$> wks)) (refusals l)
    (if (0 <? n)%nat then (io_flush b).2 else b) w sr sm size) as H5.
  { pose proof (h_io _ _ _ _ _ _ _ _ H4) as Eb. destruct H4. destruct (0 <? n)%nat; constructor; try done. by rewrite Eb. }
  apply flush_holds in H5. destruct H5 as [Hr Hs Hb Hw _]. split; [|split; [exact Hs|split; [exact Hw|]]].
  - rewrite <- !(assoc_L (++)) in Hr. exact Hr.
  - rewrite Hb. destruct (0 <? n)%nat; auto.
Qed.
End DispatchFacts.

(** ** Theorems *)
Section DispatchTheorems.
Import Dispatcher.
Context {R B W Nt : Type}.
Context `{!SyscallRouter R, !IoBackend B, !WorkerPool W, !Notifier Nt}.

(** C10: A turn of the dispatcher answers everything it finds.  For any
    implementation of its parts, if the completion ring has room, then after the
    turn its reader sees, behind what was published before, what was pending, the
    completions of the back end, those of the pool, and one refusal for every
    dequeued entry that neither accepted; the others have been given, once and
    in order, to the back end or the pool, which are in the state those calls
    left them in; and nothing is left pending. *)
Theorem turn_answers_everything (router : R) config (s : state B W Nt) q p :
  comp_rep (completion_ring s) (completion_mem s) q p →
  Z.of_nat (length (q ++ p) + length (found_io config s) + length (found_workers config s) +
    length (found_entries config s)) ≤ CompletionRing.size (completion_ring s) →
  ∃ l b w, answers router
      (io_poll_completions (io_backend s) (max_io_completions config) (max_io_completions config)).2
      (wp_poll_completions (worker_pool s) (max_worker_completions config) (max_worker_completions config)).2
      (found_entries config s) = (l, b, w) ∧
    l.*1 = found_entries config s ∧
    published (CompletionRing.size (completion_ring s)) 32 (completion_mem (turn router config s).2) =
      q ++ p ++ (of_io <$> found_io config s) ++ (of_worker <$> found_workers config s) ++ refusals l ∧
    worker_pool (turn router config s).2 = w ∧
    (io_backend (turn router config s).2 = b ∨ io_backend (turn router config s).2 = (io_flush b).2).
Proof.
  intros Hrep Hroom. destruct (turn_holds router config s q p Hrep Hroom) as (l & b & w & Ha & Hr & Hs & Hw & Hb).
  exists l, b, w. split; [done|]. split.
  - match type of Ha with answers _ ?b0 ?w0 ?es = _ => pose proof (answers_fst router b0 w0 es) as Hf end.
    by rewrite Ha in Hf.
  - split; [|done]. rewrite <- Hs. by eapply comp_published.
Qed.

(** When the completion ring is full the dispatcher drops answers: the
    result of [push] is ignored, so an entry that is refused leaves no trace at
    all, although it has been taken from the submit ring; the GVThread that
    submitted it waits for ever. *)
Theorem full_ring_drops_answer (router : R) (s : state B W Nt) q p n e :
  comp_rep (completion_ring s) (completion_mem s) q p →
  Z.of_nat (length (q ++ p)) = CompletionRing.size (completion_ring s) →
  RouteInfo.tier (route router (SubmitEntry.syscall_nr e)) = Tier.Legacy →
  route_entry router (n, s) e = (n, s).
Proof.
  intros Hrep Hfull Ht. unfold route_entry. rewrite Ht. unfold push.
  pose proof (comp_push_rep _ _ _ _ (SubmitEntry.corr_id e) (- libc.ENOSYS) 0 Hrep) as Hp.
  rewrite decide_False in Hp by lia. rewrite Hp. by destruct s.
Qed.
End DispatchTheorems.

(** With the default back end the dispatcher serves no io_uring operation
    at all: [BasicIoUring]'s [submit] always refuses, so every entry that the
    router gives to io_uring is answered with [-ENOSYS]. *)
Theorem dispatcher_refuses_io_uring {Ring : Type} `{!IoUring Ring} {W Nt : Type} `{!WorkerPool W, !Notifier Nt}
    (router : ProbeRouter.t) (s : Dispatcher.state (BasicIoUring.t Ring) W Nt) n e :
  RouteInfo.tier (route router (SubmitEntry.syscall_nr e)) = Tier.IoUring →
  Dispatcher.route_entry router (n, s) e = (n, Dispatcher.push s (SubmitEntry.corr_id e) (- libc.ENOSYS) 0).
Proof. intros Ht. unfold Dispatcher.route_entry. rewrite Ht. simpl. by destruct s. Qed.

(** ** Witnesses *)

(** A router that sends everything to the caller, and the default components. *)
Definition demo_dispatch (q : list CompletionEntry.t) (entries : Z) :
    Dispatcher.state (BasicIoUring.t Loopback.t) (FixedPool.inner list_queue) EventFd.t :=
  Dispatcher.mk
    (ExecSubmitRing.mk 16 15 0) (mkRegion 0 entries (λ o, SubmitEntry.mk (o / 64) 700 0 (replicate 6 0)))
    (CompletionRing.mk 2 1 (Z.of_nat (length q)) 0)
    (mkRegion 0 (Z.of_nat (length q)) (λ o, nth (Z.to_nat ((o - 64) / 32)) q ksvc_sys.completion_zeroed))
    (BasicIoUring.mk (Loopback.mk 8 [] []) 0 0)
    (FixedPool.mkInner (mkListQueue 4 []) (mkListQueue 4 []) 0 false 1)
    (EventFd.mk (EventFdNotifier.new 5) 0).

Definition demo_router : ProbeRouter.t := ProbeRouter.mk (replicate 512 RouteInfo.LEGACY).

Lemma demo_dispatch_rep q n :
  (length q ≤ 2)%nat →
  comp_rep (Dispatcher.completion_ring (demo_dispatch q n)) (Dispatcher.completion_mem (demo_dispatch q n)) q [].
Proof.
  intros Hq. split; [exists 1; split; [lia|done]|]. split; [done|]. split; [split; simpl; lia|].
  rewrite app_nil_r. simpl. split; [symmetry; apply wrap_small; split; lia|].
  split; [symmetry; apply wrap_small; split; lia|]. split; [lia|]. split; [done|].
  intros i x Hi. simpl. assert (i < 2)%nat by (apply lookup_lt_Some in Hi; lia). unfold offset.
  replace ((64 + 32 * ((0 + Z.of_nat i) mod 2) - 64) / 32) with (Z.of_nat i).
  - rewrite Nat2Z.id. by apply nth_lookup_Some.
  - destruct i as [|[|]]; [done|done|lia].
Qed.

Lemma turn_answers_everything_witness :
  published 2 32 (Dispatcher.completion_mem (Dispatcher.turn demo_router Dispatcher.default_config (demo_dispatch [] 2)).2) =
    [CompletionEntry.mk 1 (-38) 0 0; CompletionEntry.mk 2 (-38) 0 0].
Proof.
  destruct (turn_answers_everything demo_router Dispatcher.default_config (demo_dispatch [] 2) [] []
    (demo_dispatch_rep [] 2 ltac:(simpl; lia)) ltac:(vm_compute; discriminate)) as (l & b & w & Ha & _ & Hp & _).
  change 2 with (CompletionRing.size (Dispatcher.completion_ring (demo_dispatch [] 2))) at 1.
  rewrite Hp. assert (l = (l, b, w).1.1) as -> by reflexivity. rewrite <- Ha. vm_compute. reflexivity.
Defined.

Lemma full_ring_drops_answer_witness :
  let s := demo_dispatch [ksvc_sys.completion_zeroed; ksvc_sys.completion_zeroed] 1 in
  let e := SubmitEntry.mk 9 700 0 (replicate 6 0) in
  Dispatcher.route_entry demo_router (0%nat, s) e = (0%nat, s).
Proof.
  apply (full_ring_drops_answer demo_router _ [ksvc_sys.completion_zeroed; ksvc_sys.completion_zeroed] []);
    [apply demo_dispatch_rep; simpl; lia|reflexivity|reflexivity].
Defined.

Lemma dispatcher_refuses_io_uring_witness :
  ∃ r, ProbeRouter.kernel_6_8 = Ret r ∧
    Dispatcher.route_entry r (0%nat, demo_dispatch [] 0) demo_entry =
      (0%nat, Dispatcher.push (demo_dispatch [] 0) 100 (-38) 0).
Proof.
  destruct ProbeRouter.kernel_6_8 as [r|] eqn:Hr; [|exfalso; vm_compute in Hr; discriminate Hr].
  exists r. split; [reflexivity|]. apply (dispatcher_refuses_io_uring r (demo_dispatch [] 0) 0 demo_entry).
  assert ((r ← ProbeRouter.kernel_6_8; Ret (RouteInfo.tier (route r 1))) = Ret Tier.IoUring) as H
    by (vm_compute; reflexivity).
  rewrite Hr in H. injection H. intros H'. exact H'.
Defined.
