(* ===== verification/KsvcReactor.v ===== *)
(** * Blocking I/O for GVThreads

    Models the crate [ksvc-gvthread]: the shared reactor ([reactor.rs]), the
    per-worker rings ([worker_reactor.rs]), the system call wrappers
    ([syscall.rs]) and the sockets ([net.rs]).  They run against the scheduler of
    [Sched], the back end of [KsvcUring] and the queue of [KsvcPool]. *)

From S2P Require Import Prelude CoreTypes Metadata Memory ReadyQueue Sched.
From S2P Require Import KsvcTypes KsvcRouter KsvcRing KsvcUring KsvcPool.

(** The result slab, [Box<[AtomicI64]>]: indexing past its end panics. *)
Abbreviation slab := (list Z).

(** ** [reactor.rs] *)
Module Reactor.

Record IoRequest : Type := mkRequest {
  corr_id : Z; syscall_nr : Z; args : list Z; priority : Priority.t
}.

Record Config : Type := mkConfig { sq_entries : Z; cfg_max_slots : nat; queue_capacity : nat }.
Definition default_config : Config := mkConfig 1024 (Z.to_nat 65536) (Z.to_nat 16384).

Section Reactor.
Context {R : Type} `{!IoUring R} {Q : Type → Type} `{!ArrayQueue Q} {space : Type} `{!VirtualMemory space}.

(** [ReactorShared]. *)
Record shared : Type := mkShared {
  request_queue : Q IoRequest;
  results : slab;
  shutdown : bool;
  max_slots : nat
}.

Definition new (c : Config) : outcome shared :=
  match aq_new IoRequest (queue_capacity c) with
  | Ret q => Ret (mkShared q (replicate (cfg_max_slots c) 0) false (cfg_max_slots c))
  | Panic => Panic
  end.

Definition with_queue (sh : shared) (q : Q IoRequest) : shared := mkShared q (results sh) (shutdown sh) (max_slots sh).
Definition with_results (sh : shared) (r : slab) : shared := mkShared (request_queue sh) r (shutdown sh) (max_slots sh).

Definition read_result (sh : shared) (slot : Z) : outcome Z := index (results sh) slot.
Definition write_result (sh : shared) (slot result : Z) : outcome shared :=
  r ← index_set (results sh) slot result; Ret (with_results sh r).

(** The state of the reactor thread ([l] is its thread-local storage), with the
    scheduler it wakes GVThreads through. *)
Record state : Type := mk {
  sh : shared;
  io : BasicIoUring.t R;
  g : Scheduler.sys (space := space);
  l : Tls.t
}.

(** Write a result, then wake. *)
Definition complete (s : state) (slot result : Z) (p : Priority.t) : outcome state :=
  sh' ← write_result (sh s) slot result;
  g' ← Scheduler.wake_gvthread (g s) (l s) (GVThreadId.new slot) p;
  Ret (mk sh' (io s) g' (l s)).

(** Step 1: up to [n] requests leave the queue... *)
Fixpoint drain_requests (n : nat) (q : Q IoRequest) : list IoRequest * Q IoRequest :=
  match n with
  | O => ([], q)
  | S n' =>
      match aq_pop q with
      | Some (req, q') => let '(b, q'') := drain_requests n' q' in (req :: b, q'')
      | None => ([], q)
      end
  end.

(** ... and each is submitted or refused. *)
Definition handle_request (router : ProbeRouter.t) (s : state) (req : IoRequest) : outcome state :=
  let r := route router (syscall_nr req) in
  let slot := CorrId.as_gvthread_id (corr_id req) in
  match RouteInfo.tier r with
  | Tier.IoUring =>
      let entry := SubmitEntry.mk (corr_id req) (syscall_nr req) 0 (args req) in
      match BasicIoUring.submit_with_opcode (io s) entry (RouteInfo.iouring_opcode r) with
      | (Ok _, io') => Ret (mk (sh s) io' (g s) (l s))
      | (Err _, io') => complete (mk (sh s) io' (g s) (l s)) slot (- libc.EAGAIN) (priority req)
      end
  | _ => complete s slot (- libc.ENOSYS) (priority req)
  end.

(** Step 3 for one completion: the sentinel of a cancellation is meant to be
    skipped. *)
Definition deliver (s : state) (c : IoCompletion.t) : outcome state :=
  let slot := CorrId.as_gvthread_id (IoCompletion.corr_id c) in
  if slot =? U32_MAX then Ret s else complete s slot (IoCompletion.result c) Priority.Normal.

(** One turn of [reactor_loop]. *)
Definition turn (router : ProbeRouter.t) (s : state) : outcome state :=
  let '(batch, q) := drain_requests 128 (request_queue (sh s)) in
  let s := mk (with_queue (sh s) q) (io s) (g s) (l s) in
  s ← fold_outcome (handle_request router) s batch;
  let empty := bool_decide (batch = []) in
  if (0 <? BasicIoUring.inflight (io s)) || negb empty then
    let min_wait := if (0 <? BasicIoUring.inflight (io s)) && empty then 1 else 0 in
    let io' := (BasicIoUring.flush_and_wait (io s) min_wait).2 in
    let '(cs, io'') := BasicIoUring.poll_completions io' 256 256 in
    fold_outcome deliver (mk (sh s) io'' (g s) (l s)) cs
  else Ret (mk (sh s) (BasicIoUring.flush (io s)).2 (g s) (l s)).

(** The set-up of [reactor_loop], which panics without io_uring. *)
Definition setup (sq_entries : Z) : outcome (BasicIoUring.t R * ProbeRouter.t) :=
  match BasicIoUring.new (BasicIoUring.mkConfig sq_entries (BasicIoUring.cfg_cq_entries BasicIoUring.default_config)) with
  | Err _ => Panic
  | Ok io => r ← ProbeRouter.new (BasicIoUring.probe_opcodes_static io); Ret (io, r)
  end.

(** The loop, until [shutdown] is seen: before every turn the other threads
    change what they share with it. *)
Fixpoint run (router : ProbeRouter.t) (others : list (shared * Scheduler.sys → shared * Scheduler.sys)) (s : state)
    : outcome state :=
  match others with
  | [] => Ret s
  | f :: rest =>
      let '(sh', g') := f (sh s, g s) in
      let s' := mk sh' (io s) g' (l s) in
      if shutdown sh' then Ret s' else s'' ← turn router s'; run router rest s''
  end.
Definition reactor_loop (sq_entries : Z) others (sh0 : shared) (g0 : Scheduler.sys) (l0 : Tls.t) : outcome state :=
  ir ← setup sq_entries;
  s ← run ir.2 others (mk sh0 ir.1 g0 l0);
  Ret (mk (sh s) (io_shutdown (io s)) (g s) (l s)).
End Reactor.
Arguments shared : clear implicits.
Arguments state : clear implicits.
End Reactor.

#[export] Instance IoRequest_eq_dec : EqDecision Reactor.IoRequest.
Proof. solve_decision. Defined.

(** ** [worker_reactor.rs] *)
Module WorkerReactorPool.
Section Pool.
Context {R : Type} `{!IoUring R} {space : Type} `{!VirtualMemory space}.

Record WorkerRing : Type := mkRing { io : BasicIoUring.t R; router : ProbeRouter.t }.

Record t : Type := mk {
  rings : list WorkerRing;
  results : slab;
  num_workers : nat;
  shutdown : bool
}.

Definition new_ring (sq_entries : Z) : outcome WorkerRing :=
  match BasicIoUring.new (BasicIoUring.mkConfig sq_entries None) with
  | Err _ => Panic
  | Ok io => r ← ProbeRouter.new (BasicIoUring.probe_opcodes_static io); Ret (mkRing io r)
  end.

Definition new (num_workers : nat) (sq_entries : Z) (max_slots : nat) : outcome t :=
  rs ← fold_outcome (λ rs _, r ← new_ring sq_entries; Ret (rs ++ [r])) [] (seq 0 num_workers);
  Ret (mk rs (replicate max_slots 0) num_workers false).

Definition with_ring (p : t) (worker_id : Z) (r : WorkerRing) : t :=
  mk (<[Z.to_nat worker_id := r]> (rings p)) (results p) (num_workers p) (shutdown p).
Definition with_results (p : t) (r : slab) : t := mk (rings p) r (num_workers p) (shutdown p).

Abbreviation world := (t * Scheduler.sys (space := space))%type.

Definition complete (l : Tls.t) (x : world) (slot result : Z) : outcome world :=
  r ← index_set (results x.1) slot result;
  g ← Scheduler.wake_gvthread x.2 l (GVThreadId.new slot) Priority.Normal;
  Ret (with_results x.1 r, g).

(** [submit], run by the GVThread on its worker. *)
Definition submit (l : Tls.t) (x : world) (worker_id slot syscall_nr : Z) (args : list Z) : outcome world :=
  ring ← index (rings x.1) worker_id;
  let r := route (router ring) syscall_nr in
  let entry := SubmitEntry.mk (CorrId.from_gvthread_id slot) syscall_nr 0 args in
  match RouteInfo.tier r with
  | Tier.IoUring =>
      match BasicIoUring.submit_with_opcode (io ring) entry (RouteInfo.iouring_opcode r) with
      | (Ok _, io') => Ret (with_ring x.1 worker_id (mkRing io' (router ring)), x.2)
      | (Err _, io') => complete l (with_ring x.1 worker_id (mkRing io' (router ring)), x.2) slot (- libc.EAGAIN)
      end
  | _ => complete l x slot (- libc.ENOSYS)
  end.

Definition deliver (l : Tls.t) (x : world) (c : IoCompletion.t) : outcome world :=
  let slot := CorrId.as_gvthread_id (IoCompletion.corr_id c) in
  if slot =? U32_MAX then Ret x else complete l x slot (IoCompletion.result c).

(** What [poll] and [wait_and_poll] do once they have entered the kernel. *)
Definition drain (l : Tls.t) (x : world) (worker_id : Z) (ring : WorkerRing) (io' : BasicIoUring.t R)
    : outcome (nat * world) :=
  let '(cs, io'') := BasicIoUring.poll_completions io' 256 256 in
  x' ← fold_outcome (deliver l) (with_ring x.1 worker_id (mkRing io'' (router ring)), x.2) cs;
  Ret (length cs, x').

Definition poll (l : Tls.t) (x : world) (worker_id : Z) : outcome (nat * world) :=
  ring ← index (rings x.1) worker_id;
  drain l x worker_id ring (BasicIoUring.flush (io ring)).2.

Definition has_inflight (p : t) (worker_id : Z) : outcome bool :=
  ring ← index (rings p) worker_id; Ret (0 <? BasicIoUring.inflight (io ring)).

Definition wait_and_poll (l : Tls.t) (x : world) (worker_id : Z) : outcome (nat * world) :=
  ring ← index (rings x.1) worker_id;
  drain l x worker_id ring (BasicIoUring.flush_and_wait (io ring) 1).2.

Definition read_result (p : t) (slot : Z) : outcome Z := index (results p) slot.

Definition set_shutdown (p : t) : t :=
  mk ((λ r, mkRing (io_shutdown (io r)) (router r)) <$> rings p) (results p) (num_workers p) true.
Definition on_drop (p : t) : t := if shutdown p then p else set_shutdown p.

(** The global pool and the hooks installed in the worker loop; [init_global]
    makes the pool and installs the three hooks below. *)
Definition init_global (num_workers : nat) (sq_entries : Z) (max_slots : nat) : outcome (option t) :=
  p ← new num_workers sq_entries max_slots; Ret (Some p).
Definition global_pool (GLOBAL_POOL : option t) : outcome t :=
  match GLOBAL_POOL with Some p => Ret p | None => Panic end.

Definition hook_poll (l : Tls.t) (GLOBAL_POOL : option t) (g : Scheduler.sys (space := space)) (worker_id : Z)
    : outcome (nat * option t * Scheduler.sys) :=
  match GLOBAL_POOL with
  | Some p => r ← poll l (p, g) worker_id; Ret (r.1, Some r.2.1, r.2.2)
  | None => Ret (O, None, g)
  end.
Definition hook_has_io (GLOBAL_POOL : option t) (worker_id : Z) : outcome bool :=
  match GLOBAL_POOL with Some p => has_inflight p worker_id | None => Ret false end.
Definition hook_wait_io (l : Tls.t) (GLOBAL_POOL : option t) (g : Scheduler.sys (space := space)) (worker_id : Z)
    : outcome (nat * option t * Scheduler.sys) :=
  match GLOBAL_POOL with
  | Some p => r ← wait_and_poll l (p, g) worker_id; Ret (r.1, Some r.2.1, r.2.2)
  | None => Ret (O, None, g)
  end.

(** The part of [worker_main_loop] that the hooks and the ready queue decide:
    poll, take the next GVThread, and with none and I/O in flight wait for a
    completion. *)
Definition worker_turn (l : Tls.t) (GLOBAL_POOL : option t) (g : Scheduler.sys (space := space)) (worker_id : Z)
    (is_low_priority : bool) : outcome (option (Z * Priority.t) * option t * Scheduler.sys (space := space)) :=
  r ← hook_poll l GLOBAL_POOL g worker_id;
  let '(_, pool, g) := r in
  n ← match Scheduler.SCHEDULER g with
      | Some sched => Scheduler.get_next g sched worker_id is_low_priority
      | None => Ret (None, g)
      end;
  match n.1 with
  | Some next => Ret (Some next, pool, n.2)
  | None =>
      has_io ← hook_has_io pool worker_id;
      if (has_io : bool) then
        r ← hook_wait_io l pool n.2 worker_id;
        let '(_, pool, g) := r in Ret (None, pool, g)
      else Ret (None, pool, n.2)
  end.
End Pool.
Arguments WorkerRing : clear implicits.
Arguments t : clear implicits.
End WorkerReactorPool.

(** ** [syscall.rs] *)
Module syscall.
Definition NR_READ : Z := 0.
Definition NR_WRITE : Z := 1.
Definition NR_CLOSE : Z := 3.
Definition NR_SENDTO : Z := 44.
Definition NR_RECVFROM : Z := 45.
Definition NR_CONNECT : Z := 42.
Definition NR_ACCEPT4 : Z := 288.
Definition NR_OPENAT : Z := 257.
Definition NR_SOCKET : Z := 41.
Definition NR_SHUTDOWN : Z := 48.

(** [x as u64] of an [i32]. *)
Definition as_u64 (x : Z) : Z := wrap 64 x.

(** The system call and arguments of each typed wrapper; a slice is its pointer
    and length. *)
Definition ksvc_read (fd ptr len : Z) : Z * list Z := (NR_READ, [as_u64 fd; ptr; len; 0; 0; 0]).
Definition ksvc_write (fd ptr len : Z) : Z * list Z := (NR_WRITE, [as_u64 fd; ptr; len; 0; 0; 0]).
Definition ksvc_close (fd : Z) : Z * list Z := (NR_CLOSE, [as_u64 fd; 0; 0; 0; 0; 0]).
Definition ksvc_accept4 (fd addr addrlen flags : Z) : Z * list Z :=
  (NR_ACCEPT4, [as_u64 fd; addr; addrlen; as_u64 flags; 0; 0]).
Definition ksvc_recv (fd ptr len flags : Z) : Z * list Z := (NR_RECVFROM, [as_u64 fd; ptr; len; as_u64 flags; 0; 0]).
Definition ksvc_send (fd ptr len flags : Z) : Z * list Z := (NR_SENDTO, [as_u64 fd; ptr; len; as_u64 flags; 0; 0]).
Definition ksvc_connect (fd addr addrlen : Z) : Z * list Z := (NR_CONNECT, [as_u64 fd; addr; addrlen; 0; 0; 0]).
Definition ksvc_openat (dirfd pathname flags mode : Z) : Z * list Z :=
  (NR_OPENAT, [as_u64 dirfd; pathname; as_u64 flags; mode; 0; 0]).
Definition ksvc_socket (domain sock_type protocol : Z) : Z * list Z :=
  (NR_SOCKET, [as_u64 domain; as_u64 sock_type; as_u64 protocol; 0; 0; 0]).
Definition ksvc_shutdown (fd how : Z) : Z * list Z := (NR_SHUTDOWN, [as_u64 fd; as_u64 how; 0; 0; 0; 0]).

Definition wr_read (fd ptr len : Z) : Z * list Z := (NR_READ, [as_u64 fd; ptr; len; 0; 0; 0]).
Definition wr_write (fd ptr len : Z) : Z * list Z := (NR_WRITE, [as_u64 fd; ptr; len; 0; 0; 0]).
Definition wr_close (fd : Z) : Z * list Z := (NR_CLOSE, [as_u64 fd; 0; 0; 0; 0; 0]).
Definition wr_accept4 (fd addr addrlen flags : Z) : Z * list Z :=
  (NR_ACCEPT4, [as_u64 fd; addr; addrlen; as_u64 flags; 0; 0]).
Definition wr_recv (fd ptr len flags : Z) : Z * list Z := (NR_RECVFROM, [as_u64 fd; ptr; len; as_u64 flags; 0; 0]).
Definition wr_send (fd ptr len flags : Z) : Z * list Z := (NR_SENDTO, [as_u64 fd; ptr; len; as_u64 flags; 0; 0]).

Section Park.
Context {R : Type} `{!IoUring R} {Q : Type → Type} `{!ArrayQueue Q} {space : Type} `{!VirtualMemory space}.

(** [submit_and_park] up to the switch: outside a GVThread it panics; while the
    queue is full it yields and tries again ([None]). *)
Definition park_request (l : Tls.t) (call : Z * list Z) : outcome Reactor.IoRequest :=
  let gvt_id := Tls.current_gvthread_id l in
  if GVThreadId.is_none gvt_id then Panic
  else Ret (Reactor.mkRequest (CorrId.from_gvthread_id (GVThreadId.as_u32 gvt_id)) call.1 call.2 Priority.Normal).

Definition submit_request (sh : Reactor.shared Q) (req : Reactor.IoRequest) : option (Reactor.shared Q) :=
  q ← aq_push (Reactor.request_queue sh) req; Some (Reactor.with_queue sh q).

(** [submit_and_park_worker] up to the switch; [CURRENT_WORKER_ID] is the cell of
    [worker.rs]. *)
Definition park_worker (l : Tls.t) (CURRENT_WORKER_ID : Z) (GLOBAL_POOL : option (WorkerReactorPool.t R))
    (g : Scheduler.sys (space := space)) (call : Z * list Z)
    : outcome (WorkerReactorPool.t R * option (Scheduler.sys (space := space))) :=
  let gvt_id := Tls.current_gvthread_id l in
  if GVThreadId.is_none gvt_id then Panic
  else if CURRENT_WORKER_ID =? USIZE_MAX then Panic
  else
    p ← WorkerReactorPool.global_pool GLOBAL_POOL;
    x ← WorkerReactorPool.submit l (p, g) CURRENT_WORKER_ID (GVThreadId.as_u32 gvt_id) call.1 call.2;
    Ret (x.1, Scheduler.block_current x.2 l).
End Park.

(** [ksvc_send_all] and [wr_send_all]: [send] is the wrapper, with the state it
    changes; [None] if [fuel] turns are not enough. *)
Fixpoint send_all {S A : Type} (send : S → list A → Z * S) (fuel : nat) (s : S) (buf : list A) (total : Z)
    : option (outcome Z * S) :=
  match fuel with
  | O => None
  | Datatypes.S fuel' =>
      if bool_decide (buf = []) then Some (Ret total, s)
      else
        let '(n, s) := send s buf in
        if n <? 0 then
          if (n =? - libc.EAGAIN) || (n =? - libc.EINTR) then send_all send fuel' s buf total
          else Some (Ret n, s)
        else if Z.of_nat (length buf) <? n then Some (Panic, s)
        else send_all send fuel' s (drop (Z.to_nat n) buf) (total +[64] n)
  end.
End syscall.

(** ** [net.rs] *)
Module net.
(** The calls made on the way, in order. *)
Inductive call : Type :=
| Setsockopt (fd level name : Z)
| Bind (fd port_be : Z)
| CloseFd (fd : Z)
| Listen (fd backlog : Z).

Definition SOL_SOCKET : Z := 1.
Definition SO_REUSEADDR : Z := 2.
Definition SO_REUSEPORT : Z := 15.
Definition IPPROTO_TCP : Z := 6.
Definition TCP_NODELAY : Z := 1.
Definition SOCK_CLOEXEC : Z := 0x80000.

(** [u16::to_be] on a little-endian machine. *)
Definition to_be (p : Z) : Z := Z.lor (Z.shiftl (Z.land p 255) 8) (Z.shiftr p 8).

(** [bind_socket]: [socket] gives [fd] or fails with [errno]; [bind] gives [ret],
    and [errno'] is read after the descriptor has been closed. *)
Definition bind_socket (port fd errno ret errno' : Z) : Result Z Z * list call :=
  if fd <? 0 then (Err errno, [])
  else
    let opts := [Setsockopt fd SOL_SOCKET SO_REUSEADDR; Setsockopt fd SOL_SOCKET SO_REUSEPORT;
                 Setsockopt fd IPPROTO_TCP TCP_NODELAY; Bind fd (to_be port)] in
    if negb (ret =? 0) then (Err errno', opts ++ [CloseFd fd])
    else (Ok fd, opts ++ [Listen fd 4096]).

(** [shared] says which of the two paths the socket uses. *)
Record GvtListener : Type := mkListener { lfd : Z; lshared : bool }.
Record GvtStream : Type := mkStream { sfd : Z; sshared : bool }.

Definition bind (shared : bool) (port fd errno ret errno' : Z) : Result GvtListener Z * list call :=
  match bind_socket port fd errno ret errno' with
  | (Ok fd, calls) => (Ok (mkListener fd shared), calls)
  | (Err e, calls) => (Err e, calls)
  end.

(** The request [accept] makes, and what it does with the result. *)
Definition accept_call (li : GvtListener) (addr addrlen : Z) : Z * list Z :=
  if lshared li then syscall.ksvc_accept4 (lfd li) addr addrlen SOCK_CLOEXEC
  else syscall.wr_accept4 (lfd li) addr addrlen SOCK_CLOEXEC.
Definition accepted (li : GvtListener) (client_fd : Z) : Result GvtStream Z * list call :=
  if client_fd <? 0 then (Err client_fd, [])
  else (Ok (mkStream (as_i32 client_fd) (lshared li)), [Setsockopt (as_i32 client_fd) IPPROTO_TCP TCP_NODELAY]).

Definition read_call (s : GvtStream) (ptr len : Z) : Z * list Z :=
  if sshared s then syscall.ksvc_recv (sfd s) ptr len 0 else syscall.wr_recv (sfd s) ptr len 0.
Definition write_call (s : GvtStream) (ptr len : Z) : Z * list Z :=
  if sshared s then syscall.ksvc_send (sfd s) ptr len 0 else syscall.wr_send (sfd s) ptr len 0.
Definition close_uring (s : GvtStream) : Z * list Z :=
  if sshared s then syscall.ksvc_close (sfd s) else syscall.wr_close (sfd s).
Definition drop_stream (s : GvtStream) : list call := [CloseFd (sfd s)].
Definition drop_listener (li : GvtListener) : list call := [CloseFd (lfd li)].
End net.

(** ** Lemmas: waking *)
Section WakeFacts.
Context {space : Type} `{!VirtualMemory space}.
Import Scheduler.
Implicit Types (g : @sys space).

Definition blocked g (id : Z) : Prop := GVThreadMetadata.get_state (meta_of g id) = GVThreadState.Blocked.
#[global] Instance blocked_dec g id : Decision (blocked g id).
Proof. unfold blocked. apply _. Defined.

Lemma woken_nil g s : SCHEDULER g = Some s → simple_wf (ready_queue s) → woken g g s s [].
Proof. by split. Qed.

Lemma woken_trans g1 g2 g3 s1 s2 s3 ws1 ws2 :
  woken g1 g2 s1 s2 ws1 → woken g2 g3 s2 s3 ws2 → (∀ id, id ∈ ws1 → id ∉ ws2) → woken g1 g3 s1 s3 (ws2 ++ ws1).
Proof.
  intros [Hs1 Hw1 Hq1 Hm1] [Hs2 Hw2 Hq2 Hm2] Hd. split; [done|done|by rewrite Hq2, Hq1, (assoc (++))|].
  intros id. rewrite Hm2, Hm1. specialize (Hd id).
  destruct (decide (id ∈ ws2)), (decide (id ∈ ws1)), (decide (id ∈ ws2 ++ ws1)); set_solver.
Qed.

(** The woken GVThreads are not blocked any more; the others are as before. *)
Lemma woken_blocked g g' s s' ws id : woken g g' s s' ws → (blocked g' id ↔ (id ∉ ws) ∧ blocked g id).
Proof.
  intros Hw. unfold blocked. rewrite (wk_meta _ _ _ _ _ Hw). case_decide; [|tauto].
  rewrite get_set_state. split; [done|]. tauto.
Qed.

(** A GVThread that is not blocked does not notice a wake: afterwards it blocks,
    and no queue has it. *)
Lemma wake_then_block g (lw lr : Tls.t) s id p :
  SCHEDULER g = Some s → ¬ blocked g id → Tls.current_gvthread_id lr = id → Tls.is_in_gvthread lr = true →
  Tls.current_gvthread_base lr ≠ 0 → GVThreadId.is_none id = false →
  wake_gvthread g lw id p = Ret g ∧
  ∃ g', block_current g lr = Some g' ∧ blocked g' id ∧ SCHEDULER g' = Some s.
Proof.
  intros Hs Hb Hid Hin Hbase Hn. split.
  - unfold wake_gvthread. rewrite Hs. unfold wake. by rewrite bool_decide_eq_false_2.
  - unfold block_current. rewrite Hin, Hid, Hn. simpl. destruct (Z.eqb_spec (Tls.current_gvthread_base lr) 0); [done|].
    eexists. split; [done|]. split; [|done]. unfold blocked, set_state. by rewrite meta_of_set_meta, decide_True, get_set_state.
Qed.
End WakeFacts.

(** ** Lemmas: the shared reactor *)
Section ReactorFacts.
Context {R : Type} `{!IoUring R} {Q : Type → Type} `{!ArrayQueue Q} {space : Type} `{!VirtualMemory space}.
Import Reactor.
Implicit Types (s : state R Q space) (c : IoCompletion.t).

Definition slot_of c : Z := CorrId.as_gvthread_id (IoCompletion.corr_id c).

Lemma complete_spec s sc slot result p :
  Scheduler.SCHEDULER (g s) = Some sc → simple_wf (Scheduler.ready_queue sc) → 0 ≤ Tls.WORKER_ID (l s) →
  0 ≤ slot < Z.of_nat (length (results (sh s))) →
  ∃ s' sc' ws, complete s slot result p = Ret s' ∧
    sh s' = with_results (sh s) (<[Z.to_nat slot := result]> (results (sh s))) ∧ io s' = io s ∧ l s' = l s ∧
    woken (g s) (g s') sc sc' ws ∧ (ws = [slot] ∧ blocked (g s) slot ∨ ws = [] ∧ g s' = g s ∧ ¬ blocked (g s) slot).
Proof.
  intros Hs Hwf Hl Hslot. unfold complete, write_result. rewrite index_set_Ret by done. cbn [mbind outcome_bind].
  destruct (wake_spec (g s) (l s) sc (GVThreadId.new slot) p Hs Hwf Hl) as (g' & sc' & ws & -> & Hw & _ & Hc).
  eexists _, sc', ws. split; [done|]. simpl. split_and!; [done|done|done|done|]. exact Hc.
Qed.

Lemma deliver_all_spec s sc cs :
  Scheduler.SCHEDULER (g s) = Some sc → simple_wf (Scheduler.ready_queue sc) → 0 ≤ Tls.WORKER_ID (l s) →
  Z.of_nat (length (results (sh s))) ≤ U32_MAX →
  (∀ c, c ∈ cs → slot_of c < Z.of_nat (length (results (sh s)))) → NoDup (slot_of <$> cs) →
  ∃ s' sc' ws, fold_outcome deliver s cs = Ret s' ∧ woken (g s) (g s') sc sc' ws ∧
    (∀ id, id ∈ ws ↔ id ∈ slot_of <$> cs ∧ blocked (g s) id) ∧ NoDup ws ∧
    length (results (sh s')) = length (results (sh s)) ∧
    (∀ c, c ∈ cs → results (sh s') !! Z.to_nat (slot_of c) = Some (IoCompletion.result c)) ∧
    (∀ i, Z.of_nat i ∉ slot_of <$> cs → results (sh s') !! i = results (sh s) !! i).
Proof.
  revert s sc. induction cs as [|c cs IH]; intros s sc Hs Hwf Hl Hmax Hin Hnd.
  { exists s, sc, []. split; [done|]. split; [by apply woken_nil|]. split; [set_solver|]. split; [constructor|].
    split; [done|]. split; [set_solver|done]. }
  rewrite fmap_cons in Hnd. apply NoDup_cons in Hnd as [Hnc Hnd].
  assert (0 ≤ slot_of c < Z.of_nat (length (results (sh s)))) as Hslot.
  { split; [apply wrap_range; lia|]. apply Hin. set_solver. }
  destruct (complete_spec s sc (slot_of c) (IoCompletion.result c) Priority.Normal Hs Hwf Hl Hslot)
    as (s1 & sc1 & ws1 & Hc1 & Hsh & _ & Hl1 & Hw1 & Hcase).
  assert (deliver s c = Ret s1) as Hd.
  { unfold deliver. fold (slot_of c). destruct (Z.eqb_spec (slot_of c) U32_MAX); [lia|done]. }
  cbn [fold_outcome]. rewrite Hd. cbn [mbind outcome_bind].
  assert (length (results (sh s1)) = length (results (sh s))) as Hlen by (rewrite Hsh; apply length_insert).
  destruct (IH s1 sc1) as (s2 & sc2 & ws2 & Hf & Hw2 & Hin2 & Hnd2 & Hlen2 & Hres & Hother);
    [apply Hw1|apply Hw1|by rewrite Hl1|by rewrite Hlen|rewrite Hlen; set_solver|done|].
  assert (∀ id, id ∈ ws1 → id = slot_of c ∧ blocked (g s) id) as Hws1
    by (intros id Hid; destruct Hcase as [[-> ?]|(-> & _)]; set_solver).
  exists s2, sc2, (ws2 ++ ws1). split; [done|]. split.
  { eapply woken_trans; [done..|]. intros id Hid Hid2. apply Hws1 in Hid as [-> _]. apply Hin2 in Hid2 as [? _]. done. }
  split_and!.
  - intros id. rewrite elem_of_app, Hin2, (woken_blocked _ _ _ _ _ id Hw1), fmap_cons, elem_of_cons. split.
    + intros [(? & _ & ?)|Hid]; [tauto|]. apply Hws1 in Hid. tauto.
    + intros [[->|Hid] Hb].
      * right. destruct Hcase as [[-> _]|(_ & _ & ?)]; [set_solver|done].
      * left. split; [done|]. split; [|done]. intros Hid1. apply Hws1 in Hid1 as [-> _]. done.
  - apply NoDup_app. split_and!; [done| |destruct Hcase as [[-> _]|(-> & _)]; [apply NoDup_singleton|constructor]].
    intros id Hid Hid1. apply Hws1 in Hid1 as [-> _]. apply Hin2 in Hid as [? _]. done.
  - by rewrite Hlen2.
  - intros c' [->|Hc']%elem_of_cons; [|by apply Hres].
    rewrite Hother by (rewrite Z2Nat.id by lia; done). rewrite Hsh. simpl. apply list_lookup_insert_eq. lia.
  - intros i Hi. rewrite fmap_cons, not_elem_of_cons in Hi. destruct Hi as [Hi1 Hi2]. rewrite Hother by done.
    rewrite Hsh. simpl. apply list_lookup_insert_ne. intros E. apply Hi1. rewrite <- E, Z2Nat.id by lia. done.
Qed.
End ReactorFacts.

(** ** Lemmas: the per-worker rings *)
Section WorkerFacts.
Context {R : Type} `{!IoUring R} {space : Type} `{!VirtualMemory space}.
Import WorkerReactorPool.
Implicit Types (x : WorkerReactorPool.t R * Scheduler.sys (space := space)) (l : Tls.t).

(** The slab and the scheduler of a pool, seen as those of a reactor. *)
Definition as_reactor io0 l x : Reactor.state R list_queue space :=
  Reactor.mk (Reactor.mkShared (mkListQueue 0 []) (results x.1) false 0) io0 x.2 l.

(** Delivering a completion on a worker is delivering it in the reactor. *)
Lemma deliver_simulates io0 l x c s' :
  Reactor.deliver (as_reactor io0 l x) c = Ret s' →
  ∃ x', deliver l x c = Ret x' ∧ as_reactor io0 l x' = s' ∧ rings x'.1 = rings x.1.
Proof.
  destruct x as [p g]. unfold Reactor.deliver, deliver. destruct (_ =? U32_MAX); [intros [= <-]; by exists (p, g)|].
  unfold Reactor.complete, complete, Reactor.write_result. simpl.
  destruct (index_set (results p) _ _) as [r|]; [|done]. simpl.
  destruct (Scheduler.wake_gvthread g l _ _) as [g'|]; [|done]. simpl. intros [= <-]. by eexists.
Qed.

Lemma deliver_all_simulates io0 l x cs s' :
  fold_outcome Reactor.deliver (as_reactor io0 l x) cs = Ret s' →
  ∃ x', fold_outcome (deliver l) x cs = Ret x' ∧ as_reactor io0 l x' = s' ∧ rings x'.1 = rings x.1.
Proof.
  revert x. induction cs as [|c cs IH]; intros x; cbn [fold_outcome]; [intros [= <-]; by exists x|].
  destruct (Reactor.deliver (as_reactor io0 l x) c) as [s1|] eqn:E; [|done]. cbn [mbind outcome_bind]. intros Hs.
  apply deliver_simulates in E as (x1 & -> & <- & Hr). apply IH in Hs as (x' & Hf & <- & Hr').
  exists x'. cbn [mbind outcome_bind]. by rewrite Hr', Hr.
Qed.

(** Something for worker [w] to pop without stealing. *)
Definition pending_at (q : SimpleQueue.t) (w : Z) : Prop :=
  GlobalQueue.queue (SimpleQueue.global q) ≠ [] ∨
  ∃ lq, SimpleQueue.local q !! Z.to_nat w = Some lq ∧ LocalQueue.queue lq ≠ [].

Lemma push_global_pending q id w : pending_at (SimpleQueue.push_global q id) w.
Proof.
  left. unfold SimpleQueue.push_global, SimpleQueue.wake_if_parked. destruct (0 <? _); simpl; rewrite global_push_queue;
    by destruct (GlobalQueue.queue _).
Qed.

(** A push whose hint is [w], or that has no hint, is one that [w] can pop. *)
Lemma push_pending q id p w hint :
  simple_wf q → 0 ≤ w < SimpleQueue.num_workers q → (∀ w', hint = Some w' → w' = w) →
  ∃ q', SimpleQueue.push q id p hint = Ret q' ∧ simple_wf q' ∧
    SimpleQueue.num_workers q' = SimpleQueue.num_workers q ∧ pending_at q' w.
Proof.
  intros Hwf Hw Hh. destruct (simple_push_spec q id p hint Hwf) as (q' & Hq' & Hwf' & Hn & _).
  { destruct hint as [w'|]; [|done]. rewrite (Hh w' eq_refl). lia. }
  exists q'. split_and!; [done..|]. revert Hq'. unfold SimpleQueue.push.
  destruct hint as [w'|]; [|intros [= <-]; apply push_global_pending]. rewrite (Hh w' eq_refl).
  destruct (Z.ltb_spec w (SimpleQueue.num_workers q)); [|lia].
  destruct (local_push_spec q w (GVThreadId.as_u32 id) Hwf Hw) as (lq & ok & q1 & _ & -> & _ & _ & _ & Hok).
  cbn [mbind outcome_bind]. destruct ok; intros [= <-]; [|apply push_global_pending].
  right. destruct Hok as [_ Hl]. exists (LocalQueue.publish (LocalQueue.queue lq ++ [GVThreadId.as_u32 id])).
  split; [|simpl; by destruct (LocalQueue.queue lq)]. destruct (wake_if_parked_same q1) as (-> & _). exact Hl.
Qed.
End WorkerFacts.

Section Pending.
Context {R : Type} `{!IoUring R} {Q : Type → Type} `{!ArrayQueue Q} {space : Type} `{!VirtualMemory space}.
Import Reactor.
Implicit Types (s : state R Q space) (c : IoCompletion.t).

(** What a thread wakes goes to worker [w] or to the global queue. *)
Definition hints (l : Tls.t) (w : Z) : Prop := ∀ w', Tls.try_current_worker_id l = Some w' → w' = w.

Lemma hints_nonneg l w : hints l w → 0 ≤ w → 0 ≤ Tls.WORKER_ID l.
Proof.
  unfold hints, Tls.try_current_worker_id. destruct (Z.eqb_spec (Tls.WORKER_ID l) USIZE_MAX) as [->|].
  - by vm_compute.
  - intros H. by rewrite (H _ eq_refl).
Qed.

(** A scheduler whose worker [w] can pop something if [P] holds. *)
Definition serves (g : Scheduler.sys (space := space)) (n w : Z) (P : Prop) : Prop :=
  ∃ sc, Scheduler.SCHEDULER g = Some sc ∧ simple_wf (Scheduler.ready_queue sc) ∧
    SimpleQueue.num_workers (Scheduler.ready_queue sc) = n ∧ (P → pending_at (Scheduler.ready_queue sc) w).

(** After waking something, the waker's worker has something to run. *)
Lemma complete_pending s slot r p s' n w (P : Prop) :
  serves (g s) n w P → hints (l s) w → 0 ≤ w < n →
  complete s slot r p = Ret s' → serves (g s') n w (blocked (g s) slot ∨ P) ∧ l s' = l s.
Proof.
  intros (sc & Hs & Hwf & Hn & HP) Hl Hw. unfold complete. destruct (write_result _ _ _) as [sh'|]; [|done].
  cbn [mbind outcome_bind]. unfold Scheduler.wake_gvthread. rewrite Hs.
  unfold Scheduler.wake, GVThreadId.new. case_bool_decide as Hb; cbn [mbind outcome_bind].
  - unfold Scheduler.push_ready. rewrite <- Hn in Hw.
    destruct (push_pending (Scheduler.ready_queue sc) slot p w (Tls.try_current_worker_id (l s)) Hwf Hw Hl) as (q' & -> & Hwf' & Hn' & Hp).
    cbn [mbind outcome_bind]. intros [= <-]. split; [|done]. eexists. split_and!; [done|done|simpl; congruence|done].
  - intros [= <-]. split; [|done]. exists sc. split_and!; [done..|]. intros [?|?]; [done|]. by apply HP.
Qed.

Lemma deliver_all_pending s cs s' n w (P : Prop) :
  serves (g s) n w P → hints (l s) w → 0 ≤ w < n →
  Z.of_nat (length (results (sh s))) ≤ U32_MAX →
  (∀ c, c ∈ cs → slot_of c < Z.of_nat (length (results (sh s)))) →
  fold_outcome deliver s cs = Ret s' →
  serves (g s') n w ((∃ c, c ∈ cs ∧ blocked (g s) (slot_of c)) ∨ P).
Proof.
  revert s P. induction cs as [|c cs IH]; intros s P HP Hl Hw Hmax Hin; cbn [fold_outcome].
  { intros [= <-]. destruct HP as (sc & ? & ? & ? & HP). exists sc. split_and!; [done..|]. intros [(? & ? & _)|?]; [set_solver|auto]. }
  assert (0 ≤ slot_of c < Z.of_nat (length (results (sh s)))) as Hslot
    by (split; [apply wrap_range; lia|apply Hin; set_solver]).
  assert (deliver s c = complete s (slot_of c) (IoCompletion.result c) Priority.Normal) as ->
    by (unfold deliver; fold (slot_of c); destruct (Z.eqb_spec (slot_of c) U32_MAX); [lia|done]).
  destruct HP as (sc & Hs & Hwf & Hn & HP).
  assert (0 ≤ Tls.WORKER_ID (l s)) as Hl0 by (apply (hints_nonneg _ w); [done|lia]).
  destruct (complete_spec s sc (slot_of c) (IoCompletion.result c) Priority.Normal Hs Hwf Hl0 Hslot)
    as (s1 & sc1 & ws & E1 & Hsh & _ & _ & Hwk & Hc). rewrite E1. cbn [mbind outcome_bind]. intros Hf.
  destruct (complete_pending s (slot_of c) (IoCompletion.result c) Priority.Normal s1 n w P) as [HP1 Hl1];
    [by exists sc|done..|].
  assert (length (results (sh s1)) = length (results (sh s))) as Hlen by (rewrite Hsh; apply length_insert).
  apply (IH s1 _ HP1) in Hf as (sc2 & ? & ? & ? & HP2);
    [|by rewrite Hl1|done|by rewrite Hlen|rewrite Hlen; set_solver].
  exists sc2. split_and!; [done..|]. intros [(c' & [->|Hc']%elem_of_cons & Hb)|?]; apply HP2; [tauto| |tauto].
  destruct (decide (slot_of c' = slot_of c)) as [E|]; [rewrite E in Hb; tauto|]. left. exists c'. split; [done|].
  rewrite (woken_blocked _ _ _ _ _ _ Hwk). split; [|done]. destruct Hc as [[-> _]|(-> & _)]; set_solver.
Qed.
End Pending.

(** ** Lemmas: sending everything *)
Section SendFacts.
Context {S A : Type} (send : S → list A → Z * S) (sent : S → list A) (retries : S → nat).

(** What a send may do with a buffer that is not empty: transfer some of it,
    ask for a retry, which it does only so often, or fail. *)
Definition send_ok : Prop :=
  ∀ s buf, buf ≠ [] → let '(n, s') := send s buf in
    (0 < n ≤ Z.of_nat (length buf) ∧ sent s' = sent s ++ take (Z.to_nat n) buf ∧ (retries s' ≤ retries s)%nat) ∨
    ((n = - libc.EAGAIN ∨ n = - libc.EINTR) ∧ sent s' = sent s ∧ (retries s' < retries s)%nat) ∨
    (n < 0 ∧ n ≠ - libc.EAGAIN ∧ n ≠ - libc.EINTR ∧ sent s' = sent s).

Lemma send_all_spec fuel s buf total :
  send_ok → (length buf + retries s < fuel)%nat → 0 ≤ total → total + Z.of_nat (length buf) < 2 ^ 64 →
  ∃ r s', syscall.send_all send fuel s buf total = Some (Ret r, s') ∧
    (r = total + Z.of_nat (length buf) ∧ sent s' = sent s ++ buf ∨
     r < 0 ∧ ∃ k, sent s' = sent s ++ take k buf).
Proof.
  intros Hok. revert s buf total. induction fuel as [|fuel IH]; intros s buf total Hf H0 Ht; [lia|]. simpl.
  case_bool_decide as Hb.
  { subst. exists total, s. split; [done|]. left. rewrite app_nil_r. split; [simpl; lia|done]. }
  specialize (Hok s buf Hb). destruct (send s buf) as [n s'].
  destruct Hok as [(Hn & Hs & Hr)|[(Hn & Hs & Hr)|(Hn & Hn1 & Hn2 & Hs)]].
  - destruct (Z.ltb_spec n 0); [lia|]. destruct (Z.ltb_spec (Z.of_nat (length buf)) n); [lia|].
    rewrite wrap_small by (split; lia).
    destruct (IH s' (drop (Z.to_nat n) buf) (total + n)) as (r & s'' & Hsend & Hres); [rewrite ?length_drop; lia..|].
    exists r, s''. split; [done|]. rewrite length_drop, Hs in Hres. destruct Hres as [[-> Hres]|(Hneg & k & Hres)].
    + left. split; [lia|]. by rewrite Hres, <- (assoc_L (++)), take_drop.
    + right. split; [done|]. exists (Z.to_nat n + k)%nat. by rewrite Hres, <- (assoc_L (++)), take_take_drop.
  - assert ((n <? 0) = true ∧ (n =? - libc.EAGAIN) || (n =? - libc.EINTR) = true) as [-> ->].
    { destruct Hn as [-> | ->]; done. }
    destruct (IH s' buf total) as (r & s'' & Hsend & Hres); [lia..|]. exists r, s''. split; [done|]. by rewrite Hs in Hres.
  - destruct (Z.ltb_spec n 0); [|lia]. destruct (Z.eqb_spec n (- libc.EAGAIN)); [done|].
    destruct (Z.eqb_spec n (- libc.EINTR)); [done|]. simpl. exists n, s'. split; [done|]. right. split; [done|].
    exists O. by rewrite take_0, app_nil_r.
Qed.
End SendFacts.

Lemma as_i32_u64 x : - 2 ^ 31 ≤ x < 2 ^ 31 → as_i32 (syscall.as_u64 x) = x.
Proof. by apply as_i32_wrap. Qed.

Lemma as_u32_small x : in_u 32 x → as_u32 x = x.
Proof. apply wrap_small. Qed.

(** ** Theorems *)
Section ReactorTheorems.
Context {R : Type} `{!IoUring R} {Q : Type → Type} `{!ArrayQueue Q} {space : Type} `{!VirtualMemory space}.

(** C13: The reactor hands every completion to its GVThread.  When the
    completions belong to different GVThreads with slots in the slab, the loop
    of step 3 stores each result at its slot and touches no other slot; it wakes,
    once, exactly the GVThreads among them that are blocked, which become ready
    and are added to the ready queue; and it does not panic. *)
Theorem reactor_delivers (s : Reactor.state R Q space) sc cs :
  Scheduler.SCHEDULER (Reactor.g s) = Some sc → simple_wf (Scheduler.ready_queue sc) →
  0 ≤ Tls.WORKER_ID (Reactor.l s) → Z.of_nat (length (Reactor.results (Reactor.sh s))) ≤ U32_MAX →
  (∀ c, c ∈ cs → slot_of c < Z.of_nat (length (Reactor.results (Reactor.sh s)))) → NoDup (slot_of <$> cs) →
  ∃ s' sc' ws, fold_outcome Reactor.deliver s cs = Ret s' ∧ woken (Reactor.g s) (Reactor.g s') sc sc' ws ∧
    (∀ id, id ∈ ws ↔ id ∈ slot_of <$> cs ∧ blocked (Reactor.g s) id) ∧ NoDup ws ∧
    (∀ c, c ∈ cs → Reactor.read_result (Reactor.sh s') (slot_of c) = Ret (IoCompletion.result c)) ∧
    (∀ i, Z.of_nat i ∉ slot_of <$> cs →
       Reactor.results (Reactor.sh s') !! i = Reactor.results (Reactor.sh s) !! i).
Proof.
  intros Hs Hwf Hl Hmax Hin Hnd.
  destruct (deliver_all_spec s sc cs Hs Hwf Hl Hmax Hin Hnd) as (s' & sc' & ws & ? & ? & ? & ? & _ & Hres & ?).
  exists s', sc', ws. split_and!; try done. intros c Hc. apply index_Ret. split; [apply wrap_range; lia|]. by apply Hres.
Qed.


(** A refused submission on the worker-local path blocks its GVThread for
    ever.  [WorkerReactorPool::submit] answers a system call that io_uring does
    not take, or that its ring has no room for, by storing the error and waking
    the GVThread, which is the caller and still running, so the wake does
    nothing; then [block_current] marks it blocked.  The result is in the slab,
    but the scheduler, with its ready queue, is what it was before. *)
Theorem refused_submit_blocks_forever (l : Tls.t) (p : WorkerReactorPool.t R) (g : Scheduler.sys (space := space)) sc ring w call :
  let id := Tls.current_gvthread_id l in
  Scheduler.SCHEDULER g = Some sc → ¬ blocked g id →
  Tls.is_in_gvthread l = true → Tls.current_gvthread_base l ≠ 0 → GVThreadId.is_none id = false →
  w ≠ USIZE_MAX → index (WorkerReactorPool.rings p) w = Ret ring →
  0 ≤ id < Z.of_nat (length (WorkerReactorPool.results p)) →
  (RouteInfo.tier (route (WorkerReactorPool.router ring) call.1) ≠ Tier.IoUring ∨
   sq_is_full (BasicIoUring.ring (WorkerReactorPool.io ring)) = true) →
  ∃ p' g' errno, syscall.park_worker l w (Some p) g call = Ret (p', Some g') ∧
    WorkerReactorPool.read_result p' id = Ret (- errno) ∧ 0 < errno ∧
    blocked g' id ∧ Scheduler.SCHEDULER g' = Some sc.
Proof.
  intros id Hs Hb Hin Hbase Hn Hw Hring Hid Href.
  destruct (wake_then_block g l l sc id Priority.Normal Hs Hb eq_refl Hin Hbase Hn) as (Hwake & g' & Hblk & Hblk' & Hsc).
  assert (∀ (p1 : WorkerReactorPool.t R) e, WorkerReactorPool.results p1 = WorkerReactorPool.results p →
    WorkerReactorPool.complete l (p1, g) id (- e) =
      Ret (WorkerReactorPool.with_results p1 (<[Z.to_nat id := - e]> (WorkerReactorPool.results p)), g)) as Hcompl.
  { intros p1 e Hp1. unfold WorkerReactorPool.complete. cbn [fst snd]. rewrite Hp1, index_set_Ret by done.
    cbn [mbind outcome_bind]. unfold GVThreadId.new. by rewrite Hwake. }
  assert (∃ p' errno, WorkerReactorPool.submit l (p, g) w id call.1 call.2 = Ret (p', g) ∧ 0 < errno ∧
    WorkerReactorPool.results p' = <[Z.to_nat id := - errno]> (WorkerReactorPool.results p)) as (p' & errno & Hsub & He & Hp').
  { unfold WorkerReactorPool.submit. cbn [fst snd]. rewrite Hring. cbn [mbind outcome_bind].
    destruct (decide (RouteInfo.tier (route (WorkerReactorPool.router ring) call.1) = Tier.IoUring)) as [Ht|Ht].
    - destruct Href as [|Hfull]; [done|]. rewrite Ht. unfold BasicIoUring.submit_with_opcode, BasicIoUring.translate_and_push.
      rewrite Hfull, Hcompl by done. by eexists _, libc.EAGAIN.
    - destruct (RouteInfo.tier _); [|done| |]; rewrite Hcompl by done; by eexists _, libc.ENOSYS. }
  exists p', g', errno. unfold syscall.park_worker. fold id. rewrite Hn, (proj2 (Z.eqb_neq _ _) Hw). cbn [mbind outcome_bind WorkerReactorPool.global_pool].
  unfold GVThreadId.as_u32. rewrite Hsub. cbn [mbind outcome_bind fst snd]. rewrite Hblk. split_and!; try done.
  apply index_Ret. rewrite Hp'. split; [lia|]. apply list_lookup_insert_eq. lia.
Qed.

(** An answer of the shared reactor that overtakes its GVThread is lost.
    [submit_and_park] queues the request before it blocks; if the reactor
    completes the request in between, the wake finds a running GVThread and does
    nothing, and the GVThread then blocks although its result is in the slab. *)
Theorem early_answer_is_lost (s : Reactor.state R Q space) sc (lr : Tls.t) result prio :
  let id := Tls.current_gvthread_id lr in
  Scheduler.SCHEDULER (Reactor.g s) = Some sc → ¬ blocked (Reactor.g s) id →
  Tls.is_in_gvthread lr = true → Tls.current_gvthread_base lr ≠ 0 → GVThreadId.is_none id = false →
  0 ≤ id < Z.of_nat (length (Reactor.results (Reactor.sh s))) →
  ∃ s' g', Reactor.complete s id result prio = Ret s' ∧ Reactor.read_result (Reactor.sh s') id = Ret result ∧
    Scheduler.block_current (Reactor.g s') lr = Some g' ∧ blocked g' id ∧ Scheduler.SCHEDULER g' = Some sc.
Proof.
  intros id Hs Hb Hin Hbase Hn Hid.
  destruct (wake_then_block (Reactor.g s) (Reactor.l s) lr sc id prio Hs Hb eq_refl Hin Hbase Hn)
    as (Hwake & g' & Hblk & Hblk' & Hsc).
  unfold Reactor.complete, Reactor.write_result. rewrite index_set_Ret by done. cbn [mbind outcome_bind].
  unfold GVThreadId.new. rewrite Hwake. do 2 eexists. split; [done|]. split; [|by simpl].
  apply index_Ret. split; [lia|]. simpl. apply list_lookup_insert_eq. lia.
Qed.

(** The completion of a cancellation crashes the poller.  [cancel] marks it
    with [u64::MAX - 1], whose low half is not the [u32::MAX] that the pollers
    skip, so both index the slab with it and panic. *)
Theorem cancel_completion_panics (s : Reactor.state R Q space) (x : WorkerReactorPool.t R * Scheduler.sys (space := space)) l result flags :
  Z.of_nat (length (Reactor.results (Reactor.sh s))) ≤ U32_MAX - 1 →
  Z.of_nat (length (WorkerReactorPool.results x.1)) ≤ U32_MAX - 1 →
  Reactor.deliver s (IoCompletion.mk (U64_MAX - 1) result flags) = Panic ∧
  WorkerReactorPool.deliver l x (IoCompletion.mk (U64_MAX - 1) result flags) = Panic.
Proof.
  intros Hs Hx. assert (CorrId.as_gvthread_id (U64_MAX - 1) = U32_MAX - 1) as Hslot by (vm_compute; reflexivity).
  unfold Reactor.deliver, WorkerReactorPool.deliver. cbn [IoCompletion.corr_id]. rewrite Hslot.
  destruct (Z.eqb_spec (U32_MAX - 1) U32_MAX) as [E|_]; [discriminate E|].
  assert (∀ (v : list Z) y, Z.of_nat (length v) ≤ U32_MAX - 1 → index_set v (U32_MAX - 1) y = Panic) as Hp.
  { intros v y Hv. unfold index_set. destruct (Z.ltb_spec (U32_MAX - 1) (Z.of_nat (length v))); [lia|]. by rewrite andb_false_r. }
  split.
  - unfold Reactor.complete, Reactor.write_result. by rewrite Hp.
  - unfold WorkerReactorPool.complete. by rewrite Hp.
Qed.
End ReactorTheorems.


(** Where a send transfers nothing, [send_all] never returns.  This is what
    happens to a buffer of [2^32] bytes (or a multiple): the length is cut to 32
    bits on its way into the ring, the kernel is asked to send 0 bytes, and the
    loop sees no progress. *)
Theorem send_all_spins_on_zero {S A : Type} (send : S → list A → Z * S) buf fuel s fd ptr k :
  buf ≠ [] → (∀ s, ∃ s', send s buf = (0, s')) →
  syscall.send_all send fuel s buf 0 = None ∧
  BasicIoUring.build_op (SubmitEntry.mk 1 nr.SENDTO 0 (syscall.ksvc_send fd ptr (k * 2 ^ 32) 0).2) op.SEND =
    Ok (Send (as_i32 (syscall.as_u64 fd)) ptr 0 0).
Proof.
  intros Hb Hz. split.
  - revert s. induction fuel as [|fuel IH]; intros s; [done|]. simpl. rewrite bool_decide_eq_false_2 by done.
    destruct (Hz s) as [s' ->]. simpl. destruct (Z.ltb_spec (Z.of_nat (length buf)) 0); [lia|].
    rewrite drop_0. apply IH.
  - cbv - [as_i32 syscall.as_u64 as_u32 Z.mul Z.pow].
    assert (as_u32 (k * 2 ^ 32) = 0) as Hk by (apply Z.mod_mul; lia).
    change (k * 4294967296) with (k * 2 ^ 32). rewrite Hk.
    change (as_i32 (syscall.as_u64 0)) with 0. reflexivity.
Qed.


(** ** Witnesses *)

Definition demo_request : Reactor.IoRequest := Reactor.mkRequest 1 700 (replicate 6 0) Priority.Normal.
Definition demo_reactor : Reactor.state Loopback.t list_queue FlatVM.space :=
  Reactor.mk (Reactor.mkShared (mkListQueue 4 []) [0; 0] false 2) (BasicIoUring.mk (Loopback.mk 8 [] []) 0 0)
    demo_sys Tls.initial.
(** GVThread 0, running on a worker. *)
Definition demo_tls : Tls.t := Tls.mk USIZE_MAX 0 4096.
Definition demo_wpool : WorkerReactorPool.t Loopback.t :=
  WorkerReactorPool.mk
    [WorkerReactorPool.mkRing (BasicIoUring.mk (Loopback.mk 8 [] []) 0 0) (ProbeRouter.mk (replicate 512 RouteInfo.LEGACY))]
    [0; 0] 1 false.

Lemma reactor_delivers_witness :
  ∃ s' sc' ws, fold_outcome Reactor.deliver demo_reactor [IoCompletion.mk 1 5 0] = Ret s' ∧
    woken demo_sys (Reactor.g s') demo_sched sc' ws ∧ 1 ∈ ws ∧ Reactor.read_result (Reactor.sh s') 1 = Ret 5.
Proof.
  destruct (reactor_delivers demo_reactor demo_sched [IoCompletion.mk 1 5 0] eq_refl demo_queue_wf)
    as (s' & sc' & ws & H1 & H2 & H3 & _ & H4 & _).
  - vm_compute. discriminate.
  - vm_compute. discriminate.
  - intros c Hc. apply list_elem_of_singleton in Hc as ->. vm_compute. reflexivity.
  - apply (bool_decide_unpack _). vm_compute. exact I.
  - exists s', sc', ws. split; [exact H1|]. split; [exact H2|]. split.
    + apply H3. split; [apply (bool_decide_unpack _); vm_compute; exact I|reflexivity].
    + apply (H4 (IoCompletion.mk 1 5 0)). apply list_elem_of_singleton. reflexivity.
Defined.

Definition demo_served : WorkerReactorPool.t Loopback.t :=
  WorkerReactorPool.mk
    [WorkerReactorPool.mkRing (BasicIoUring.mk (Loopback.mk 8 [] [mkCqe 1 5 0]) 1 0) (ProbeRouter.mk (replicate 512 RouteInfo.LEGACY))]
    [0; 0] 1 false.


Lemma refused_submit_blocks_forever_witness :
  ∃ p' g' errno, syscall.park_worker demo_tls 0 (Some demo_wpool) demo_sys (syscall.ksvc_read 3 4096 64) = Ret (p', Some g') ∧
    WorkerReactorPool.read_result p' 0 = Ret (- errno) ∧ 0 < errno ∧ blocked g' 0 ∧
    Scheduler.SCHEDULER g' = Some demo_sched.
Proof.
  apply (refused_submit_blocks_forever demo_tls demo_wpool demo_sys demo_sched
    (WorkerReactorPool.mkRing (BasicIoUring.mk (Loopback.mk 8 [] []) 0 0) (ProbeRouter.mk (replicate 512 RouteInfo.LEGACY)))
    0 (syscall.ksvc_read 3 4096 64)); [reflexivity|discriminate|reflexivity|discriminate|reflexivity|discriminate|reflexivity| |left; discriminate].
  split; [vm_compute; discriminate|vm_compute; reflexivity].
Defined.

Lemma early_answer_is_lost_witness :
  ∃ s' g', Reactor.complete demo_reactor 0 5 Priority.Normal = Ret s' ∧
    Reactor.read_result (Reactor.sh s') 0 = Ret 5 ∧
    Scheduler.block_current (Reactor.g s') demo_tls = Some g' ∧ blocked g' 0 ∧ Scheduler.SCHEDULER g' = Some demo_sched.
Proof.
  apply (early_answer_is_lost demo_reactor demo_sched demo_tls 5 Priority.Normal);
    [reflexivity|discriminate|reflexivity|discriminate|reflexivity|].
  split; [vm_compute; discriminate|vm_compute; reflexivity].
Defined.

Lemma cancel_completion_panics_witness :
  Reactor.deliver demo_reactor (IoCompletion.mk (U64_MAX - 1) 0 0) = Panic ∧
  WorkerReactorPool.deliver Tls.initial (demo_wpool, demo_sys) (IoCompletion.mk (U64_MAX - 1) 0 0) = Panic.
Proof.
  apply (cancel_completion_panics demo_reactor (demo_wpool, demo_sys) Tls.initial 0 0); vm_compute; discriminate.
Defined.

(** A peer that takes three bytes, asks for a retry once, then takes the rest. *)
Definition demo_send (s : list Z * nat) (buf : list Z) : Z * (list Z * nat) :=
  match s.2 with
  | O => (Z.of_nat (length buf), (s.1 ++ buf, O))
  | 1%nat => (- libc.EAGAIN, (s.1, O))
  | Datatypes.S n => (3 `min` Z.of_nat (length buf), (s.1 ++ take (Z.to_nat (3 `min` Z.of_nat (length buf))) buf, n))
  end.


Lemma send_all_spins_on_zero_witness :
  syscall.send_all (λ (s : unit) (_ : list Z), (0, s)) 1000 () [7] 0 = None ∧
  BasicIoUring.build_op (SubmitEntry.mk 1 nr.SENDTO 0 (syscall.ksvc_send 3 4096 (1 * 2 ^ 32) 0).2) op.SEND =
    Ok (Send (as_i32 (syscall.as_u64 3)) 4096 0 0).
Proof.
  apply (send_all_spins_on_zero (λ (s : unit) (_ : list Z), (0, s)) [7] 1000 () 3 4096 1); [discriminate|].
  intros s. exists s. reflexivity.
Defined.

