(* ===== verification/KsvcKmod.v ===== *)
(** * The kernel module and the shared page

    Models [src/kmod]: the rings ([ksvc_ring.c]), the shared page
    ([ksvc_shared.c]), the device file with its CREATE request and mappings
    ([ksvc_main.c]) and the layouts of [ksvc_uapi.h]; and, on the other side of
    the mapping, [ksvc-module/src/mmap_shared_page.rs].

    The kernel's allocators and event descriptors are the class [Kernel], whose
    laws say what is held after an allocation and after a release of something
    held; there is no law for a release of something that is not held.  Memory is
    a map from addresses to bytes, zero where nothing was written. *)

From S2P Require Import Prelude Metadata KsvcTypes KsvcUring KsvcRing.

(** ** Bytes in memory *)
Module Mem.
Abbreviation t := (gmap Z Z).

Definition byte (m : t) (a : Z) : Z := default 0 (m !! a).

Fixpoint store (m : t) (a : Z) (bs : list Z) : t :=
  match bs with [] => m | b :: bs => <[a := b]> (store m (a + 1) bs) end.
Definition load (m : t) (a : Z) (n : nat) : list Z := (λ i : nat, byte m (a + Z.of_nat i)) <$> seq 0 n.

(** The little-endian bytes of an integer, and back. *)
Fixpoint le (n : nat) (v : Z) : list Z :=
  match n with O => [] | S n' => v `mod` 256 :: le n' (v / 256) end.
Fixpoint of_le (bs : list Z) : Z :=
  match bs with [] => 0 | b :: bs => b + 256 * of_le bs end.

(** A page that [__GFP_ZERO] has cleared. *)
Definition clear (m : t) (a len : Z) : t := filter (λ kv, ¬ (a ≤ kv.1 < a + len)) m.
End Mem.

(** ** What the kernel provides *)
Inductive resource : Type := Page (p : Z) | Obj (o : Z) | Ctx (c : Z).

#[export] Instance resource_eq_dec : EqDecision resource.
Proof. solve_decision. Defined.

(** An [eventfd_ctx_fdget] that fails gives a negative error number. *)
Class Kernel (K : Type) : Type := {
  held : K → list resource;
  alloc_page : K → option Z * K;
  free_page : K → Z → K;
  kzalloc : K → option Z * K;
  kfree : K → Z → K;
  eventfd_ctx_fdget : K → Z → Result Z Z * K;
  eventfd_ctx_put : K → Z → K;
  page_address : Z → option Z;
  alloc_page_held k r k' : alloc_page k = (r, k') →
    match r with Some p => (Page p ∉ held k) ∧ (held k' ≡ₚ Page p :: held k) | None => held k' ≡ₚ held k end;
  kzalloc_held k r k' : kzalloc k = (r, k') →
    match r with Some o => held k' ≡ₚ Obj o :: held k | None => held k' ≡ₚ held k end;
  fdget_held k fd r k' : eventfd_ctx_fdget k fd = (r, k') →
    match r with Ok c => held k' ≡ₚ Ctx c :: held k | Err e => (held k' ≡ₚ held k) ∧ e < 0 end;
  free_page_held k p : Page p ∈ held k → held k ≡ₚ Page p :: held (free_page k p);
  kfree_held k o : Obj o ∈ held k → held k ≡ₚ Obj o :: held (kfree k o);
  put_held k c : Ctx c ∈ held k → held k ≡ₚ Ctx c :: held (eventfd_ctx_put k c);
  page_address_disjoint p q a b : page_address p = Some a → page_address q = Some b → p ≠ q →
    a + 4096 ≤ b ∨ b + 4096 ≤ a
}.

Definition PAGE_SIZE : Z := 4096.
Definition PAGE_SHIFT : Z := 12.

(** Error numbers. *)
Module errno.
Definition ENOMEM : Z := 12.
Definition EFAULT : Z := 14.
Definition EBUSY : Z := 16.
Definition EINVAL : Z := 22.
Definition ENOTTY : Z := 25.
End errno.

(** ** [ksvc_uapi.h] *)
Module uapi.
Definition s32 (n : string) : Layout.field := Layout.Field n 4 4.
Definition s64 (n : string) : Layout.field := Layout.Field n 8 8.
Definition chars (n : string) (len : Z) : Layout.field := Layout.Field n len 1.

Definition entry_fields : list Layout.field :=
  [Layout.u64 "corr_id"; Layout.u32 "syscall_nr"; Layout.u32 "flags"; Layout.Field "args" (6 * 8) 8].
Definition completion_fields : list Layout.field :=
  [Layout.u64 "corr_id"; s64 "result"; Layout.u32 "flags"; Layout.u32 "_pad"].
Definition ring_header_fields : list Layout.field :=
  [Layout.u32 "magic"; Layout.u32 "ring_size"; Layout.u32 "mask"; Layout.u32 "entry_size";
   Layout.u64 "head"; Layout.u64 "tail"; Layout.Field "_reserved" (3 * 8) 8].
Definition create_params_fields : list Layout.field :=
  [Layout.u32 "submit_ring_entries"; Layout.u32 "complete_ring_entries"; Layout.u32 "flags"; s32 "eventfd";
   Layout.Field "_reserved" (4 * 4) 4].

Definition shared_page_fields : list Layout.field :=
  [Layout.u32 "magic"; Layout.u32 "version";
   s32 "pid"; s32 "tgid"; s32 "ppid"; s32 "pgid"; s32 "sid"; s32 "_pad_id";
   Layout.u32 "uid"; Layout.u32 "gid"; Layout.u32 "euid"; Layout.u32 "egid"; Layout.u32 "suid"; Layout.u32 "sgid";
   Layout.Field "_pad_cred" (2 * 4) 4;
   chars "utsname_release" 65; chars "utsname_nodename" 65; chars "utsname_machine" 65; chars "_pad_uts" 5;
   Layout.u64 "rlimit_nofile"; Layout.u64 "rlimit_nproc"; chars "_reserved_static" 0xE8;
   Layout.u32 "kthread_cpu"; Layout.u32 "worker_state"; Layout.u64 "entries_processed";
   Layout.u64 "batches_processed"; Layout.u64 "io_uring_inflight"; Layout.u64 "worker_pool_active";
   Layout.u64 "submit_ring_head"; Layout.u64 "submit_ring_tail";
   Layout.u64 "complete_ring_head"; Layout.u64 "complete_ring_tail"; chars "_reserved_runtime" 0x38;
   Layout.u64 "clock_monotonic_ns"; Layout.u64 "clock_realtime_ns"; Layout.u64 "boot_time_ns"].

(** The offset of a member. *)
Definition offsetof (fs : list Layout.field) (n : string) : Z :=
  default 0 (snd <$> find (λ x, String.eqb x.1 n) (Layout.offsets fs)).
End uapi.

(** ** Structs of [ksvc_internal.h] *)
Module Kmod.
(** [pages] is the array and the pages in it. *)
Record ksvc_ring : Type := mkRing {
  pages : option (Z * list Z);
  nr_pages : nat;
  kaddr : option Z;
  nr_entries : Z;
  entry_size : Z
}.
Definition ring_zero : ksvc_ring := mkRing None 0 None 0 0.

Record ksvc_instance : Type := mkInstance {
  obj : Z;
  submit : ksvc_ring;
  complete : ksvc_ring;
  shared_page : option Z;
  shared_kaddr : option Z;
  eventfd_ctx : option Z;
  created : bool
}.

Definition with_submit (i : ksvc_instance) (r : ksvc_ring) : ksvc_instance :=
  mkInstance (obj i) r (complete i) (shared_page i) (shared_kaddr i) (eventfd_ctx i) (created i).
Definition with_complete (i : ksvc_instance) (r : ksvc_ring) : ksvc_instance :=
  mkInstance (obj i) (submit i) r (shared_page i) (shared_kaddr i) (eventfd_ctx i) (created i).
Definition with_shared (i : ksvc_instance) (p a : option Z) : ksvc_instance :=
  mkInstance (obj i) (submit i) (complete i) p a (eventfd_ctx i) (created i).
Definition with_ctx (i : ksvc_instance) (c : option Z) : ksvc_instance :=
  mkInstance (obj i) (submit i) (complete i) (shared_page i) (shared_kaddr i) c (created i).
Definition with_created (i : ksvc_instance) (b : bool) : ksvc_instance :=
  mkInstance (obj i) (submit i) (complete i) (shared_page i) (shared_kaddr i) (eventfd_ctx i) b.

(** What [ksvc_shared_populate] reads of the current process and the clocks;
    strings are their bytes before the terminator. *)
Record task_info : Type := mkTask {
  pid : Z; tgid : Z; ppid : Z; pgid : Z; sid : Z;
  uid : Z; gid : Z; euid : Z; egid : Z; suid : Z; sgid : Z;
  utsname : option (list Z * list Z * list Z);
  rlimit_nofile : Z; rlimit_nproc : Z;
  boottime_ns : Z; monotonic_ns : Z; real_ns : Z
}.

(** A mapping request. *)
Record vma : Type := mkVma {
  vm_start : Z; vm_end : Z; vm_pgoff : Z;
  vm_write : bool; vm_maywrite : bool; vm_dontcopy : bool; vm_dontexpand : bool
}.

Section Module.
Context {K : Type} `{!Kernel K}.

(** The state of the kernel: what it holds, and memory. *)
Record sys : Type := mk { k : K; mem : Mem.t }.
Definition with_k (s : sys) (k' : K) : sys := mk k' (mem s).
Definition with_mem (s : sys) (m : Mem.t) : sys := mk (k s) m.

(** [alloc_page(GFP_KERNEL | __GFP_ZERO)]. *)
Definition alloc_zeroed (s : sys) : option Z * sys :=
  match alloc_page (k s) with
  | (Some p, k') =>
      (Some p, mk k' (match page_address p with Some a => Mem.clear (mem s) a PAGE_SIZE | None => mem s end))
  | (None, k') => (None, with_k s k')
  end.
Definition free_one (s : sys) (p : Z) : sys := with_k s (free_page (k s) p).

(** *** [ksvc_ring.c] *)
Definition ring_pages_needed (nr_entries entry_size : Z) : Z :=
  let data_bytes := wrap 64 (nr_entries * entry_size) in
  let data_pages := wrap 32 ((data_bytes + PAGE_SIZE - 1) / PAGE_SIZE) in
  1 +[32] data_pages.

(** The allocation loop: whether all pages came, those that did, in order. *)
Fixpoint alloc_pages (n : nat) (s : sys) (acc : list Z) : bool * list Z * sys :=
  match n with
  | O => (true, acc, s)
  | S n' =>
      match alloc_zeroed s with
      | (Some p, s') => alloc_pages n' s' (acc ++ [p])
      | (None, s') => (false, acc, s')
      end
  end.

(** [err_free_pages]: the pages from the last to the first, then the array. *)
Definition err_free_pages (s : sys) (arr : Z) (ps : list Z) : sys :=
  let s := fold_left free_one (reverse ps) s in with_k s (kfree (k s) arr).

(** The stores that initialise the header. *)
Definition init_header (m : Mem.t) (hdr nr_entries entry_size : Z) : Mem.t :=
  let at_ n := hdr + uapi.offsetof uapi.ring_header_fields n in
  let m := Mem.store m (at_ "magic") (Mem.le 4 ksvc_sys.KSVC_RING_MAGIC) in
  let m := Mem.store m (at_ "ring_size") (Mem.le 4 nr_entries) in
  let m := Mem.store m (at_ "mask") (Mem.le 4 (nr_entries -[32] 1)) in
  let m := Mem.store m (at_ "entry_size") (Mem.le 4 entry_size) in
  let m := Mem.store m (at_ "head") (Mem.le 8 0) in
  Mem.store m (at_ "tail") (Mem.le 8 0).

Definition ksvc_ring_alloc (s : sys) (r : ksvc_ring) (nr_entries entry_size : Z) : Z * ksvc_ring * sys :=
  let n := Z.to_nat (ring_pages_needed nr_entries entry_size) in
  match kzalloc (k s) with
  | (None, k') => (- errno.ENOMEM, mkRing None (nr_pages r) (kaddr r) (Kmod.nr_entries r) (Kmod.entry_size r), with_k s k')
  | (Some arr, k') =>
      match alloc_pages n (with_k s k') [] with
      | (false, ps, s') =>
          (- errno.ENOMEM, mkRing None (nr_pages r) (kaddr r) (Kmod.nr_entries r) (Kmod.entry_size r),
           err_free_pages s' arr ps)
      | (true, ps, s') =>
          match p ← ps !! 0%nat; page_address p with
          | None => (- errno.ENOMEM, mkRing None n None nr_entries entry_size, err_free_pages s' arr ps)
          | Some a =>
              (0, mkRing (Some (arr, ps)) n (Some a) nr_entries entry_size,
               with_mem s' (init_header (mem s') a nr_entries entry_size))
          end
      end
  end.

Definition ksvc_ring_free (s : sys) (r : ksvc_ring) : ksvc_ring * sys :=
  match pages r with
  | None => (r, s)
  | Some (arr, ps) =>
      let s := fold_left free_one (take (nr_pages r) ps) s in
      (mkRing None 0 None (Kmod.nr_entries r) (Kmod.entry_size r), with_k s (kfree (k s) arr))
  end.

(** *** [ksvc_shared.c] *)
Definition ksvc_shared_alloc (s : sys) (i : ksvc_instance) : Z * ksvc_instance * sys :=
  match alloc_zeroed s with
  | (None, s') => (- errno.ENOMEM, with_shared i None (shared_kaddr i), s')
  | (Some p, s') =>
      match page_address p with
      | None => (- errno.ENOMEM, with_shared i None None, free_one s' p)
      | Some a => (0, with_shared i (Some p) (Some a), s')
      end
  end.

Definition ksvc_shared_free (s : sys) (i : ksvc_instance) : ksvc_instance * sys :=
  match shared_page i with
  | None => (i, s)
  | Some p => (with_shared i None None, free_one s p)
  end.

(** The stores of [ksvc_shared_populate]: member, size and bytes. *)
Definition member (n : string) (size : nat) (v : Z) : Z * nat * list Z :=
  (uapi.offsetof uapi.shared_page_fields n, size, Mem.le size v).
(** [strscpy] cuts the string to fit and ends it. *)
Definition strscpy (n : string) (src : list Z) : Z * nat * list Z :=
  (uapi.offsetof uapi.shared_page_fields n, 65%nat, take 64 src ++ [0]).

Definition shared_writes (t : task_info) : list (Z * nat * list Z) :=
  [member "magic" 4 ksvc_sys.KSVC_SHARED_MAGIC; member "version" 4 ksvc_sys.KSVC_VERSION;
   member "pid" 4 (pid t); member "tgid" 4 (tgid t); member "ppid" 4 (ppid t);
   member "pgid" 4 (pgid t); member "sid" 4 (sid t);
   member "uid" 4 (uid t); member "gid" 4 (gid t); member "euid" 4 (euid t);
   member "egid" 4 (egid t); member "suid" 4 (suid t); member "sgid" 4 (sgid t)] ++
  match utsname t with
  | Some (release, nodename, machine) =>
      [strscpy "utsname_release" release; strscpy "utsname_nodename" nodename; strscpy "utsname_machine" machine]
  | None => []
  end ++
  [member "rlimit_nofile" 8 (rlimit_nofile t); member "rlimit_nproc" 8 (rlimit_nproc t);
   member "boot_time_ns" 8 (boottime_ns t);
   member "clock_monotonic_ns" 8 (monotonic_ns t); member "clock_realtime_ns" 8 (real_ns t)].

Definition apply_writes (m : Mem.t) (base : Z) (ws : list (Z * nat * list Z)) : Mem.t :=
  fold_left (λ m w, Mem.store m (base + w.1.1) w.2) ws m.

Definition ksvc_shared_populate (t : task_info) (s : sys) (i : ksvc_instance) : sys :=
  match shared_kaddr i with
  | None => s
  | Some sp => with_mem s (apply_writes (mem s) sp (shared_writes t))
  end.

(** *** [ksvc_main.c] *)
Definition ksvc_instance_create (s : sys) : Result ksvc_instance Z * sys :=
  match kzalloc (k s) with
  | (None, k') => (Err (- errno.ENOMEM), with_k s k')
  | (Some o, k') => (Ok (mkInstance o ring_zero ring_zero None None None false), with_k s k')
  end.

Definition ksvc_instance_destroy (s : sys) (i : ksvc_instance) : sys :=
  let s := match eventfd_ctx i with Some c => with_k s (eventfd_ctx_put (k s) c) | None => s end in
  let '(_, s) := ksvc_ring_free s (submit i) in
  let '(_, s) := ksvc_ring_free s (complete i) in
  let '(_, s) := ksvc_shared_free s i in
  with_k s (kfree (k s) (obj i)).

Definition valid_size (n : Z) : bool :=
  negb ((n <? ksvc_sys.KSVC_MIN_RING_ENTRIES) || (ksvc_sys.KSVC_MAX_RING_ENTRIES <? n) || negb (is_power_of_two n)).

(** The error labels of [ksvc_ioctl_create], each falling into the next. *)
Definition err_free_submit (ret : Z) (s : sys) (i : ksvc_instance) : Z * ksvc_instance * sys :=
  let '(r, s) := ksvc_ring_free s (submit i) in (ret, with_submit i r, s).
Definition err_free_complete (ret : Z) (s : sys) (i : ksvc_instance) : Z * ksvc_instance * sys :=
  let '(r, s) := ksvc_ring_free s (complete i) in err_free_submit ret s (with_complete i r).
Definition err_free_shared (ret : Z) (s : sys) (i : ksvc_instance) : Z * ksvc_instance * sys :=
  let '(i, s) := ksvc_shared_free s i in err_free_complete ret s i.
Definition err_free_eventfd (ret : Z) (s : sys) (i : ksvc_instance) : Z * ksvc_instance * sys :=
  match eventfd_ctx i with
  | Some c => err_free_shared ret (with_k s (eventfd_ctx_put (k s) c)) (with_ctx i None)
  | None => err_free_shared ret s i
  end.

(** The event descriptor and the copy back to the caller, [copy_back] being
    whether that works. *)
Definition create_finish (params : ksvc_sys.KsvcCreateParams) (copy_back : bool) (s : sys) (i : ksvc_instance)
    : Z * ksvc_instance * sys :=
  let finish s i :=
    if copy_back then (0, with_created i true, s) else err_free_eventfd (- errno.EFAULT) s i in
  if 0 <=? ksvc_sys.eventfd params then
    match eventfd_ctx_fdget (k s) (ksvc_sys.eventfd params) with
    | (Err e, k') => err_free_shared e (with_k s k') (with_ctx i None)
    | (Ok c, k') => finish (with_k s k') (with_ctx i (Some c))
    end
  else finish s i.

(** [ksvc_ioctl_create] after its first check; [params] is what [copy_from_user]
    gives. *)
Definition create_body (t : task_info) (params : option ksvc_sys.KsvcCreateParams) (copy_back : bool)
    (s : sys) (i : ksvc_instance) : Z * ksvc_instance * sys :=
  match params with
  | None => (- errno.EFAULT, i, s)
  | Some params =>
      if negb (valid_size (ksvc_sys.submit_ring_entries params)) then (- errno.EINVAL, i, s)
      else if negb (valid_size (ksvc_sys.complete_ring_entries params)) then (- errno.EINVAL, i, s)
      else
        let '(ret, r, s) := ksvc_ring_alloc s (submit i) (ksvc_sys.submit_ring_entries params)
                              (Layout.size_of 64 uapi.entry_fields) in
        let i := with_submit i r in
        if negb (ret =? 0) then (ret, i, s)
        else
          let '(ret, r, s) := ksvc_ring_alloc s (complete i) (ksvc_sys.complete_ring_entries params)
                                (Layout.size_of 32 uapi.completion_fields) in
          let i := with_complete i r in
          if negb (ret =? 0) then err_free_submit ret s i
          else
            let '(ret, i, s) := ksvc_shared_alloc s i in
            if negb (ret =? 0) then err_free_complete ret s i
            else create_finish params copy_back (ksvc_shared_populate t s i) i
  end.

Definition ksvc_ioctl_create (t : task_info) (params : option ksvc_sys.KsvcCreateParams) (copy_back : bool)
    (s : sys) (i : ksvc_instance) : Z * ksvc_instance * sys :=
  if created i then (- errno.EBUSY, i, s) else create_body t params copy_back s i.

(** The file operations.  The file's private data is its own allocation and the
    instance. *)
Definition ksvc_open (s : sys) : Z * option (Z * ksvc_instance) * sys :=
  match kzalloc (k s) with
  | (None, k') => (- errno.ENOMEM, None, with_k s k')
  | (Some fd, k') =>
      match ksvc_instance_create (with_k s k') with
      | (Err e, s) => (e, None, with_k s (kfree (k s) fd))
      | (Ok i, s) => (0, Some (fd, i), s)
      end
  end.

Definition ksvc_release (s : sys) (f : option (Z * ksvc_instance)) : sys :=
  match f with
  | Some (fd, i) => let s := ksvc_instance_destroy s i in with_k s (kfree (k s) fd)
  | None => s
  end.

(** [create] says whether [cmd] is [KSVC_IOC_CREATE]. *)
Definition ksvc_ioctl (create : bool) (t : task_info) params copy_back (s : sys) (f : option (Z * ksvc_instance))
    : Z * option (Z * ksvc_instance) * sys :=
  match f with
  | None => (- errno.EINVAL, None, s)
  | Some (fd, i) =>
      if create then
        let '(ret, i, s) := ksvc_ioctl_create t params copy_back s i in (ret, Some (fd, i), s)
      else (- errno.ENOTTY, f, s)
  end.
End Module.
Arguments sys : clear implicits.

(** *** Mappings: [insert addr page] is what [vm_insert_page] returns; the pages
    it accepted are listed. *)
Section Mmap.
Context (insert : Z → Z → Z).

Fixpoint insert_pages (addr : Z) (ps : list Z) : Z * list (Z * Z) :=
  match ps with
  | [] => (0, [])
  | p :: ps =>
      let ret := insert addr p in
      if negb (ret =? 0) then (ret, [])
      else let '(ret, l) := insert_pages (addr +[64] PAGE_SIZE) ps in (ret, (addr, p) :: l)
  end.

Definition ring_pages (r : ksvc_ring) : list Z :=
  match pages r with Some (_, ps) => take (nr_pages r) ps | None => [] end.

Definition ksvc_ring_mmap (r : ksvc_ring) (v : vma) : Z * vma * list (Z * Z) :=
  let size := vm_end v -[64] vm_start v in
  let expected := wrap 64 (Z.shiftl (Z.of_nat (nr_pages r)) PAGE_SHIFT) in
  if negb (size =? expected) then (- errno.EINVAL, v, [])
  else
    let v := mkVma (vm_start v) (vm_end v) (vm_pgoff v) (vm_write v) (vm_maywrite v) true true in
    let '(ret, l) := insert_pages (vm_start v) (ring_pages r) in (ret, v, l).

Definition ksvc_shared_mmap (i : ksvc_instance) (v : vma) : Z * vma * list (Z * Z) :=
  if negb (vm_end v -[64] vm_start v =? PAGE_SIZE) then (- errno.EINVAL, v, [])
  else
    let v := mkVma (vm_start v) (vm_end v) (vm_pgoff v) false false true true in
    let '(ret, l) := insert_pages (vm_start v) (option_list (shared_page i)) in (ret, v, l).

Definition ksvc_mmap (f : option (Z * ksvc_instance)) (v : vma) : Z * vma * list (Z * Z) :=
  match f with
  | None => (- errno.EINVAL, v, [])
  | Some (_, i) =>
      if negb (created i) then (- errno.EINVAL, v, [])
      else
        let offset := wrap 64 (Z.shiftl (vm_pgoff v) PAGE_SHIFT) in
        if offset =? ksvc_sys.KSVC_OFF_SUBMIT_RING then ksvc_ring_mmap (submit i) v
        else if offset =? ksvc_sys.KSVC_OFF_COMPLETE_RING then ksvc_ring_mmap (complete i) v
        else if offset =? ksvc_sys.KSVC_OFF_SHARED_PAGE then ksvc_shared_mmap i v
        else (- errno.EINVAL, v, [])
  end.
End Mmap.
End Kmod.

(** ** [ksvc_sys.rs] and [mmap_shared_page.rs]: the Rust side *)
Module SharedPageLayout.
Definition create_params_fields : list Layout.field :=
  [Layout.u32 "submit_ring_entries"; Layout.u32 "complete_ring_entries"; Layout.u32 "flags"; uapi.s32 "eventfd";
   Layout.Field "_reserved" (4 * 4) 4].
Definition fields : list Layout.field :=
  [Layout.u32 "magic"; Layout.u32 "version";
   uapi.s32 "pid"; uapi.s32 "tgid"; uapi.s32 "ppid"; uapi.s32 "pgid"; uapi.s32 "sid"; uapi.s32 "_pad_id";
   Layout.u32 "uid"; Layout.u32 "gid"; Layout.u32 "euid"; Layout.u32 "egid"; Layout.u32 "suid"; Layout.u32 "sgid";
   Layout.u32 "kthread_cpu"; Layout.u32 "worker_state"; Layout.u64 "entries_processed"; Layout.u64 "batches_processed"].
End SharedPageLayout.

Module MmapSharedPage.
Definition read_u32 (m : Mem.t) (ptr offset : Z) : Z := Mem.of_le (Mem.load m (ptr + offset) 4).
Definition read_i32 (m : Mem.t) (ptr offset : Z) : Z := as_i32 (read_u32 m ptr offset).
Definition read_u64 (m : Mem.t) (ptr offset : Z) : Z := Mem.of_le (Mem.load m (ptr + offset) 8).

Definition PID : Z := 8.
Definition TGID : Z := 12.
Definition PPID : Z := 16.
Definition PGID : Z := 20.
Definition SID : Z := 24.
Definition UID : Z := 32.
Definition GID : Z := 36.
Definition EUID : Z := 40.
Definition EGID : Z := 44.
Definition KTHREAD_CPU : Z := 56.
Definition WORKER_STATE : Z := 60.
Definition ENTRIES_PROCESSED : Z := 64.
Definition RLIMIT_NOFILE : Z := 0x108.
Definition CLOCK_MONOTONIC_NS : Z := 0x280.

(** The module [offsets]. *)
Definition offsets : list (string * Z) :=
  [("PID", PID); ("TGID", TGID); ("PPID", PPID); ("PGID", PGID); ("SID", SID); ("UID", UID); ("GID", GID);
   ("EUID", EUID); ("EGID", EGID); ("KTHREAD_CPU", KTHREAD_CPU); ("WORKER_STATE", WORKER_STATE); ("ENTRIES_PROCESSED", ENTRIES_PROCESSED); ("RLIMIT_NOFILE", RLIMIT_NOFILE); ("CLOCK_MONOTONIC_NS", CLOCK_MONOTONIC_NS)].

Definition pid m ptr := read_i32 m ptr PID.
Definition tgid m ptr := read_i32 m ptr TGID.
Definition ppid m ptr := read_i32 m ptr PPID.
Definition pgid m ptr := read_i32 m ptr PGID.
Definition sid m ptr := read_i32 m ptr SID.
Definition uid m ptr := read_u32 m ptr UID.
Definition gid m ptr := read_u32 m ptr GID.
Definition euid m ptr := read_u32 m ptr EUID.
Definition egid m ptr := read_u32 m ptr EGID.
Definition rlimit_nofile m ptr := read_u64 m ptr RLIMIT_NOFILE.
Definition clock_monotonic_ns m ptr := read_u64 m ptr CLOCK_MONOTONIC_NS.
Definition entries_processed m ptr := read_u64 m ptr ENTRIES_PROCESSED.
Definition kthread_cpu m ptr := read_u32 m ptr KTHREAD_CPU.
Definition worker_state m ptr := read_u32 m ptr WORKER_STATE.
End MmapSharedPage.

(** The trait [SharedPage], and its implementation over mapped memory. *)
Class SharedPage (P : Type) : Type := {
  sp_pid : P → Z; sp_tgid : P → Z; sp_ppid : P → Z; sp_pgid : P → Z; sp_sid : P → Z;
  sp_uid : P → Z; sp_gid : P → Z; sp_euid : P → Z; sp_egid : P → Z;
  sp_rlimit_nofile : P → Z; sp_clock_monotonic_ns : P → Z; sp_entries_processed : P → Z;
  sp_kthread_cpu : P → Z; sp_worker_state : P → Z
}.
(** The memory and the pointer to the page. *)
Record mapped_page : Type := mkMapped { in_mem : Mem.t; ptr : Z }.
#[export] Instance mmap_shared_page : SharedPage mapped_page := {
  sp_pid p := MmapSharedPage.pid (in_mem p) (ptr p); sp_tgid p := MmapSharedPage.tgid (in_mem p) (ptr p);
  sp_ppid p := MmapSharedPage.ppid (in_mem p) (ptr p); sp_pgid p := MmapSharedPage.pgid (in_mem p) (ptr p);
  sp_sid p := MmapSharedPage.sid (in_mem p) (ptr p);
  sp_uid p := MmapSharedPage.uid (in_mem p) (ptr p); sp_gid p := MmapSharedPage.gid (in_mem p) (ptr p);
  sp_euid p := MmapSharedPage.euid (in_mem p) (ptr p); sp_egid p := MmapSharedPage.egid (in_mem p) (ptr p);
  sp_rlimit_nofile p := MmapSharedPage.rlimit_nofile (in_mem p) (ptr p);
  sp_clock_monotonic_ns p := MmapSharedPage.clock_monotonic_ns (in_mem p) (ptr p);
  sp_entries_processed p := MmapSharedPage.entries_processed (in_mem p) (ptr p);
  sp_kthread_cpu p := MmapSharedPage.kthread_cpu (in_mem p) (ptr p);
  sp_worker_state p := MmapSharedPage.worker_state (in_mem p) (ptr p)
}.

(** ** Lemmas: bytes *)
Section MemFacts.
Implicit Types (m : Mem.t).

Lemma of_le_le n v : Mem.of_le (Mem.le n v) = v `mod` 256 ^ Z.of_nat n.
Proof.
  revert v. induction n as [|n IH]; intros v; simpl; [by rewrite Z.mod_1_r|].
  rewrite IH, Nat2Z.inj_succ, Z.pow_succ_r by lia. rewrite Z.rem_mul_r by lia. done.
Qed.

Lemma length_le n v : length (Mem.le n v) = n.
Proof. revert v. induction n as [|n IH]; intros v; simpl; [done|]. by rewrite IH. Qed.

Lemma byte_store m a bs b :
  Mem.byte (Mem.store m a bs) b =
  if decide (a ≤ b < a + Z.of_nat (length bs)) then nth (Z.to_nat (b - a)) bs 0 else Mem.byte m b.
Proof.
  revert a. induction bs as [|x bs IH]; intros a; simpl.
  { case_decide; [lia|done]. }
  unfold Mem.byte at 1. destruct (decide (b = a)) as [->|Hne].
  - rewrite lookup_insert_eq, Z.sub_diag. case_decide; [done|lia].
  - rewrite lookup_insert_ne by done. fold (Mem.byte (Mem.store m (a + 1) bs) b). rewrite IH.
    destruct (decide (a + 1 ≤ b < a + 1 + Z.of_nat (length bs))).
    + rewrite decide_True by lia. by replace (Z.to_nat (b - a)) with (S (Z.to_nat (b - (a + 1)))) by lia.
    + rewrite decide_False by lia. done.
Qed.

Lemma load_same m a bs : Mem.load (Mem.store m a bs) a (length bs) = bs.
Proof.
  apply list_eq. intros i. unfold Mem.load. rewrite list_lookup_fmap.
  destruct (decide (i < length bs)%nat) as [Hi|Hi].
  - rewrite lookup_seq_lt by done. simpl. rewrite byte_store, decide_True by lia.
    replace (Z.to_nat (a + Z.of_nat i - a)) with i by lia.
    destruct (lookup_lt_is_Some_2 bs i Hi) as [x Hx]. rewrite Hx. f_equal. by apply nth_lookup_Some.
  - rewrite lookup_seq_ge by lia. symmetry. apply lookup_ge_None. lia.
Qed.

Lemma load_other m a bs b n :
  b + Z.of_nat n ≤ a ∨ a + Z.of_nat (length bs) ≤ b → Mem.load (Mem.store m a bs) b n = Mem.load m b n.
Proof.
  intros Hd. apply list_fmap_ext. intros i j Hj. apply lookup_seq in Hj as [-> Hi].
  rewrite byte_store, decide_False by lia. done.
Qed.

(** A prefix of a load. *)
Lemma load_prefix m a n n' : (n ≤ n')%nat → Mem.load m a n = take n (Mem.load m a n').
Proof. intros Hn. unfold Mem.load. rewrite <- fmap_take, take_seq. by replace (n `min` n')%nat with n by lia. Qed.

Lemma load_suffix m a n n' :
  (n ≤ n')%nat → Mem.load m (a + Z.of_nat n) (n' - n) = drop n (Mem.load m a n').
Proof.
  intros Hn. apply list_eq. intros i. unfold Mem.load. rewrite lookup_drop, !list_lookup_fmap.
  destruct (decide (i < n' - n)%nat).
  - rewrite !lookup_seq_lt by lia. simpl. do 2 f_equal. lia.
  - rewrite !lookup_seq_ge by lia. done.
Qed.

Lemma load_clear m a len b n : a ≤ b → b + Z.of_nat n ≤ a + len → Mem.load (Mem.clear m a len) b n = replicate n 0.
Proof.
  intros H1 H2. apply list_eq. intros i. unfold Mem.load. rewrite list_lookup_fmap.
  destruct (decide (i < n)%nat) as [Hi|Hi].
  - rewrite lookup_seq_lt, lookup_replicate_2 by done. simpl. f_equal. unfold Mem.byte, Mem.clear.
    rewrite map_lookup_filter. destruct (m !! _); [|done]. simpl. rewrite option_guard_False; [done|]. simpl. lia.
  - rewrite lookup_seq_ge by lia. symmetry. apply lookup_ge_None. rewrite length_replicate. lia.
Qed.
End MemFacts.

(** ** Lemmas: lists of stores *)
Section Writes.
Import Kmod.
Abbreviation write := (Z * nat * list Z)%type.
Implicit Types (m : Mem.t) (w : write) (ws : list write).

Definition apart (x y : Z * nat) : bool := (x.1 + Z.of_nat x.2 <=? y.1) || (y.1 + Z.of_nat y.2 <=? x.1).
Fixpoint all_apart (l : list (Z * nat)) : bool :=
  match l with [] => true | x :: l => forallb (apart x) l && all_apart l end.
Definition fits w : Prop := (length w.2 ≤ w.1.2)%nat.

Lemma load_writes_other m base ws off n :
  Forall fits ws → forallb (apart (off, n)) (fst <$> ws) = true →
  Mem.load (apply_writes m base ws) (base + off) n = Mem.load m (base + off) n.
Proof.
  revert m. induction ws as [|w ws IH]; intros m Hf Ha; [done|]. simpl in *.
  apply Forall_cons in Hf as [Hw Hf]. apply andb_prop in Ha as [Ha1 Ha2]. rewrite IH by done.
  apply load_other. unfold apart in Ha1. simpl in Ha1. unfold fits in Hw.
  apply orb_prop in Ha1 as [Ha1%Z.leb_le|Ha1%Z.leb_le]; lia.
Qed.

Lemma load_writes m base ws w :
  all_apart (fst <$> ws) = true → Forall fits ws → w ∈ ws →
  Mem.load (apply_writes m base ws) (base + w.1.1) (length w.2) = w.2.
Proof.
  revert m. induction ws as [|w' ws IH]; intros m Ha Hf Hw; [by apply not_elem_of_nil in Hw|]. simpl in *.
  apply Forall_cons in Hf as [Hw' Hf]. apply andb_prop in Ha as [Ha1 Ha2].
  apply elem_of_cons in Hw as [->|Hw]; [|by apply IH].
  rewrite load_writes_other; [apply load_same|done|].
  apply forallb_forall. intros x Hx. pose proof (proj1 (forallb_forall _ _) Ha1 x Hx) as Hax. unfold fits in Hw'.
  unfold apart in *. simpl in *. apply orb_true_iff. apply orb_true_iff in Hax as [Hax%Z.leb_le|Hax%Z.leb_le];
    [left|right]; apply Z.leb_le; lia.
Qed.

(** The members that [ksvc_shared_populate] writes do not overlap. *)
Lemma shared_writes_apart t : all_apart (fst <$> shared_writes t) = true ∧ Forall fits (shared_writes t).
Proof.
  unfold shared_writes. destruct (utsname t) as [[[r n] ma]|]; split; try (vm_compute; reflexivity).
  all: repeat (apply Forall_cons; split); try apply Forall_nil; try done;
    unfold fits, member, strscpy; cbn [fst snd]; rewrite ?length_le, ?length_app, ?length_take; cbn [length]; lia.
Qed.

Lemma shared_member m base t n size v :
  member n size v ∈ shared_writes t →
  Mem.of_le (Mem.load (apply_writes m base (shared_writes t)) (base + uapi.offsetof uapi.shared_page_fields n) size) =
  v `mod` 256 ^ Z.of_nat size.
Proof.
  intros Hin. destruct (shared_writes_apart t) as [Ha Hf].
  pose proof (load_writes m base _ _ Ha Hf Hin) as Hl. unfold member in Hl. cbn [fst snd] in Hl. rewrite length_le in Hl. rewrite Hl. apply of_le_le.
Qed.
End Writes.

(** ** Theorems: layouts and the shared page *)


Section SharedPageTheorems.
Context {K : Type} `{!Kernel K}.
Import Kmod.

Record task_ok (t : task_info) : Prop := {
  tok_ids : Forall (λ x, - 2 ^ 31 ≤ x < 2 ^ 31) [pid t; tgid t; ppid t; pgid t; sid t];
  tok_cred : Forall (in_u 32) [uid t; gid t; euid t; egid t];
  tok_words : Forall (in_u 64) [rlimit_nofile t; monotonic_ns t]
}.

(** The members of a populated page. *)
Lemma populated_page (t : task_info) (s : sys K) (i : ksvc_instance) sp :
  task_ok t → shared_kaddr i = Some sp →
  let m := mkMapped (mem (ksvc_shared_populate t s i)) sp in
  (MmapSharedPage.read_u32 (in_mem m) sp (uapi.offsetof uapi.shared_page_fields "magic") = ksvc_sys.KSVC_SHARED_MAGIC ∧
   MmapSharedPage.read_u32 (in_mem m) sp (uapi.offsetof uapi.shared_page_fields "version") = ksvc_sys.KSVC_VERSION) ∧
  sp_pid m = pid t ∧ sp_tgid m = tgid t ∧ sp_ppid m = ppid t ∧ sp_pgid m = pgid t ∧ sp_sid m = sid t ∧
  sp_uid m = uid t ∧ sp_gid m = gid t ∧ sp_euid m = euid t ∧ sp_egid m = egid t ∧
  sp_rlimit_nofile m = rlimit_nofile t ∧ sp_clock_monotonic_ns m = monotonic_ns t.
Proof.
  intros [Hids Hcred Hw] Hsp m. subst m. unfold ksvc_shared_populate. rewrite Hsp.
  pose proof (shared_member (mem s) sp t) as Hm. rewrite !Forall_cons in Hids; rewrite !Forall_cons in Hcred; rewrite !Forall_cons in Hw.
  assert (∀ n v off, member n 4 v ∈ shared_writes t → uapi.offsetof uapi.shared_page_fields n = off →
    - 2 ^ 31 ≤ v < 2 ^ 31 → MmapSharedPage.read_i32 (apply_writes (mem s) sp (shared_writes t)) sp off = v) as Hi.
  { intros n v off Hin <- Hv. unfold MmapSharedPage.read_i32, MmapSharedPage.read_u32. rewrite (Hm n 4%nat v Hin).
    by apply (as_i32_wrap 32). }
  assert (∀ n v off, member n 4 v ∈ shared_writes t → uapi.offsetof uapi.shared_page_fields n = off →
    in_u 32 v → MmapSharedPage.read_u32 (apply_writes (mem s) sp (shared_writes t)) sp off = v) as Hu.
  { intros n v off Hin <- Hv. unfold MmapSharedPage.read_u32. rewrite (Hm n 4%nat v Hin). by apply (wrap_small 32). }
  assert (∀ n v off, member n 8 v ∈ shared_writes t → uapi.offsetof uapi.shared_page_fields n = off →
    in_u 64 v → MmapSharedPage.read_u64 (apply_writes (mem s) sp (shared_writes t)) sp off = v) as Hq.
  { intros n v off Hin <- Hv. unfold MmapSharedPage.read_u64. rewrite (Hm n 8%nat v Hin). by apply (wrap_small 64). }
  assert (∀ j w, shared_writes t !! j = Some w → w ∈ shared_writes t) as Hat by (intros j w; apply list_elem_of_lookup_2).
  assert (member "rlimit_nofile" 8 (rlimit_nofile t) ∈ shared_writes t ∧
          member "clock_monotonic_ns" 8 (monotonic_ns t) ∈ shared_writes t) as [Hr Hc].
  { destruct (utsname t) as [[[r n] ma]|] eqn:E; unfold shared_writes in Hat |- *; rewrite E in *;
      [split; [apply (Hat 16%nat)|apply (Hat 19%nat)]|split; [apply (Hat 13%nat)|apply (Hat 16%nat)]]; exact eq_refl. }
    destruct Hids as (? & ? & ? & ? & ? & _), Hcred as (? & ? & ? & ? & _), Hw as (? & ? & _).
  split_and!.
  - apply (Hu "magic"); [apply (Hat 0%nat); exact eq_refl|reflexivity|by vm_compute].
  - apply (Hu "version"); [apply (Hat 1%nat); exact eq_refl|reflexivity|by vm_compute].
  - apply (Hi "pid"); [apply (Hat 2%nat); exact eq_refl|reflexivity|assumption].
  - apply (Hi "tgid"); [apply (Hat 3%nat); exact eq_refl|reflexivity|assumption].
  - apply (Hi "ppid"); [apply (Hat 4%nat); exact eq_refl|reflexivity|assumption].
  - apply (Hi "pgid"); [apply (Hat 5%nat); exact eq_refl|reflexivity|assumption].
  - apply (Hi "sid"); [apply (Hat 6%nat); exact eq_refl|reflexivity|assumption].
  - apply (Hu "uid"); [apply (Hat 7%nat); exact eq_refl|reflexivity|assumption].
  - apply (Hu "gid"); [apply (Hat 8%nat); exact eq_refl|reflexivity|assumption].
  - apply (Hu "euid"); [apply (Hat 9%nat); exact eq_refl|reflexivity|assumption].
  - apply (Hu "egid"); [apply (Hat 10%nat); exact eq_refl|reflexivity|assumption].
  - apply (Hq "rlimit_nofile"); [exact Hr|reflexivity|assumption].
  - apply (Hq "clock_monotonic_ns"); [exact Hc|reflexivity|assumption].
Qed.

(** C16: What the kernel writes on the shared page is what user space reads.
    After [ksvc_shared_populate], the getters of [MmapSharedPage] return the
    identity and credentials of the creating process (negative ids too), its
    descriptor limit and the clock. *)
Theorem shared_page_roundtrip (t : task_info) (s : sys K) (i : ksvc_instance) sp :
  task_ok t → shared_kaddr i = Some sp →
  let m := mkMapped (mem (ksvc_shared_populate t s i)) sp in
  sp_pid m = pid t ∧ sp_tgid m = tgid t ∧ sp_ppid m = ppid t ∧ sp_pgid m = pgid t ∧ sp_sid m = sid t ∧
  sp_uid m = uid t ∧ sp_gid m = gid t ∧ sp_euid m = euid t ∧ sp_egid m = egid t ∧
  sp_rlimit_nofile m = rlimit_nofile t ∧ sp_clock_monotonic_ns m = monotonic_ns t.
Proof.
  intros Ht Hsp. apply populated_page; assumption.
Qed.

(** The run-time counters of the C struct, as a kernel thread would store them. *)
Definition counter_writes (cpu state n : Z) : list (Z * nat * list Z) :=
  [member "kthread_cpu" 4 cpu; member "worker_state" 4 state; member "entries_processed" 8 n].

(** User space misreads the run-time counters.  Whatever is stored in the
    counters of the shared page, [kthread_cpu] and [worker_state] read the padding
    of the credentials, which is 0, and [entries_processed] reads the first eight
    characters of the kernel release. *)
Theorem shared_page_counters_misread (t : task_info) (s : sys K) (i : ksvc_instance) sp release nodename machine cpu state n :
  shared_kaddr i = Some sp → utsname t = Some (release, nodename, machine) → (8 ≤ length release)%nat →
  Mem.load (mem s) (sp + 0x38) 8 = replicate 8 0 →
  let m := mkMapped (apply_writes (mem (ksvc_shared_populate t s i)) sp (counter_writes cpu state n)) sp in
  sp_kthread_cpu m = 0 ∧ sp_worker_state m = 0 ∧ sp_entries_processed m = Mem.of_le (take 8 release).
Proof.
  intros Hsp Huts Hlen Hpad m. subst m. unfold ksvc_shared_populate. rewrite Hsp.
  destruct (shared_writes_apart t) as [Ha Hf].
  assert (Forall fits (counter_writes cpu state n)) as Hfc
    by (repeat (apply Forall_cons; split); try apply Forall_nil; unfold fits, member; cbn [fst snd]; rewrite ?length_le; simpl; lia).
  cbn [sp_kthread_cpu sp_worker_state sp_entries_processed mmap_shared_page in_mem ptr].
  unfold MmapSharedPage.kthread_cpu, MmapSharedPage.worker_state, MmapSharedPage.entries_processed,
    MmapSharedPage.read_u32, MmapSharedPage.read_u64, MmapSharedPage.KTHREAD_CPU, MmapSharedPage.WORKER_STATE,
    MmapSharedPage.ENTRIES_PROCESSED.
  cbn [mem with_mem]. rewrite !(load_writes_other _ sp (counter_writes cpu state n)) by (done || (vm_compute; reflexivity)).
  assert (Mem.load (apply_writes (mem s) sp (shared_writes t)) (sp + 56) 8 = replicate 8 0) as Hp.
  { rewrite load_writes_other by (try exact Hf; unfold shared_writes; rewrite Huts; vm_compute; reflexivity). exact Hpad. }
  split_and!.
  - rewrite (load_prefix _ _ 4 8), Hp by lia. done.
  - change (sp + 60) with (sp + (56 + 4)). rewrite Z.add_assoc.
    rewrite (load_suffix _ _ 4 8), Hp by lia. done.
  - assert (strscpy "utsname_release" release ∈ shared_writes t) as Hin.
    { apply (list_elem_of_lookup_2 _ 13%nat). unfold shared_writes. rewrite Huts. exact eq_refl. }
    pose proof (load_writes (mem s) sp _ _ Ha Hf Hin) as Hl. unfold strscpy in Hl. cbn [fst snd] in Hl.
    change (uapi.offsetof uapi.shared_page_fields "utsname_release") with 64 in Hl.
    rewrite (load_prefix _ _ 8 (length (take 64 release ++ [0]))), Hl by (rewrite length_app, length_take; cbn [length]; lia).
    f_equal. rewrite take_app_le by (rewrite length_take; lia). rewrite take_take. done.
Qed.
End SharedPageTheorems.

(** ** Lemmas: what is held *)
Section Held.
Context {K : Type} `{!Kernel K}.
Import Kmod.
Implicit Types (s : sys K) (r : ksvc_ring) (i : ksvc_instance) (F : list resource).

Definition ring_res r : list resource :=
  match pages r with None => [] | Some (o, ps) => Obj o :: (Page <$> ps) end.
Definition ring_wf r : Prop := ∀ o ps, pages r = Some (o, ps) → nr_pages r = length ps.

Lemma alloc_zeroed_held s x s' :
  alloc_zeroed s = (x, s') → held (k s') ≡ₚ option_list (Page <$> x) ++ held (k s).
Proof.
  unfold alloc_zeroed. destruct (alloc_page (k s)) as [[p|] k'] eqn:E; intros [= <- <-];
    apply alloc_page_held in E; simpl; [apply E|done].
Qed.

Lemma free_one_held s p F : held (k s) ≡ₚ Page p :: F → held (k (free_one s p)) ≡ₚ F.
Proof.
  intros H. assert (Page p ∈ held (k s)) as Hin by (rewrite H; set_solver).
  apply free_page_held in Hin. rewrite H in Hin. by apply Permutation_cons_inv in Hin.
Qed.

Lemma kfree_frame (x : K) o F : held x ≡ₚ Obj o :: F → held (kfree x o) ≡ₚ F.
Proof.
  intros H. assert (Obj o ∈ held x) as Hin by (rewrite H; set_solver).
  apply kfree_held in Hin. rewrite H in Hin. by apply Permutation_cons_inv in Hin.
Qed.

Lemma put_frame (x : K) c F : held x ≡ₚ Ctx c :: F → held (eventfd_ctx_put x c) ≡ₚ F.
Proof.
  intros H. assert (Ctx c ∈ held x) as Hin by (rewrite H; set_solver).
  apply put_held in Hin. rewrite H in Hin. by apply Permutation_cons_inv in Hin.
Qed.

Lemma free_pages_held ps s F : held (k s) ≡ₚ (Page <$> ps) ++ F → held (k (fold_left free_one ps s)) ≡ₚ F.
Proof. revert s. induction ps as [|p ps IH]; intros s H; [done|]. simpl. by apply IH, free_one_held. Qed.

Lemma alloc_pages_held n s acc ok ps s' :
  alloc_pages n s acc = (ok, ps, s') →
  ∃ new, ps = acc ++ new ∧ held (k s') ≡ₚ (Page <$> new) ++ held (k s) ∧ (ok = true → length new = n).
Proof.
  revert s acc. induction n as [|n IH]; intros s acc; simpl.
  { intros [= <- <- <-]. exists []. by rewrite app_nil_r. }
  destruct (alloc_zeroed s) as [[p|] s1] eqn:E; apply alloc_zeroed_held in E; simpl in E.
  - intros (new & -> & Hh & Hl)%IH. exists (p :: new). rewrite <- (assoc_L (++)). split; [done|]. split.
    + rewrite Hh, E. simpl. by rewrite Permutation_middle.
    + intros Hok. simpl. by rewrite Hl.
  - intros [= <- <- <-]. exists []. rewrite app_nil_r. by rewrite E.
Qed.

Lemma err_free_pages_held s arr ps F :
  held (k s) ≡ₚ Obj arr :: (Page <$> ps) ++ F → held (k (err_free_pages s arr ps)) ≡ₚ F.
Proof.
  intros H. unfold err_free_pages. apply kfree_frame. apply free_pages_held.
  rewrite H, fmap_reverse, reverse_Permutation. by rewrite Permutation_middle.
Qed.

Lemma ring_alloc_held s r n e ret r' s' :
  ksvc_ring_alloc s r n e = (ret, r', s') →
  held (k s') ≡ₚ ring_res r' ++ held (k s) ∧ ring_wf r' ∧
  (ret = 0 ∧ is_Some (pages r') ∨ ret = - errno.ENOMEM ∧ pages r' = None).
Proof.
  unfold ksvc_ring_alloc. destruct (kzalloc (k s)) as [[arr|] k'] eqn:E; apply kzalloc_held in E.
  2: { intros [= <- <- <-]. split; [done|]. split; [done|by right]. }
  destruct (alloc_pages _ _ _) as [[ok ps] s1] eqn:Ea. apply alloc_pages_held in Ea as (new & -> & Hh & Hl).
  simpl in Hh. rewrite E in Hh.
  assert (held (k (err_free_pages s1 arr new)) ≡ₚ held (k s)) as Herr
    by (apply err_free_pages_held; rewrite Hh; by rewrite Permutation_middle).
  destruct ok; simpl.
  - destruct (_ ← new !! 0%nat; page_address _) as [a|]; intros [= <- <- <-]; simpl.
    + split; [by rewrite Hh, <- Permutation_middle|]. split; [|by left; eauto].
      intros ? ? [= <- <-]. simpl. by rewrite Hl.
    + split; [done|]. split; [done|by right].
  - intros [= <- <- <-]. split; [done|]. split; [done|by right].
Qed.

Lemma ring_free_held s r r' s' F :
  ksvc_ring_free s r = (r', s') → ring_wf r → held (k s) ≡ₚ ring_res r ++ F →
  held (k s') ≡ₚ F.
Proof.
  unfold ksvc_ring_free, ring_res. destruct (pages r) as [[arr ps]|] eqn:E; intros [= <- <-] Hwf H; [|done].
  apply kfree_frame, free_pages_held. rewrite (Hwf _ _ E), take_ge by lia.
  rewrite H. simpl. by rewrite Permutation_middle.
Qed.

Lemma ring_free_none s r : pages (ksvc_ring_free s r).1 = None.
Proof. unfold ksvc_ring_free. by destruct (pages r) as [[arr ps]|] eqn:E. Qed.

Definition inst_res i : list resource :=
  Obj (obj i) :: ring_res (submit i) ++ ring_res (complete i) ++
  option_list (Page <$> shared_page i) ++ option_list (Ctx <$> eventfd_ctx i).

(** An instance that CREATE has not completed holds nothing but itself. *)
Record inst_wf i : Prop := {
  iwf_submit : ring_wf (submit i);
  iwf_complete : ring_wf (complete i);
  iwf_idle : created i = false →
    pages (submit i) = None ∧ pages (complete i) = None ∧ shared_page i = None ∧ eventfd_ctx i = None
}.

Definition idle i : Prop := inst_wf i ∧ created i = false.

Lemma idle_res i : idle i → inst_res i = [Obj (obj i)].
Proof. intros [[_ _ Hi] Hc]. destruct (Hi Hc) as (H1 & H2 & H3 & H4). unfold inst_res, ring_res. by rewrite H1, H2, H3, H4. Qed.

Lemma ring_wf_none r : pages r = None → ring_wf r.
Proof. intros H o ps. by rewrite H. Qed.

Lemma ring_res_none r : pages r = None → ring_res r = [].
Proof. unfold ring_res. by intros ->. Qed.

(** The error labels give everything back. *)
Definition gives_back (label : Z → sys K → ksvc_instance → Z * ksvc_instance * sys K) ret s i F : Prop :=
  held (k s) ≡ₚ inst_res i ++ F → created i = false → ring_wf (submit i) → ring_wf (complete i) →
  ∃ i' s', label ret s i = (ret, i', s') ∧ idle i' ∧ obj i' = obj i ∧ held (k s') ≡ₚ Obj (obj i) :: F.

Lemma err_free_submit_held ret s i F :
  pages (complete i) = None → shared_page i = None → eventfd_ctx i = None → gives_back err_free_submit ret s i F.
Proof.
  intros Hc Hp He H Hcr Hw _. unfold err_free_submit. pose proof (ring_free_none s (submit i)) as Hr.
  destruct (ksvc_ring_free s (submit i)) as [r s'] eqn:E. simpl in Hr.
  apply (ring_free_held _ _ _ _ (Obj (obj i) :: F)) in E; [|done|].
  2: { rewrite H. unfold inst_res. rewrite (ring_res_none _ Hc), Hp, He. simpl. rewrite !app_nil_r. by rewrite Permutation_middle. }
  eexists _, _. split; [done|]. split; [|done]. split; [|done]. split; simpl; [by apply ring_wf_none..|done].
Qed.

Lemma err_free_complete_held ret s i F :
  shared_page i = None → eventfd_ctx i = None → gives_back err_free_complete ret s i F.
Proof.
  intros Hp He H Hcr Hw Hc. unfold err_free_complete. pose proof (ring_free_none s (complete i)) as Hr.
  destruct (ksvc_ring_free s (complete i)) as [r s'] eqn:E. simpl in Hr.
  apply (err_free_submit_held ret s' (with_complete i r) F); try done; [|by apply ring_wf_none].
  apply (ring_free_held _ _ _ _ _ E Hc). rewrite H. unfold inst_res. simpl. rewrite (ring_res_none _ Hr). simpl. perm_solver.
Qed.

Lemma err_free_shared_held ret s i F : eventfd_ctx i = None → gives_back err_free_shared ret s i F.
Proof.
  intros He H Hcr Hw Hc. unfold err_free_shared, ksvc_shared_free. destruct (shared_page i) as [p|] eqn:Ep.
  - apply (err_free_complete_held ret (free_one s p) (with_shared i None None) F); try done.
    apply free_one_held. rewrite H. unfold inst_res. simpl. rewrite Ep. simpl. perm_solver.
  - by apply err_free_complete_held.
Qed.

Lemma err_free_eventfd_held ret s i F : gives_back err_free_eventfd ret s i F.
Proof.
  intros H Hcr Hw Hc. unfold err_free_eventfd. destruct (eventfd_ctx i) as [c|] eqn:Ec; [|by apply err_free_shared_held].
  apply (err_free_shared_held ret (with_k s (eventfd_ctx_put (k s) c)) (with_ctx i None) F); try done.
  apply put_frame. rewrite H. unfold inst_res. simpl. rewrite Ec. simpl. perm_solver.
Qed.

(** What CREATE leaves behind: a complete instance, or nothing new. *)
Definition create_result (res : Z * ksvc_instance * sys K) (o : Z) F : Prop :=
  let '(ret, i, s) := res in
  obj i = o ∧ inst_wf i ∧ held (k s) ≡ₚ inst_res i ++ F ∧
  (ret = 0 ∧ created i = true ∨ ret < 0 ∧ created i = false).

Lemma gives_back_result label ret s i F :
  gives_back label ret s i F → ret < 0 → held (k s) ≡ₚ inst_res i ++ F → created i = false →
  ring_wf (submit i) → ring_wf (complete i) → create_result (label ret s i) (obj i) F.
Proof.
  intros Hl Hret H Hc Hs Hco. destruct (Hl H Hc Hs Hco) as (i' & s' & -> & Hi & Ho & Hh). split_and!; [done|apply Hi| |].
  - by rewrite (idle_res _ Hi), Ho.
  - right. split; [done|apply Hi].
Qed.

Lemma create_finish_held params cb s i F :
  held (k s) ≡ₚ inst_res i ++ F → created i = false → ring_wf (submit i) → ring_wf (complete i) →
  eventfd_ctx i = None → create_result (create_finish params cb s i) (obj i) F.
Proof.
  intros H Hc Hs Hco He. unfold create_finish.
  assert (∀ s i, held (k s) ≡ₚ inst_res i ++ F → created i = false → ring_wf (submit i) → ring_wf (complete i) →
    create_result (if cb then (0, with_created i true, s) else err_free_eventfd (- errno.EFAULT) s i) (obj i) F) as Hfin.
  { clear. intros s i H Hc Hs Hco. destruct cb; [|by apply gives_back_result; [apply err_free_eventfd_held|..]].
    split_and!; [done| |done|by left]. by split. }
  destruct (0 <=? _); [|by apply Hfin].
  destruct (eventfd_ctx_fdget (k s) _) as [[c|e] k'] eqn:E; apply fdget_held in E.
  - apply (Hfin (with_k s k') (with_ctx i (Some c))); try done.
    simpl. rewrite E, H. unfold inst_res. simpl. rewrite He. simpl. perm_solver.
  - destruct E as [E Hneg]. apply (gives_back_result _ e (with_k s k') (with_ctx i None)); try done.
    + by apply err_free_shared_held.
    + simpl. rewrite E, H. unfold inst_res. simpl. by rewrite He.
Qed.

Lemma create_held t params cb s i F :
  held (k s) ≡ₚ inst_res i ++ F → inst_wf i →
  let '(ret, i', s') := ksvc_ioctl_create t params cb s i in
  obj i' = obj i ∧ inst_wf i' ∧ held (k s') ≡ₚ inst_res i' ++ F ∧
  (ret = 0 → created i' = true) ∧ (ret ≠ 0 → ret < 0 ∧ created i' = created i).
Proof.
  intros H Hwf. unfold ksvc_ioctl_create. destruct (created i) eqn:Hc; [done|].
  assert (create_result (create_body t params cb s i) (obj i) F) as Hr.
  2: { destruct (create_body _ _ _ _ _) as [[ret i'] s']. destruct Hr as (? & ? & ? & Hr). split_and!; try done.
       all: destruct Hr as [[-> ?]|[? ?]]; try done; lia. }
  destruct Hwf as [Hs Hco Hi]. destruct (Hi Hc) as (Hps & Hpc & Hsp & He).
  assert (∀ ret, ret < 0 → create_result (ret, i, s) (obj i) F) as Hsame
    by (intros ret Hret; split_and!; [done|done|done|by right]).
  destruct params as [params|]; [|by apply Hsame]. unfold create_body.
  destruct (negb _); [by apply Hsame|]. destruct (negb _); [by apply Hsame|].
  destruct (ksvc_ring_alloc s _ _ _) as [[ret r] s1] eqn:E1. apply ring_alloc_held in E1 as (Hh1 & Hw1 & Hr1).
  assert (held (k s1) ≡ₚ inst_res (with_submit i r) ++ F) as H1.
  { rewrite Hh1, H. unfold inst_res. simpl. rewrite (ring_res_none (submit i)) by done. simpl. perm_solver. }
  destruct Hr1 as [[-> Hr1]|[-> Hr1]]; cbn [negb Z.eqb].
  2: { split_and!; [done| |done|by right]. split; simpl; try done. }
  destruct (ksvc_ring_alloc s1 _ _ _) as [[ret r2] s2] eqn:E2. apply ring_alloc_held in E2 as (Hh2 & Hw2 & Hr2).
  set (i2 := with_complete (with_submit i r) r2) in *.
  assert (held (k s2) ≡ₚ inst_res i2 ++ F) as H2.
  { rewrite Hh2, H1. unfold inst_res. simpl. rewrite (ring_res_none (complete i)) by done. simpl. perm_solver. }
  destruct Hr2 as [[-> Hr2]|[-> Hr2]]; cbn [negb Z.eqb].
  2: { by apply (gives_back_result _ _ s2 i2 F); [apply err_free_submit_held|..]. }
  unfold ksvc_shared_alloc. destruct (alloc_zeroed s2) as [[p|] s3] eqn:E3; apply alloc_zeroed_held in E3; simpl in E3.
  2: { apply (gives_back_result _ _ s3 (with_shared i2 None (shared_kaddr i2)) F); try done; [by apply err_free_complete_held|].
       rewrite E3, H2. unfold inst_res. simpl. by rewrite Hsp. }
  destruct (page_address p) as [a|]; cbn [negb Z.eqb].
  - set (i3 := with_shared i2 (Some p) (Some a)).
    assert (held (k s3) ≡ₚ inst_res i3 ++ F) as H3.
    { rewrite E3, H2. unfold inst_res. simpl. rewrite Hsp. simpl. perm_solver. }
    by apply (create_finish_held params cb (ksvc_shared_populate t s3 i3) i3 F).
  - apply (gives_back_result _ _ (free_one s3 p) (with_shared i2 None None) F); try done; [by apply err_free_complete_held|].
    apply free_one_held. rewrite E3, H2. unfold inst_res. simpl. by rewrite Hsp.
Qed.

Lemma destroy_held s i F :
  inst_wf i → held (k s) ≡ₚ inst_res i ++ F → held (k (ksvc_instance_destroy s i)) ≡ₚ F.
Proof.
  intros [Hs Hco _] H. unfold ksvc_instance_destroy. unfold inst_res in H.
  set (s0 := match eventfd_ctx i with Some c => _ | None => _ end).
  assert (held (k s0) ≡ₚ Obj (obj i) :: ring_res (submit i) ++ ring_res (complete i) ++ option_list (Page <$> shared_page i) ++ F) as H0.
  { subst s0. destruct (eventfd_ctx i) as [c|]; simpl in *.
    - apply put_frame. rewrite H. perm_solver.
    - rewrite H. perm_solver. }
  destruct (ksvc_ring_free s0 (submit i)) as [r1 s1] eqn:E1.
  apply (ring_free_held _ _ _ _ (Obj (obj i) :: ring_res (complete i) ++ option_list (Page <$> shared_page i) ++ F)) in E1;
    [|done|rewrite H0; perm_solver].
  destruct (ksvc_ring_free s1 (complete i)) as [r2 s2] eqn:E2.
  apply (ring_free_held _ _ _ _ (Obj (obj i) :: option_list (Page <$> shared_page i) ++ F)) in E2; [|done|rewrite E1; perm_solver].
  unfold ksvc_shared_free. destruct (shared_page i) as [p|]; simpl in *; apply kfree_frame; [|done].
  apply free_one_held. rewrite E2. perm_solver.
Qed.

(** A request to an open file. *)
Record request : Type := Request {
  is_create : bool; rq_task : task_info; rq_params : option ksvc_sys.KsvcCreateParams; rq_copy_back : bool
}.
Definition serve (x : option (Z * ksvc_instance) * sys K) (q : request) : option (Z * ksvc_instance) * sys K :=
  let '(_, f, s) := ksvc_ioctl (is_create q) (rq_task q) (rq_params q) (rq_copy_back q) x.2 x.1 in (f, s).

Definition file_res (f : option (Z * ksvc_instance)) : list resource :=
  match f with Some (fd, i) => Obj fd :: inst_res i | None => [] end.
Definition file_wf (f : option (Z * ksvc_instance)) : Prop := match f with Some (_, i) => inst_wf i | None => True end.

Lemma serve_held x q F :
  file_wf x.1 → held (k x.2) ≡ₚ file_res x.1 ++ F →
  file_wf (serve x q).1 ∧ held (k (serve x q).2) ≡ₚ file_res (serve x q).1 ++ F.
Proof.
  destruct x as [[[fd i]|] s]; [|done]. unfold serve, ksvc_ioctl. cbn [fst snd file_wf file_res app].
  intros Hwf H. destruct (is_create q); [|done].
  pose proof (create_held (rq_task q) (rq_params q) (rq_copy_back q) s i (Obj fd :: F)) as Hc.
  destruct (ksvc_ioctl_create _ _ _ _ _) as [[ret i'] s'].
  destruct Hc as (Ho & Hwf' & Hh & _); [rewrite H; perm_solver|done|].
  cbn [fst snd file_wf file_res app]. split; [done|]. rewrite Hh. perm_solver.
Qed.

Lemma serve_all_held qs x F :
  file_wf x.1 → held (k x.2) ≡ₚ file_res x.1 ++ F →
  file_wf (fold_left serve qs x).1 ∧ held (k (fold_left serve qs x).2) ≡ₚ file_res (fold_left serve qs x).1 ++ F.
Proof.
  revert x. induction qs as [|q qs IH]; intros x Hwf H; [done|]. simpl. destruct (serve_held x q F Hwf H). by apply IH.
Qed.

Lemma release_held s f F : file_wf f → held (k s) ≡ₚ file_res f ++ F → held (k (ksvc_release s f)) ≡ₚ F.
Proof.
  destruct f as [[fd i]|]; [|done]. cbn [file_wf file_res app]. intros Hwf H. apply kfree_frame. apply destroy_held; [done|].
  rewrite H. perm_solver.
Qed.

Lemma open_held s :
  let '(ret, f, s') := ksvc_open s in
  file_wf f ∧ held (k s') ≡ₚ file_res f ++ held (k s) ∧ (ret = 0 ∧ is_Some f ∨ ret < 0 ∧ f = None).
Proof.
  unfold ksvc_open. destruct (kzalloc (k s)) as [[fd|] k1] eqn:E1; apply kzalloc_held in E1; [|by split_and!; [| |right]].
  unfold ksvc_instance_create. simpl. destruct (kzalloc k1) as [[o|] k2] eqn:E2; apply kzalloc_held in E2; simpl.
  - split_and!; [|rewrite E2, E1; perm_solver|left; eauto]. split; [by intros ? ?..|done].
  - split_and!; [done| |by right]. apply kfree_frame. by rewrite E2, E1.
Qed.
End Held.

Section DeviceTheorems.
Context {K : Type} `{!Kernel K}.
Import Kmod.


(** CREATE is all or nothing.  Of an instance that is well formed it makes a
    well-formed one: it returns 0 and everything is allocated, or it returns an
    error and the instance, with what is held, is as it was; and a second CREATE
    is refused. *)
Theorem create_all_or_nothing (s : sys K) i t params cb F :
  inst_wf i → held (k s) ≡ₚ inst_res i ++ F →
  let '(ret, i', s') := ksvc_ioctl_create t params cb s i in
  inst_wf i' ∧ held (k s') ≡ₚ inst_res i' ++ F ∧
  (created i = true → ret = - errno.EBUSY ∧ i' = i ∧ s' = s) ∧
  (ret ≠ 0 → ret < 0 ∧ inst_res i' = inst_res i) ∧
  (ret = 0 → created i' = true).
Proof.
  intros Hwf H. pose proof (create_held t params cb s i F H Hwf) as Hc.
  destruct (ksvc_ioctl_create t params cb s i) as [[ret i'] s'] eqn:E. destruct Hc as (Ho & Hwf' & Hh & H0 & He).
  split_and!; try done.
  - unfold ksvc_ioctl_create in E. intros Hcr. rewrite Hcr in E. by injection E as <- <- <-.
  - intros Hne. destruct (He Hne) as [Hneg Hcr]. split; [done|].
    unfold ksvc_ioctl_create in E. destruct (created i) eqn:Hci; [by injection E as <- <- <-|].
    by rewrite (idle_res i), (idle_res i'), Ho.
Qed.
End DeviceTheorems.

(** ** Lemmas: pages that stay as they are *)
Section Intact.
Context {K : Type} `{!Kernel K}.
Import Kmod.
Implicit Types (s : sys K) (p : Z).

Definition intact s s' p : Prop :=
  ∀ a off n, page_address p = Some a → 0 ≤ off → off + Z.of_nat n ≤ PAGE_SIZE →
    Mem.load (mem s') (a + off) n = Mem.load (mem s) (a + off) n.

Lemma intact_trans s1 s2 s3 p : intact s1 s2 p → intact s2 s3 p → intact s1 s3 p.
Proof. intros H1 H2 a off n Ha H0 Hn. by rewrite (H2 a), (H1 a). Qed.

Lemma intact_mem s s' p : mem s' = mem s → intact s s' p.
Proof. intros Hm a off n _ _ _. by rewrite Hm. Qed.

Lemma load_clear_other (m : Mem.t) a len b n :
  b + Z.of_nat n ≤ a ∨ a + len ≤ b → Mem.load (Mem.clear m a len) b n = Mem.load m b n.
Proof.
  intros Hd. apply list_fmap_ext. intros i j Hj. apply lookup_seq in Hj as [-> Hi].
  unfold Mem.byte, Mem.clear. rewrite map_lookup_filter. destruct (m !! _); [|done]. simpl.
  rewrite option_guard_True; [done|]. simpl. lia.
Qed.

(** Stores in another page. *)
Lemma writes_intact s m p q a ws :
  page_address q = Some a → p ≠ q → Forall fits ws → Forall (λ w, 0 ≤ w.1.1 ∧ w.1.1 + Z.of_nat w.1.2 ≤ PAGE_SIZE) ws →
  m = apply_writes (mem s) a ws → intact s (with_mem s m) p.
Proof.
  intros Hq Hne Hf Hb -> b off n Hp H0 Hn. simpl.
  replace (b + off) with (a + (b + off - a)) by lia. apply load_writes_other; [done|].
  apply forallb_forall. intros x Hx%list_elem_of_In%list_elem_of_fmap. destruct Hx as (w & -> & Hw).
  rewrite Forall_forall in Hb. specialize (Hb w Hw). unfold apart. simpl. unfold PAGE_SIZE in *.
  destruct (page_address_disjoint _ _ _ _ Hp Hq Hne); apply orb_true_iff; [left|right]; apply Z.leb_le; lia.
Qed.

Lemma alloc_zeroed_intact s x s' p : alloc_zeroed s = (x, s') → Page p ∈ held (k s) → intact s s' p.
Proof.
  unfold alloc_zeroed. destruct (alloc_page (k s)) as [[q|] k'] eqn:E; intros [= <- <-] Hin; [|by apply intact_mem].
  apply alloc_page_held in E as [Hnew _]. destruct (page_address q) as [b|] eqn:Hq; [|by apply intact_mem].
  intros a off n Ha H0 Hn. simpl. apply load_clear_other. unfold PAGE_SIZE in *.
  destruct (page_address_disjoint p q a b Ha Hq) as [|]; [by intros ->|lia|lia].
Qed.

Lemma alloc_pages_intact n s acc ok ps s' p :
  alloc_pages n s acc = (ok, ps, s') → Page p ∈ held (k s) → intact s s' p.
Proof.
  revert s acc. induction n as [|n IH]; intros s acc; simpl; [intros [= _ _ <-] _; by apply intact_mem|].
  destruct (alloc_zeroed s) as [[q|] s1] eqn:E; intros H Hin.
  - eapply intact_trans; [by eapply alloc_zeroed_intact|]. eapply IH; [done|]. rewrite (alloc_zeroed_held _ _ _ E). set_solver.
  - injection H as _ _ <-. by eapply alloc_zeroed_intact.
Qed.

Lemma alloc_pages_fresh n s acc ok ps s' q :
  alloc_pages n s acc = (ok, ps, s') → q ∈ ps → q ∈ acc ∨ Page q ∉ held (k s).
Proof.
  revert s acc. induction n as [|n IH]; intros s acc; simpl; [intros [= _ <- _]; auto|].
  destruct (alloc_zeroed s) as [[p|] s1] eqn:E; [|intros [= _ <- _]; auto]. intros H Hq.
  destruct (IH _ _ H Hq) as [[?|Hqp%list_elem_of_singleton]%elem_of_app|Hn]; [by left| |]; right.
  - subst q. revert E. unfold alloc_zeroed. destruct (alloc_page (k s)) as [[p'|] k'] eqn:E; [|done]. intros [= -> _].
    by apply alloc_page_held in E as [? _].
  - rewrite (alloc_zeroed_held _ _ _ E) in Hn. set_solver.
Qed.

Lemma err_free_pages_mem s arr ps : mem (err_free_pages s arr ps) = mem s.
Proof.
  unfold err_free_pages. simpl. assert (∀ l s, mem (fold_left free_one l s) = mem s) as H; [|apply H].
  intros l. induction l as [|x l IH]; intros s'; [done|]. simpl. by rewrite IH.
Qed.

(** The header as a list of stores. *)
Definition header_writes (n e : Z) : list (Z * nat * list Z) :=
  let field f size v := (uapi.offsetof uapi.ring_header_fields f, size, Mem.le size v) in
  [field "magic" 4%nat ksvc_sys.KSVC_RING_MAGIC; field "ring_size" 4%nat n; field "mask" 4%nat (n -[32] 1);
   field "entry_size" 4%nat e; field "head" 8%nat 0; field "tail" 8%nat 0].

Lemma init_header_writes m a n e : init_header m a n e = apply_writes m a (header_writes n e).
Proof. reflexivity. Qed.

Lemma header_writes_ok n e :
  all_apart (fst <$> header_writes n e) = true ∧ Forall fits (header_writes n e) ∧
  Forall (λ w, 0 ≤ w.1.1 ∧ w.1.1 + Z.of_nat w.1.2 ≤ PAGE_SIZE) (header_writes n e).
Proof.
  split; [vm_compute; reflexivity|]. split; repeat (apply Forall_cons; split); try apply Forall_nil.
  all: unfold fits; cbn [fst snd]; rewrite ?length_le; try lia; by vm_compute.
Qed.

Lemma ring_alloc_intact s r n e ret r' s' p :
  ksvc_ring_alloc s r n e = (ret, r', s') → Page p ∈ held (k s) → intact s s' p.
Proof.
  unfold ksvc_ring_alloc. destruct (kzalloc (k s)) as [[arr|] k'] eqn:E; apply kzalloc_held in E.
  2: { intros [= _ _ <-] _. by apply intact_mem. }
  destruct (alloc_pages _ _ _) as [[ok ps] s1] eqn:Ea. intros H Hin.
  assert (Page p ∈ held k') as Hin' by (rewrite E; set_solver).
  assert (intact s s1 p) as H1.
  { eapply intact_trans; [by apply (intact_mem _ (with_k s k'))|]. by eapply alloc_pages_intact. }
  destruct ok; [|injection H as _ _ <-; eapply intact_trans; [done|]; apply intact_mem, err_free_pages_mem].
  destruct (ps !! 0%nat) as [q|] eqn:Hq; simpl in H; [destruct (page_address q) as [a|] eqn:Hqa|].
  2-3: injection H as _ _ <-; eapply intact_trans; [done|]; apply intact_mem, err_free_pages_mem.
  injection H as _ _ <-. eapply intact_trans; [done|]. destruct (header_writes_ok n e) as (_ & Hf & Hb).
  eapply (writes_intact s1 _ p q a); [done| |done|done|done]. intros ->.
  destruct (alloc_pages_fresh _ _ _ _ _ _ q Ea) as [?|?]; [by eapply list_elem_of_lookup_2|set_solver|done].
Qed.

(** The header that [SubmitRing::from_mmap] reads. *)
Definition header_at (m : Mem.t) (a : Z) : ksvc_sys.KsvcRingHeader :=
  let word f := Mem.of_le (Mem.load m (a + uapi.offsetof uapi.ring_header_fields f) 4) in
  ksvc_sys.mkHeader (word "magic") (word "ring_size") (word "mask") (word "entry_size").
Definition positions_at (m : Mem.t) (a : Z) : Z * Z :=
  let word f := Mem.of_le (Mem.load m (a + uapi.offsetof uapi.ring_header_fields f) 8) in (word "head", word "tail").

Lemma header_written m a n e :
  in_u 32 n → in_u 32 e →
  header_at (apply_writes m a (header_writes n e)) a = ksvc_sys.mkHeader ksvc_sys.KSVC_RING_MAGIC n (n -[32] 1) e ∧
  positions_at (apply_writes m a (header_writes n e)) a = (0, 0).
Proof.
  intros Hn He. destruct (header_writes_ok n e) as (Ha & Hf & _).
  assert (∀ j f size v, header_writes n e !! j = Some (uapi.offsetof uapi.ring_header_fields f, size, Mem.le size v) →
    Mem.of_le (Mem.load (apply_writes m a (header_writes n e)) (a + uapi.offsetof uapi.ring_header_fields f) size) =
    v `mod` 256 ^ Z.of_nat size) as Hw.
  { intros j f size v Hj. pose proof (load_writes m a _ _ Ha Hf (list_elem_of_lookup_2 _ _ _ Hj)) as Hl.
    cbn [fst snd] in Hl. rewrite length_le in Hl. rewrite Hl. apply of_le_le. }
  unfold header_at, positions_at.
  rewrite (Hw 0%nat "magic" 4%nat _ eq_refl), (Hw 1%nat "ring_size" 4%nat _ eq_refl), (Hw 2%nat "mask" 4%nat _ eq_refl),
    (Hw 3%nat "entry_size" 4%nat _ eq_refl), (Hw 4%nat "head" 8%nat _ eq_refl), (Hw 5%nat "tail" 8%nat _ eq_refl).
  change (256 ^ Z.of_nat 4) with (2 ^ 32). fold (wrap 32 n) (wrap 32 e) (wrap 32 (n -[32] 1)).
  rewrite (wrap_small 32 n Hn), (wrap_small 32 e He), wrap_wrap by lia. split; reflexivity.
Qed.

(** The headers of a page that stays as it is. *)
Lemma header_intact s s' p a :
  intact s s' p → page_address p = Some a →
  header_at (mem s') a = header_at (mem s) a ∧ positions_at (mem s') a = positions_at (mem s) a.
Proof.
  intros Hi Ha. assert (∀ off n, 0 ≤ off → off + Z.of_nat n ≤ PAGE_SIZE →
    Mem.load (mem s') (a + off) n = Mem.load (mem s) (a + off) n) as H by (intros; by apply Hi).
  unfold header_at, positions_at. rewrite !H by (by vm_compute). done.
Qed.

(** A ring that [ksvc_ring_alloc] has made. *)
Definition ring_made s r (n e : Z) : Prop :=
  ∃ arr ps p a, pages r = Some (arr, ps) ∧ ps !! 0%nat = Some p ∧ page_address p = Some a ∧ kaddr r = Some a ∧
    Z.of_nat (nr_pages r) = ring_pages_needed n e ∧ length ps = nr_pages r ∧ Forall (λ p, Page p ∈ held (k s)) ps ∧
    header_at (mem s) a = ksvc_sys.mkHeader ksvc_sys.KSVC_RING_MAGIC n (n -[32] 1) e ∧ positions_at (mem s) a = (0, 0).

Lemma ring_alloc_made s r n e r' s' :
  in_u 32 n → in_u 32 e → ksvc_ring_alloc s r n e = (0, r', s') → ring_made s' r' n e.
Proof.
  intros Hn He H. pose proof (ring_alloc_held _ _ _ _ _ _ _ H) as (Hh & Hwf & _). revert H Hh Hwf. unfold ksvc_ring_alloc.
  destruct (kzalloc (k s)) as [[arr|] k']; [|done]. destruct (alloc_pages _ _ _) as [[[|] ps] s1]; [|done].
  destruct (ps !! 0%nat) as [p|] eqn:Hp; simpl; [|done]. destruct (page_address p) as [a|] eqn:Ha; [|done].
  intros [= <- <-] Hh Hwf. exists arr, ps, p, a. destruct (header_written (mem s1) a n e Hn He) as [H1 H2].
  specialize (Hwf arr ps eq_refl). unfold ring_res in Hh. cbn [pages nr_pages k with_mem app] in Hwf, Hh |- *.
  split_and!; [done|done|done|done| |done| |done|done].
  - apply Z2Nat.id. apply wrap_range. lia.
  - apply Forall_forall. intros q Hq. rewrite Hh. apply elem_of_cons. right. apply elem_of_app. left.
    by apply list_elem_of_fmap_2.
Qed.

Lemma ring_made_intact s s' r n e :
  ring_made s r n e → (∀ p, Page p ∈ held (k s) → Page p ∈ held (k s') ∧ intact s s' p) → ring_made s' r n e.
Proof.
  intros (arr & ps & p & a & H1 & H2 & H3 & H4 & H5 & H6 & Hall & H7 & H8) Hi. exists arr, ps, p, a.
  rewrite Forall_forall in Hall. pose proof (list_elem_of_lookup_2 _ _ _ H2) as Hp.
  destruct (header_intact s s' p a) as [-> ->]; [by apply Hi, Hall|done|]. split_and!; try done.
  apply Forall_forall. intros q Hq. by apply Hi, Hall.
Qed.

Lemma shared_writes_in_page t : Forall (λ w, 0 ≤ w.1.1 ∧ w.1.1 + Z.of_nat w.1.2 ≤ PAGE_SIZE) (shared_writes t).
Proof.
  unfold shared_writes. destruct (utsname t) as [[[r n] ma]|]; repeat (apply Forall_cons; split); try apply Forall_nil;
    by vm_compute.
Qed.

(** Every error label returns the error it was given. *)
Lemma err_labels_ret ret s i ret' i' s' :
  (err_free_submit ret s i = (ret', i', s') ∨ err_free_complete ret s i = (ret', i', s')) ∨
  (err_free_shared ret s i = (ret', i', s') ∨ err_free_eventfd ret s i = (ret', i', s')) → ret' = ret.
Proof.
  assert (∀ s i, (err_free_submit ret s i).1.1 = ret) as H1
    by (intros; unfold err_free_submit; by destruct (ksvc_ring_free _ _)).
  assert (∀ s i, (err_free_complete ret s i).1.1 = ret) as H2
    by (intros; unfold err_free_complete; by destruct (ksvc_ring_free _ _)).
  assert (∀ s i, (err_free_shared ret s i).1.1 = ret) as H3
    by (intros; unfold err_free_shared; by destruct (ksvc_shared_free _ _)).
  assert (∀ s i, (err_free_eventfd ret s i).1.1 = ret) as H4
    by (intros; unfold err_free_eventfd; by destruct (eventfd_ctx _)).
  intros [[H|H]|[H|H]]; [rewrite <- (H1 s i)|rewrite <- (H2 s i)|rewrite <- (H3 s i)|rewrite <- (H4 s i)]; by rewrite H.
Qed.

(** The last steps of CREATE change no memory, and when it succeeds they only
    add to what is held. *)
Lemma create_finish_ok params cb s i i' s' :
  create_finish params cb s i = (0, i', s') →
  mem s' = mem s ∧ submit i' = submit i ∧ complete i' = complete i ∧ shared_page i' = shared_page i ∧
  shared_kaddr i' = shared_kaddr i ∧ created i' = true ∧ (∀ p, Page p ∈ held (k s) → Page p ∈ held (k s')).
Proof.
  unfold create_finish. destruct (0 <=? _).
  - destruct (eventfd_ctx_fdget (k s) _) as [[c|e] k'] eqn:E; apply fdget_held in E.
    + destruct cb; [intros [= <- <-]; split_and!; try done; intros p Hp; simpl; rewrite E; set_solver|].
      intros H. by specialize (err_labels_ret _ _ _ _ _ _ (or_intror (or_intror H))).
    + intros H. pose proof (err_labels_ret _ _ _ _ _ _ (or_intror (or_introl H))). lia.
  - destruct cb; [by intros [= <- <-]|]. intros H. by specialize (err_labels_ret _ _ _ _ _ _ (or_intror (or_intror H))).
Qed.

Lemma create_makes t params cb s i i' s' :
  in_u 32 (ksvc_sys.submit_ring_entries params) → in_u 32 (ksvc_sys.complete_ring_entries params) →
  create_body t (Some params) cb s i = (0, i', s') →
  created i' = true ∧
  valid_size (ksvc_sys.submit_ring_entries params) = true ∧ valid_size (ksvc_sys.complete_ring_entries params) = true ∧
  ring_made s' (submit i') (ksvc_sys.submit_ring_entries params) 64 ∧
  ring_made s' (complete i') (ksvc_sys.complete_ring_entries params) 32 ∧
  ∃ p a s0, shared_page i' = Some p ∧ shared_kaddr i' = Some a ∧ page_address p = Some a ∧
    mem s' = mem (ksvc_shared_populate t s0 i') ∧ Mem.load (mem s0) a (Z.to_nat PAGE_SIZE) = replicate (Z.to_nat PAGE_SIZE) 0.
Proof.
  intros Hn1 Hn2. unfold create_body. destruct (valid_size (ksvc_sys.submit_ring_entries params)); [|done].
  destruct (valid_size (ksvc_sys.complete_ring_entries params)); [|done]. cbn [negb].
  change (Layout.size_of 64 uapi.entry_fields) with 64. change (Layout.size_of 32 uapi.completion_fields) with 32.
  destruct (ksvc_ring_alloc s _ _ _) as [[ret r1] s1] eqn:E1. destruct (Z.eqb_spec ret 0) as [->|?]; [|intros [= -> _ _]; done].
  destruct (ksvc_ring_alloc s1 _ _ _) as [[ret r2] s2] eqn:E2. destruct (Z.eqb_spec ret 0) as [->|?]; cbn [negb].
  2: { intros H. by specialize (err_labels_ret _ _ _ _ _ _ (or_introl (or_introl H))). }
  assert (in_u 32 64 ∧ in_u 32 32) as [H64 H32] by (by vm_compute).
  pose proof (ring_alloc_made _ _ _ _ _ _ Hn1 H64 E1) as M1.
  pose proof (ring_alloc_made _ _ _ _ _ _ Hn2 H32 E2) as M2.
  apply (ring_made_intact _ s2) in M1.
  2: { intros p Hp. split; [|by eapply ring_alloc_intact]. apply ring_alloc_held in E2 as (-> & _). set_solver. }
  unfold ksvc_shared_alloc. destruct (alloc_zeroed s2) as [[p|] s3] eqn:E3; [destruct (page_address p) as [a|] eqn:Hpa|]; cbn [negb Z.eqb].
  2-3: intros H; by specialize (err_labels_ret _ _ _ _ _ _ (or_introl (or_intror H))).
  intros H. set (i3 := with_shared _ (Some p) (Some a)) in H.
  apply create_finish_ok in H as (Hm & Hsu & Hco & Hsp & Hka & Hcr & Hh).
  assert (∀ q, Page q ∈ held (k s2) → Page q ∈ held (k s') ∧ intact s2 s' q) as Hkeep.
  { intros q Hq. pose proof (alloc_zeroed_held _ _ _ E3) as H3. split; [apply Hh; simpl; rewrite H3; set_solver|].
    eapply intact_trans; [by eapply alloc_zeroed_intact|].
    eapply intact_trans; [|by apply intact_mem].
    eapply (writes_intact s3 _ q p a); [done| |apply shared_writes_apart|apply shared_writes_in_page|done].
    intros ->. revert E3. unfold alloc_zeroed. destruct (alloc_page (k s2)) as [[p'|] k'] eqn:E3'; [|done].
    intros [= -> _]. by apply alloc_page_held in E3' as [? _]. }
  rewrite Hsu, Hco. split_and!; [done|done|done|by eapply ring_made_intact|by eapply ring_made_intact|].
  exists p, a, s3. rewrite Hsp, Hka. split_and!; [done|done|done| |].
  - rewrite Hm. unfold ksvc_shared_populate. by rewrite Hka.
  - revert E3. unfold alloc_zeroed. destruct (alloc_page (k s2)) as [[p'|] k'] eqn:E3'; [|done]. intros [= -> <-].
    rewrite Hpa. apply load_clear; [lia|]. unfold PAGE_SIZE. lia.
Qed.
End Intact.

(** ** Lemmas: sizes and mappings *)
Section Mappings.
Import Kmod.

Lemma valid_size_spec n : valid_size n = true → 16 ≤ n ≤ 4096 ∧ ∃ o, ring_order n o.
Proof.
  unfold valid_size, is_power_of_two, ksvc_sys.KSVC_MIN_RING_ENTRIES, ksvc_sys.KSVC_MAX_RING_ENTRIES.
  destruct (Z.ltb_spec n 16); [done|]. destruct (Z.ltb_spec 4096 n); [done|]. destruct (Z.ltb_spec 0 n); [|done]. simpl.
  destruct (Z.eqb_spec (Z.land n (n - 1)) 0) as [Hl|]; [|done]. intros _. split; [lia|]. by apply power_of_two_order; [lia|].
Qed.

Lemma from_mmap_accepts n o len :
  ring_order n o →
  SubmitRing.from_mmap false (ksvc_sys.mkHeader ksvc_sys.KSVC_RING_MAGIC n (n - 1) 64) len = Ok (SubmitRing.mk len (n - 1) n).
Proof.
  intros Ho. pose proof (ring_order_pos n o Ho). unfold SubmitRing.from_mmap.
  cbn [ksvc_sys.magic ksvc_sys.ring_size ksvc_sys.mask ksvc_sys.hdr_entry_size].
  rewrite (land_mask n o) by done. rewrite Z.mod_same, !Z.eqb_refl by lia.
  destruct (Z.eqb_spec n 0); [lia|]. reflexivity.
Qed.

Lemma ring_pages_needed_spec n e :
  0 ≤ n ≤ 4096 → 0 ≤ e ≤ 4096 →
  let pages := ring_pages_needed n e in 4096 + n * e ≤ pages * PAGE_SIZE < 2 * 4096 + n * e ∧ pages < 2 ^ 31.
Proof.
  intros Hn He. assert (0 ≤ n * e ≤ 4096 * 4096) as Hne by nia.
  unfold ring_pages_needed, PAGE_SIZE. rewrite (wrap_small 64) by (split; lia).
  pose proof (Z.div_mod (n * e + 4096 - 1) 4096 ltac:(lia)) as Hd.
  pose proof (Z.mod_pos_bound (n * e + 4096 - 1) 4096 ltac:(lia)) as Hb.
  set (q := (n * e + 4096 - 1) / 4096) in *. assert (0 ≤ q ≤ 4096) by lia.
  rewrite (wrap_small 32 q) by (split; lia). rewrite wrap_small by (split; lia). lia.
Qed.

Lemma insert_pages_ok (insert : Z → Z → Z) addr ps :
  (∀ a p, insert a p = 0) → 0 ≤ addr → addr + 4096 * Z.of_nat (length ps) < 2 ^ 64 →
  ∃ l, insert_pages insert addr ps = (0, l) ∧ length l = length ps ∧
    ∀ j p, ps !! j = Some p → l !! j = Some (addr + 4096 * Z.of_nat j, p).
Proof.
  intros Hi. revert addr. induction ps as [|p ps IH]; intros addr H0 Hlt; cbn [insert_pages]; [by exists []|].
  rewrite Hi. cbn [Z.eqb negb]. cbn [length] in Hlt. rewrite wrap_small by (split; unfold PAGE_SIZE; lia).
  destruct (IH (addr + PAGE_SIZE)) as (l & -> & Hlen & Hl); [unfold PAGE_SIZE; lia..|].
  exists ((addr, p) :: l). split; [done|]. split; [simpl; lia|]. intros [|j] q Hq.
  - injection Hq as ->. change (Some (addr, q) = Some (addr + 4096 * Z.of_nat 0, q)). do 2 f_equal. lia.
  - etrans; [exact (Hl j q Hq)|]. do 2 f_equal. unfold PAGE_SIZE. lia.
Qed.
End Mappings.

Section MappingTheorems.
Context {K : Type} `{!Kernel K}.
Import Kmod.

(** C15: A ring that CREATE makes can be mapped and used.  After a successful
    CREATE the header of the submit ring passes every check of
    [SubmitRing::from_mmap], with the requested number of entries and both
    positions 0; mapping it with its exact length puts its pages at consecutive
    addresses, the header page first; and every slot that [SubmitRing] computes
    for any position lies within that length. *)
Theorem created_ring_usable (s : sys K) i t params cb i' s' (insert : Z → Z → Z) fd base w mw :
  let n := ksvc_sys.submit_ring_entries params in
  let len := Z.of_nat (nr_pages (submit i')) * PAGE_SIZE in
  in_u 32 n → in_u 32 (ksvc_sys.complete_ring_entries params) →
  ksvc_ioctl_create t (Some params) cb s i = (0, i', s') →
  (∀ a p, insert a p = 0) → 0 ≤ base → base + len < 2 ^ 64 →
  ∃ a arr ps l, kaddr (submit i') = Some a ∧ pages (submit i') = Some (arr, ps) ∧
    positions_at (mem s') a = (0, 0) ∧
    SubmitRing.from_mmap false (header_at (mem s') a) len = Ok (SubmitRing.mk len (n - 1) n) ∧
    ksvc_mmap insert (Some (fd, i')) (mkVma base (base + len) 0 w mw false false) =
      (0, mkVma base (base + len) 0 w mw true true, l) ∧
    length l = length ps ∧ (∀ j p, ps !! j = Some p → l !! j = Some (base + PAGE_SIZE * Z.of_nat j, p)) ∧
    ∀ pos, PAGE_SIZE ≤ SubmitRing.slot (SubmitRing.mk len (n - 1) n) pos ∧
      SubmitRing.slot (SubmitRing.mk len (n - 1) n) pos + ksvc_sys.entry_size ≤ len.
Proof.
  intros n len Hn1 Hn2 Hc Hins Hb0 Hb1. unfold ksvc_ioctl_create in Hc. destruct (created i); [done|].
  apply create_makes in Hc as (Hcr & Hv & _ & (arr & ps & p & a & Hp & _ & _ & Hka & Hnr & Hlps & _ & Hh & Hpos) & _); [|done..].
  fold n in Hv, Hh, Hnr. destruct (valid_size_spec n Hv) as (Hn & o & Ho).
  destruct (ring_pages_needed_spec n 64) as [Hsz Hsm]; [lia..|].
  assert (len = ring_pages_needed n 64 * PAGE_SIZE) as Hlen by (subst len; by rewrite Hnr).
  assert (ring_pages (submit i') = ps) as Hrp by (unfold ring_pages; rewrite Hp, take_ge; [done|lia]).
  destruct (insert_pages_ok insert base ps Hins Hb0) as (l & Hl & Hll & Hat).
  { rewrite Hlps. unfold len, PAGE_SIZE in Hb1. lia. }
  exists a, arr, ps, l. split_and!; [done|done|done| | |done|done|].
  - rewrite Hh, wrap_small by (split; lia). by apply (from_mmap_accepts n o).
  - unfold ksvc_mmap. rewrite Hcr. cbn [negb vm_pgoff]. change (wrap 64 (Z.shiftl 0 PAGE_SHIFT) =? ksvc_sys.KSVC_OFF_SUBMIT_RING) with true.
    unfold ksvc_ring_mmap. cbn [vm_start vm_end vm_pgoff vm_write vm_maywrite]. rewrite Hrp, Hl.
    assert (base + len -[64] base = wrap 64 (Z.shiftl (Z.of_nat (nr_pages (submit i'))) PAGE_SHIFT)) as ->.
    { rewrite Z.shiftl_mul_pow2 by (by vm_compute). f_equal. unfold len, PAGE_SIZE, PAGE_SHIFT. lia. }
    by rewrite Z.eqb_refl.
  - intros pos. unfold SubmitRing.slot. cbn [SubmitRing.mask]. rewrite (land_mask n o) by done.
    change ksvc_sys.entry_size with 64. pose proof (Z.mod_pos_bound (wrap 32 pos) n ltac:(lia)). unfold PAGE_SIZE in *. lia.
Qed.
End MappingTheorems.

(** ** A kernel to evaluate: so many allocations succeed; page [p] is at [4096 p];
    event descriptors below 1000 exist. *)
Module FlatKernel.
Record t : Type := mk { live : list resource; budget : nat }.

Definition number (r : resource) : Z := match r with Page p => p | Obj o => o | Ctx c => c end.
Definition fresh (l : list resource) : Z := 1 + foldr (λ r m, Z.max (number r) m) 0 l.

Fixpoint remove1 (r : resource) (l : list resource) : list resource :=
  match l with [] => [] | x :: l => if decide (x = r) then l else x :: remove1 r l end.

Definition alloc (make : Z → resource) (x : t) : option Z * t :=
  match budget x with
  | O => (None, x)
  | S n => let p := fresh (live x) in (Some p, mk (make p :: live x) n)
  end.
Definition free (r : resource) (x : t) : t := mk (remove1 r (live x)) (budget x).

Lemma fresh_new r l : r ∈ l → number r < fresh l.
Proof.
  unfold fresh. induction l as [|x l IH]; intros Hr; [by apply not_elem_of_nil in Hr|]. simpl.
  apply elem_of_cons in Hr as [->|Hr]; [lia|]. specialize (IH Hr). lia.
Qed.

Lemma remove1_perm r l : r ∈ l → l ≡ₚ r :: remove1 r l.
Proof.
  induction l as [|x l IH]; intros Hr; [by apply not_elem_of_nil in Hr|]. simpl. case_decide as E; [by rewrite E|].
  apply elem_of_cons in Hr as [?|Hr]; [congruence|]. rewrite Permutation_swap. by rewrite <- IH.
Qed.

#[global, refine] Instance flat_kernel : Kernel t := {
  held := live;
  alloc_page := alloc Page;
  free_page x p := free (Page p) x;
  kzalloc := alloc Obj;
  kfree x o := free (Obj o) x;
  eventfd_ctx_fdget x fd := if fd <? 1000 then (Ok fd, mk (Ctx fd :: live x) (budget x)) else (Err (-9), x);
  eventfd_ctx_put x c := free (Ctx c) x;
  page_address p := Some (4096 * p)
}.
Proof.
  - intros x r x'. unfold alloc. destruct (budget x); intros [= <- <-]; [done|]. split; [|done].
    intros Hin%fresh_new. simpl in Hin. lia.
  - intros x r x'. unfold alloc. destruct (budget x); by intros [= <- <-].
  - intros x fd r x'. destruct (_ <? _); by intros [= <- <-].
  - intros x p. apply remove1_perm.
  - intros x o. apply remove1_perm.
  - intros x c. apply remove1_perm.
  - intros p q a b [= <-] [= <-] Hne. lia.
Defined.
End FlatKernel.

Section MoreDeviceTheorems.
Import Kmod.

Lemma insert_pages_own insert addr ps ret l a p : insert_pages insert addr ps = (ret, l) → (a, p) ∈ l → p ∈ ps.
Proof.
  revert addr ret l. induction ps as [|q ps IH]; intros addr ret l; simpl; [intros [= _ <-]; set_solver|].
  destruct (negb _); [intros [= _ <-]; set_solver|].
  destruct (insert_pages insert (addr +[64] PAGE_SIZE) ps) as [ret' l'] eqn:E. intros [= <- <-] [[= -> ->]|Hin]%elem_of_cons.
  - set_solver.
  - apply elem_of_cons. right. by eapply IH.
Qed.

Lemma ring_mmap_own insert r v ret v' l a p :
  ksvc_ring_mmap insert r v = (ret, v', l) → (a, p) ∈ l →
  Page p ∈ ring_res r ∧ vm_dontcopy v' = true ∧ vm_dontexpand v' = true.
Proof.
  unfold ksvc_ring_mmap. destruct (negb _); [intros [= _ _ <-]; set_solver|].
  destruct (insert_pages _ _ _) as [ret' l'] eqn:E. intros [= <- <- <-] Hin. split; [|done].
  apply (insert_pages_own _ _ _ _ _ _ _ E) in Hin. unfold ring_pages in Hin. unfold ring_res.
  destruct (pages r) as [[arr ps]|]; [|set_solver]. apply elem_of_cons. right. apply list_elem_of_fmap_2.
  rewrite <- (take_drop (nr_pages r) ps). apply elem_of_app. by left.
Qed.

(** A mapping shows user space only pages of its own instance.  Nothing is
    mapped before CREATE has succeeded; what is mapped are pages of the rings or
    the shared page, never copied on fork or expanded, and a mapping that shows
    a page outside the rings is read-only for good. *)
Theorem mmap_maps_own_pages insert fd i v ret v' l a p :
  ksvc_mmap insert (Some (fd, i)) v = (ret, v', l) → (a, p) ∈ l →
  created i = true ∧ Page p ∈ inst_res i ∧ vm_dontcopy v' = true ∧ vm_dontexpand v' = true ∧
  (Page p ∈ ring_res (submit i) ∨ Page p ∈ ring_res (complete i) ∨
   shared_page i = Some p ∧ vm_write v' = false ∧ vm_maywrite v' = false).
Proof.
  unfold ksvc_mmap, inst_res. destruct (created i); [|intros [= _ _ <-]; set_solver]. cbn [negb].
  destruct (_ =? ksvc_sys.KSVC_OFF_SUBMIT_RING).
  { intros H Hin. destruct (ring_mmap_own _ _ _ _ _ _ _ _ H Hin) as (? & ? & ?). set_solver. }
  destruct (_ =? ksvc_sys.KSVC_OFF_COMPLETE_RING).
  { intros H Hin. destruct (ring_mmap_own _ _ _ _ _ _ _ _ H Hin) as (? & ? & ?). set_solver. }
  destruct (_ =? ksvc_sys.KSVC_OFF_SHARED_PAGE); [|intros [= _ _ <-]; set_solver].
  unfold ksvc_shared_mmap. destruct (negb _); [intros [= _ _ <-]; set_solver|].
  destruct (insert_pages _ _ _) as [ret' l'] eqn:E. intros [= <- <- <-] Hin.
  apply (insert_pages_own _ _ _ _ _ _ _ E) in Hin. destruct (shared_page i) as [q|]; [|set_solver].
  apply list_elem_of_singleton in Hin as ->. split_and!; [done|set_solver|done|done|]. by right; right.
Qed.
End MoreDeviceTheorems.

(** ** Witnesses and runs *)
Definition demo_task : Kmod.task_info :=
  Kmod.mkTask 42 42 1 42 42 1000 1000 1000 1000 1000 1000
    (Some ([54; 46; 56; 46; 48; 45; 53; 49], [104], [120; 56; 54])) 1024 4096 5 6 7.
Definition demo_params : ksvc_sys.KsvcCreateParams := ksvc_sys.mkParams 16 16 0 3 (replicate 4 0).
Definition demo_kernel : Kmod.sys FlatKernel.t := Kmod.mk (FlatKernel.mk [] 100) ∅.
Definition demo_open : Z * option (Z * Kmod.ksvc_instance) * Kmod.sys FlatKernel.t := Kmod.ksvc_open demo_kernel.
Definition demo_instance : Kmod.ksvc_instance :=
  Kmod.mkInstance 2 Kmod.ring_zero Kmod.ring_zero None None None false.
Definition demo_created : Z * Kmod.ksvc_instance * Kmod.sys FlatKernel.t :=
  Kmod.ksvc_ioctl_create demo_task (Some demo_params) true demo_open.2 demo_instance.

(** Two CREATEs at the same time leak memory.  [ksvc_ioctl_create] reads
    [created] first and sets it last, with nothing in between to exclude a second
    request on the same file: when both have passed the check, the second
    overwrites the rings, the shared page and the event context of the first, and
    closing the file leaves them held. *)
Theorem concurrent_create_leaks :
  ∃ fd i0 s0 i1 s1 i2 s2,
    Kmod.ksvc_open demo_kernel = (0, Some (fd, i0), s0) ∧ Kmod.created i0 = false ∧
    Kmod.create_body demo_task (Some demo_params) true s0 i0 = (0, i1, s1) ∧
    Kmod.create_body demo_task (Some demo_params) true s1 i1 = (0, i2, s2) ∧
    held (Kmod.k demo_kernel) = [] ∧
    length (held (Kmod.k (Kmod.ksvc_release s2 (Some (fd, i2))))) = 8%nat.
Proof.
  set (r1 := Kmod.create_body demo_task (Some demo_params) true demo_open.2 demo_instance).
  set (r2 := Kmod.create_body demo_task (Some demo_params) true r1.2 r1.1.2).
  exists 1, demo_instance, demo_open.2, r1.1.2, r1.2, r2.1.2, r2.2.
  split_and!; vm_compute; reflexivity.
Qed.

Lemma shared_page_roundtrip_witness :
  sp_pid (mkMapped (Kmod.mem (Kmod.ksvc_shared_populate demo_task demo_kernel
    (Kmod.with_shared demo_instance (Some 7) (Some 28672)))) 28672) = 42.
Proof.
  apply (shared_page_roundtrip demo_task demo_kernel (Kmod.with_shared demo_instance (Some 7) (Some 28672)) 28672).
  - split; repeat (apply Forall_cons; split); try apply Forall_nil; split; vm_compute; (reflexivity || discriminate).
  - reflexivity.
Defined.

Lemma shared_page_counters_misread_witness :
  let m := mkMapped (Kmod.apply_writes (Kmod.mem (Kmod.ksvc_shared_populate demo_task demo_kernel
    (Kmod.with_shared demo_instance (Some 7) (Some 28672)))) 28672 (counter_writes 3 1 99)) 28672 in
  sp_kthread_cpu m = 0 ∧ sp_worker_state m = 0 ∧ sp_entries_processed m = Mem.of_le [54; 46; 56; 46; 48; 45; 53; 49].
Proof.
  apply (shared_page_counters_misread demo_task demo_kernel (Kmod.with_shared demo_instance (Some 7) (Some 28672)) 28672
    [54; 46; 56; 46; 48; 45; 53; 49] [104] [120; 56; 54] 3 1 99); [reflexivity|reflexivity|simpl; lia|vm_compute; reflexivity].
Defined.

Lemma create_all_or_nothing_witness :
  Kmod.created demo_created.1.2 = true ∧ inst_wf demo_created.1.2.
Proof.
  pose proof (create_all_or_nothing demo_open.2 demo_instance demo_task (Some demo_params) true [Obj 1]) as H.
  assert (inst_wf demo_instance) as Hwf by (split; [intros ? ? [=]|intros ? ? [=]|intros _; split_and!; reflexivity]).
  specialize (H Hwf). unfold demo_created.
  destruct (Kmod.ksvc_ioctl_create demo_task (Some demo_params) true demo_open.2 demo_instance) as [[ret i'] s'] eqn:E.
  destruct H as (H1 & _ & _ & _ & H2); [vm_compute; reflexivity|]. split; [|exact H1]. apply H2.
  change ret with (ret, i', s').1.1. rewrite <- E. vm_compute. reflexivity.
Defined.

Lemma created_ring_usable_witness :
  ∃ a, Kmod.kaddr (Kmod.submit demo_created.1.2) = Some a ∧
    SubmitRing.from_mmap false (header_at (Kmod.mem demo_created.2) a) 8192 = Ok (SubmitRing.mk 8192 15 16).
Proof.
  destruct (created_ring_usable demo_open.2 demo_instance demo_task demo_params true demo_created.1.2 demo_created.2
    (λ _ _, 0) 1 65536 true true) as (a & arr & ps & l & H1 & _ & _ & H2 & _);
    [split; vm_compute; (reflexivity || discriminate)|split; vm_compute; (reflexivity || discriminate)| |reflexivity|vm_compute; discriminate|vm_compute; reflexivity|].
  - vm_compute. reflexivity.
  - exists a. split; [exact H1|]. exact H2.
Defined.

Lemma mmap_maps_own_pages_witness :
  Kmod.created demo_created.1.2 = true ∧ Page 4 ∈ inst_res demo_created.1.2.
Proof.
  destruct (mmap_maps_own_pages (λ _ _, 0) 1 demo_created.1.2 (Kmod.mkVma 65536 (65536 + 8192) 0 true true false false)
    0 (Kmod.mkVma 65536 (65536 + 8192) 0 true true true true) [(65536, 4); (69632, 5)] 65536 4) as (H1 & H2 & _).
  - vm_compute. reflexivity.
  - left.
  - split; [exact H1|exact H2].
Defined.
