(* ===== verification/Gerror.v ===== *)
(** * The error library: [crates/gerror]

    [GError] is a structured error: three numeric ids and a call-site id, either
    alone ([Simple]) or in a boxed [ErrorContext] with a message, a source error
    and metadata ([Full]).  This file models the ids ([id.rs], [site.rs]), the
    counters and the registry of the [metrics] feature ([metrics.rs]), the
    context and the error ([context.rs], [error.rs]), the conversions
    ([convert.rs]), the macros ([macros.rs]) and the tables of [codes/].

    The Cargo features are a value of [Features] that the definitions take; the
    fields a [production] build strips are [option]s that such a build leaves
    [None].  The static counter array and the registry are a [Metrics.t] that
    the constructors thread.  [std::io::Error] is the inductive [io_error]; the
    two texts of the operating system and of [std] it prints are parameters. *)
From stdpp Require Import base gmap list strings pretty.
From S2P Require Import Prelude.
Local Open Scope Z_scope.
Local Open Scope rust_scope.

(** The Cargo features of the crate. *)
Record Features := { production : bool; backtrace_feature : bool; metrics_feature : bool }.

(** A field or a value that only a build without [production] has. *)
Definition debug_only {A} (f : Features) (x : A) : option A := if production f then None else Some x.

(** [{:#x}] of an unsigned integer below [16 ^ fuel]. *)
Definition hex_digit (d : Z) : Ascii.ascii :=
  Ascii.ascii_of_nat (Z.to_nat (if d <? 10 then 48 + d else 87 + d)).
Fixpoint hex_digits (fuel : nat) (n : Z) (acc : string) : string :=
  match fuel with
  | O => acc
  | S k => let acc := String (hex_digit (n `mod` 16)) acc in
           if n `div` 16 =? 0 then acc else hex_digits k (n `div` 16) acc
  end.
Definition hex32 (n : Z) : string := "0x" +:+ hex_digits 8 n "".

Module GlobalId.

(** [GlobalId]; [name] is [None] in a [production] build. *)
Record t := mk { name : option string; code : Z }.

Definition new (f : Features) (n : string) (c : Z) : t := mk (debug_only f n) c.
Definition UNSET (f : Features) : t := new f "unset" 0.

(** [PartialEq]: by [code] alone. *)
Definition eq (a b : t) : bool := code a =? code b.

Definition display (i : t) : string := match name i with Some n => n | None => pretty (code i) end.
Definition debug (i : t) : string :=
  match name i with Some n => n +:+ "(" +:+ pretty (code i) +:+ ")" | None => pretty (code i) end.

(** The equivalence [eq] decides. *)
#[global] Instance equiv : Equiv t := λ a b, code a = code b.
#[global] Instance equivalence : Equivalence (≡@{t}).
Proof. split; unfold equiv, base.equiv; congruence. Qed.
#[global] Instance code_proper : Proper ((≡) ==> (=)) code.
Proof. by intros a b H. Qed.
#[global] Instance eq_proper : Proper ((≡) ==> (≡) ==> (=)) eq.
Proof. intros a a' Ha b b' Hb. unfold eq. by rewrite Ha, Hb. Qed.

Lemma eq_equiv a b : eq a b = true ↔ a ≡ b.
Proof. apply Z.eqb_eq. Qed.

End GlobalId.

Module SiteId.

(** [SiteId(u64)]: the counter index in the upper half, the unique id below. *)
Definition NONE : Z := 0.
Definition new (counter_index unique_id : Z) : Z := Z.lor (Z.shiftl counter_index 32) unique_id.
Definition counter_index (s : Z) : Z := wrap 32 (Z.shiftr s 32).
Definition unique_id (s : Z) : Z := wrap 32 s.
Definition raw (s : Z) : Z := s.
Definition is_none (s : Z) : bool := s =? 0.

Definition display (s : Z) : string :=
  if is_none s then "site:none"
  else "site:" +:+ hex32 (counter_index s) +:+ ":" +:+ hex32 (unique_id s).
Definition debug (s : Z) : string :=
  "SiteId { counter_index: " +:+ pretty (counter_index s) +:+ ", unique_id: " +:+ pretty (unique_id s) +:+ " }".

End SiteId.

Module Metrics.

Definition MAX_SITES : Z := 65536.

Record SiteInfo := mkInfo {
  counter_index : Z; unique_id : Z; subsystem : string; error_class : string;
  operation : string; description : string; recoverable : bool; action : string
}.

(** [COUNTERS], and [REGISTRY] with the poison flag of its mutex. *)
Record t := mk { COUNTERS : list Z; REGISTRY : list SiteInfo; poisoned : bool }.

Definition init : t := mk (replicate (Z.to_nat MAX_SITES) 0) [] false.

Definition set_counters (m : t) (c : list Z) : t := mk c (REGISTRY m) (poisoned m).

(** [COUNTERS[idx].load()]; every use below has checked the index. *)
Definition load (m : t) (idx : Z) : Z := default 0 (COUNTERS m !! Z.to_nat idx).
Definition store (m : t) (idx v : Z) : t := set_counters m (<[Z.to_nat idx := v]> (COUNTERS m)).

Definition bump (m : t) (site : Z) : t * Z :=
  let idx := SiteId.counter_index site in
  if (0 <? idx) && (idx <? MAX_SITES) then (store m idx (load m idx +[64] 1), load m idx) else (m, 0).

Definition count (m : t) (site : Z) : Z :=
  let idx := SiteId.counter_index site in if idx <? MAX_SITES then load m idx else 0.

Definition reset (m : t) (site : Z) : t * Z :=
  let idx := SiteId.counter_index site in
  if idx <? MAX_SITES then (store m idx 0, load m idx) else (m, 0).

(** The loop over [COUNTERS.iter()]. *)
Definition reset_all (m : t) : t := set_counters m ((λ _, 0) <$> COUNTERS m).

Definition register_site (m : t) (info : SiteInfo) : t :=
  if poisoned m then m else mk (COUNTERS m) (push_back (REGISTRY m) info) (poisoned m).
Definition registered_sites (m : t) : list SiteInfo := if poisoned m then [] else REGISTRY m.

Definition find_info (reg : list SiteInfo) (idx : Z) : option SiteInfo :=
  List.find (λ s, counter_index s =? idx) reg.
Definition site_info (m : t) (idx : Z) : option SiteInfo :=
  if poisoned m then None else find_info (REGISTRY m) idx.

Record SiteSnapshot := mkSnapshot { snap_site_id : Z; snap_count : Z; snap_info : option SiteInfo }.

(** The loop of [dump] from index [idx] on; [cs] are the counters left. *)
Fixpoint dump_loop (info : Z → option SiteInfo) (idx : Z) (cs : list Z) : list SiteSnapshot :=
  match cs with
  | [] => []
  | c :: cs' =>
      if 0 <? c then
        let i := info idx in
        mkSnapshot (SiteId.new idx (default 0 (unique_id <$> i))) c i :: dump_loop info (idx + 1) cs'
      else dump_loop info (idx + 1) cs'
  end.
Definition dump (m : t) : list SiteSnapshot := dump_loop (site_info m) 1 (drop 1 (COUNTERS m)).

(** [{:>w}] and [{:<w}]. *)
Fixpoint spaces (n : nat) : string := match n with O => "" | S k => String (Ascii.ascii_of_nat 32) (spaces k) end.
Definition pad_left (w : nat) (s : string) : string := spaces (w - String.length s) +:+ s.
Definition pad_right (w : nat) (s : string) : string := s +:+ spaces (w - String.length s).
Definition nl : string := String (Ascii.ascii_of_nat 10) "".
Definition quote (s : string) : string :=
  String (Ascii.ascii_of_nat 34) s +:+ String (Ascii.ascii_of_nat 34) "".
Definition show_bool (b : bool) : string := if b then "true" else "false".

Definition dump_line (s : SiteSnapshot) : string :=
  let idx := pretty (SiteId.counter_index (snap_site_id s)) in
  "[" +:+ pad_left 5 idx +:+ "] count=" +:+ pad_right 10 (pretty (snap_count s)) +:+
  match snap_info s with
  | Some i => " subsys=" +:+ pad_right 20 (subsystem i) +:+ " class=" +:+ pad_right 16 (error_class i) +:+
              " op=" +:+ pad_right 12 (operation i) +:+ " recover=" +:+ show_bool (recoverable i) +:+ nl
  | None => " (unregistered)" +:+ nl
  end.
Definition dump_string (m : t) : string := foldl (λ out s, out +:+ dump_line s) "" (dump m).

Definition prometheus_line (s : SiteSnapshot) : string :=
  let idx := pretty (SiteId.counter_index (snap_site_id s)) in
  "gerror_total{site=" +:+ quote idx +:+
  match snap_info s with
  | Some i => ",subsys=" +:+ quote (subsystem i) +:+ ",class=" +:+ quote (error_class i) +:+
              ",op=" +:+ quote (operation i) +:+ ",recover=" +:+ quote (show_bool (recoverable i))
  | None => ""
  end +:+ "} " +:+ pretty (snap_count s) +:+ nl.
Definition dump_prometheus (m : t) : string :=
  foldl (λ out s, out +:+ prometheus_line s)
    ("# HELP gerror_total Per-site error counter" +:+ nl +:+ "# TYPE gerror_total counter" +:+ nl) (dump m).

(** [register_error_site!]: the value of the macro; the [SiteInfo] it builds is
    a dead constant. *)
Definition register_error_site (m : t) (i : SiteInfo) : t * Z := (m, SiteId.new (counter_index i) (unique_id i)).

End Metrics.

Module ErrorContext.

(** [message], [file], [line] and [metadata]: the fields [production] strips. *)
Record DebugFields := mkDebug {
  message : string; file : string; line : Z; metadata : option (gmap string string)
}.

(** [ErrorContext], over the type [D] of boxed errors. *)
Record t (D : Type) := mk {
  app : GlobalId.t; system : GlobalId.t; subsystem : GlobalId.t;
  error_code : GlobalId.t; user_code : GlobalId.t;
  site_id : Z;
  debug : option DebugFields;
  source : option D;
  backtrace : option string
}.
Arguments mk {D}. Arguments app {D}. Arguments system {D}. Arguments subsystem {D}.
Arguments error_code {D}. Arguments user_code {D}. Arguments site_id {D}. Arguments debug {D}.
Arguments source {D}. Arguments backtrace {D}.

Section Context.
Context {D : Type} (f : Features).

(** [Default]. *)
Definition dflt : t D :=
  let u := GlobalId.UNSET f in
  mk u u u u u SiteId.NONE (debug_only f (mkDebug "" "" 0 None)) None None.

(** A struct literal with the given fields and [..Default::default()]. *)
Definition literal (sys sub ec uc : GlobalId.t) (site : Z) (msg fl : string) (ln : Z) : t D :=
  mk (GlobalId.UNSET f) sys sub ec uc site (debug_only f (mkDebug msg fl ln None)) None None.

Definition with_source (c : t D) (e : D) : t D :=
  mk (app c) (system c) (subsystem c) (error_code c) (user_code c) (site_id c) (debug c) (Some e) (backtrace c).

(** [with_meta], which a [production] build does not have. *)
Definition insert_meta (k v : string) (d : DebugFields) : DebugFields :=
  mkDebug (message d) (file d) (line d) (Some (<[k := v]> (default ∅ (metadata d)))).
Definition with_meta (c : t D) (k v : string) : t D :=
  mk (app c) (system c) (subsystem c) (error_code c) (user_code c) (site_id c)
     (insert_meta k v <$> debug c) (source c) (backtrace c).

(** [capture_backtrace], with the text [Backtrace::capture()] prints; without
    the feature the macros do not call it. *)
Definition capture_backtrace (captured : string) (c : t D) : t D :=
  if backtrace_feature f then
    mk (app c) (system c) (subsystem c) (error_code c) (user_code c) (site_id c) (debug c) (source c)
       (match backtrace c with None => Some captured | b => b end)
  else c.

(** One [ctx.field = value] of the field overrides of [err!]. *)
Inductive override :=
| SetApp (i : GlobalId.t) | SetSystem (i : GlobalId.t) | SetSubsystem (i : GlobalId.t)
| SetErrorCode (i : GlobalId.t) | SetUserCode (i : GlobalId.t) | SetSiteId (s : Z).
Definition assign (c : t D) (o : override) : t D :=
  match o with
  | SetApp i => mk i (system c) (subsystem c) (error_code c) (user_code c) (site_id c) (debug c) (source c) (backtrace c)
  | SetSystem i => mk (app c) i (subsystem c) (error_code c) (user_code c) (site_id c) (debug c) (source c) (backtrace c)
  | SetSubsystem i => mk (app c) (system c) i (error_code c) (user_code c) (site_id c) (debug c) (source c) (backtrace c)
  | SetErrorCode i => mk (app c) (system c) (subsystem c) i (user_code c) (site_id c) (debug c) (source c) (backtrace c)
  | SetUserCode i => mk (app c) (system c) (subsystem c) (error_code c) i (site_id c) (debug c) (source c) (backtrace c)
  | SetSiteId s => mk (app c) (system c) (subsystem c) (error_code c) (user_code c) s (debug c) (source c) (backtrace c)
  end.

End Context.

End ErrorContext.

(** ** [std::io::Error] *)

(** [io::ErrorKind]: the kinds [convert.rs] names, [Other], and the rest. *)
Inductive ErrorKind :=
| NotFound | PermissionDenied | ConnectionRefused | ConnectionReset | ConnectionAborted
| NotConnected | AddrInUse | AddrNotAvailable | BrokenPipe | AlreadyExists | WouldBlock
| InvalidInput | InvalidData | TimedOut | Interrupted | UnexpectedEof | OutOfMemory
| Other | Unnamed.

#[export] Instance ErrorKind_eq_dec : EqDecision ErrorKind.
Proof. solve_decision. Defined.

(** [std]'s [decode_error_kind] on Linux, for the kinds [convert.rs] names. *)
Definition decode_error_kind (errno : Z) : ErrorKind :=
  match errno with
  | 2 => NotFound | 1 | 13 => PermissionDenied | 111 => ConnectionRefused | 104 => ConnectionReset
  | 103 => ConnectionAborted | 107 => NotConnected | 98 => AddrInUse | 99 => AddrNotAvailable
  | 32 => BrokenPipe | 17 => AlreadyExists | 11 => WouldBlock | 22 => InvalidInput | 110 => TimedOut
  | 4 => Interrupted | 12 => OutOfMemory | _ => Unnamed
  end.

Module GError.

(** [GError] (its [Repr]), the boxed [dyn Error]s it can hold (a [GError], an
    [io::Error], any other error with its text and its source) and
    [io::Error]'s representations. *)
Inductive t : Type :=
| Simple (system error_code user_code : GlobalId.t) (site_id : Z)
| Full (ctx : ErrorContext.t dyn_error)
with dyn_error : Type :=
| DynGError (e : t)
| DynIo (e : io_error)
| DynOther (message : string) (source : option dyn_error)
with io_error : Type :=
| Os (code : Z)
| SimpleKind (kind : ErrorKind)
| SimpleMessage (kind : ErrorKind) (message : string)
| Custom (kind : ErrorKind) (error : dyn_error).

Abbreviation ctx_t := (ErrorContext.t dyn_error).

Section Constructors.
Context (f : Features).

Definition simple (sys ec uc : GlobalId.t) : t := Simple sys ec uc SiteId.NONE.

Definition simple_site (m : Metrics.t) (sys ec uc : GlobalId.t) (site : Z) : Metrics.t * t :=
  let m := if metrics_feature f then (Metrics.bump m site).1 else m in
  (m, Simple sys ec uc site).

Definition full (m : Metrics.t) (ctx : ctx_t) : Metrics.t * t :=
  let m := if metrics_feature f && negb (SiteId.is_none (ErrorContext.site_id ctx))
           then (Metrics.bump m (ErrorContext.site_id ctx)).1 else m in
  (m, Full ctx).

End Constructors.

Definition system (e : t) : GlobalId.t :=
  match e with Simple s _ _ _ => s | Full c => ErrorContext.system c end.
Definition error_code (e : t) : GlobalId.t :=
  match e with Simple _ ec _ _ => ec | Full c => ErrorContext.error_code c end.
Definition user_code (e : t) : GlobalId.t :=
  match e with Simple _ _ uc _ => uc | Full c => ErrorContext.user_code c end.
Definition kind (e : t) : GlobalId.t * GlobalId.t * GlobalId.t :=
  match e with
  | Simple s ec uc _ => (s, ec, uc)
  | Full c => (ErrorContext.system c, ErrorContext.error_code c, ErrorContext.user_code c)
  end.
Definition subsystem (f : Features) (e : t) : GlobalId.t :=
  match e with Simple _ _ _ _ => GlobalId.UNSET f | Full c => ErrorContext.subsystem c end.
Definition site_id (e : t) : Z :=
  match e with Simple _ _ _ s => s | Full c => ErrorContext.site_id c end.
Definition is_simple (e : t) : bool := match e with Simple _ _ _ _ => true | Full _ => false end.
Definition context (e : t) : option ctx_t := match e with Simple _ _ _ _ => None | Full c => Some c end.

Definition into_context (f : Features) (e : t) : ctx_t :=
  match e with
  | Simple s ec uc site => ErrorContext.literal f s (GlobalId.UNSET f) ec uc site "" "" 0
  | Full c => c
  end.

(** [Error::source] of a [GError] and of the other errors; a custom
    [io::Error] answers with the source of the error it wraps. *)
Definition source (e : t) : option dyn_error :=
  match e with Simple _ _ _ _ => None | Full c => ErrorContext.source c end.
Fixpoint dyn_source (d : dyn_error) : option dyn_error :=
  match d with
  | DynGError e => source e
  | DynIo (Custom _ d') => dyn_source d'
  | DynIo _ => None
  | DynOther _ s => s
  end.

Section Display.
(** The text of an errno ([strerror]) and of an [ErrorKind]. *)
Context (os_detail : Z → string) (kind_description : ErrorKind → string).

Definition display_site (s : Z) : string := if SiteId.is_none s then "" else " (" +:+ SiteId.display s +:+ ")".

Fixpoint display (e : t) : string :=
  match e with
  | Simple s ec uc site =>
      "[" +:+ GlobalId.display s +:+ "/" +:+ GlobalId.display ec +:+ "] " +:+ GlobalId.display uc +:+ display_site site
  | Full (ErrorContext.mk _ s sub ec uc site dbg src _) =>
      "[" +:+ GlobalId.display s +:+ "/" +:+ GlobalId.display sub +:+ "/" +:+ GlobalId.display ec +:+ "] " +:+
      GlobalId.display uc +:+
      match dbg with
      | Some d => if String.eqb (ErrorContext.message d) "" then "" else ": " +:+ ErrorContext.message d
      | None => ""
      end +:+
      display_site site +:+
      match src with Some d => " — caused by: " +:+ display_dyn d | None => "" end +:+
      match dbg with
      | Some d => if String.eqb (ErrorContext.file d) "" then ""
                  else " at " +:+ ErrorContext.file d +:+ ":" +:+ pretty (ErrorContext.line d)
      | None => ""
      end
  end
with display_dyn (d : dyn_error) : string :=
  match d with DynGError e => display e | DynIo e => display_io e | DynOther msg _ => msg end
with display_io (e : io_error) : string :=
  match e with
  | Os c => os_detail c +:+ " (os error " +:+ pretty c +:+ ")"
  | SimpleKind k => kind_description k
  | SimpleMessage _ msg => msg
  | Custom _ d => display_dyn d
  end.

End Display.

End GError.

Module Convert.
Import GError.

(** [io::Error::kind] and [io::Error::raw_os_error]. *)
Definition io_kind (e : io_error) : ErrorKind :=
  match e with Os c => decode_error_kind c | SimpleKind k | SimpleMessage k _ | Custom k _ => k end.
Definition raw_os_error (e : io_error) : option Z := match e with Os c => Some c | _ => None end.

Section Convert.
Context (f : Features) (os_detail : Z → string) (kind_description : ErrorKind → string).

Definition SYS_IO : GlobalId.t := GlobalId.new f "io" 100.

Definition io_error_code (k : ErrorKind) : GlobalId.t :=
  match k with
  | NotFound => GlobalId.new f "not_found" 101
  | PermissionDenied => GlobalId.new f "permission_denied" 102
  | ConnectionRefused => GlobalId.new f "conn_refused" 103
  | ConnectionReset => GlobalId.new f "conn_reset" 104
  | ConnectionAborted => GlobalId.new f "conn_aborted" 105
  | NotConnected => GlobalId.new f "not_connected" 106
  | AddrInUse => GlobalId.new f "addr_in_use" 107
  | AddrNotAvailable => GlobalId.new f "addr_not_available" 108
  | BrokenPipe => GlobalId.new f "broken_pipe" 109
  | AlreadyExists => GlobalId.new f "already_exists" 110
  | WouldBlock => GlobalId.new f "would_block" 111
  | InvalidInput => GlobalId.new f "invalid_input" 112
  | InvalidData => GlobalId.new f "invalid_data" 113
  | TimedOut => GlobalId.new f "timed_out" 114
  | Interrupted => GlobalId.new f "interrupted" 115
  | UnexpectedEof => GlobalId.new f "unexpected_eof" 116
  | OutOfMemory => GlobalId.new f "out_of_memory" 117
  | Other | Unnamed => GlobalId.new f "other" 199
  end.

(** [From<io::Error> for GError]. *)
Definition from_io (m : Metrics.t) (err : io_error) : Metrics.t * t :=
  let ec := io_error_code (io_kind err) in
  match raw_os_error err with
  | Some _ => (m, simple SYS_IO ec (GlobalId.UNSET f))
  | None =>
      let u := GlobalId.UNSET f in
      let ctx := ErrorContext.literal f SYS_IO u ec u SiteId.NONE (display_io os_detail kind_description err) "" 0 in
      full f m (ErrorContext.with_source ctx (DynIo err))
  end.

(** [From<GError> for io::Error]. *)
Definition into_io (err : t) : io_error := Custom Other (DynGError err).

(** [ResultExt]; [dyn] boxes the error of the [Result]. *)
Section ResultExt.
Context {T E : Type} (dyn : E → dyn_error).

Definition map_err (m : Metrics.t) (r : Result T E) (g : E → Metrics.t * t) : Metrics.t * Result T t :=
  match r with Ok v => (m, Ok v) | Err e => let '(m, e') := g e in (m, Err e') end.

Definition gerr_context (m : Metrics.t) (r : Result T E) (msg : string) : Metrics.t * Result T t :=
  map_err m r (λ e,
    let u := GlobalId.UNSET f in
    full f m (ErrorContext.with_source (ErrorContext.literal f SYS_IO u u u SiteId.NONE msg "" 0) (dyn e))).

Definition gerr_ctx (m : Metrics.t) (r : Result T E) (sys ec uc : GlobalId.t) (msg : string)
  : Metrics.t * Result T t :=
  map_err m r (λ e,
    full f m (ErrorContext.with_source
      (ErrorContext.literal f sys (GlobalId.UNSET f) ec uc SiteId.NONE msg "" 0) (dyn e))).

End ResultExt.
End Convert.

End Convert.

Module Macros.
Import GError.

Section Err.
(** The features, the text of the backtrace, and [file!()] and [line!()]. *)
Context (f : Features) (captured : string) (file : string) (line : Z) (m : Metrics.t).
Context (sys sub ec uc : GlobalId.t) (msg : string).

(** The struct literal of the four forms. *)
Definition err_ctx : ctx_t := ErrorContext.literal f sys sub ec uc SiteId.NONE msg file line.
Definition finish (ctx : ctx_t) : Metrics.t * t := full f m (ErrorContext.capture_backtrace f captured ctx).

Definition err : Metrics.t * t := finish err_ctx.
Definition err_source (src : dyn_error) : Metrics.t * t := finish (ErrorContext.with_source err_ctx src).
Definition err_fields (fs : list ErrorContext.override) : Metrics.t * t :=
  finish (foldl ErrorContext.assign err_ctx fs).
Definition err_source_fields (src : dyn_error) (fs : list ErrorContext.override) : Metrics.t * t :=
  finish (foldl ErrorContext.assign (ErrorContext.with_source err_ctx src) fs).

(** [ensure!]: the early return is [Err]. *)
Definition ensure (cond : bool) : Metrics.t * Result unit t :=
  if negb cond then let '(m, e) := err in (m, Err e) else (m, Ok ()).

End Err.

Definition quick_err (f : Features) (captured file : string) (line : Z) (m : Metrics.t)
    (sys ec : GlobalId.t) (msg : string) : Metrics.t * t :=
  err f captured file line m sys (GlobalId.UNSET f) ec (GlobalId.UNSET f) msg.

(** The arms [__match_error_arms!] has a rule for. *)
Inductive arm :=
| AnyArm
| SysArm (s : GlobalId.t)
| SysErrArm (s e : GlobalId.t)
| FullArm (s e u : GlobalId.t).

(** Whether the generated test of an arm holds of the error's triple. *)
Definition arm_matches (k : GlobalId.t * GlobalId.t * GlobalId.t) (a : arm) : bool :=
  let '(sys, er, uc) := k in
  match a with
  | AnyArm => true
  | SysArm s => GlobalId.code sys =? GlobalId.code s
  | SysErrArm s e => (GlobalId.code sys =? GlobalId.code s) && (GlobalId.code er =? GlobalId.code e)
  | FullArm s e u => (GlobalId.code sys =? GlobalId.code s) && (GlobalId.code er =? GlobalId.code e) &&
                     (GlobalId.code uc =? GlobalId.code u)
  end.

(** [__match_error_arms!]: the nested [if]s; without an arm left, [unreachable!]. *)
Fixpoint match_error_arms {A} (k : GlobalId.t * GlobalId.t * GlobalId.t) (arms : list (arm * A)) : outcome A :=
  match arms with
  | [] => Panic
  | (AnyArm, h) :: _ => Ret h
  | (a, h) :: rest => if arm_matches k a then Ret h else match_error_arms k rest
  end.
Definition match_error {A} (e : t) (arms : list (arm * A)) : outcome A := match_error_arms (kind e) arms.

End Macros.

(** The tables of [codes/] ([lib.rs] has no [mod codes], so that the crate does
    not compile them). *)
Module Codes.

Definition os : list (string * Z) :=
  [("posix", 1000); ("linux", 1001); ("macos", 1002); ("windows", 1003); ("freebsd", 1004);
   ("io", 1010); ("net", 1011); ("fs", 1012)].

Definition errno : list (string * Z) :=
  [("EPERM", 2001); ("ENOENT", 2002); ("ESRCH", 2003); ("EINTR", 2004); ("EIO", 2005); ("ENXIO", 2006);
   ("EACCES", 2013); ("EEXIST", 2017); ("ENOMEM", 2012); ("EAGAIN", 2011); ("EWOULDBLOCK", 2011);
   ("EMFILE", 2024); ("ENFILE", 2023); ("EBADF", 2009); ("EINVAL", 2022); ("EPIPE", 2032); ("EFBIG", 2027);
   ("ENOSPC", 2028); ("EADDRINUSE", 2098); ("EADDRNOTAVAIL", 2099); ("ENETDOWN", 2100); ("ENETUNREACH", 2101);
   ("ECONNABORTED", 2103); ("ECONNRESET", 2104); ("ENOBUFS", 2105); ("EISCONN", 2106); ("ENOTCONN", 2107);
   ("ETIMEDOUT", 2110); ("ECONNREFUSED", 2111); ("EHOSTUNREACH", 2113); ("EALREADY", 2114);
   ("EINPROGRESS", 2115); ("EOTHER", 2999)].

Definition ops : list (string * Z) :=
  [("open", 4001); ("close", 4002); ("read", 4003); ("write", 4004); ("seek", 4005); ("flush", 4006);
   ("sync", 4007); ("stat", 4008); ("bind", 4020); ("listen", 4021); ("accept", 4022); ("connect", 4023);
   ("send", 4024); ("recv", 4025); ("shutdown", 4026); ("spawn", 4040); ("join", 4041); ("cancel", 4042);
   ("park", 4043); ("wake", 4044); ("submit", 4060); ("poll", 4061); ("complete", 4062); ("init", 4080);
   ("start", 4081); ("stop", 4082); ("configure", 4083); ("allocate", 4084); ("parse", 4100);
   ("serialize", 4101); ("validate", 4102); ("encode", 4103); ("decode", 4104)].

Definition gvthread : list (string * Z) :=
  [("gvt_runtime", 5001); ("gvt_ksvc", 5002); ("gvt_net", 5003);
   ("gvt_scheduler", 5100); ("gvt_worker", 5101); ("gvt_stack", 5102); ("gvt_io_uring", 5103);
   ("gvt_reactor", 5104); ("gvt_listener", 5105); ("gvt_stream", 5106);
   ("gvt_ring_setup", 6001); ("gvt_sqe_submit", 6002); ("gvt_cqe_error", 6003);
   ("gvt_probe_unsupported", 6004); ("gvt_spawn_failed", 6005); ("gvt_pool_exhausted", 6006);
   ("gvt_stack_alloc", 6007); ("gvt_shutdown", 6008)].

(** The name [errno_to_global_id] gives a known errno. *)
Definition errno_name (e : Z) : option string :=
  match e with
  | 1 => Some "EPERM" | 2 => Some "ENOENT" | 3 => Some "ESRCH" | 4 => Some "EINTR" | 5 => Some "EIO"
  | 6 => Some "ENXIO" | 9 => Some "EBADF" | 11 => Some "EAGAIN" | 12 => Some "ENOMEM" | 13 => Some "EACCES"
  | 17 => Some "EEXIST" | 22 => Some "EINVAL" | 23 => Some "ENFILE" | 24 => Some "EMFILE" | 27 => Some "EFBIG"
  | 28 => Some "ENOSPC" | 32 => Some "EPIPE" | 98 => Some "EADDRINUSE" | 99 => Some "EADDRNOTAVAIL"
  | 100 => Some "ENETDOWN" | 101 => Some "ENETUNREACH" | 103 => Some "ECONNABORTED" | 104 => Some "ECONNRESET"
  | 105 => Some "ENOBUFS" | 106 => Some "EISCONN" | 107 => Some "ENOTCONN" | 110 => Some "ETIMEDOUT"
  | 111 => Some "ECONNREFUSED" | 113 => Some "EHOSTUNREACH" | 114 => Some "EALREADY" | 115 => Some "EINPROGRESS"
  | _ => None
  end.

(** The code of a named constant. *)
Definition code_of (tbl : list (string * Z)) (n : string) : Z :=
  match List.find (λ x, String.eqb x.1 n) tbl with Some x => x.2 | None => 0 end.

(** [errno_to_global_id]; [errno as u64] sign-extends, and the addition wraps in
    a release build. *)
Definition errno_to_global_id (f : Features) (e : Z) : GlobalId.t :=
  match errno_name e with
  | Some n => GlobalId.new f n (code_of errno n)
  | None => GlobalId.new f "errno" (2000 +[64] wrap 64 e)
  end.

End Codes.

(** ** Every way to create an error *)

Module Creation.
Import GError.

Inductive creation :=
| BySimple (sys ec uc : GlobalId.t)
| BySimpleSite (sys ec uc : GlobalId.t) (site : Z)
| ByFull (ctx : ctx_t)
| ByErr (sys sub ec uc : GlobalId.t) (msg : string)
| ByErrSource (sys sub ec uc : GlobalId.t) (msg : string) (src : dyn_error)
| ByErrFields (sys sub ec uc : GlobalId.t) (msg : string) (fs : list ErrorContext.override)
| ByErrSourceFields (sys sub ec uc : GlobalId.t) (msg : string) (src : dyn_error) (fs : list ErrorContext.override)
| ByQuickErr (sys ec : GlobalId.t) (msg : string)
| ByIo (err : io_error)
| ByGerrContext (err : dyn_error) (msg : string)
| ByGerrCtx (err : dyn_error) (sys ec uc : GlobalId.t) (msg : string).

Section Create.
Context (f : Features) (captured file : string) (line : Z).
Context (os_detail : Z → string) (kind_description : ErrorKind → string).

(** The error in the [Err] a conversion of an [Err] returns. *)
Definition unwrap_err (e0 : t) (r : Metrics.t * Result unit t) : Metrics.t * t :=
  match r with (m, Err e) => (m, e) | (m, Ok _) => (m, e0) end.

Definition create (m : Metrics.t) (c : creation) : Metrics.t * t :=
  let u := GlobalId.UNSET f in
  match c with
  | BySimple sys ec uc => (m, simple sys ec uc)
  | BySimpleSite sys ec uc site => simple_site f m sys ec uc site
  | ByFull ctx => full f m ctx
  | ByErr sys sub ec uc msg => Macros.err f captured file line m sys sub ec uc msg
  | ByErrSource sys sub ec uc msg src => Macros.err_source f captured file line m sys sub ec uc msg src
  | ByErrFields sys sub ec uc msg fs => Macros.err_fields f captured file line m sys sub ec uc msg fs
  | ByErrSourceFields sys sub ec uc msg src fs =>
      Macros.err_source_fields f captured file line m sys sub ec uc msg src fs
  | ByQuickErr sys ec msg => Macros.quick_err f captured file line m sys ec msg
  | ByIo err => Convert.from_io f os_detail kind_description m err
  | ByGerrContext err msg => unwrap_err (simple u u u) (Convert.gerr_context f id m (Err err) msg)
  | ByGerrCtx err sys ec uc msg => unwrap_err (simple u u u) (Convert.gerr_ctx f id m (Err err) sys ec uc msg)
  end.

(** The errors a sequence of creations makes, and the metrics after it. *)
Fixpoint create_all (m : Metrics.t) (cs : list creation) : Metrics.t * list t :=
  match cs with
  | [] => (m, [])
  | c :: cs' => let '(m1, e) := create m c in let '(m2, es) := create_all m1 cs' in (m2, e :: es)
  end.

End Create.

End Creation.

(** ** Site ids *)

Section SiteIds.

Lemma counter_index_new ci uid : in_u 32 ci → in_u 32 uid → SiteId.counter_index (SiteId.new ci uid) = ci.
Proof.
  intros Hc Hu. unfold SiteId.counter_index, SiteId.new.
  rewrite Z.shiftr_lor, Z.shiftr_shiftl_l, Z.sub_diag, Z.shiftl_0_r by lia.
  rewrite (Z.shiftr_eq_0 uid), Z.lor_0_r; [by apply wrap_small|unfold in_u in *; lia|].
  destruct (decide (uid = 0)) as [->|]; [done|]. apply Z.log2_lt_pow2; unfold in_u in *; lia.
Qed.

Lemma unique_id_new ci uid : in_u 32 uid → SiteId.unique_id (SiteId.new ci uid) = uid.
Proof.
  intros Hu. unfold SiteId.unique_id, SiteId.new, wrap.
  rewrite <- Z.land_ones, Z.land_lor_distr_l, !Z.land_ones, Z.shiftl_mul_pow2, Z.mod_mul by lia.
  rewrite Z.lor_0_l. by apply (wrap_small 32).
Qed.

Lemma new_parts s : in_u 64 s → SiteId.new (SiteId.counter_index s) (SiteId.unique_id s) = s.
Proof.
  intros Hs. unfold SiteId.new, SiteId.counter_index, SiteId.unique_id.
  rewrite wrap_small.
  - apply Z.bits_inj'. intros i Hi. rewrite Z.lor_spec. unfold wrap.
    destruct (decide (i < 32)).
    + rewrite Z.shiftl_spec_low, Z.mod_pow2_bits_low by lia. done.
    + rewrite Z.shiftl_spec_high, Z.mod_pow2_bits_high, orb_false_r, Z.shiftr_spec by lia. f_equal. lia.
  - unfold in_u in *. rewrite Z.shiftr_div_pow2 by lia. split; [apply Z.div_pos; lia|].
    apply Z.div_lt_upper_bound; lia.
Qed.

End SiteIds.

(** A site id packs its two halves without loss: both come back from
    [SiteId::new], every [u64] is the packing of its halves, and the only packed
    id that is [NONE] has both halves zero. *)
Theorem site_id_roundtrip ci uid s :
  in_u 32 ci → in_u 32 uid → in_u 64 s →
  SiteId.counter_index (SiteId.new ci uid) = ci ∧ SiteId.unique_id (SiteId.new ci uid) = uid ∧
  SiteId.new (SiteId.counter_index s) (SiteId.unique_id s) = s ∧
  (SiteId.is_none (SiteId.new ci uid) = true ↔ ci = 0 ∧ uid = 0).
Proof.
  intros Hc Hu Hs. pose proof (counter_index_new _ _ Hc Hu) as H1. pose proof (unique_id_new ci _ Hu) as H2.
  split_and!; [done|done|by apply new_parts|]. unfold SiteId.is_none. rewrite Z.eqb_eq.
  split; [intros H; rewrite H in H1, H2; by subst|by intros [-> ->]].
Qed.

Lemma site_id_roundtrip_witness :
  SiteId.counter_index (SiteId.new 42 1001) = 42 ∧ SiteId.unique_id (SiteId.new 42 1001) = 1001 ∧
  SiteId.new (SiteId.counter_index 4294967299) (SiteId.unique_id 4294967299) = 4294967299 ∧
  (SiteId.is_none (SiteId.new 42 1001) = true ↔ 42 = 0 ∧ 1001 = 0).
Proof. apply (site_id_roundtrip 42 1001 4294967299); by vm_compute. Defined.

(** ** Counters *)

(** The counter array has its length, and every counter is a [u64]. *)
Definition counters_wf (m : Metrics.t) : Prop :=
  Z.of_nat (length (Metrics.COUNTERS m)) = Metrics.MAX_SITES ∧ Forall (in_u 64) (Metrics.COUNTERS m).

(** The operations on the counters, and the calls that change one. *)
Inductive counter_op := OpBump (site : Z) | OpReset (site : Z) | OpResetAll.
Definition run_op (m : Metrics.t) (o : counter_op) : Metrics.t :=
  match o with
  | OpBump s => (Metrics.bump m s).1
  | OpReset s => (Metrics.reset m s).1
  | OpResetAll => Metrics.reset_all m
  end.

(** What the counter of an index promises: the bumps of sites with this index
    since it was last reset.  Index 0 and the indices past the array are not
    counted. *)
Definition tracked (idx : Z) : bool := (0 <? idx) && (idx <? Metrics.MAX_SITES).
Definition spec_op (idx : Z) (n : Z) (o : counter_op) : Z :=
  match o with
  | OpBump s => if tracked idx && (SiteId.counter_index s =? idx) then n + 1 else n
  | OpReset s => if SiteId.counter_index s =? idx then 0 else n
  | OpResetAll => 0
  end.

Section Counters.

Lemma counter_index_range s : 0 ≤ SiteId.counter_index s < 2 ^ 32.
Proof. by apply wrap_range. Qed.

Lemma load_store m i j v :
  counters_wf m → 0 ≤ i < Metrics.MAX_SITES → 0 ≤ j →
  Metrics.load (Metrics.store m i v) j = if j =? i then v else Metrics.load m j.
Proof.
  intros [Hl _] Hi Hj. unfold Metrics.load, Metrics.store, Metrics.set_counters. cbn [Metrics.COUNTERS].
  destruct (Z.eqb_spec j i) as [->|]; [by rewrite list_lookup_insert_eq by lia|].
  by rewrite list_lookup_insert_ne by lia.
Qed.

Lemma load_in_u m i : counters_wf m → in_u 64 (Metrics.load m i).
Proof.
  intros [_ Hf]. unfold Metrics.load. destruct (_ !! _) eqn:E; [|done]. cbn.
  by eapply Forall_lookup_1 in Hf.
Qed.

Lemma store_wf m i v : counters_wf m → in_u 64 v → counters_wf (Metrics.store m i v).
Proof.
  intros [Hl Hf] Hv. split; cbn; [by rewrite length_insert|by apply Forall_insert].
Qed.

Lemma init_wf : counters_wf Metrics.init.
Proof. split; [by vm_compute|]. by apply Forall_replicate. Qed.

Lemma load_reset_all m i : Metrics.load (Metrics.reset_all m) i = 0.
Proof. unfold Metrics.load. cbn. rewrite list_lookup_fmap. by destruct (_ !! _). Qed.

Lemma run_op_wf m o : counters_wf m → counters_wf (run_op m o).
Proof.
  intros Hm. destruct o as [s|s|]; cbn [run_op].
  - unfold Metrics.bump. case_match; [|done]. apply store_wf; [done|by apply wrap_in_u].
  - unfold Metrics.reset. case_match; [|done]. by apply store_wf.
  - destruct Hm as [Hl Hf]. split; cbn; [by rewrite length_fmap|]. apply Forall_fmap.
    eapply Forall_impl; [exact Hf|done].
Qed.

(** One operation moves every counter as its abstract counter. *)
Lemma run_op_load m o idx n :
  counters_wf m → 0 ≤ idx < Metrics.MAX_SITES → Metrics.load m idx = wrap 64 n →
  Metrics.load (run_op m o) idx = wrap 64 (spec_op idx n o).
Proof.
  intros Hm Hi Hn. destruct o as [s|s|]; cbn [run_op spec_op]; [| |by rewrite load_reset_all].
  - pose proof (counter_index_range s). unfold Metrics.bump, tracked.
    destruct (Z.ltb_spec 0 (SiteId.counter_index s)), (Z.ltb_spec (SiteId.counter_index s) Metrics.MAX_SITES);
      cbn [andb fst]; destruct (Z.eqb_spec (SiteId.counter_index s) idx) as [<-|];
      rewrite ?andb_true_r, ?andb_false_r; try lia; try (by rewrite Hn);
      rewrite ?load_store, ?Z.eqb_refl by (done || lia).
    + destruct (Z.ltb_spec 0 (SiteId.counter_index s)), (Z.ltb_spec (SiteId.counter_index s) Metrics.MAX_SITES);
        try lia. cbn. by rewrite Hn, wrap_add_l.
    + destruct (Z.eqb_spec idx (SiteId.counter_index s)); [lia|done].
    + destruct (Z.ltb_spec 0 (SiteId.counter_index s)); [lia|done].
  - pose proof (counter_index_range s). unfold Metrics.reset.
    destruct (Z.ltb_spec (SiteId.counter_index s) Metrics.MAX_SITES); cbn [fst];
      destruct (Z.eqb_spec (SiteId.counter_index s) idx) as [<-|]; try lia; try done;
      rewrite load_store by (done || lia); [by rewrite Z.eqb_refl|].
    by destruct (Z.eqb_spec idx (SiteId.counter_index s)); [lia|].
Qed.

Lemma run_ops_load ops m idx n :
  counters_wf m → 0 ≤ idx < Metrics.MAX_SITES → Metrics.load m idx = wrap 64 n →
  counters_wf (foldl run_op m ops) ∧
  Metrics.load (foldl run_op m ops) idx = wrap 64 (foldl (spec_op idx) n ops).
Proof.
  revert m n. induction ops as [|o ops IH]; intros m n Hm Hi Hn; [done|]. cbn [foldl].
  apply IH; [by apply run_op_wf|done|by apply run_op_load].
Qed.

Lemma load_init idx : Metrics.load Metrics.init idx = 0.
Proof.
  unfold Metrics.load, Metrics.init. cbn [Metrics.COUNTERS].
  destruct (replicate _ _ !! _) eqn:E; [|done]. by apply lookup_replicate_1 in E as [-> _].
Qed.

End Counters.

(** The counters refine the abstract counts: after any sequence of bumps and
    resets, [count] of a site is the number of bumps of sites with its counter
    index since the last reset that touched it, modulo [2^64], and 0 for index 0
    and for the indices past the array; [bump] returns the count before it. *)
Theorem counters_refine ops s :
  let m := foldl run_op Metrics.init ops in
  let n := foldl (spec_op (SiteId.counter_index s)) 0 ops in
  Metrics.count m s = (if tracked (SiteId.counter_index s) then wrap 64 n else 0) ∧
  (Metrics.bump m s).2 = Metrics.count m s.
Proof.
  pose proof (counter_index_range s) as Hr. unfold Metrics.count, Metrics.bump, tracked.
  set (idx := SiteId.counter_index s) in *.
  destruct (Z.ltb_spec idx Metrics.MAX_SITES); [|by rewrite andb_false_r].
  destruct (run_ops_load ops Metrics.init idx 0) as [_ ->]; [apply init_wf|lia|by rewrite load_init|].
  destruct (Z.ltb_spec 0 idx) as [|H0]; cbn [andb]; [done|]. cbn [snd]. split; [|].
  all: assert (∀ ops n, n = 0 → foldl (spec_op idx) n ops = 0) as Hz
    by (clear -H0; induction ops as [|[s'|s'|] ops IH]; intros n ->; cbn; [done|..|by apply IH];
        apply IH; unfold tracked; [by destruct (Z.ltb_spec 0 idx); [lia|]|by destruct (_ =? _)]);
    by rewrite Hz.
Qed.

(** The indices [site.rs] gives to applications, [0x10000] and above, are past
    the counter array: such a site is never counted. *)
Theorem user_sites_not_counted m ci uid :
  in_u 32 ci → in_u 32 uid → 65536 ≤ ci →
  Metrics.bump m (SiteId.new ci uid) = (m, 0) ∧ Metrics.count m (SiteId.new ci uid) = 0.
Proof.
  intros Hc Hu Hci. unfold Metrics.bump, Metrics.count. rewrite (counter_index_new _ _ Hc Hu).
  destruct (Z.ltb_spec ci Metrics.MAX_SITES) as [H|]; [unfold Metrics.MAX_SITES in H; lia|].
  by rewrite andb_false_r.
Qed.

Lemma user_sites_not_counted_witness :
  Metrics.bump Metrics.init (SiteId.new 65536 1) = (Metrics.init, 0) ∧
  Metrics.count Metrics.init (SiteId.new 65536 1) = 0.
Proof. apply user_sites_not_counted; [done..|lia]. Defined.

(** ** Errors and their counters *)

Section Creations.
Context (f : Features) (captured file : string) (line : Z).
Context (os_detail : Z → string) (kind_description : ErrorKind → string).

Abbreviation create := (Creation.create f captured file line os_detail kind_description).
Abbreviation create_all := (Creation.create_all f captured file line os_detail kind_description).

(** [full] counts its site like [simple_site] does: [bump] ignores [NONE]. *)
Lemma full_bumps m ctx :
  GError.full f m ctx =
  (if metrics_feature f then (Metrics.bump m (ErrorContext.site_id ctx)).1 else m, GError.Full ctx).
Proof.
  unfold GError.full. destruct (metrics_feature f); cbn [andb]; [|done].
  destruct (SiteId.is_none (ErrorContext.site_id ctx)) eqn:E; cbn [negb]; [|done].
  unfold SiteId.is_none in E. apply Z.eqb_eq in E. by rewrite E.
Qed.

Lemma capture_backtrace_site (c : ErrorContext.t GError.dyn_error) :
  ErrorContext.site_id (ErrorContext.capture_backtrace f captured c) = ErrorContext.site_id c.
Proof. unfold ErrorContext.capture_backtrace. by destruct (backtrace_feature f). Qed.

Lemma create_bumps m c :
  (create m c).1 = if metrics_feature f then (Metrics.bump m (GError.site_id (create m c).2)).1 else m.
Proof.
  destruct c; cbn [Creation.create];
    unfold Macros.quick_err, Macros.err, Macros.err_source, Macros.err_fields, Macros.err_source_fields,
      Macros.finish, Convert.gerr_context, Convert.gerr_ctx;
    cbn [Convert.map_err]; rewrite ?full_bumps;
    try (cbn; by destruct (metrics_feature f)).
  unfold Convert.from_io. destruct (Convert.raw_os_error err); [cbn; by destruct (metrics_feature f)|].
  rewrite full_bumps. cbn. by destruct (metrics_feature f).
Qed.

Lemma bump_is_run_op m s : (Metrics.bump m s).1 = run_op m (OpBump s).
Proof. done. Qed.

Lemma create_all_run m cs :
  (create_all m cs).1 =
  if metrics_feature f then foldl run_op m (OpBump ∘ GError.site_id <$> (create_all m cs).2) else m.
Proof.
  revert m. induction cs as [|c cs IH]; intros m; cbn [Creation.create_all].
  - by destruct (metrics_feature f).
  - pose proof (create_bumps m c) as Hc. destruct (create m c) as [m1 e]. cbn [fst snd] in Hc.
    specialize (IH m1). destruct (create_all m1 cs) as [m2 es]. cbn [fst snd fmap list_fmap foldl] in *.
    subst m1. rewrite IH. by destruct (metrics_feature f).
Qed.

Lemma spec_bumps idx n (es : list GError.t) :
  tracked idx = true →
  foldl (spec_op idx) n (OpBump ∘ GError.site_id <$> es) =
  n + Z.of_nat (length (filter (λ e, SiteId.counter_index (GError.site_id e) = idx) es)).
Proof.
  intros Ht. revert n. induction es as [|e es IH]; intros n; cbn [fmap list_fmap foldl]; [cbn; lia|].
  rewrite IH. cbn [compose spec_op]. rewrite Ht, filter_cons. cbn [andb].
  destruct (Z.eqb_spec (SiteId.counter_index (GError.site_id e)) idx); case_decide; try done; cbn [length]; lia.
Qed.

End Creations.

(** C27: Every error is counted, once: with the [metrics] feature, whatever way the
    errors of a sequence are created, the counter of a tracked site grows by the
    number of created errors that carry a site with its index (modulo [2^64]);
    without the feature the metrics do not change. *)
Theorem errors_counted f captured file line os_detail kind_description m cs s :
  counters_wf m → tracked (SiteId.counter_index s) = true →
  let r := Creation.create_all f captured file line os_detail kind_description m cs in
  if metrics_feature f then
    Metrics.count r.1 s = Metrics.count m s +[64]
      Z.of_nat (length (filter (λ e, SiteId.counter_index (GError.site_id e) = SiteId.counter_index s) r.2))
  else r.1 = m.
Proof.
  intros Hm Ht r. pose proof (create_all_run f captured file line os_detail kind_description m cs) as Hr.
  fold r in Hr. destruct (metrics_feature f); [|done].
  rewrite <- spec_bumps by done. apply andb_true_iff in Ht as [H0 H1]. apply Z.ltb_lt in H0.
  unfold Metrics.count. rewrite H1. apply Z.ltb_lt in H1. rewrite Hr.
  apply (run_ops_load _ m); [done|lia|]. symmetry. apply wrap_small, load_in_u. done.
Qed.

Definition demo_features : Features := {| production := false; backtrace_feature := false; metrics_feature := true |}.

Lemma errors_counted_witness :
  let id := GlobalId.new demo_features in
  let r := Creation.create_all demo_features "" "net.rs" 7 (λ _, "") (λ _, "") Metrics.init
    [Creation.BySimpleSite (id "net" 3) (id "eagain" 11) (id "accept" 1) (SiteId.new 101 1);
     Creation.ByIo (GError.Os 104);
     Creation.ByErrFields (id "net" 3) (id "listener" 5) (id "bind" 8) (id "listen" 2) "in use"
       [ErrorContext.SetSiteId (SiteId.new 101 2)]] in
  Metrics.count r.1 (SiteId.new 101 0) = Metrics.count Metrics.init (SiteId.new 101 0) +[64]
    Z.of_nat (length (filter (λ e, SiteId.counter_index (GError.site_id e) = SiteId.counter_index (SiteId.new 101 0)) r.2)).
Proof.
  exact (errors_counted demo_features "" "net.rs" 7 (λ _, "") (λ _, "") Metrics.init _ (SiteId.new 101 0)
    init_wf eq_refl).
Defined.

(** ** Matching *)

Section Matching.
Context {A : Type}.

Lemma match_error_arms_first k (arms : list (Macros.arm * A)) :
  Macros.match_error_arms k arms =
  match List.find (λ ah, Macros.arm_matches k ah.1) arms with Some ah => Ret ah.2 | None => Panic end.
Proof.
  induction arms as [|[a h] arms IH]; [done|]. cbn [Macros.match_error_arms List.find fst].
  destruct a; cbn - [Macros.arm_matches]; [by destruct k as [[??]?]|..]; by destruct (Macros.arm_matches _ _).
Qed.

(** Matching respects equality of ids, which is equality of codes. *)
#[global] Instance match_error_arms_proper :
  Proper (prod_relation (prod_relation (≡) (≡)) (≡) ==> (=) ==> (=)) (Macros.match_error_arms (A := A)).
Proof.
  intros [[s e] u] [[s' e'] u'] [[Hs He] Hu] arms ? <-. cbn in Hs, He, Hu.
  rewrite !match_error_arms_first. f_equal.
  induction arms as [|[a h] arms IH]; [done|]. cbn [List.find fst].
  assert (Macros.arm_matches (s, e, u) a = Macros.arm_matches (s', e', u') a) as ->.
  { destruct a; cbn; by rewrite ?Hs, ?He, ?Hu. }
  by destruct (Macros.arm_matches _ _).
Qed.

End Matching.

Lemma find_first {A} (p : A → bool) (l : list A) i x :
  l !! i = Some x → p x = true → (∀ j y, (j < i)%nat → l !! j = Some y → p y = false) →
  List.find p l = Some x.
Proof.
  revert i. induction l as [|z l IH]; intros [|i] Hi Hx Hj; simplify_eq/=; [by rewrite Hx|].
  rewrite (Hj O z) by (done || lia). eapply IH; [done..|]. intros j y Hlt. apply (Hj (S j)). lia.
Qed.

(** [match_error!] runs the handler of the first arm whose codes agree with the
    error's, panics exactly when no arm agrees, and sees nothing of an error but
    the codes of its triple. *)
Theorem match_error_first {A} (e : GError.t) (arms : list (Macros.arm * A)) :
  (∀ i a h, arms !! i = Some (a, h) → Macros.arm_matches (GError.kind e) a = true →
     (∀ j b, (j < i)%nat → arms !! j = Some b → Macros.arm_matches (GError.kind e) b.1 = false) →
     Macros.match_error e arms = Ret h) ∧
  (Macros.match_error e arms = Panic ↔ ∀ b, b ∈ arms → Macros.arm_matches (GError.kind e) b.1 = false) ∧
  (∀ e', GError.system e' ≡ GError.system e → GError.error_code e' ≡ GError.error_code e →
     GError.user_code e' ≡ GError.user_code e → Macros.match_error e' arms = Macros.match_error e arms).
Proof.
  unfold Macros.match_error. split_and!.
  - intros i a h Hi Ha Hj. rewrite match_error_arms_first.
    by rewrite (find_first _ _ i (a, h)).
  - rewrite match_error_arms_first. destruct (List.find _ arms) as [b|] eqn:E; split; try done.
    + intros Hn. apply List.find_some in E as [Hin Hb]. apply list_elem_of_In in Hin. by rewrite Hn in Hb.
    + intros _ b Hb. by eapply List.find_none in E; [|by apply list_elem_of_In].
  - intros e' Hs He Hu. apply match_error_arms_proper; [|done]. by destruct e, e'.
Qed.

(** ** The [production] build *)

Section Production.
Import GError.

Definition strip_id (i : GlobalId.t) : GlobalId.t := GlobalId.mk None (GlobalId.code i).

(** What is left of an error when the [production] feature has stripped names,
    messages, locations and metadata. *)
Fixpoint strip (e : t) : t :=
  match e with
  | Simple s ec uc site => Simple (strip_id s) (strip_id ec) (strip_id uc) site
  | Full (ErrorContext.mk a s sub ec uc site _ src bt) =>
      Full (ErrorContext.mk (strip_id a) (strip_id s) (strip_id sub) (strip_id ec) (strip_id uc) site None
        (match src with Some d => Some (strip_dyn d) | None => None end) bt)
  end
with strip_dyn (d : dyn_error) : dyn_error :=
  match d with
  | DynGError e => DynGError (strip e)
  | DynIo e => DynIo (strip_io e)
  | DynOther msg src => DynOther msg (match src with Some d => Some (strip_dyn d) | None => None end)
  end
with strip_io (e : io_error) : io_error :=
  match e with Custom k d => Custom k (strip_dyn d) | _ => e end.

Definition strip_ctx (c : ctx_t) : ctx_t :=
  ErrorContext.mk (strip_id (ErrorContext.app c)) (strip_id (ErrorContext.system c))
    (strip_id (ErrorContext.subsystem c)) (strip_id (ErrorContext.error_code c))
    (strip_id (ErrorContext.user_code c)) (ErrorContext.site_id c) None
    (strip_dyn <$> ErrorContext.source c) (ErrorContext.backtrace c).

Definition strip_override (o : ErrorContext.override) : ErrorContext.override :=
  match o with
  | ErrorContext.SetApp i => ErrorContext.SetApp (strip_id i)
  | ErrorContext.SetSystem i => ErrorContext.SetSystem (strip_id i)
  | ErrorContext.SetSubsystem i => ErrorContext.SetSubsystem (strip_id i)
  | ErrorContext.SetErrorCode i => ErrorContext.SetErrorCode (strip_id i)
  | ErrorContext.SetUserCode i => ErrorContext.SetUserCode (strip_id i)
  | ErrorContext.SetSiteId s => ErrorContext.SetSiteId s
  end.

Definition strip_creation (c : Creation.creation) : Creation.creation :=
  let i := strip_id in
  match c with
  | Creation.BySimple sys ec uc => Creation.BySimple (i sys) (i ec) (i uc)
  | Creation.BySimpleSite sys ec uc site => Creation.BySimpleSite (i sys) (i ec) (i uc) site
  | Creation.ByFull ctx => Creation.ByFull (strip_ctx ctx)
  | Creation.ByErr sys sub ec uc msg => Creation.ByErr (i sys) (i sub) (i ec) (i uc) msg
  | Creation.ByErrSource sys sub ec uc msg src =>
      Creation.ByErrSource (i sys) (i sub) (i ec) (i uc) msg (strip_dyn src)
  | Creation.ByErrFields sys sub ec uc msg fs =>
      Creation.ByErrFields (i sys) (i sub) (i ec) (i uc) msg (strip_override <$> fs)
  | Creation.ByErrSourceFields sys sub ec uc msg src fs =>
      Creation.ByErrSourceFields (i sys) (i sub) (i ec) (i uc) msg (strip_dyn src) (strip_override <$> fs)
  | Creation.ByQuickErr sys ec msg => Creation.ByQuickErr (i sys) (i ec) msg
  | Creation.ByIo err => Creation.ByIo (strip_io err)
  | Creation.ByGerrContext err msg => Creation.ByGerrContext (strip_dyn err) msg
  | Creation.ByGerrCtx err sys ec uc msg => Creation.ByGerrCtx (strip_dyn err) (i sys) (i ec) (i uc) msg
  end.

Definition strip_arm (a : Macros.arm) : Macros.arm :=
  match a with
  | Macros.AnyArm => Macros.AnyArm
  | Macros.SysArm s => Macros.SysArm (strip_id s)
  | Macros.SysErrArm s e => Macros.SysErrArm (strip_id s) (strip_id e)
  | Macros.FullArm s e u => Macros.FullArm (strip_id s) (strip_id e) (strip_id u)
  end.

Definition with_production (b : bool) (f : Features) : Features :=
  {| production := b; backtrace_feature := backtrace_feature f; metrics_feature := metrics_feature f |}.

Lemma strip_Full c : strip (Full c) = Full (strip_ctx c).
Proof. destruct c as [a s sub ec uc site d src bt]. cbn. unfold strip_ctx. cbn. by destruct src. Qed.

Lemma strip_new f n c :
  strip_id (GlobalId.new (with_production false f) n c) = GlobalId.new (with_production true f) n c.
Proof. done. Qed.

Lemma strip_full f m c :
  full (with_production true f) m (strip_ctx c) =
  prod_map id strip (full (with_production false f) m c).
Proof. rewrite !full_bumps. unfold prod_map. cbn [fst snd]. by rewrite strip_Full. Qed.

Lemma strip_capture f captured c :
  ErrorContext.capture_backtrace (with_production true f) captured (strip_ctx c) =
  strip_ctx (ErrorContext.capture_backtrace (with_production false f) captured c).
Proof. unfold ErrorContext.capture_backtrace. cbn. by destruct (backtrace_feature f), (ErrorContext.backtrace c). Qed.

Lemma strip_assign c fs :
  foldl ErrorContext.assign (strip_ctx c) (strip_override <$> fs) = strip_ctx (foldl ErrorContext.assign c fs).
Proof. revert c. induction fs as [|o fs IH]; intros c; [done|]. cbn. rewrite <- IH. by destruct o. Qed.

Lemma strip_finish f captured m c :
  Macros.finish (with_production true f) captured m (strip_ctx c) =
  prod_map id strip (Macros.finish (with_production false f) captured m c).
Proof. unfold Macros.finish. by rewrite strip_capture, strip_full. Qed.

Lemma strip_io_kind e : Convert.io_kind (strip_io e) = Convert.io_kind e.
Proof. by destruct e. Qed.
Lemma strip_raw_os e : Convert.raw_os_error (strip_io e) = Convert.raw_os_error e.
Proof. by destruct e. Qed.

Lemma strip_io_error_code f k :
  strip_id (Convert.io_error_code (with_production false f) k) = Convert.io_error_code (with_production true f) k.
Proof. by destruct k. Qed.

Lemma strip_match {A} e (arms : list (Macros.arm * A)) :
  Macros.match_error (strip e) (prod_map strip_arm id <$> arms) = Macros.match_error e arms.
Proof.
  unfold Macros.match_error. induction arms as [|[a h] arms IH]; [done|].
  destruct e as [s ec uc site|c]; [|rewrite strip_Full in *]; destruct a; cbn in *; rewrite ?IH; done.
Qed.

Lemma strip_site e : site_id (strip e) = site_id e.
Proof. destruct e as [|[]]; done. Qed.

Lemma strip_source e : source (strip e) = strip_dyn <$> source e.
Proof. by destruct e as [|[????????[]]]. Qed.

End Production.

Lemma strip_create f captured file line os_detail kind_description m c :
  Creation.create (with_production true f) captured file line os_detail kind_description m (strip_creation c) =
  prod_map id strip
    (Creation.create (with_production false f) captured file line os_detail kind_description m c).
Proof.
  destruct c; cbn [Creation.create strip_creation]; try done; try apply strip_full;
    unfold Macros.quick_err, Macros.err, Macros.err_source, Macros.err_fields, Macros.err_source_fields;
    try (rewrite <- strip_finish, <- ?strip_assign; done).
  unfold Convert.from_io. rewrite strip_raw_os, strip_io_kind.
  destruct (Convert.raw_os_error err); [cbn; by rewrite strip_io_error_code|].
  rewrite <- strip_full. unfold strip_ctx. cbn. by rewrite strip_io_error_code.
Qed.

(** The [production] build classifies errors as the development build does:
    every way of creating an error gives the stripped error and the same
    counters, [match_error!] takes the same arm, and the site and the source
    chain survive. *)
Theorem production_build_agrees f captured file line os_detail kind_description m c :
  let dev := Creation.create (with_production false f) captured file line os_detail kind_description m c in
  let prod := Creation.create (with_production true f) captured file line os_detail kind_description m
                (strip_creation c) in
  prod.1 = dev.1 ∧ prod.2 = strip dev.2 ∧
  (∀ A (arms : list (Macros.arm * A)),
     Macros.match_error prod.2 (prod_map strip_arm id <$> arms) = Macros.match_error dev.2 arms) ∧
  GError.site_id prod.2 = GError.site_id dev.2 ∧
  GError.source prod.2 = strip_dyn <$> GError.source dev.2.
Proof.
  cbv zeta. rewrite strip_create. cbn [prod_map fst snd].
  split_and!; [done|done|intros; apply strip_match|apply strip_site|apply strip_source].
Qed.

(** ** The dump *)

Lemma dump_loop_spec info idx cs :
  (∀ i s, info i = Some s → in_u 32 (Metrics.unique_id s)) →
  1 ≤ idx → idx + Z.of_nat (length cs) ≤ 2 ^ 32 → Forall (in_u 64) cs →
  (λ s, (SiteId.counter_index (Metrics.snap_site_id s), Metrics.snap_count s, Metrics.snap_info s))
    <$> Metrics.dump_loop info idx cs =
  (λ x, (x.1, x.2, info x.1)) <$> filter (λ x, x.2 ≠ 0) (zip (seqZ idx (Z.of_nat (length cs))) cs).
Proof.
  intros Hinfo. revert idx. induction cs as [|c cs IH]; intros idx H1 H2 Hf; [done|].
  apply Forall_cons in Hf as [Hc Hf]. cbn [length] in H2. cbn [Metrics.dump_loop length].
  rewrite seqZ_cons by lia. replace (Z.pred (Z.of_nat (S (length cs)))) with (Z.of_nat (length cs)) by lia.
  cbn [zip zip_with]. rewrite filter_cons. cbn [snd].
  assert (Hrec := IH (Z.succ idx) ltac:(lia) ltac:(lia) Hf).
  replace (idx + 1) with (Z.succ idx) by lia.
  destruct (Z.ltb_spec 0 c); case_decide; try (unfold in_u in Hc; lia); [|done].
  cbn [fmap list_fmap fst snd]. rewrite <- Hrec. cbn [Metrics.snap_site_id Metrics.snap_count Metrics.snap_info].
  do 3 f_equal. apply counter_index_new; [unfold in_u; lia|].
  destruct (info idx) eqn:E; [by eapply Hinfo|done].
Qed.

(** [dump] lists exactly the sites with a non-zero counter, in the order of
    their indices, each with its count and the first registered [SiteInfo] of
    its index. *)
Theorem dump_lists_nonzero m :
  counters_wf m → Forall (λ i, in_u 32 (Metrics.unique_id i)) (Metrics.REGISTRY m) →
  (λ s, (SiteId.counter_index (Metrics.snap_site_id s), Metrics.snap_count s, Metrics.snap_info s))
    <$> Metrics.dump m =
  (λ x, (x.1, x.2, Metrics.site_info m x.1))
    <$> filter (λ x, x.2 ≠ 0) (zip (seqZ 1 (Metrics.MAX_SITES - 1)) (drop 1 (Metrics.COUNTERS m))).
Proof.
  intros [Hl Hf] Hr. unfold Metrics.dump.
  replace (Metrics.MAX_SITES - 1) with (Z.of_nat (length (drop 1 (Metrics.COUNTERS m))))
    by (rewrite length_drop; unfold Metrics.MAX_SITES in *; lia).
  apply dump_loop_spec; [|lia|rewrite length_drop; unfold Metrics.MAX_SITES in Hl; lia|by apply Forall_drop].
  intros i s. unfold Metrics.site_info. destruct (Metrics.poisoned m); [done|]. unfold Metrics.find_info.
  intros [Hin _]%List.find_some. apply list_elem_of_In in Hin. by eapply Forall_forall in Hr.
Qed.

Definition demo_info : Metrics.SiteInfo :=
  Metrics.mkInfo 101 1 "net.listener" "EAGAIN" "accept" "accept backpressure under load" true "retry after yield".

Lemma dump_lists_nonzero_witness :
  let m := (Metrics.bump (Metrics.register_site Metrics.init demo_info) (SiteId.new 101 1)).1 in
  (λ s, (SiteId.counter_index (Metrics.snap_site_id s), Metrics.snap_count s, Metrics.snap_info s))
    <$> Metrics.dump m =
  (λ x, (x.1, x.2, Metrics.site_info m x.1))
    <$> filter (λ x, x.2 ≠ 0) (zip (seqZ 1 (Metrics.MAX_SITES - 1)) (drop 1 (Metrics.COUNTERS m))).
Proof.
  apply dump_lists_nonzero; [apply (run_op_wf _ (OpBump _)), init_wf|by constructor].
Defined.

(** A dump line of an unregistered and of a registered site. *)
Lemma dump_string_example :
  let m := (Metrics.bump Metrics.init (SiteId.new 7 0)).1 in
  Metrics.dump_string m = "[    7] count=1          (unregistered)" +:+ Metrics.nl.
Proof. by vm_compute. Qed.

(** ** Conversions *)

(** Turning an error into its context and back keeps its triple, its site and
    its source, whichever representation it had; a [Simple] error gets the
    default values of the other fields. *)
Theorem into_context_preserves f m e :
  let e' := (GError.full f m (GError.into_context f e)).2 in
  GError.kind e' = GError.kind e ∧ GError.site_id e' = GError.site_id e ∧
  GError.source e' = GError.source e ∧ GError.subsystem f e' = GError.subsystem f e ∧
  GError.is_simple e' = false ∧
  (GError.is_simple e = true → GError.into_context f e =
     ErrorContext.mk (GlobalId.UNSET f) (GError.system e) (GlobalId.UNSET f) (GError.error_code e)
       (GError.user_code e) (GError.site_id e) (debug_only f (ErrorContext.mkDebug "" "" 0 None)) None None).
Proof. by destruct e. Qed.

Section IoErrors.
Context (f : Features) (os_detail : Z → string) (kind_description : ErrorKind → string).

Lemma io_error_code_inj k k' :
  GlobalId.eq (Convert.io_error_code f k) (Convert.io_error_code f k') = true →
  k = k' ∨ (k ∈ [Other; Unnamed] ∧ k' ∈ [Other; Unnamed]).
Proof. destruct k, k'; intros H; (by vm_compute in H) || set_solver. Qed.

End IoErrors.

(** An [io::Error] becomes a [GError] of the system [SYS_IO] whose code tells
    its kind, the kinds without a code of their own apart; a raw OS error is
    [Simple] and any other keeps the [io::Error] as its source. *)
Theorem from_io_classifies f os_detail kind_description m err err' :
  let e := (Convert.from_io f os_detail kind_description m err).2 in
  let e' := (Convert.from_io f os_detail kind_description m err').2 in
  GError.system e = Convert.SYS_IO f ∧
  GError.is_simple e = bool_decide (is_Some (Convert.raw_os_error err)) ∧
  GError.source e = (if GError.is_simple e then None else Some (GError.DynIo err)) ∧
  (GlobalId.eq (GError.error_code e) (GError.error_code e') = true →
     Convert.io_kind err = Convert.io_kind err' ∨
     (Convert.io_kind err ∈ [Other; Unnamed] ∧ Convert.io_kind err' ∈ [Other; Unnamed])).
Proof.
  assert (Hc : ∀ x, GError.error_code (Convert.from_io f os_detail kind_description m x).2 =
    Convert.io_error_code f (Convert.io_kind x)) by (intros x; unfold Convert.from_io; by destruct x).
  cbv zeta. rewrite !Hc. split_and!; [by destruct err..|]. apply io_error_code_inj.
Qed.

(** Back from a [GError], an [io::Error] has lost its kind and its errno:
    [From<GError>] always answers a custom error of kind [Other]. *)
Theorem io_roundtrip_loses_errno f os_detail kind_description m c :
  let e := Convert.into_io (Convert.from_io f os_detail kind_description m (GError.Os c)).2 in
  Convert.raw_os_error e = None ∧ Convert.io_kind e = Other ∧ GError.dyn_source (GError.DynIo e) = None.
Proof. done. Qed.

(** [ResultExt]: an [Ok] passes through unchanged with the metrics; an [Err]
    becomes a [Full] error with the given codes whose source is the old error. *)
Theorem gerr_ctx_annotates {T E} f (dyn : E → GError.dyn_error) m (v : T) (e : E) sys ec uc msg :
  Convert.gerr_ctx f dyn m (Ok v) sys ec uc msg = (m, Ok v) ∧
  Convert.gerr_context f dyn m (Ok v) msg = (m, Ok v) ∧
  (∃ g, (Convert.gerr_ctx (T := T) f dyn m (Err e) sys ec uc msg) = (m, Err g) ∧
     GError.kind g = (sys, ec, uc) ∧ GError.source g = Some (dyn e)) ∧
  (∃ g, (Convert.gerr_context (T := T) f dyn m (Err e) msg) = (m, Err g) ∧
     GError.system g = Convert.SYS_IO f ∧ GError.source g = Some (dyn e)).
Proof.
  unfold Convert.gerr_ctx, Convert.gerr_context, Convert.map_err. rewrite !full_bumps.
  split_and!; [done..| |]; eexists; (split; [by destruct (metrics_feature f)|done]).
Qed.

(** ** The code tables *)

Lemma errno_to_global_id_code f e : 0 ≤ e < 1000 → GlobalId.code (Codes.errno_to_global_id f e) = 2000 + e.
Proof.
  intros He. unfold Codes.errno_to_global_id. destruct (Codes.errno_name e) as [n|] eqn:E.
  - cbn [GlobalId.code GlobalId.new]. unfold Codes.errno_name in E.
    repeat (case_match; simplify_eq; try by vm_compute).
  - cbn [GlobalId.code GlobalId.new]. rewrite !wrap_small; unfold in_u; try lia.
    rewrite wrap_small; unfold in_u; lia.
Qed.

(** The tables of [codes/] keep to the ranges [codes/mod.rs] documents, no two
    constants share a code but [EAGAIN] and [EWOULDBLOCK], and
    [errno_to_global_id] gives every errno below 1000 the code [2000 + errno]. *)
Theorem code_tables_wf :
  Forall (λ x, 1000 ≤ x.2 ≤ 1999) Codes.os ∧ Forall (λ x, 2000 ≤ x.2 ≤ 2999) Codes.errno ∧
  Forall (λ x, 4000 ≤ x.2 ≤ 4999) Codes.ops ∧ Forall (λ x, 5000 ≤ x.2 ≤ 6999) Codes.gvthread ∧
  NoDup ((Codes.os ++ filter (λ x, x.1 ≠ "EWOULDBLOCK") Codes.errno ++ Codes.ops ++ Codes.gvthread).*2) ∧
  (∀ f e, 0 ≤ e < 1000 → GlobalId.code (Codes.errno_to_global_id f e) = 2000 + e).
Proof.
  split_and!; [apply (bool_decide_unpack _); by vm_compute..|]. intros. by apply errno_to_global_id_code.
Qed.
