(* ===== verification/GerrorErrno.v ===== *)
(** * The error library's variant with an errno

    [codes/error.rs] and [codes/convert.rs]: a [GError] whose two
    representations carry the raw OS errno instead of a site id, with [wrap],
    [downcast_ref] and the conversions from and to [io::Error] that keep the
    errno.  No [mod] names the two files, so that the crate does not compile
    them; they read a field [os_error] of [ErrorContext] that [context.rs] does
    not have, which is here a field beside those of [context.rs].  The theorems
    compare the variant with the error of [error.rs]. *)
From stdpp Require Import base gmap list strings pretty.
From S2P Require Import Prelude Gerror.
Local Open Scope Z_scope.
Local Open Scope rust_scope.

Module GErrorErrno.

(** [ErrorContext] with the errno. *)
Record ctx (D : Type) := mkCtx { base : ErrorContext.t D; ctx_os_error : option Z }.
Arguments mkCtx {D}. Arguments base {D}. Arguments ctx_os_error {D}.

(** [GError] (its [Repr]) and the errors it can box. *)
Inductive t : Type :=
| Simple (system error_code user_code : GlobalId.t) (os_error : option Z)
| Full (c : ctx dyn_error)
with dyn_error : Type :=
| DynGError (e : t)
| DynIo (e : io_error)
| DynOther (message : string) (source : option dyn_error)
with io_error : Type :=
| Os (code : Z)
| SimpleKind (kind : ErrorKind)
| SimpleMessage (kind : ErrorKind) (message : string)
| Custom (kind : ErrorKind) (error : dyn_error).

Definition with_source (c : ctx dyn_error) (e : dyn_error) : ctx dyn_error :=
  mkCtx (ErrorContext.with_source (base c) e) (ctx_os_error c).

Definition simple (sys ec uc : GlobalId.t) : t := Simple sys ec uc None.
Definition simple_os (sys ec uc : GlobalId.t) (os : Z) : t := Simple sys ec uc (Some os).
Definition full (c : ctx dyn_error) : t := Full c.

Definition system (e : t) : GlobalId.t :=
  match e with Simple s _ _ _ => s | Full c => ErrorContext.system (base c) end.
Definition error_code (e : t) : GlobalId.t :=
  match e with Simple _ ec _ _ => ec | Full c => ErrorContext.error_code (base c) end.
Definition user_code (e : t) : GlobalId.t :=
  match e with Simple _ _ uc _ => uc | Full c => ErrorContext.user_code (base c) end.
Definition kind (e : t) : GlobalId.t * GlobalId.t * GlobalId.t :=
  match e with
  | Simple s ec uc _ => (s, ec, uc)
  | Full c => (ErrorContext.system (base c), ErrorContext.error_code (base c), ErrorContext.user_code (base c))
  end.
Definition os_error (e : t) : option Z := match e with Simple _ _ _ os => os | Full c => ctx_os_error c end.
Definition is_simple (e : t) : bool := match e with Simple _ _ _ _ => true | Full _ => false end.
Definition context (e : t) : option (ctx dyn_error) := match e with Simple _ _ _ _ => None | Full c => Some c end.
Definition source (e : t) : option dyn_error :=
  match e with Simple _ _ _ _ => None | Full c => ErrorContext.source (base c) end.

(** The concrete types a boxed error is asked for. *)
Inductive type_id := TyGError | TyIoError | TyOther.
Definition type_of (d : dyn_error) : type_id :=
  match d with DynGError _ => TyGError | DynIo _ => TyIoError | DynOther _ _ => TyOther end.
#[export] Instance type_id_eq_dec : EqDecision type_id.
Proof. solve_decision. Defined.

Definition downcast_ref (ty : type_id) (e : t) : option dyn_error :=
  match source e with
  | Some d => if bool_decide (type_of d = ty) then Some d else None
  | None => None
  end.

Section Display.
(** The text of an errno ([strerror]) and of an [ErrorKind]. *)
Context (os_detail : Z → string) (kind_description : ErrorKind → string).

Definition display_os (os : option Z) : string :=
  match os with Some e => " (os error " +:+ pretty e +:+ ")" | None => "" end.

Fixpoint display (e : t) : string :=
  match e with
  | Simple s ec uc os =>
      "[" +:+ GlobalId.display s +:+ "/" +:+ GlobalId.display ec +:+ "] " +:+ GlobalId.display uc +:+ display_os os
  | Full (mkCtx (ErrorContext.mk _ s sub ec uc _ dbg src _) os) =>
      "[" +:+ GlobalId.display s +:+ "/" +:+ GlobalId.display sub +:+ "/" +:+ GlobalId.display ec +:+ "] " +:+
      GlobalId.display uc +:+
      match dbg with
      | Some d => if String.eqb (ErrorContext.message d) "" then "" else ": " +:+ ErrorContext.message d
      | None => ""
      end +:+
      display_os os +:+
      match src with Some d => " — caused by: " +:+ display_dyn d | None => "" end +:+
      match dbg with
      | Some d => if String.eqb (ErrorContext.file d) "" then ""
                  else " at " +:+ ErrorContext.file d +:+ ":" +:+ pretty (ErrorContext.line d)
      | None => ""
      end
  end
with display_dyn (d : dyn_error) : string :=
  match d with DynGError e => display e | DynIo e => display_io e | DynOther msg _ => msg end
with display_io (e : io_error) : string :=
  match e with
  | Os c => os_detail c +:+ " (os error " +:+ pretty c +:+ ")"
  | SimpleKind k => kind_description k
  | SimpleMessage _ msg => msg
  | Custom _ d => display_dyn d
  end.

Context (f : Features).
Abbreviation unset := (GlobalId.UNSET f).

Definition subsystem (e : t) : GlobalId.t :=
  match e with Simple _ _ _ _ => unset | Full c => ErrorContext.subsystem (base c) end.

(** A struct literal with [..Default::default()]. *)
Definition literal (sys ec uc : GlobalId.t) (os : option Z) (msg : string) : ctx dyn_error :=
  mkCtx (ErrorContext.literal f sys unset ec uc SiteId.NONE msg "" 0) os.

Definition into_context (e : t) : ctx dyn_error :=
  match e with Simple s ec uc os => literal s ec uc os "" | Full c => c end.

(** A constant of [codes/]. *)
Definition code (tbl : list (string * Z)) (n : string) : GlobalId.t := GlobalId.new f n (Codes.code_of tbl n).
Definition SYS_IO : GlobalId.t := code Codes.os "io".

Definition from_std (err : dyn_error) : t :=
  full (with_source (literal SYS_IO unset unset None (display_dyn err)) err).

Definition wrap (self : t) (sys ec uc : GlobalId.t) : t :=
  full (with_source (literal sys ec uc None (display self)) (DynGError self)).

Definition io_error_code (k : ErrorKind) : GlobalId.t :=
  code Codes.errno
    match k with
    | NotFound => "ENOENT" | PermissionDenied => "EACCES" | ConnectionRefused => "ECONNREFUSED"
    | ConnectionReset => "ECONNRESET" | ConnectionAborted => "ECONNABORTED" | NotConnected => "ENOTCONN"
    | AddrInUse => "EADDRINUSE" | AddrNotAvailable => "EADDRNOTAVAIL" | BrokenPipe => "EPIPE"
    | AlreadyExists => "EEXIST" | WouldBlock => "EAGAIN" | InvalidInput | InvalidData => "EINVAL"
    | TimedOut => "ETIMEDOUT" | Interrupted => "EINTR" | OutOfMemory => "ENOMEM"
    | UnexpectedEof | Other | Unnamed => "EOTHER"
    end.

(** [io::Error::kind] and [io::Error::raw_os_error]. *)
Definition io_kind (e : io_error) : ErrorKind :=
  match e with Os c => decode_error_kind c | SimpleKind k | SimpleMessage k _ | Custom k _ => k end.
Definition raw_os_error (e : io_error) : option Z := match e with Os c => Some c | _ => None end.

(** [From<io::Error>], [From<Box<dyn Error>>] and back to [io::Error]. *)
Definition from_io (err : io_error) : t :=
  let ec := io_error_code (io_kind err) in
  match raw_os_error err with
  | Some errno => simple_os SYS_IO ec unset errno
  | None => full (with_source (literal SYS_IO ec unset None (display_io err)) (DynIo err))
  end.
Definition from_boxed (err : dyn_error) : t :=
  full (with_source (literal SYS_IO unset unset None (display_dyn err)) err).
Definition into_io (err : t) : io_error :=
  match os_error err with Some errno => Os errno | None => Custom Other (DynGError err) end.

Section ResultExt.
Context {T E : Type} (dyn : E → dyn_error).
Definition gerr_context (r : Result T E) (msg : string) : Result T t :=
  match r with
  | Ok v => Ok v
  | Err e => Err (full (with_source (literal SYS_IO unset unset None msg) (dyn e)))
  end.
Definition gerr_ctx (r : Result T E) (sys ec uc : GlobalId.t) (msg : string) : Result T t :=
  match r with
  | Ok v => Ok v
  | Err e => Err (full (with_source (literal sys ec uc None msg) (dyn e)))
  end.
End ResultExt.
End Display.
End GErrorErrno.

(** ** Theorems *)
Import GErrorErrno.

(** From an [io::Error] and back: the errno survives, an error that has one
    comes back as it was, and any other is the source of the [GError] that the
    new [io::Error] carries. *)
Theorem errno_roundtrip os_detail kind_description f err :
  let e := from_io os_detail kind_description f err in
  raw_os_error (into_io e) = raw_os_error err ∧ os_error e = raw_os_error err ∧
  match raw_os_error err with
  | Some _ => into_io e = err
  | None => into_io e = Custom Other (DynGError e) ∧ source e = Some (DynIo err)
  end.
Proof. by destruct err. Qed.

(** One layer of [wrap] taken off again. *)
Definition unwrap (e : t) : option t :=
  match downcast_ref TyGError e with Some (DynGError e') => Some e' | _ => None end.
Fixpoint unwrap_n (n : nat) (e : t) : option t :=
  match n with O => Some e | S n => match unwrap e with Some e' => unwrap_n n e' | None => None end end.

Section Wrapping.
Context (os_detail : Z → string) (kind_description : ErrorKind → string) (f : Features).

Definition wrap_all (e : t) (tags : list (GlobalId.t * GlobalId.t * GlobalId.t)) : t :=
  foldl (λ e k, wrap os_detail kind_description f e k.1.1 k.1.2 k.2) e tags.

Lemma unwrap_wrap e sys ec uc : unwrap (wrap os_detail kind_description f e sys ec uc) = Some e.
Proof. done. Qed.

Lemma unwrap_n_S n e : unwrap_n (S n) e = unwrap_n n e ≫= unwrap.
Proof.
  revert e. induction n as [|n IH]; intros e; [by cbn; destruct (unwrap e)|].
  cbn [unwrap_n] in *. destruct (unwrap e) as [e'|]; [|done]. apply IH.
Qed.

Lemma unwrap_wrap_all tags e : unwrap_n (length tags) (wrap_all e tags) = Some e.
Proof.
  revert e. induction tags as [|k tags IH]; intros e; [done|].
  cbn [length]. rewrite unwrap_n_S. unfold wrap_all in *. cbn [foldl]. by rewrite IH.
Qed.

Lemma wrap_all_kind tags k e :
  let e' := wrap_all e (tags ++ [k]) in kind e' = k ∧ os_error e' = None ∧ is_simple e' = false.
Proof. unfold wrap_all. rewrite foldl_app. by destruct k as [[??]?]. Qed.
End Wrapping.

(** However many layers re-tag an error, the outermost tags are the ones it is
    matched by and [downcast_ref] leads back to the original; its errno is not
    carried along, so that a wrapped error turns into an [io::Error] without
    one. *)
Theorem wrapping_keeps_source os_detail kind_description f e tags k :
  let e' := wrap_all os_detail kind_description f e (tags ++ [k]) in
  kind e' = k ∧ unwrap_n (S (length tags)) e' = Some e ∧
  os_error e' = None ∧ raw_os_error (into_io e') = None.
Proof.
  cbv zeta. destruct (wrap_all_kind os_detail kind_description f tags k e) as (Hk & Hos & _).
  split_and!; [done| |done|by unfold into_io; rewrite Hos].
  rewrite <- (unwrap_wrap_all os_detail kind_description f (tags ++ [k]) e). rewrite length_app. cbn [length].
  by rewrite Nat.add_1_r.
Qed.

(** The code an OS error is given comes from its [ErrorKind]: it is the code of
    the errno itself for the errnos that have a kind of their own, that of
    [EACCES] for [EPERM], and that of [EOTHER] for the others. *)
Theorem errno_code_from_kind os_detail kind_description f e :
  0 ≤ e < 1000 →
  GlobalId.code (error_code (from_io os_detail kind_description f (Os e))) =
  if e =? 1 then 2013
  else if bool_decide (decode_error_kind e = Unnamed) then 2999
  else GlobalId.code (Codes.errno_to_global_id f e).
Proof.
  intros He.
  assert (Hall : Forall (λ e, GlobalId.code (io_error_code f (decode_error_kind e)) =
    if e =? 1 then 2013 else if bool_decide (decode_error_kind e = Unnamed) then 2999 else 2000 + e) (seqZ 0 1000)).
  { destruct f as [[] b m]; apply (bool_decide_unpack _); by vm_compute. }
  rewrite Forall_forall in Hall. cbn [from_io raw_os_error error_code simple_os io_kind].
  rewrite Hall by (apply elem_of_seqZ; lia). do 2 (case_match; [done|]). by rewrite errno_to_global_id_code.
Qed.

(** ** The variant and the compiled error

    An error of [error.rs] as an error of the variant: the same fields, no
    errno. *)
Fixpoint up (e : GError.t) : t :=
  match e with
  | GError.Simple s ec uc _ => Simple s ec uc None
  | GError.Full (ErrorContext.mk a s sub ec uc site dbg src bt) =>
      Full (mkCtx (ErrorContext.mk a s sub ec uc site dbg
        (match src with Some d => Some (up_dyn d) | None => None end) bt) None)
  end
with up_dyn (d : GError.dyn_error) : dyn_error :=
  match d with
  | GError.DynGError e => DynGError (up e)
  | GError.DynIo e => DynIo (up_io e)
  | GError.DynOther msg src => DynOther msg (match src with Some d => Some (up_dyn d) | None => None end)
  end
with up_io (e : GError.io_error) : io_error :=
  match e with
  | GError.Os c => Os c
  | GError.SimpleKind k => SimpleKind k
  | GError.SimpleMessage k msg => SimpleMessage k msg
  | GError.Custom k d => Custom k (up_dyn d)
  end.

(** Neither the error nor one that its text shows has a site. *)
Fixpoint no_sites (e : GError.t) : bool :=
  match e with
  | GError.Simple _ _ _ site => SiteId.is_none site
  | GError.Full (ErrorContext.mk _ _ _ _ _ site _ src _) =>
      SiteId.is_none site && match src with Some d => no_sites_dyn d | None => true end
  end
with no_sites_dyn (d : GError.dyn_error) : bool :=
  match d with GError.DynGError e => no_sites e | GError.DynIo e => no_sites_io e | GError.DynOther _ _ => true end
with no_sites_io (e : GError.io_error) : bool :=
  match e with GError.Custom _ d => no_sites_dyn d | _ => true end.

Lemma up_display os_detail kind_description :
  ∀ e, no_sites e = true → display os_detail kind_description (up e) = GError.display os_detail kind_description e.
Proof.
  assert (Hsite : ∀ s, SiteId.is_none s = true → GError.display_site s = "")
    by (intros s Hs; unfold GError.display_site; by rewrite Hs).
  fix IH 1 with
    (IHd (d : GError.dyn_error) : no_sites_dyn d = true →
       display_dyn os_detail kind_description (up_dyn d) = GError.display_dyn os_detail kind_description d)
    (IHi (i : GError.io_error) : no_sites_io i = true →
       display_io os_detail kind_description (up_io i) = GError.display_io os_detail kind_description i).
  - intros [s ec uc site|[a s sub ec uc site dbg src bt]] Hn; cbn in *.
    + by rewrite Hsite.
    + apply andb_prop in Hn as [Hs Hn]. rewrite Hsite by done. destruct src as [d|]; [|done].
      do 10 apply (f_equal (String.append _)). apply (f_equal (λ x, x +:+ _)), (f_equal (String.append _)). exact (IHd d Hn).
  - destruct d as [e|i|msg src]; cbn; intros Hn; [by apply IH|by apply IHi|done].
  - destruct i as [c|k|k msg|k d]; cbn; intros Hn; [done..|by apply IHd].
Qed.

(** The variant is a conservative extension: an error without a site has the
    same triple, subsystem, source and text in both, and is asked for an errno
    in vain. *)
Theorem errno_variant_agrees os_detail kind_description f e :
  no_sites e = true →
  kind (up e) = GError.kind e ∧ subsystem f (up e) = GError.subsystem f e ∧
  is_simple (up e) = GError.is_simple e ∧ source (up e) = up_dyn <$> GError.source e ∧
  os_error (up e) = None ∧
  display os_detail kind_description (up e) = GError.display os_detail kind_description e.
Proof.
  intros Hn. split_and!; [..|by apply up_display]; by destruct e as [|[????????[]]].
Qed.

(** ** Witnesses *)
Definition dev : Features := {| production := false; backtrace_feature := false; metrics_feature := false |}.

Lemma errno_code_from_kind_witness :
  GlobalId.code (error_code (from_io (λ _, "") (λ _, "") dev (Os 104))) = 2104.
Proof. rewrite errno_code_from_kind; [reflexivity|lia]. Defined.

Lemma errno_variant_agrees_witness :
  let e := GError.simple (GlobalId.new dev "net" 3) (GlobalId.new dev "eagain" 11) (GlobalId.new dev "accept" 1) in
  display (λ _, "") (λ _, "") (up e) = "[net/eagain] accept".
Proof.
  intros e. transitivity (GError.display (λ _, "") (λ _, "") e); [|reflexivity].
  apply (errno_variant_agrees (λ _, "") (λ _, "") dev e). reflexivity.
Defined.
