(* ===== verification/ConnSlab.v ===== *)
(** * Connection slabs and correlation ids of the io_uring servers

    [cmd/httpd/rust/ksvc] and [cmd/echo/rust/ksvc] are event loops over one
    io_uring ring.  Both keep their connections in the same slab (slots with a
    stack of free indices) and put the operation and the slot into the
    correlation id of every request.  This file holds the slab with its
    invariant, the codec of the ids, the actions of an event handler, and what
    the slots of a slab hold together. *)
From stdpp Require Import base list strings.
From S2P Require Import Prelude KsvcTypes.
Local Open Scope Z_scope.
Local Open Scope rust_scope.

(** The bytes of a string literal. *)
Definition bytes (s : string) : list Z := (λ a, Z.of_N (Ascii.N_of_ascii a)) <$> String.list_ascii_of_string s.

(** ** Correlation ids: the operation in the top byte, the slot below *)
Module Ids.

Definition OP_ACCEPT : Z := Z.shiftl 1 56.
Definition OP_RECV : Z := Z.shiftl 2 56.
Definition OP_SEND : Z := Z.shiftl 3 56.
Definition OP_CLOSE : Z := Z.shiftl 4 56.
Definition OP_FILE_OPEN : Z := Z.shiftl 5 56.
Definition OP_FILE_READ : Z := Z.shiftl 6 56.
Definition OP_FILE_CLOSE : Z := Z.shiftl 7 56.
Definition OP_MASK : Z := Z.shiftl 0xFF 56.
(** The mask of the slot: 32 bits in the HTTP server, 56 in the echo server. *)
Definition IDX_MASK : Z := 0xFFFFFFFF.
Definition ECHO_IDX_MASK : Z := Z.shiftl 1 56 - 1.

Definition make_id (op idx : Z) : Z := Z.lor op idx.
Definition decode_op (id : Z) : Z := Z.land id OP_MASK.
Definition decode_idx (mask id : Z) : Z := Z.land id mask.

Definition is_op (op : Z) : Prop :=
  op ∈ [OP_ACCEPT; OP_RECV; OP_SEND; OP_CLOSE; OP_FILE_OPEN; OP_FILE_READ; OP_FILE_CLOSE].

Lemma decode_op_make op idx : is_op op → in_u 32 idx → decode_op (make_id op idx) = op.
Proof.
  intros Hop Hi. unfold decode_op, make_id. rewrite Z.land_lor_distr_l.
  assert (Z.land idx OP_MASK = 0) as ->.
  { apply Z.bits_inj_0. intros i. rewrite Z.land_spec. unfold OP_MASK.
    destruct (decide (i < 56)).
    - destruct (decide (0 ≤ i)); [|by rewrite Z.testbit_neg_r by lia].
      by rewrite (Z.shiftl_spec_low _ _ i), andb_false_r by lia.
    - by rewrite (in_u_bits_high 32 idx i) by (done || lia). }
  rewrite Z.lor_0_r. unfold is_op in Hop. repeat (apply elem_of_cons in Hop as [->|Hop]; [by vm_compute|]).
  by apply elem_of_nil in Hop.
Qed.

Lemma decode_idx_make mask op idx :
  mask = IDX_MASK ∨ mask = ECHO_IDX_MASK → is_op op → in_u 32 idx → decode_idx mask (make_id op idx) = idx.
Proof.
  intros Hm Hop Hi. unfold decode_idx, make_id. rewrite Z.land_lor_distr_l.
  assert (Z.land op mask = 0) as ->.
  { unfold is_op in Hop. destruct Hm as [-> | ->];
      repeat (apply elem_of_cons in Hop as [->|Hop]; [by vm_compute|]); by apply elem_of_nil in Hop. }
  rewrite Z.lor_0_l. unfold in_u in Hi. destruct Hm as [-> | ->].
  - change IDX_MASK with (Z.ones 32). rewrite Z.land_ones by lia. apply Z.mod_small. lia.
  - change ECHO_IDX_MASK with (Z.ones 56). rewrite Z.land_ones by lia. apply Z.mod_small. lia.
Qed.

Lemma make_id_inj op op' i j :
  is_op op → is_op op' → in_u 32 i → in_u 32 j → make_id op i = make_id op' j → op = op' ∧ i = j.
Proof.
  intros Ho Ho' Hi Hj E. split.
  - by rewrite <- (decode_op_make op i), E, decode_op_make.
  - by rewrite <- (decode_idx_make IDX_MASK op i), E, decode_idx_make; eauto.
Qed.

End Ids.

(** ** Actions

    What a handler does besides changing its own state: requests handed to
    [submit_with_opcode] with the opcode the router gives for [nr], and the two
    system calls made in place. *)
Inductive action :=
| Submit (nr : Z) (e : SubmitEntry.t)
| CloseFd (fd : Z)
| NoDelay (fd : Z).

(** The ids of the requests among the actions. *)
Definition submitted (acts : list action) : list Z :=
  acts ≫= λ a, match a with Submit _ e => [SubmitEntry.corr_id e] | _ => [] end.

Definition NR_READ : Z := 0.
Definition NR_CLOSE : Z := 3.
Definition NR_SENDTO : Z := 44.
Definition NR_RECVFROM : Z := 45.
Definition NR_OPENAT : Z := 257.
Definition NR_ACCEPT4 : Z := 288.
Definition SOCK_CLOEXEC : Z := 0x80000.

(** A request with the given operation, slot and arguments. *)
Definition request (op idx nr : Z) (args : list Z) : action :=
  Submit nr (SubmitEntry.mk (Ids.make_id op idx) nr 0 args).

Definition submit_accept (listener addr addr_len : Z) : action :=
  request Ids.OP_ACCEPT 0 NR_ACCEPT4 [wrap 64 listener; addr; addr_len; SOCK_CLOEXEC; 0; 0].
Definition submit_close (fd idx : Z) : action := request Ids.OP_CLOSE idx NR_CLOSE [wrap 64 fd; 0; 0; 0; 0; 0].

(** ** The slab *)
Module ConnSlab.
Section Slab.
Context {C : Type}.

Record t : Type := mk { slots : list (option C); free_list : list Z }.

Definition new (max : Z) : t :=
  mk (replicate (Z.to_nat max) None) (reverse (seqZ 0 max)).

(** [alloc]; [c] is the fresh connection it builds for the descriptor. *)
Definition alloc (s : t) (c : C) : outcome (option Z * t) :=
  match vec_pop (free_list s) with
  | None => Ret (None, s)
  | Some (idx, fr) => sl ← index_set (slots s) idx (Some c); Ret (Some idx, mk sl fr)
  end.

Definition get (s : t) (idx : Z) : option C :=
  match slots s !! Z.to_nat idx with Some (Some c) => Some c | _ => None end.
(** The connection that [get_mut] lent, written back. *)
Definition put (s : t) (idx : Z) (c : C) : t := mk (<[Z.to_nat idx := Some c]> (slots s)) (free_list s).

Definition free (s : t) (idx : Z) : outcome t :=
  sl ← index_set (slots s) idx None; Ret (mk sl (push_back (free_list s) idx)).

Definition active (s : t) : Z := Z.of_nat (length (filter is_Some (slots s))).

(** The free indices are distinct and are exactly the empty slots. *)
Definition wf (s : t) : Prop :=
  NoDup (free_list s) ∧
  ∀ i, i ∈ free_list s ↔ 0 ≤ i ∧ slots s !! Z.to_nat i = Some None.

Lemma new_wf max : wf (new max).
Proof.
  split; simpl; [rewrite reverse_Permutation; apply NoDup_seqZ|]. intros i.
  rewrite elem_of_reverse, elem_of_seqZ, lookup_replicate. split; [intros; repeat split; lia|]. lia.
Qed.

Lemma alloc_spec s c :
  wf s →
  (free_list s = [] ∧ alloc s c = Ret (None, s)) ∨
  ∃ i s', alloc s c = Ret (Some i, s') ∧ 0 ≤ i ∧ slots s !! Z.to_nat i = Some None ∧
    slots s' = <[Z.to_nat i := Some c]> (slots s) ∧ wf s'.
Proof.
  intros [Hn Hf]. unfold alloc. destruct (vec_pop (free_list s)) as [[i fr]|] eqn:E.
  - right. apply vec_pop_Some in E. destruct (proj1 (Hf i)) as [Hi Hs]; [rewrite E; set_solver|].
    pose proof (lookup_lt_Some _ _ _ Hs) as Hlt. exists i, (mk (<[Z.to_nat i := Some c]> (slots s)) fr).
    split_and!; [|done|done|done|].
    + unfold index_set. destruct (Z.leb_spec 0 i), (Z.ltb_spec i (Z.of_nat (length (slots s)))); done || lia.
    + rewrite E in Hn. apply NoDup_app in Hn as (Hn & Hd & _). split; [done|]. simpl. intros j.
      destruct (decide (j = i)) as [->|].
      * rewrite list_lookup_insert_eq by done. split; [|by intros [_ ?]]. intros Hj. exfalso. apply (Hd i Hj). set_solver.
      * pose proof (Hf j) as Hj. rewrite E, elem_of_app, list_elem_of_singleton in Hj.
        split; [intros Hin|intros [H0 Hl]].
        -- destruct (proj1 Hj) as [H0 Hl]; [by left|]. split; [done|].
           rewrite list_lookup_insert_ne; [done|]. lia.
        -- rewrite list_lookup_insert_ne in Hl by lia. destruct (proj2 Hj) as [?|?]; done.
  - left. by apply vec_pop_None in E.
Qed.

Lemma get_Some s i c : get s i = Some c → slots s !! Z.to_nat i = Some (Some c).
Proof. unfold get. by repeat case_match; intros; simplify_eq. Qed.

Lemma get_put s i c c' : get s i = Some c → get (put s i c') i = Some c'.
Proof.
  intros Hg%get_Some. unfold get, put. simpl. rewrite list_lookup_insert_eq; [done|]. by eapply lookup_lt_Some.
Qed.

Lemma put_put s i c c' : put (put s i c) i c' = put s i c'.
Proof. unfold put. simpl. by rewrite list_insert_insert_eq. Qed.

Lemma put_wf s i c c' : wf s → get s i = Some c → wf (put s i c').
Proof.
  intros [Hn Hf] Hg%get_Some. split; [done|]. simpl. intros j. rewrite (Hf j).
  pose proof (lookup_lt_Some _ _ _ Hg) as Hlt.
  destruct (decide (Z.to_nat j = Z.to_nat i)) as [E|]; [|by rewrite list_lookup_insert_ne].
  rewrite E, list_lookup_insert_eq, Hg by done. split; by intros [_ ?].
Qed.

Lemma free_spec s i c :
  wf s → 0 ≤ i → get s i = Some c →
  ∃ s', free s i = Ret s' ∧ slots s' = <[Z.to_nat i := None]> (slots s) ∧ wf s'.
Proof.
  intros [Hn Hf] Hi Hg%get_Some. pose proof (lookup_lt_Some _ _ _ Hg) as Hlt.
  unfold free, index_set.
  destruct (Z.leb_spec 0 i), (Z.ltb_spec i (Z.of_nat (length (slots s)))); try lia. simpl.
  eexists. split_and!; [done|done|]. split; simpl.
  - unfold push_back. apply NoDup_app. split_and!; [done| |apply NoDup_singleton].
    intros j Hj ->%list_elem_of_singleton. apply Hf in Hj as [_ Hj]. congruence.
  - intros j. unfold push_back. rewrite elem_of_app, list_elem_of_singleton, (Hf j).
    destruct (decide (j = i)) as [->|].
    + rewrite list_lookup_insert_eq by done. tauto.
    + split; [intros [[??]|?]; [|done]|intros [Hj0 Hl]; left].
      * rewrite list_lookup_insert_ne by lia. done.
      * rewrite list_lookup_insert_ne in Hl by lia. done.
Qed.

(** What the slots hold together: [h] of every slot. *)
Section Held.
Context {A : Type} (h : nat → option C → list A).

Definition held (l : list (option C)) : list A := mjoin (imap h l).

End Held.

Lemma held_insert {A} (h : nat → option C → list A) l i o :
  l !! i = Some o →
  ∃ rest, held h l ≡ₚ h i o ++ rest ∧ ∀ o', held h (<[i := o']> l) ≡ₚ h i o' ++ rest.
Proof.
  revert h i. induction l as [|x l IH]; intros h [|i] Hi; simplify_eq/=.
  - exists (held (h ∘ S) l). done.
  - destruct (IH (h ∘ S) i Hi) as (rest & H1 & H2). exists (h 0%nat x ++ rest). unfold held in *. simpl.
    split; [rewrite H1|intros o'; simpl; rewrite (H2 o')]; simpl; rewrite !(assoc (++)); f_equiv; apply Permutation_app_comm.
Qed.

Lemma held_empty {A} (h : nat → option C → list A) n :
  (∀ i, h i None = []) → held h (replicate n None) = [].
Proof.
  revert h. induction n as [|n IH]; intros h Hh; [done|].
  change (h 0%nat None ++ held (h ∘ S) (replicate n None) = []). rewrite Hh. apply IH. intros i. apply Hh.
Qed.

Lemma elem_of_held {A} (h : nat → option C → list A) l x :
  x ∈ held h l ↔ ∃ i o, l !! i = Some o ∧ x ∈ h i o.
Proof.
  unfold held. rewrite list_elem_of_join. split.
  - intros (y & Hx & Hy). apply elem_of_lookup_imap_1 in Hy as (i & o & -> & Hl). eauto.
  - intros (i & o & Hl & Hx). exists (h i o). split; [done|]. by eapply elem_of_lookup_imap_2.
Qed.

Lemma put_get s i c : get s i = Some c → put s i c = s.
Proof. intros Hg%get_Some. unfold put. rewrite list_insert_id by done. by destruct s. Qed.

Lemma get_put_ne s i j c : Z.to_nat i ≠ Z.to_nat j → get (put s i c) j = get s j.
Proof. intros. unfold get, put. simpl. by rewrite list_lookup_insert_ne. Qed.

Lemma get_range s i c : 0 ≤ i → get s i = Some c → i < Z.of_nat (length (slots s)).
Proof. intros Hi Hg%get_Some%lookup_lt_Some. lia. Qed.

End Slab.
Arguments t : clear implicits.
End ConnSlab.
