(* ===== verification/KernelIo.v ===== *)
(** * The kernel under the io_uring servers

    What a request of the servers in [cmd/] can complete with: the results and
    effects that accept4, openat, recvfrom, read, sendto and close document, on
    the set of open descriptors.  The kernel sees the request alone; the bytes
    it receives are written where the request says. *)
From stdpp Require Import base list.
From S2P Require Import Prelude KsvcTypes KsvcUring ConnSlab.
Local Open Scope Z_scope.
Local Open Scope rust_scope.

Module KernelIo.

(** The entries submitted by the actions, and the descriptors closed in place. *)
Definition entries (acts : list action) : list SubmitEntry.t :=
  acts ≫= λ a, match a with Submit _ e => [e] | _ => [] end.
Definition closed_now (acts : list action) : list Z :=
  acts ≫= λ a, match a with CloseFd f => [f] | _ => [] end.

Abbreviation arg := BasicIoUring.arg.

Definition opens (e : SubmitEntry.t) : bool := bool_decide (SubmitEntry.syscall_nr e ∈ [NR_ACCEPT4; NR_OPENAT]).
Definition reads (e : SubmitEntry.t) : bool := bool_decide (SubmitEntry.syscall_nr e ∈ [NR_RECVFROM; NR_READ]).
Definition writes (e : SubmitEntry.t) : bool := bool_decide (SubmitEntry.syscall_nr e = NR_SENDTO).
Definition closes (e : SubmitEntry.t) : bool := bool_decide (SubmitEntry.syscall_nr e = NR_CLOSE).

(** [kernel fds e r data fds']: with the descriptors [fds] open, the request [e]
    can complete with [r], having written [data], and leave [fds'] open. *)
Inductive kernel (fds : list Z) (e : SubmitEntry.t) : Z → list Z → list Z → Prop :=
| k_open_err r : opens e = true → r < 0 → kernel fds e r [] fds
| k_open f : opens e = true → 0 ≤ f < 2 ^ 31 → f ∉ fds → kernel fds e f [] (f :: fds)
| k_read_end r : reads e = true → r ≤ 0 → kernel fds e r [] fds
| k_read data : reads e = true → data ≠ [] → Z.of_nat (length data) ≤ arg e 2 →
    kernel fds e (Z.of_nat (length data)) data fds
| k_send_err r : writes e = true → r ≤ 0 → kernel fds e r [] fds
| k_send r : writes e = true → 0 < r ≤ arg e 2 → kernel fds e r [] fds
| k_close r : closes e = true → r ≤ 0 → kernel fds e r [] (filter (λ f, f ∉ [as_i32 (arg e 0)]) fds).

(** Bytes written into a buffer at an offset. *)
Definition splice (b : list Z) (off : Z) (d : list Z) : list Z :=
  take (Z.to_nat off) b ++ d ++ drop (Z.to_nat off + length d) b.

Definition is_fd (f : Z) : Prop := 0 ≤ f < 2 ^ 31.

(** The same as a function of the result and the bytes the kernel chooses. *)
Definition kernel_exec (fds : list Z) (e : SubmitEntry.t) (r : Z) (data : list Z) : option (list Z) :=
  if bool_decide (data = []) then
    if opens e then
      if r <? 0 then Some fds
      else if (r <? 2 ^ 31) && bool_decide (r ∉ fds) then Some (r :: fds) else None
    else if reads e && (r <=? 0) then Some fds
    else if writes e && (r <=? arg e 2) then Some fds
    else if closes e && (r <=? 0) then Some (filter (λ f, f ∉ [as_i32 (arg e 0)]) fds) else None
  else if reads e && (r =? Z.of_nat (length data)) && (r <=? arg e 2) then Some fds else None.

(** ** Lemmas *)

(** What the kernel does with each request. *)
Ltac kernel_cases Hn Hk :=
  destruct Hk as [? H|? H|? H|? H|? H|? H|? H];
  unfold opens, reads, writes, closes in H; rewrite Hn in H; vm_compute in H; try discriminate H; clear H.

Lemma kernel_read nr F e r data F1 :
  SubmitEntry.syscall_nr e = nr → nr = NR_RECVFROM ∨ nr = NR_READ → kernel F e r data F1 →
  F1 = F ∧ (r ≤ 0 ∧ data = [] ∨ r = Z.of_nat (length data) ∧ data ≠ [] ∧ Z.of_nat (length data) ≤ arg e 2).
Proof. intros Hn [-> | ->] Hk; kernel_cases Hn Hk; eauto. Qed.

Lemma kernel_open nr F e r data F1 :
  SubmitEntry.syscall_nr e = nr → nr = NR_ACCEPT4 ∨ nr = NR_OPENAT → kernel F e r data F1 →
  data = [] ∧ (r < 0 ∧ F1 = F ∨ is_fd r ∧ (r ∉ F) ∧ F1 = r :: F).
Proof. intros Hn [-> | ->] Hk; kernel_cases Hn Hk; eauto. Qed.

Lemma kernel_send F e r data F1 :
  SubmitEntry.syscall_nr e = NR_SENDTO → kernel F e r data F1 →
  F1 = F ∧ data = [] ∧ (r ≤ 0 ∨ 0 < r ≤ arg e 2).
Proof. intros Hn Hk. kernel_cases Hn Hk; eauto. Qed.

Lemma kernel_close F e r data F1 :
  SubmitEntry.syscall_nr e = NR_CLOSE → kernel F e r data F1 →
  F1 = filter (λ f, f ∉ [as_i32 (arg e 0)]) F ∧ data = [].
Proof. intros Hn Hk. kernel_cases Hn Hk; eauto. Qed.

Lemma as_i32_fd f : is_fd f → as_i32 f = f.
Proof.
  intros Hf. unfold is_fd in Hf. unfold as_i32. rewrite wrap_small by (unfold in_u; lia).
  destruct (Z.ltb_spec f (2 ^ 31)); [done|lia].
Qed.

Lemma filter_notin_nil (F : list Z) : filter (λ f, f ∉ []) F = F.
Proof. apply list_filter_all. intros x _. apply not_elem_of_nil. Qed.

Lemma filter_refused f (F : list Z) : (f ∉ F) → filter (λ x, x ∉ [f]) (f :: F) = F.
Proof.
  intros Hf. rewrite filter_cons_False by set_solver. apply list_filter_all.
  by intros x Hx ->%list_elem_of_singleton.
Qed.

Lemma filter_closed (G closed Y : list Z) :
  NoDup G → G ≡ₚ closed ++ Y → filter (λ f, f ∉ closed) G ≡ₚ Y.
Proof.
  intros Hn HG. rewrite HG in Hn. rewrite HG. apply NoDup_app in Hn as (_ & Hd & _). rewrite filter_app.
  rewrite list_filter_none by (intros x Hx Hn; by apply Hn). simpl.
  rewrite list_filter_all; [done|]. intros x Hx Hc. by apply (Hd x).
Qed.

Lemma splice_nil b off : splice b off [] = b.
Proof. unfold splice. simpl. rewrite Nat.add_0_r. apply take_drop. Qed.

Lemma length_splice b off d :
  0 ≤ off → off + Z.of_nat (length d) ≤ Z.of_nat (length b) → length (splice b off d) = length b.
Proof. intros. unfold splice. rewrite !length_app, length_take, length_drop. lia. Qed.

Lemma kernel_exec_sound F e r data F1 : kernel_exec F e r data = Some F1 → kernel F e r data F1.
Proof.
  unfold kernel_exec. intros H.
  repeat (case_match; [..]); simplify_eq;
    repeat match goal with
      | H : bool_decide _ = true |- _ => apply bool_decide_eq_true_1 in H
      | H : bool_decide _ = false |- _ => apply bool_decide_eq_false_1 in H
      | H : _ && _ = true |- _ => apply andb_true_iff in H as [? ?]
      end; simplify_eq; rewrite ?Z.eqb_eq, ?Z.leb_le, ?Z.ltb_lt, ?Z.ltb_ge in *; simplify_eq.
  - by apply k_open_err.
  - by apply k_open.
  - by apply k_read_end.
  - destruct (Z.le_gt_cases r 0); [by apply k_send_err|by apply k_send].
  - by apply k_close.
  - by apply k_read.
Qed.

End KernelIo.
