(* ===== verification/Echo.v ===== *)
(** * The echo server over io_uring

    [cmd/echo/rust/ksvc/src/main.rs]: the handlers of the event loop, as
    functions from the server and a completion to the server and the actions,
    and all runs against the kernel of KernelIo.  The world of a run records,
    for each connection, the bytes received from and sent to its client, so
    that the contract of an echo server can be stated. *)
From stdpp Require Import base list functions strings.
From S2P Require Import Prelude KsvcTypes KsvcUring ConnSlab KernelIo.
Local Open Scope Z_scope.
Local Open Scope rust_scope.

Module Echo.
Import KernelIo.

Definition BUF_SIZE : Z := 4096.

Record Conn := mkConn { fd : Z; buf : list Z; pending : Z }.
Definition fresh_conn (fd : Z) : Conn := mkConn fd (replicate (Z.to_nat BUF_SIZE) 0) 0.
Definition set_pending (c : Conn) (n : Z) : Conn := mkConn (fd c) (buf c) n.
Definition set_buf (c : Conn) (b : list Z) : Conn := mkConn (fd c) b (pending c).

Record Stats := mkStats {
  accepts : Z; recvs : Z; sends : Z; closes : Z; bytes_in : Z; bytes_out : Z; errors : Z
}.
Definition stats_new : Stats := mkStats 0 0 0 0 0 0 0.
Definition add_accept (s : Stats) : Stats :=
  mkStats (accepts s +[64] 1) (recvs s) (sends s) (closes s) (bytes_in s) (bytes_out s) (errors s).
Definition add_recv (s : Stats) (n : Z) : Stats :=
  mkStats (accepts s) (recvs s +[64] 1) (sends s) (closes s) (bytes_in s +[64] n) (bytes_out s) (errors s).
Definition add_send (s : Stats) (n : Z) : Stats :=
  mkStats (accepts s) (recvs s) (sends s +[64] 1) (closes s) (bytes_in s) (bytes_out s +[64] n) (errors s).
Definition add_close (s : Stats) : Stats :=
  mkStats (accepts s) (recvs s) (sends s) (closes s +[64] 1) (bytes_in s) (bytes_out s) (errors s).
Definition add_error (s : Stats) : Stats :=
  mkStats (accepts s) (recvs s) (sends s) (closes s) (bytes_in s) (bytes_out s) (errors s +[64] 1).

Record server := mkServer { conns : ConnSlab.t Conn; stats : Stats }.

Section Server.
Context (listener accept_addr accept_addr_len : Z) (buf_ptr : Z → Z).

Abbreviation accept := (submit_accept listener accept_addr accept_addr_len).

Definition submit_recv (c : Conn) (idx : Z) : action :=
  request Ids.OP_RECV idx NR_RECVFROM [wrap 64 (fd c); buf_ptr idx; BUF_SIZE; 0; 0; 0].
Definition submit_send (c : Conn) (idx : Z) : action :=
  request Ids.OP_SEND idx NR_SENDTO [wrap 64 (fd c); buf_ptr idx; pending c; 0; 0; 0].

(** [running] is what RUNNING holds when the handler looks. *)
Definition on_accept (running : bool) (s : server) (result : Z) : outcome (server * list action) :=
  if result <? 0 then
    Ret (mkServer (conns s) (add_error (stats s)), if running then [accept] else [])
  else
    let new_fd := as_i32 result in
    let st := add_accept (stats s) in
    r ← ConnSlab.alloc (conns s) (fresh_conn new_fd);
    match r with
    | (Some cidx, cs) =>
        Ret (mkServer cs st,
             match ConnSlab.get cs cidx with Some c => [submit_recv c cidx] | None => [] end ++ [accept])
    | (None, cs) => Ret (mkServer cs (add_error st), [CloseFd new_fd; accept])
    end.

Definition close_conn (s : server) (idx : Z) : list action :=
  match ConnSlab.get (conns s) idx with Some c => [submit_close (fd c) idx] | None => [] end.

Definition on_recv (s : server) (idx result : Z) : server * list action :=
  if result <=? 0 then (mkServer (conns s) (add_close (stats s)), close_conn s idx)
  else
    let st := add_recv (stats s) result in
    match ConnSlab.get (conns s) idx with
    | Some c =>
        let c := set_pending c result in
        (mkServer (ConnSlab.put (conns s) idx c) st, [submit_send c idx])
    | None => (mkServer (conns s) st, [])
    end.

Definition on_send (s : server) (idx result : Z) : server * list action :=
  if result <=? 0 then (mkServer (conns s) (add_error (stats s)), close_conn s idx)
  else
    (mkServer (conns s) (add_send (stats s) result),
     match ConnSlab.get (conns s) idx with Some c => [submit_recv c idx] | None => [] end).

Definition on_close (s : server) (idx : Z) : outcome (server * list action) :=
  cs ← ConnSlab.free (conns s) idx; Ret (mkServer cs (stats s), []).

Definition handle (running : bool) (s : server) (cqe : IoCompletion.t) : outcome (server * list action) :=
  let op := Ids.decode_op (IoCompletion.corr_id cqe) in
  let idx := Ids.decode_idx Ids.ECHO_IDX_MASK (IoCompletion.corr_id cqe) in
  let result := IoCompletion.result cqe in
  if op =? Ids.OP_ACCEPT then on_accept running s result
  else if op =? Ids.OP_RECV then Ret (on_recv s idx result)
  else if op =? Ids.OP_SEND then Ret (on_send s idx result)
  else if op =? Ids.OP_CLOSE then on_close s idx
  else Ret (s, []).

(** ** Runs *)

(** What the kernel has written to the buffer a request names. *)
Definition fill (s : server) (e : SubmitEntry.t) (data : list Z) : server :=
  let idx := Ids.decode_idx Ids.ECHO_IDX_MASK (SubmitEntry.corr_id e) in
  if Ids.decode_op (SubmitEntry.corr_id e) =? Ids.OP_RECV then
    match ConnSlab.get (conns s) idx with
    | Some c => mkServer (ConnSlab.put (conns s) idx (set_buf c (splice (buf c) (arg e 1 - buf_ptr idx) data))) (stats s)
    | None => s
    end
  else s.

(** The bytes received from and sent to the client of a slot. *)
Definition stream : Type := list Z * list Z.

(** What the client of the request's slot sees of its completion; a closed
    slot starts anew. *)
Definition observe (s : server) (io : nat → stream) (e : SubmitEntry.t) (r : Z) (data : list Z) : nat → stream :=
  let op := Ids.decode_op (SubmitEntry.corr_id e) in
  let idx := Ids.decode_idx Ids.ECHO_IDX_MASK (SubmitEntry.corr_id e) in
  let i := Z.to_nat idx in
  if op =? Ids.OP_RECV then <[i := ((io i).1 ++ data, (io i).2)]> io
  else if op =? Ids.OP_SEND then
    match ConnSlab.get (conns s) idx with
    | Some c => <[i := ((io i).1, (io i).2 ++ take (Z.to_nat r) (drop (Z.to_nat (arg e 1 - buf_ptr idx)) (buf c)))]> io
    | None => io
    end
  else if op =? Ids.OP_CLOSE then <[i := ([], [])]> io
  else io.

Record world := World { srv : server; inflight : list SubmitEntry.t; fds : list Z; io : nat → stream }.

Inductive step_of (e : SubmitEntry.t) (r : Z) : world → world → Prop :=
| step_complete w l1 l2 running data fds1 s' acts :
    inflight w = l1 ++ e :: l2 → kernel (fds w) e r data fds1 →
    handle running (fill (srv w) e data) (IoCompletion.mk (SubmitEntry.corr_id e) r 0) = Ret (s', acts) →
    step_of e r w (World s' (l1 ++ l2 ++ entries acts) (filter (λ f, f ∉ closed_now acts) fds1)
                     (observe (srv w) (io w) e r data)).

Definition init (w : world) : Prop :=
  ∃ max, 0 ≤ max ≤ 2 ^ 32 ∧
    w = World (mkServer (ConnSlab.new max) stats_new) (entries [accept]) [listener] (λ _, ([], [])).

(** ** The invariant

    [S tx rx] relates the bytes sent to a client to the received ones they
    answer; [good] restricts the completions. *)
Definition opt {A} (o : option A) : list A := match o with Some x => [x] | None => [] end.
Definition own (o : option Conn) : list Z := match o with Some c => [fd c] | None => [] end.

Section Contract.
Context (S : list Z → list Z → Prop) (good : SubmitEntry.t → Z → Prop).
Hypothesis S_nil : S [] [].
Hypothesis S_send : ∀ e r tx rx d, good e r → writes e = true → Z.of_nat (length d) = arg e 2 → 0 < r ≤ arg e 2 →
  S tx rx → S (tx ++ take (Z.to_nat r) d) (rx ++ d).

(** The request in flight of a connection and what its client is owed. *)
Inductive entry_ok (i : nat) (c : Conn) (e : SubmitEntry.t) : stream → Prop :=
| recv_ok rx tx : submit_recv c (Z.of_nat i) = Submit NR_RECVFROM e → S tx rx → entry_ok i c e (rx, tx)
| send_ok rx tx :
    submit_send c (Z.of_nat i) = Submit NR_SENDTO e → 0 < pending c ≤ BUF_SIZE → S tx rx →
    entry_ok i c e (rx ++ take (Z.to_nat (pending c)) (buf c), tx)
| close_ok rx tx owed :
    submit_close (fd c) (Z.of_nat i) = Submit NR_CLOSE e → S tx rx → Z.of_nat (length owed) ≤ BUF_SIZE →
    entry_ok i c e (rx ++ owed, tx).

Definition conn_ok (c : Conn) : Prop := is_fd (fd c) ∧ Z.of_nat (length (buf c)) = BUF_SIZE.

Definition slot_ok (i : nat) (o : option Conn) (oe : option SubmitEntry.t) (g : stream) : Prop :=
  match o, oe with
  | None, None => g = ([], [])
  | Some c, Some e => conn_ok c ∧ entry_ok i c e g
  | _, _ => False
  end.

Abbreviation slots w := (ConnSlab.slots (conns (srv w))).

(** [acc] is the accept in flight, [es] the request of each slot. *)
Record inv_with (w : world) (acc : option SubmitEntry.t) (es : list (option SubmitEntry.t)) : Prop := {
  iw_wf : ConnSlab.wf (conns (srv w));
  iw_len : length es = length (slots w) ∧ Z.of_nat (length (slots w)) ≤ 2 ^ 32;
  iw_inflight : inflight w ≡ₚ opt acc ++ ConnSlab.held (λ _, opt) es;
  iw_accept : ∀ e, acc = Some e → accept = Submit NR_ACCEPT4 e;
  iw_slots : ∀ i o oe, slots w !! i = Some o → es !! i = Some oe → slot_ok i o oe (io w i);
  iw_fds : NoDup (fds w) ∧ fds w ≡ₚ listener :: ConnSlab.held (λ _, own) (slots w)
}.
Definition inv (w : world) : Prop := ∃ acc es, inv_with w acc es.

(** The completion of the request of a slot: the slot, its request and its
    stream afterwards. *)
Definition advances (running : bool) (w : world) (i : nat) (c : Conn) (e : SubmitEntry.t) (r : Z) (data F1 : list Z)
  : Prop :=
  ∃ o' oe' cs st acts,
    handle running (fill (srv w) e data) (IoCompletion.mk (SubmitEntry.corr_id e) r 0) = Ret (mkServer cs st, acts) ∧
    entries acts = opt oe' ∧ closed_now acts = [] ∧ ConnSlab.slots cs = <[i := o']> (slots w) ∧ ConnSlab.wf cs ∧
    slot_ok i o' oe' (observe (srv w) (io w) e r data i) ∧
    (∀ j, j ≠ i → observe (srv w) (io w) e r data j = io w j) ∧
    ∀ Y, NoDup (fds w) → fds w ≡ₚ fd c :: Y → NoDup F1 ∧ F1 ≡ₚ own o' ++ Y.

Section Slot.
Context (running : bool) (w : world) (i : nat) (c : Conn) (e : SubmitEntry.t) (r : Z) (data F1 : list Z).
Hypothesis (Hwf : ConnSlab.wf (conns (srv w))) (Hi : Z.of_nat i < 2 ^ 32).
Hypothesis (Hslot : slots w !! i = Some (Some c)) (Hok : conn_ok c) (Hgood : good e r).
Hypothesis (Hk : kernel (fds w) e r data F1).

Lemma slot_get : ConnSlab.get (conns (srv w)) (Z.of_nat i) = Some c.
Proof. unfold ConnSlab.get. by rewrite Nat2Z.id, Hslot. Qed.

Lemma id_op op : Ids.is_op op → SubmitEntry.corr_id e = Ids.make_id op (Z.of_nat i) →
  Ids.decode_op (SubmitEntry.corr_id e) = op ∧ Ids.decode_idx Ids.ECHO_IDX_MASK (SubmitEntry.corr_id e) = Z.of_nat i.
Proof.
  intros Ho ->. assert (in_u 32 (Z.of_nat i)) by (unfold in_u; lia).
  by rewrite Ids.decode_op_make, Ids.decode_idx_make by eauto.
Qed.

Lemma keeps_fds c' : fd c' = fd c → F1 = fds w →
  ∀ Y, NoDup (fds w) → fds w ≡ₚ fd c :: Y → NoDup F1 ∧ F1 ≡ₚ own (Some c') ++ Y.
Proof. intros E -> Y Hn HY. split; [done|]. by rewrite HY, <- E. Qed.

(** The branches that submit a request for the stored connection. *)
Lemma advances_put c' st nr e' :
  handle running (fill (srv w) e data) (IoCompletion.mk (SubmitEntry.corr_id e) r 0) =
    Ret (mkServer (ConnSlab.put (conns (srv w)) (Z.of_nat i) c') st, [Submit nr e']) →
  conn_ok c' → fd c' = fd c → F1 = fds w →
  entry_ok i c' e' (observe (srv w) (io w) e r data i) →
  (∀ j, j ≠ i → observe (srv w) (io w) e r data j = io w j) → advances running w i c e r data F1.
Proof.
  intros Hh Hok' Hfd HF He' Hj. exists (Some c'), (Some e'), (ConnSlab.put (conns (srv w)) (Z.of_nat i) c'), st, [Submit nr e'].
  split_and!; [done|done|done|by simpl; rewrite Nat2Z.id|by eapply ConnSlab.put_wf, slot_get|done|done|].
  by apply keeps_fds.
Qed.

Lemma recv_completes rx tx :
  submit_recv c (Z.of_nat i) = Submit NR_RECVFROM e → S tx rx → io w i = (rx, tx) → advances running w i c e r data F1.
Proof.
  intros He HS Hio. injection He as He.
  destruct (id_op Ids.OP_RECV) as [Hop Hidx]; [apply (bool_decide_unpack _); by vm_compute|by subst|].
  destruct (kernel_read NR_RECVFROM (fds w) e r data F1) as [HF Hr]; [by subst|by left|done|].
  assert (Ha : arg e 1 - buf_ptr (Z.of_nat i) = 0 ∧ arg e 2 = BUF_SIZE) by (subst; cbn; lia). destruct Ha as [Ha1 Ha2].
  set (c1 := set_buf c (splice (buf c) 0 data)).
  assert (Hfill : fill (srv w) e data = mkServer (ConnSlab.put (conns (srv w)) (Z.of_nat i) c1) (stats (srv w))).
  { unfold fill. by rewrite Hop, Hidx, slot_get, Ha1. }
  assert (Hobs : observe (srv w) (io w) e r data = <[i := (rx ++ data, tx)]> (io w)).
  { unfold observe. rewrite Hop, Hidx. cbn. by rewrite Nat2Z.id, Hio. }
  assert (Hok1 : conn_ok c1).
  { destruct Hok as [? Hlen]. split; [done|]. simpl. rewrite length_splice; [done|lia|].
    destruct Hr as [[_ ->]|(_ & _ & ?)]; [simpl; unfold BUF_SIZE in *; lia|lia]. }
  assert (Hh : handle running (fill (srv w) e data) (IoCompletion.mk (SubmitEntry.corr_id e) r 0) =
    Ret (on_recv (mkServer (ConnSlab.put (conns (srv w)) (Z.of_nat i) c1) (stats (srv w))) (Z.of_nat i) r))
    by (unfold handle; cbn; by rewrite Hop, Hidx, Hfill).
  unfold on_recv, close_conn in Hh. cbn [conns stats] in Hh. rewrite !(ConnSlab.get_put _ _ c) in Hh by apply slot_get.
  destruct (Z.leb_spec r 0) as [Hneg|Hpos].
  - eapply advances_put; [exact Hh|done|done|done| |].
    + rewrite Hobs, fn_lookup_insert. destruct Hr as [[_ ->]|(? & Hne & _)]; [|destruct data; simpl in *; done || lia].
      by eapply close_ok.
    + intros j Hj. by rewrite Hobs, fn_lookup_insert_ne.
  - destruct Hr as [[? _]|(Hr & _ & Hle)]; [lia|].
    rewrite ConnSlab.put_put in Hh.
    eapply advances_put; [exact Hh|done|done|done| |].
    + rewrite Hobs, fn_lookup_insert.
      assert (Hd : data = take (Z.to_nat (pending (set_pending c1 r))) (buf (set_pending c1 r))).
      { simpl. rewrite Hr, Nat2Z.id. unfold splice. simpl. by rewrite take_app_length. }
      rewrite Hd at 1. eapply send_ok; [done|simpl; lia|done].
    + intros j Hj. by rewrite Hobs, fn_lookup_insert_ne.
Qed.

Lemma send_completes rx tx :
  submit_send c (Z.of_nat i) = Submit NR_SENDTO e → 0 < pending c ≤ BUF_SIZE → S tx rx →
  io w i = (rx ++ take (Z.to_nat (pending c)) (buf c), tx) → advances running w i c e r data F1.
Proof.
  intros He Hp HS Hio. injection He as He.
  destruct (id_op Ids.OP_SEND) as [Hop Hidx]; [apply (bool_decide_unpack _); by vm_compute|by subst|].
  destruct (kernel_send (fds w) e r data F1) as (HF & Hdata & Hr); [by subst|done|].
  assert (Ha : arg e 1 - buf_ptr (Z.of_nat i) = 0 ∧ arg e 2 = pending c ∧ writes e = true) by (subst; cbn; split_and!; done || lia).
  destruct Ha as (Ha1 & Ha2 & Hw). set (d := take (Z.to_nat (pending c)) (buf c)) in *.
  assert (Hd : Z.of_nat (length d) = pending c).
  { destruct Hok as [_ Hlen]. unfold d. rewrite length_take. lia. }
  assert (Hfill : fill (srv w) e data = mkServer (ConnSlab.put (conns (srv w)) (Z.of_nat i) c) (stats (srv w))).
  { unfold fill. rewrite Hop. simpl. rewrite ConnSlab.put_get by apply slot_get. by destruct (srv w). }
  assert (Hobs : observe (srv w) (io w) e r data = <[i := (rx ++ d, tx ++ take (Z.to_nat r) d)]> (io w)).
  { unfold observe. rewrite Hop, Hidx. cbn. rewrite Nat2Z.id, Hio, slot_get, Ha1. cbn. do 2 f_equal. f_equal.
    unfold d. rewrite take_take, Nat.min_l; [done|lia]. }
  assert (Hh : handle running (fill (srv w) e data) (IoCompletion.mk (SubmitEntry.corr_id e) r 0) =
    Ret (on_send (mkServer (ConnSlab.put (conns (srv w)) (Z.of_nat i) c) (stats (srv w))) (Z.of_nat i) r))
    by (unfold handle; cbn; by rewrite Hop, Hidx, Hfill).
  unfold on_send, close_conn in Hh. cbn [conns stats] in Hh. rewrite !(ConnSlab.get_put _ _ c) in Hh by apply slot_get.
  destruct (Z.leb_spec r 0) as [Hneg|Hpos].
  - eapply advances_put; [exact Hh|done|done|done| |].
    + rewrite Hobs, fn_lookup_insert. replace (Z.to_nat r) with 0%nat by lia. rewrite take_0, app_nil_r.
      eapply close_ok; [done|done|lia].
    + intros j Hj. by rewrite Hobs, fn_lookup_insert_ne.
  - eapply advances_put; [exact Hh|done|done|done| |].
    + rewrite Hobs, fn_lookup_insert. eapply recv_ok; [done|]. apply (S_send e r); [done|done|lia|lia|done].
    + intros j Hj. by rewrite Hobs, fn_lookup_insert_ne.
Qed.

Lemma close_completes :
  submit_close (fd c) (Z.of_nat i) = Submit NR_CLOSE e → advances running w i c e r data F1.
Proof.
  intros He. injection He as He.
  destruct (id_op Ids.OP_CLOSE) as [Hop Hidx]; [apply (bool_decide_unpack _); by vm_compute|by subst|].
  destruct (kernel_close (fds w) e r data F1) as (HF & Hdata); [by subst|done|].
  assert (Ha : as_i32 (arg e 0) = fd c).
  { destruct Hok as [Hfd _]. unfold is_fd in Hfd. subst e. cbn. apply as_i32_wrap; lia. }
  assert (Hfill : fill (srv w) e data = srv w) by (unfold fill; by rewrite Hop).
  destruct (ConnSlab.free_spec (conns (srv w)) (Z.of_nat i) c) as (cs & Hf & Hsl & Hwf'); [done|lia|apply slot_get|].
  assert (Hobs : observe (srv w) (io w) e r data = <[i := ([], [])]> (io w)).
  { unfold observe. rewrite Hop, Hidx. cbn. by rewrite Nat2Z.id. }
  exists None, None, cs, (stats (srv w)), []. rewrite Nat2Z.id in Hsl. split_and!; [|done..| | |].
  - unfold handle. cbn. rewrite Hop, Hidx, Hfill. unfold on_close. cbn. by rewrite Hf.
  - by rewrite Hobs, fn_lookup_insert.
  - intros j Hj. by rewrite Hobs, fn_lookup_insert_ne.
  - intros Y Hn HY. rewrite HF, Ha. split; [by apply NoDup_filter|]. by apply (filter_closed _ [fd c]).
Qed.
End Slot.

(** One completion: handling succeeds and keeps the invariant. *)
Definition completes (w : world) (l1 l2 : list SubmitEntry.t) (e : SubmitEntry.t) (r : Z) (running : bool)
    (data F1 : list Z) : Prop :=
  ∃ s' acts,
    handle running (fill (srv w) e data) (IoCompletion.mk (SubmitEntry.corr_id e) r 0) = Ret (s', acts) ∧
    inv (World s' (l1 ++ l2 ++ entries acts) (filter (λ f, f ∉ closed_now acts) F1) (observe (srv w) (io w) e r data)).

Section Preserve.
Context (w : world) (acc : option SubmitEntry.t) (es : list (option SubmitEntry.t)).
Context (l1 l2 : list SubmitEntry.t) (e : SubmitEntry.t) (r : Z) (running : bool) (data F1 : list Z).
Hypothesis (Hinv : inv_with w acc es) (Hfl : inflight w = l1 ++ e :: l2).
Hypothesis (Hk : kernel (fds w) e r data F1) (Hgood : good e r).

Lemma rest_inflight X : opt acc ++ ConnSlab.held (λ _, opt) es ≡ₚ e :: X → l1 ++ l2 ≡ₚ X.
Proof.
  intros HX. destruct Hinv as [_ _ Hin _ _ _]. rewrite HX, Hfl in Hin.
  apply (Permutation_cons_inv (a := e)). rewrite <- Hin. by rewrite Permutation_middle.
Qed.

Lemma slot_step_inv i c :
  slots w !! i = Some (Some c) → es !! i = Some (Some e) → completes w l1 l2 e r running data F1.
Proof.
  intros Hsl Hes. pose proof Hinv as [Hwf [Hl Hlen] Hin Hacc Hslots [Hn Hfds]].
  pose proof (lookup_lt_Some _ _ _ Hsl) as Hlt. destruct (Hslots i _ _ Hsl Hes) as [Hok Hent].
  assert (Hadv : advances running w i c e r data F1).
  { remember (io w i) as g eqn:Hg. destruct Hent.
    - eapply recv_completes; done || lia.
    - eapply send_completes; done || lia.
    - eapply close_completes; done || lia. }
  destruct Hadv as (o' & oe' & cs & st & acts & Hh & Hents & Hcl & Hsl' & Hwf' & Hok' & Hoth & Hf).
  eexists _, _. split; [exact Hh|]. rewrite Hcl, filter_notin_nil, Hents.
  destruct (ConnSlab.held_insert (λ _, opt) _ _ _ Hes) as (R & HR & HR').
  destruct (ConnSlab.held_insert (λ _, own) _ _ _ Hsl) as (Q & HQ & HQ').
  exists acc, (<[i := oe']> es). constructor; cbn [srv inflight conns fds io]; [done| | |done| |].
  - by rewrite Hsl', !length_insert.
  - rewrite (assoc (++)), (rest_inflight (opt acc ++ R)), HR' by (rewrite HR; simpl; perm_solver). perm_solver.
  - rewrite Hsl'. intros j o oe Hj Hje. destruct (decide (j = i)) as [->|Hne].
    + rewrite list_lookup_insert_eq in Hj by done. rewrite list_lookup_insert_eq in Hje by lia. by simplify_eq.
    + rewrite list_lookup_insert_ne in Hj by done. rewrite list_lookup_insert_ne in Hje by done. rewrite Hoth by done. by apply Hslots.
  - rewrite HQ in Hfds. destruct (Hf (listener :: Q)) as [Hn' HF]; [done|rewrite Hfds; simpl; perm_solver|].
    split; [done|]. rewrite HF, Hsl', HQ'. perm_solver.
Qed.

(** The accept. *)
Section Accept.
Hypothesis (Hacc : acc = Some e).

Lemma accept_is : accept = Submit NR_ACCEPT4 e.
Proof. destruct Hinv as [_ _ _ Ha _ _]. by apply Ha. Qed.

Lemma accept_rest : l1 ++ l2 ≡ₚ ConnSlab.held (λ _, opt) es.
Proof. apply rest_inflight. by rewrite Hacc. Qed.

Lemma accept_observe : observe (srv w) (io w) e r data = io w.
Proof. pose proof accept_is as He. injection He as He. by rewrite <- He. Qed.

Lemma inv_accept_again st (b : bool) :
  inv (World (mkServer (conns (srv w)) st) (l1 ++ l2 ++ if b then [e] else []) (fds w) (io w)).
Proof.
  pose proof Hinv as [? ? _ Ha ? ?]. exists (if b then Some e else None), es. constructor; try done.
  - cbn [inflight]. rewrite (assoc (++)), accept_rest. by destruct b; simpl; rewrite Permutation_app_comm.
  - destruct b; [|done]. intros e0 [= <-]. apply accept_is.
Qed.

Lemma echo_inv_accepted i cs st f e' :
  is_fd f → (f ∉ fds w) → slots w !! i = Some None →
  ConnSlab.slots cs = <[i := Some (fresh_conn f)]> (slots w) → ConnSlab.wf cs →
  submit_recv (fresh_conn f) (Z.of_nat i) = Submit NR_RECVFROM e' →
  inv (World (mkServer cs st) (l1 ++ l2 ++ [e'; e]) (f :: fds w) (io w)).
Proof.
  intros Hfd Hnew Hempty Hsl Hwf' He'. pose proof Hinv as [Hwf [Hl Hlen] _ Ha Hslots [Hn Hfds]].
  pose proof (lookup_lt_Some _ _ _ Hempty) as Hlt.
  destruct (lookup_lt_is_Some_2 es i) as [oe Hoe]; [lia|]. pose proof (Hslots i _ _ Hempty Hoe) as Hio.
  destruct oe as [|]; [done|]. simpl in Hio.
  destruct (ConnSlab.held_insert (λ _, opt) _ _ _ Hoe) as (R & HR & HR').
  destruct (ConnSlab.held_insert (λ _, own) _ _ _ Hempty) as (Q & HQ & HQ').
  exists (Some e), (<[i := Some e']> es). constructor; cbn [srv inflight conns fds io]; [done| | | | |].
  - by rewrite Hsl, !length_insert.
  - rewrite (assoc (++)), accept_rest, HR', HR. simpl. perm_solver.
  - intros e0 [= <-]. apply accept_is.
  - rewrite Hsl. intros j o oe Hj Hje. destruct (decide (j = i)) as [->|Hne].
    + rewrite list_lookup_insert_eq in Hj by done. rewrite list_lookup_insert_eq in Hje by lia. simplify_eq.
      simpl. rewrite Hio. split; [|by apply recv_ok]. split; [done|]. cbn [buf fresh_conn].
      rewrite length_replicate. by unfold BUF_SIZE.
    + rewrite list_lookup_insert_ne in Hj by done. rewrite list_lookup_insert_ne in Hje by done. by apply Hslots.
  - split; [by constructor|]. rewrite Hfds, Hsl, HQ', HQ. simpl. apply Permutation_swap.
Qed.

Lemma echo_accept_completes : completes w l1 l2 e r running data F1.
Proof.
  pose proof accept_is as He. injection He as He. unfold completes. rewrite accept_observe.
  assert (Hfill : fill (srv w) e data = srv w) by (by rewrite <- He). rewrite Hfill.
  replace (handle _ _ _) with (on_accept running (srv w) r) by (by rewrite <- He).
  destruct (kernel_open NR_ACCEPT4 (fds w) e r data F1) as [_ Hr]; [by rewrite <- He|by left|done|].
  unfold on_accept. rewrite accept_is. pose proof Hinv as [Hwf _ _ _ _ _].
  destruct Hr as [[Hr ->]|(Hfd & Hnew & ->)].
  - destruct (Z.ltb_spec r 0); [|lia]. eexists _, _. split; [done|].
    replace (closed_now _) with (@nil Z) by by destruct running. rewrite filter_notin_nil.
    replace (entries _) with (if running then [e] else []) by by destruct running. apply inv_accept_again.
  - rewrite (as_i32_fd r Hfd). destruct (Z.ltb_spec r 0); [unfold is_fd in Hfd; lia|].
    destruct (ConnSlab.alloc_spec (conns (srv w)) (fresh_conn r) Hwf) as [[_ Ha]|(i & cs & Ha & Hi & Hempty & Hsl & Hwf')];
      rewrite Ha; cbn [mbind outcome_bind]; (eexists _, _; split; [done|]).
    + change (closed_now _) with [r]. rewrite filter_refused by done. apply (inv_accept_again _ true).
    + assert (Hg : ConnSlab.get cs i = Some (fresh_conn r)).
      { unfold ConnSlab.get. by rewrite Hsl, list_lookup_insert_eq by (by eapply lookup_lt_Some). }
      rewrite Hg. change (closed_now _) with (@nil Z). rewrite filter_notin_nil.
      eapply echo_inv_accepted; [done|done|done|done|done|]. by rewrite Z2Nat.id.
Qed.
End Accept.

Lemma echo_request_completes : completes w l1 l2 e r running data F1.
Proof.
  pose proof Hinv as [_ [Hl _] Hin _ Hslots _].
  assert (He : e ∈ inflight w) by (rewrite Hfl; set_solver). rewrite Hin in He. apply elem_of_app in He as [He|He].
  - apply echo_accept_completes.
    by destruct acc as [e0|]; [apply list_elem_of_singleton in He; congruence|apply elem_of_nil in He].
  - apply ConnSlab.elem_of_held in He as (i & [e0|] & Hi & He); [|by apply elem_of_nil in He].
    apply list_elem_of_singleton in He. subst e0.
    destruct (lookup_lt_is_Some_2 (slots w) i) as [o Ho]; [apply lookup_lt_Some in Hi; lia|].
    pose proof (Hslots i _ _ Ho Hi) as Hok. destruct o as [c|]; [|done]. by eapply slot_step_inv.
Qed.
End Preserve.

(** The completions of a run. *)
Definition step (w w' : world) : Prop := ∃ e r, step_of e r w w' ∧ good e r.

Lemma echo_inv_step w w' : inv w → step w w' → inv w'.
Proof.
  intros (acc & es & Hi) (e & r & Hst & Hg). destruct Hst as [w l1 l2 running data F1 s' acts Hfl Hk Hh].
  destruct (echo_request_completes w acc es l1 l2 e r running data F1 Hi Hfl Hk Hg) as (s0 & acts0 & Hh' & Hinv').
  rewrite Hh in Hh'. by injection Hh' as <- <-.
Qed.

Lemma echo_inv_start w : init w → inv w.
Proof.
  intros (max & Hmax & ->). exists (Some (SubmitEntry.mk (Ids.make_id Ids.OP_ACCEPT 0) NR_ACCEPT4 0
    [wrap 64 listener; accept_addr; accept_addr_len; SOCK_CLOEXEC; 0; 0])), (replicate (Z.to_nat max) None).
  constructor; cbn [srv inflight conns fds io ConnSlab.new ConnSlab.slots].
  - apply ConnSlab.new_wf.
  - rewrite !length_replicate. split; [done|lia].
  - by rewrite ConnSlab.held_empty.
  - by intros e [= <-].
  - intros i o oe [-> _]%lookup_replicate [-> _]%lookup_replicate. done.
  - rewrite ConnSlab.held_empty by done. split; [apply NoDup_singleton|done].
Qed.

Lemma echo_inv_run w w' : init w → rtc step w w' → inv w'.
Proof. intros Hi%echo_inv_start Hr. induction Hr as [|w1 w2 w3 Hs _ IH]; [done|]. by eapply IH, echo_inv_step. Qed.

(** The request of a slot is the only one with its index. *)
Lemma entry_of_slot w acc es e i op :
  inv_with w acc es → e ∈ inflight w → (i < length (slots w))%nat → Ids.is_op op → op ≠ Ids.OP_ACCEPT →
  SubmitEntry.corr_id e = Ids.make_id op (Z.of_nat i) → es !! i = Some (Some e).
Proof.
  intros [_ [Hl Hlen] Hin Ha Hslots _] He Hi Hop Hne Hid.
  assert (Hi32 : in_u 32 (Z.of_nat i)) by (unfold in_u; lia).
  assert (Hacc : Ids.is_op Ids.OP_ACCEPT) by (apply (bool_decide_unpack _); by vm_compute).
  rewrite Hin in He. apply elem_of_app in He as [He|He].
  - destruct acc as [e0|]; [|by apply elem_of_nil in He]. apply list_elem_of_singleton in He as ->.
    specialize (Ha _ eq_refl). injection Ha as Ha. rewrite <- Ha in Hid. cbn in Hid.
    apply (Ids.make_id_inj Ids.OP_ACCEPT op 0) in Hid as [? _]; [congruence|done|done|by unfold in_u; lia|done].
  - apply ConnSlab.elem_of_held in He as (j & [e0|] & Hj & He); [|by apply elem_of_nil in He].
    apply list_elem_of_singleton in He as ->. pose proof (lookup_lt_Some _ _ _ Hj) as Hlt.
    destruct (lookup_lt_is_Some_2 (slots w) j) as [o Ho]; [lia|]. pose proof (Hslots j _ _ Ho Hj) as Hok.
    destruct o as [c|]; [|done]. destruct Hok as [_ Hok].
    assert (Hid' : ∃ op', Ids.is_op op' ∧ SubmitEntry.corr_id e0 = Ids.make_id op' (Z.of_nat j)).
    { destruct Hok as [? ? E|? ? E|? ? ? E]; injection E as <-; eexists; (split; [|done]);
        apply (bool_decide_unpack _); by vm_compute. }
    destruct Hid' as (op' & Hop' & Hid'). rewrite Hid in Hid'.
    apply Ids.make_id_inj in Hid' as [_ E]; [|done|done|done|unfold in_u; lia]. by apply Nat2Z.inj in E as ->.
Qed.

End Contract.

(** A run chosen by a script: which request completes, with what; it stops at a
    completion that [ok] refuses. *)
Definition run_one (ok : SubmitEntry.t → Z → bool) (w : world) (x : nat * Z * list Z) : option world :=
  let '(k, r, data) := x in
  match inflight w !! k with
  | None => None
  | Some e =>
      match kernel_exec (fds w) e r data,
            handle true (fill (srv w) e data) (IoCompletion.mk (SubmitEntry.corr_id e) r 0) with
      | Some fds1, Ret (s', acts) =>
          if ok e r then
            Some (World s' (take k (inflight w) ++ drop (S k) (inflight w) ++ entries acts)
                    (filter (λ f, f ∉ closed_now acts) fds1) (observe (srv w) (io w) e r data))
          else None
      | _, _ => None
      end
  end.
Fixpoint run (ok : SubmitEntry.t → Z → bool) (w : world) (script : list (nat * Z * list Z)) : option world :=
  match script with
  | [] => Some w
  | x :: script => match run_one ok w x with Some w' => run ok w' script | None => None end
  end.

Lemma echo_run_one_step ok w k r data w' :
  run_one ok w (k, r, data) = Some w' → ∃ e, ok e r = true ∧ step_of e r w w'.
Proof.
  unfold run_one. destruct (inflight w !! k) as [e|] eqn:He; [|done].
  destruct (kernel_exec (fds w) e r data) as [F1|] eqn:Hk; [|done].
  destruct (handle _ _ _) as [[s' acts]|] eqn:Hh; [|done]. destruct (ok e r) eqn:Hok; [|done].
  intros [= <-]. exists e. split; [done|].
  eapply step_complete; [|by apply kernel_exec_sound|done]. symmetry. by apply take_drop_middle.
Qed.

Lemma echo_run_steps (good : SubmitEntry.t → Z → Prop) ok script w w' :
  (∀ e r, ok e r = true → good e r) → run ok w script = Some w' → rtc (step good) w w'.
Proof.
  intros Hg. revert w. induction script as [|[[k r] data] script IH]; intros w H; cbn [run] in H;
    [by simplify_eq; constructor|].
  destruct (run_one ok w (k, r, data)) as [w1|] eqn:E; [|done]. apply echo_run_one_step in E as (e & Hok & Hs).
  eapply rtc_l; [exists e, r; split; [done|by apply Hg]|by apply IH].
Qed.

End Server.
End Echo.

(** ** Theorems *)
Section Theorems.
Import KernelIo Echo.
Context (listener accept_addr accept_addr_len : Z) (buf_ptr : Z → Z).

(** The completions of a kernel that sends all it is given or fails. *)
Definition sends_all (e : SubmitEntry.t) (r : Z) : Prop := writes e = true → 0 < r → r = arg e 2.
Definition any_result (e : SubmitEntry.t) (r : Z) : Prop := True.

Local Abbreviation init := (init listener accept_addr accept_addr_len).
Local Abbreviation step good := (step listener accept_addr accept_addr_len buf_ptr good).

Lemma eq_send e r (tx rx d : list Z) :
  sends_all e r → writes e = true → Z.of_nat (length d) = arg e 2 → 0 < r ≤ arg e 2 →
  tx = rx → tx ++ take (Z.to_nat r) d = rx ++ d.
Proof. intros Hg Hw Hd Hr ->. f_equal. apply take_ge. rewrite (Hg Hw); lia. Qed.

Lemma sublist_send e r (tx rx d : list Z) :
  any_result e r → writes e = true → Z.of_nat (length d) = arg e 2 → 0 < r ≤ arg e 2 →
  sublist tx rx → sublist (tx ++ take (Z.to_nat r) d) (rx ++ d).
Proof. intros _ _ _ _ HS. apply sublist_app; [done|apply sublist_take]. Qed.

(** C24: If no send is cut short, every client gets its own bytes back: what it was
    sent is a prefix of what it sent, at most one buffer behind, and not behind
    at all when the server waits for its next bytes. *)
Theorem echo_answers_exactly w0 w i c :
  init w0 → rtc (step sends_all) w0 w → ConnSlab.slots (conns (srv w)) !! i = Some (Some c) →
  ∃ owed, (io w i).1 = (io w i).2 ++ owed ∧ Z.of_nat (length owed) ≤ BUF_SIZE ∧
    ∀ e, e ∈ inflight w → SubmitEntry.corr_id e = Ids.make_id Ids.OP_RECV (Z.of_nat i) → owed = [].
Proof.
  intros H0 Hr Hsl. destruct (echo_inv_run _ _ _ _ eq _ eq_refl eq_send _ _ H0 Hr) as (acc & es & Hi).
  pose proof Hi as [_ [Hl Hlen] _ _ Hslots _]. pose proof (lookup_lt_Some _ _ _ Hsl) as Hlt.
  destruct (lookup_lt_is_Some_2 es i) as [oe Hoe]; [lia|]. pose proof (Hslots i _ _ Hsl Hoe) as Hok.
  destruct oe as [e0|]; [|done]. destruct Hok as [_ Hok].
  assert (Hown : ∀ e, e ∈ inflight w → SubmitEntry.corr_id e = Ids.make_id Ids.OP_RECV (Z.of_nat i) → e = e0).
  { intros e He Hid. enough (es !! i = Some (Some e)) by congruence.
    eapply (entry_of_slot _ _ _ _ _ _ _ _ e i Ids.OP_RECV Hi); [done|done| |done|done].
    apply (bool_decide_unpack _). by vm_compute. }
  assert (Hrecv : ∀ op e, Ids.is_op op → op ≠ Ids.OP_RECV → SubmitEntry.corr_id e = Ids.make_id op (Z.of_nat i) →
    SubmitEntry.corr_id e ≠ Ids.make_id Ids.OP_RECV (Z.of_nat i)).
  { intros op e Hop Hne -> E. apply Ids.make_id_inj in E as [? _]; [done|done| |unfold in_u; lia|unfold in_u; lia].
    apply (bool_decide_unpack _). by vm_compute. }
  destruct Hok as [rx tx E HS|rx tx E Hp HS|rx tx owed E HS Hb].
  - exists []. simpl. rewrite app_nil_r. by split_and!.
  - exists (take (Z.to_nat (pending c)) (buf c)). simpl. rewrite HS, length_take. split_and!; [done|lia|].
    intros e He Hid. destruct (Hrecv Ids.OP_SEND e0); [|done|by injection E as <-|by rewrite <- (Hown e)].
    apply (bool_decide_unpack _). by vm_compute.
  - exists owed. simpl. rewrite HS. split_and!; [done|done|].
    intros e He Hid. destruct (Hrecv Ids.OP_CLOSE e0); [|done|by injection E as <-|by rewrite <- (Hown e)].
    apply (bool_decide_unpack _). by vm_compute.
Qed.

(** Whatever the kernel does: what a client is sent is what it sent, in order,
    with nothing added, though perhaps with parts left out. *)
Theorem echo_invents_nothing w0 w i c :
  init w0 → rtc (step any_result) w0 w → ConnSlab.slots (conns (srv w)) !! i = Some (Some c) →
  sublist (io w i).2 (io w i).1.
Proof.
  intros H0 Hr Ho. destruct (echo_inv_run _ _ _ _ sublist _ (sublist_nil_l _) sublist_send _ _ H0 Hr) as (acc & es & Hi).
  pose proof Hi as [_ [Hl _] _ _ Hslots _]. pose proof (lookup_lt_Some _ _ _ Ho).
  destruct (lookup_lt_is_Some_2 es i) as [[e|] Hoe]; [lia| |]; pose proof (Hslots i _ _ Ho Hoe) as Hok; [|done].
  destruct Hok as [_ [rx tx _ HS|rx tx _ _ HS|rx tx owed _ HS _]]; simpl; [done|by apply sublist_inserts_r..].
Qed.

(** Whatever clients and kernel do, the server never panics on a completion,
    the free list is exactly the empty slots, and the open descriptors are the
    listener and one per connection. *)
Theorem echo_runs_safely w0 w :
  init w0 → rtc (step any_result) w0 w →
  (∀ running e r data fds1, e ∈ inflight w → kernel (fds w) e r data fds1 →
     handle listener accept_addr accept_addr_len buf_ptr running (fill buf_ptr (srv w) e data)
       (IoCompletion.mk (SubmitEntry.corr_id e) r 0) ≠ Panic) ∧
  ConnSlab.wf (conns (srv w)) ∧ NoDup (fds w) ∧
  fds w ≡ₚ listener :: ConnSlab.held (λ _, own) (ConnSlab.slots (conns (srv w))).
Proof.
  intros H0 Hr. destruct (echo_inv_run _ _ _ _ sublist _ (sublist_nil_l _) sublist_send _ _ H0 Hr) as (acc & es & Hi).
  split; [|by destruct Hi as [? _ _ _ _ [? ?]]].
  intros running e r data F1 (l1 & l2 & Hfl)%list_elem_of_split Hk.
  destruct (echo_request_completes _ _ _ _ sublist any_result (sublist_nil_l _) sublist_send _ _ _ _ _ _ _ running _ _ Hi Hfl Hk I)
    as (s' & acts & Hh & _). by rewrite Hh.
Qed.
End Theorems.

(** A server on descriptor 3, run by a script. *)
Module EchoDemo.
Import KernelIo Echo.

Definition world0 : world :=
  World (mkServer (ConnSlab.new 4) stats_new) (entries [submit_accept 3 0 0]) [3] (λ _, ([], [])).
Definition all_sent (e : SubmitEntry.t) (r : Z) : bool := negb (writes e) || (r =? arg e 2).
Definition play (ok : SubmitEntry.t → Z → bool) (script : list (nat * Z * list Z)) : option world :=
  run 3 0 0 (λ i, i * BUF_SIZE) ok world0 script.
Abbreviation demo_step good := (step 3 0 0 (λ i, i * BUF_SIZE) good).

Lemma echo_world0_init : init 3 0 0 world0.
Proof. exists 4. by split. Qed.

(** A client on descriptor 9 that sends five bytes, of which the kernel sends
    [n] back. *)
Definition hello (n : Z) : list (nat * Z * list Z) := [(0%nat, 9, []); (0%nat, 5, bytes "hello"); (1%nat, n, [])].

Lemma play_any script w : play (λ _ _, true) script = Some w → rtc (demo_step any_result) world0 w.
Proof. by apply echo_run_steps. Qed.

Lemma play_all script w : play all_sent script = Some w → rtc (demo_step sends_all) world0 w.
Proof.
  apply echo_run_steps. intros e r H Hw _. unfold all_sent in H. rewrite Hw in H. by apply Z.eqb_eq in H.
Qed.

(** The first slot and its stream, and the requests in flight. *)
Definition view (w : world) : bool * stream * list Z :=
  (match ConnSlab.slots (conns (srv w)) !! 0%nat with Some (Some _) => true | _ => false end,
   io w 0%nat, SubmitEntry.corr_id <$> inflight w).

Lemma view_slot w g ids :
  view w = (true, g, ids) → ∃ c, ConnSlab.slots (conns (srv w)) !! 0%nat = Some (Some c).
Proof. unfold view. destruct (_ !! _) as [[c|]|]; [eauto|done|done]. Qed.

Lemma played ok n v :
  match play ok (hello n) with Some w => bool_decide (view w = v) | None => false end = true →
  ∃ w, play ok (hello n) = Some w ∧ view w = v.
Proof. destruct (play ok (hello n)) as [w|]; [|done]. intros ?%bool_decide_eq_true_1. eauto. Qed.

Definition idle : list Z := [Ids.make_id Ids.OP_ACCEPT 0; Ids.make_id Ids.OP_RECV 0].
End EchoDemo.

Lemma echo_answers_exactly_witness :
  ∃ w, rtc (EchoDemo.demo_step sends_all) EchoDemo.world0 w ∧
    ∃ owed, (Echo.io w 0%nat).1 = (Echo.io w 0%nat).2 ++ owed ∧ Z.of_nat (length owed) ≤ Echo.BUF_SIZE.
Proof.
  destruct (EchoDemo.played EchoDemo.all_sent 5 (true, (bytes "hello", bytes "hello"), EchoDemo.idle)) as (w & Hw & Hv);
    [by vm_compute|].
  destruct (EchoDemo.view_slot _ _ _ Hv) as [c Hc]. exists w. pose proof (EchoDemo.play_all _ _ Hw) as Hr. split; [exact Hr|].
  destruct (echo_answers_exactly _ _ _ _ _ _ _ _ EchoDemo.echo_world0_init Hr Hc) as (owed & H1 & H2 & _). by exists owed.
Defined.

Lemma echo_invents_nothing_witness :
  ∃ w, rtc (EchoDemo.demo_step any_result) EchoDemo.world0 w ∧ sublist (Echo.io w 0%nat).2 (Echo.io w 0%nat).1.
Proof.
  destruct (EchoDemo.played (λ _ _, true) 3 (true, (bytes "hello", bytes "hel"), EchoDemo.idle)) as (w & Hw & Hv);
    [by vm_compute|].
  destruct (EchoDemo.view_slot _ _ _ Hv) as [c Hc]. exists w. pose proof (EchoDemo.play_any _ _ Hw) as Hr. split; [exact Hr|].
  exact (echo_invents_nothing _ _ _ _ _ _ _ _ EchoDemo.echo_world0_init Hr Hc).
Defined.

Lemma echo_runs_safely_witness :
  ∃ w, rtc (EchoDemo.demo_step any_result) EchoDemo.world0 w ∧ NoDup (Echo.fds w).
Proof.
  destruct (EchoDemo.played (λ _ _, true) 3 (true, (bytes "hello", bytes "hel"), EchoDemo.idle)) as (w & Hw & _);
    [by vm_compute|].
  exists w. pose proof (EchoDemo.play_any _ _ Hw) as Hr. split; [exact Hr|].
  apply (echo_runs_safely _ _ _ _ _ _ EchoDemo.echo_world0_init Hr).
Defined.

(** A send that the kernel cuts short is not continued: the client sent five
    bytes, was sent three, and the server waits for the next ones. *)
Theorem echo_short_send_drops :
  ∃ w, rtc (EchoDemo.demo_step any_result) EchoDemo.world0 w ∧ Echo.io w 0%nat = (bytes "hello", bytes "hel") ∧
    SubmitEntry.corr_id <$> Echo.inflight w = EchoDemo.idle.
Proof.
  destruct (EchoDemo.played (λ _ _, true) 3 (true, (bytes "hello", bytes "hel"), EchoDemo.idle)) as (w & Hw & Hv);
    [by vm_compute|].
  exists w. split; [by apply EchoDemo.play_any in Hw|]. unfold EchoDemo.view in Hv. by injection Hv.
Qed.
