(* ===== verification/Httpd.v ===== *)
(** * The HTTP server on io_uring: [cmd/httpd/rust/ksvc]

    An event loop that accepts connections, parses requests, answers them with
    a fixed text or with a file, and keeps connections alive.  A handler takes
    one completion to a new state and a list of actions; [turn] is one turn of
    the loop over the ring of KsvcUring and the router of KsvcRouter.  [step] is
    the loop together with a kernel that completes any request in flight with
    any result the system call may return; its bytes arrive with the completion.
    Addresses of buffers are parameters. *)
From stdpp Require Import base list strings pretty.
From S2P Require Import Prelude KsvcTypes KsvcRouter KsvcUring ConnSlab.
Local Open Scope Z_scope.
Local Open Scope rust_scope.

(** ** Bytes and text *)
Module Text.

Definition CRLF : list Z := [13; 10].
Definition decimal (n : Z) : list Z := bytes (pretty n).

Fixpoint starts_with (p l : list Z) : bool :=
  match p, l with
  | [], _ => true
  | a :: p', b :: l' => (a =? b) && starts_with p' l'
  | _ :: _, [] => false
  end.
Definition ends_with (p l : list Z) : bool := starts_with (reverse p) (reverse l).

(** [windows(n).position(|w| w == p)] for a non-empty [p] of length [n]. *)
Fixpoint position_of (p l : list Z) : option Z :=
  match l with
  | [] => None
  | _ :: l' => if starts_with p l then Some 0 else (λ i, i + 1) <$> position_of p l'
  end.
(** [str::contains]. *)
Definition contains (p l : list Z) : bool := bool_decide (is_Some (position_of p l)).

(** [std::str::from_utf8(..).is_ok()]. *)
Definition cont (b : Z) : bool := (0x80 <=? b) && (b <=? 0xBF).
Definition within (lo hi b : Z) : bool := (lo <=? b) && (b <=? hi).
Fixpoint utf8_valid (l : list Z) : bool :=
  match l with
  | [] => true
  | b :: r =>
      if b <? 0x80 then utf8_valid r
      else if within 0xC2 0xDF b then
        match r with c1 :: r1 => cont c1 && utf8_valid r1 | _ => false end
      else if within 0xE0 0xEF b then
        match r with
        | c1 :: c2 :: r2 =>
            (if b =? 0xE0 then within 0xA0 0xBF c1 else if b =? 0xED then within 0x80 0x9F c1 else cont c1) &&
            cont c2 && utf8_valid r2
        | _ => false
        end
      else if within 0xF0 0xF4 b then
        match r with
        | c1 :: c2 :: c3 :: r3 =>
            (if b =? 0xF0 then within 0x90 0xBF c1 else if b =? 0xF4 then within 0x80 0x8F c1 else cont c1) &&
            cont c2 && cont c3 && utf8_valid r3
        | _ => false
        end
      else false
  end.

End Text.

(** ** Requests and responses *)
Module Http.
Import Text.

Definition RECV_BUF : Z := 4096.
Definition FILE_BUF : Z := 65536.
Definition HELLO_BODY : list Z := bytes "Hello from KSVC!" ++ [10].

Definition header (l : string) : list Z := bytes l ++ CRLF.

Definition make_hello_response : list Z :=
  header "HTTP/1.1 200 OK" ++ header "Content-Type: text/plain" ++
  bytes "Content-Length: " ++ decimal (Z.of_nat (length HELLO_BODY)) ++ CRLF ++
  header "Connection: keep-alive" ++ header "Server: ksvc-httpd" ++ CRLF ++ HELLO_BODY.

Definition make_404_response : list Z :=
  let body := bytes "404 Not Found" ++ [10] in
  header "HTTP/1.1 404 Not Found" ++ header "Content-Type: text/plain" ++
  bytes "Content-Length: " ++ decimal (Z.of_nat (length body)) ++ CRLF ++
  header "Connection: keep-alive" ++ CRLF ++ body.

Definition make_file_response (content_type : string) (body : list Z) : list Z :=
  header "HTTP/1.1 200 OK" ++ bytes "Content-Type: " ++ bytes content_type ++ CRLF ++
  bytes "Content-Length: " ++ decimal (Z.of_nat (length body)) ++ CRLF ++
  header "Connection: keep-alive" ++ header "Server: ksvc-httpd" ++ CRLF ++ body.

Definition guess_content_type (path : list Z) : string :=
  let e := λ s, ends_with (bytes s) path in
  if e ".html" || e ".htm" then "text/html"
  else if e ".css" then "text/css"
  else if e ".js" then "application/javascript"
  else if e ".json" then "application/json"
  else if e ".txt" then "text/plain"
  else if e ".png" then "image/png"
  else if e ".jpg" || e ".jpeg" then "image/jpeg"
  else if e ".gif" then "image/gif"
  else if e ".svg" then "image/svg+xml"
  else "application/octet-stream".

(** [parse_request]: [None] for an incomplete request, and otherwise the end of
    the header and the path. *)
Definition parse_request (buf : list Z) (len : Z) : outcome (option (Z * list Z)) :=
  if Z.of_nat (length buf) <? len then Panic
  else
    let data := take (Z.to_nat len) buf in
    match position_of (CRLF ++ CRLF) data with
    | None => Ret None
    | Some e =>
        let header_end := e + 4 in
        if (Z.of_nat (length data) <? 14) || negb (bool_decide (take 4 data = bytes "GET ")) then
          Ret (Some (header_end, bytes "/"))
        else
          let path_start := 4 in
          let path_end := match position_of (bytes " ") (drop 4 data) with
                          | Some p => path_start + p
                          | None => path_start + 1
                          end in
          Ret (Some (header_end, drop 4 (take (Z.to_nat path_end) data)))
    end.

End Http.

(** ** The server *)
Module Httpd.
Import Text Http.

Inductive ConnState :=
| Receiving | SendingReply | FileOpening | FileReading | FileSending | FileClosing | Closing.
#[global] Instance ConnState_eq_dec : EqDecision ConnState.
Proof. solve_decision. Defined.

Record Conn := mkConn {
  fd : Z; state : ConnState;
  recv_buf : list Z; recv_len : Z;
  send_buf : list Z; send_off : Z;
  file_fd : Z; file_buf : list Z; file_path : list Z
}.

Definition fresh_conn (fd : Z) : Conn :=
  mkConn fd Receiving (replicate (Z.to_nat RECV_BUF) 0) 0 [] 0 (-1) (replicate (Z.to_nat FILE_BUF) 0) [].

Definition set_state (c : Conn) (s : ConnState) : Conn :=
  mkConn (fd c) s (recv_buf c) (recv_len c) (send_buf c) (send_off c) (file_fd c) (file_buf c) (file_path c).
Definition set_recv (c : Conn) (b : list Z) (n : Z) : Conn :=
  mkConn (fd c) (state c) b n (send_buf c) (send_off c) (file_fd c) (file_buf c) (file_path c).
Definition set_send (c : Conn) (b : list Z) (n : Z) : Conn :=
  mkConn (fd c) (state c) (recv_buf c) (recv_len c) b n (file_fd c) (file_buf c) (file_path c).
Definition set_file (c : Conn) (f : Z) (b : list Z) (p : list Z) : Conn :=
  mkConn (fd c) (state c) (recv_buf c) (recv_len c) (send_buf c) (send_off c) f b p.

Definition reset_for_next_request (c : Conn) : Conn :=
  mkConn (fd c) Receiving (recv_buf c) 0 [] 0 (-1) (file_buf c) (file_path c).

Record Stats := mkStats {
  accepts : Z; requests : Z; responses : Z; bytes_in : Z; bytes_out : Z; errors : Z; file_opens : Z
}.
Definition stats_new : Stats := mkStats 0 0 0 0 0 0 0.

Record server := mkServer { conns : ConnSlab.t Conn; stats : Stats }.

Definition with_conns (s : server) (c : ConnSlab.t Conn) : server := mkServer c (stats s).
Definition add_accept (s : Stats) : Stats :=
  mkStats (accepts s +[64] 1) (requests s) (responses s) (bytes_in s) (bytes_out s) (errors s) (file_opens s).
Definition add_request (s : Stats) : Stats :=
  mkStats (accepts s) (requests s +[64] 1) (responses s) (bytes_in s) (bytes_out s) (errors s) (file_opens s).
Definition add_response (s : Stats) : Stats :=
  mkStats (accepts s) (requests s) (responses s +[64] 1) (bytes_in s) (bytes_out s) (errors s) (file_opens s).
Definition add_in (s : Stats) (n : Z) : Stats :=
  mkStats (accepts s) (requests s) (responses s) (bytes_in s +[64] n) (bytes_out s) (errors s) (file_opens s).
Definition add_out (s : Stats) (n : Z) : Stats :=
  mkStats (accepts s) (requests s) (responses s) (bytes_in s) (bytes_out s +[64] n) (errors s) (file_opens s).
Definition add_error (s : Stats) : Stats :=
  mkStats (accepts s) (requests s) (responses s) (bytes_in s) (bytes_out s) (errors s +[64] 1) (file_opens s).
Definition add_open (s : Stats) : Stats :=
  mkStats (accepts s) (requests s) (responses s) (bytes_in s) (bytes_out s) (errors s) (file_opens s +[64] 1).

Section Server.
(** The listener and the address buffers of accept, the addresses of the
    buffers of a slot, and the two parameters of the mode. *)
Context (listener accept_addr accept_addr_len : Z).
Context (recv_ptr send_ptr file_ptr path_ptr : Z → Z).
Context (file_mode : bool) (base_dir : list Z).

Definition AT_FDCWD : Z := -100.
Definition O_RDONLY : Z := 0.

(** The slices [recv_buf[offset..]] and [send_buf[send_off..]] panic past the end. *)
Definition submit_recv (c : Conn) (idx : Z) : outcome action :=
  let offset := recv_len c in
  if RECV_BUF <? offset then Panic
  else Ret (request Ids.OP_RECV idx NR_RECVFROM
    [wrap 64 (fd c); recv_ptr idx + offset; RECV_BUF - offset; 0; 0; 0]).

Definition submit_send (c : Conn) (idx : Z) : outcome action :=
  let n := Z.of_nat (length (send_buf c)) in
  if n <? send_off c then Panic
  else Ret (request Ids.OP_SEND idx NR_SENDTO
    [wrap 64 (fd c); send_ptr idx + send_off c; n - send_off c; 0; 0; 0]).

Definition submit_file_open (c : Conn) (idx : Z) : action :=
  request Ids.OP_FILE_OPEN idx NR_OPENAT [wrap 64 AT_FDCWD; path_ptr idx; O_RDONLY; 0; 0; 0].
Definition submit_file_read (c : Conn) (idx : Z) : action :=
  request Ids.OP_FILE_READ idx NR_READ [wrap 64 (file_fd c); file_ptr idx; FILE_BUF; 0; 0; 0].
Definition submit_file_close (f idx : Z) : action :=
  request Ids.OP_FILE_CLOSE idx NR_CLOSE [wrap 64 f; 0; 0; 0; 0; 0].

(** Stores the connection and submits the one request the branch ends with. *)
Definition continue_with (s : server) (idx : Z) (c : Conn) (a : outcome action) : outcome (server * list action) :=
  x ← a; Ret (with_conns s (ConnSlab.put (conns s) idx c), [x]).

(** [send_buf] filled with a response, from its start. *)
Definition send_response (s : server) (idx : Z) (c : Conn) (resp : list Z) (st : ConnState)
  : outcome (server * list action) :=
  let c := set_state (set_send c resp 0) st in continue_with s idx c (submit_send c idx).

Definition close_conn (s : server) (idx : Z) (c : Conn) : outcome (server * list action) :=
  continue_with s idx (set_state c Closing) (Ret (submit_close (fd c) idx)).

Definition on_accept (s : server) (result : Z) : outcome (server * list action) :=
  let again := submit_accept listener accept_addr accept_addr_len in
  if 0 <=? result then
    let new_fd := as_i32 result in
    let st := add_accept (stats s) in
    r ← ConnSlab.alloc (conns s) (fresh_conn new_fd);
    match r with
    | (Some cidx, cs) =>
        match ConnSlab.get cs cidx with
        | Some c => x ← submit_recv c cidx; Ret (mkServer cs st, [NoDelay new_fd; x; again])
        | None => Ret (mkServer cs st, [NoDelay new_fd; again])
        end
    | (None, cs) => Ret (mkServer cs (add_error st), [NoDelay new_fd; CloseFd new_fd; again])
    end
  else Ret (mkServer (conns s) (add_error (stats s)), [again]).

(** The path of a request in file mode. *)
Definition request_path (path : list Z) : list Z :=
  let p := if utf8_valid path then path else bytes "/" in
  if bool_decide (p = bytes "/") then bytes "/index.html" else p.

Definition open_file (s : server) (idx : Z) (c : Conn) (path : list Z) : outcome (server * list action) :=
  let path_str := request_path path in
  if contains (bytes "..") path_str then send_response s idx c make_404_response SendingReply
  else
    let full_path := base_dir ++ path_str in
    (* [CString::new] refuses a zero byte *)
    if bool_decide (0 ∈ full_path) then send_response s idx c make_404_response SendingReply
    else
      let c := set_state (set_file c (file_fd c) (file_buf c) full_path) FileOpening in
      continue_with (mkServer (conns s) (add_open (stats s))) idx c (Ret (submit_file_open c idx)).

Definition on_recv (s : server) (idx result : Z) : outcome (server * list action) :=
  if result <=? 0 then
    match ConnSlab.get (conns s) idx with Some c => close_conn s idx c | None => Ret (s, []) end
  else
    let s := mkServer (conns s) (add_in (stats s) result) in
    match ConnSlab.get (conns s) idx with
    | None => Ret (s, [])
    | Some c =>
        let c := set_recv c (recv_buf c) (recv_len c +[64] result) in
        r ← parse_request (recv_buf c) (recv_len c);
        match r with
        | None =>
            if RECV_BUF <=? recv_len c then close_conn s idx c
            else continue_with s idx c (submit_recv c idx)
        | Some (_consumed, path) =>
            let s := mkServer (conns s) (add_request (stats s)) in
            if negb file_mode then send_response s idx c make_hello_response SendingReply
            else open_file s idx c path
        end
    end.

Definition on_send (s : server) (idx result : Z) : outcome (server * list action) :=
  if result <=? 0 then
    let se := mkServer (conns s) (add_error (stats s)) in
    match ConnSlab.get (conns s) idx with Some c => close_conn se idx c | None => Ret (se, []) end
  else
    let s := mkServer (conns s) (add_out (stats s) result) in
    match ConnSlab.get (conns s) idx with
    | None => Ret (s, [])
    | Some c =>
        let c := set_send c (send_buf c) (send_off c +[64] result) in
        if send_off c <? Z.of_nat (length (send_buf c)) then continue_with s idx c (submit_send c idx)
        else
          let s := mkServer (conns s) (add_response (stats s)) in
          match state c with
          | FileSending =>
              let ffd := file_fd c in
              let c := set_state (set_file c (-1) (file_buf c) (file_path c)) FileClosing in
              continue_with s idx c (Ret (submit_file_close ffd idx))
          | _ => let c := reset_for_next_request c in continue_with s idx c (submit_recv c idx)
          end
    end.

Definition on_file_open (s : server) (idx result : Z) : outcome (server * list action) :=
  match ConnSlab.get (conns s) idx with
  | None => Ret (s, [])
  | Some c =>
      if result <? 0 then send_response s idx c make_404_response SendingReply
      else
        let c := set_state (set_file c (as_i32 result) (file_buf c) (file_path c)) FileReading in
        continue_with s idx c (Ret (submit_file_read c idx))
  end.

(** [&file_buf[..nbytes]] panics past the end. *)
Definition on_file_read (s : server) (idx result : Z) : outcome (server * list action) :=
  match ConnSlab.get (conns s) idx with
  | None => Ret (s, [])
  | Some c =>
      if result <=? 0 then send_response s idx c (make_file_response "text/plain" []) FileSending
      else
        let path_str := if utf8_valid (file_path c) then file_path c else [] in
        if Z.of_nat (length (file_buf c)) <? result then Panic
        else send_response s idx c
          (make_file_response (guess_content_type path_str) (take (Z.to_nat result) (file_buf c))) FileSending
  end.

Definition on_file_close (s : server) (idx : Z) : outcome (server * list action) :=
  match ConnSlab.get (conns s) idx with
  | Some c => let c := reset_for_next_request c in continue_with s idx c (submit_recv c idx)
  | None => Ret (s, [])
  end.

Definition on_close (s : server) (idx : Z) : outcome (server * list action) :=
  cs ← ConnSlab.free (conns s) idx; Ret (with_conns s cs, []).

(** The [match op] of the event loop. *)
Definition handle (s : server) (cqe : IoCompletion.t) : outcome (server * list action) :=
  let op := Ids.decode_op (IoCompletion.corr_id cqe) in
  let idx := Ids.decode_idx Ids.IDX_MASK (IoCompletion.corr_id cqe) in
  let result := IoCompletion.result cqe in
  if op =? Ids.OP_ACCEPT then on_accept s result
  else if op =? Ids.OP_RECV then on_recv s idx result
  else if op =? Ids.OP_SEND then on_send s idx result
  else if op =? Ids.OP_FILE_OPEN then on_file_open s idx result
  else if op =? Ids.OP_FILE_READ then on_file_read s idx result
  else if op =? Ids.OP_FILE_CLOSE then on_file_close s idx
  else if op =? Ids.OP_CLOSE then on_close s idx
  else Ret (s, []).

(** The [for] loop over the completions. *)
Definition handle_all (s : server) (cqes : list IoCompletion.t) : outcome (server * list action) :=
  fold_outcome (λ x cqe, r ← handle x.1 cqe; Ret (r.1, x.2 ++ r.2)) (s, []) cqes.

End Server.
End Httpd.

(** One turn of the event loop: submit and wait, take up to 128 completions,
    handle them, and hand the requests to the ring with the routed opcodes. *)
Module HttpdLoop.
Import Httpd.
Section Loop.
Context {R : Type} `{!IoUring R}.
Context (listener accept_addr accept_addr_len : Z) (recv_ptr send_ptr file_ptr path_ptr : Z → Z).
Context (file_mode : bool) (base_dir : list Z) (router : ProbeRouter.t).

Definition SQ_ENTRIES : Z := 512.
Definition BATCH : nat := 128.

Definition exec (b : BasicIoUring.t R) (a : action) : BasicIoUring.t R :=
  match a with
  | Submit nr e => (BasicIoUring.submit_with_opcode b e (RouteInfo.iouring_opcode (ProbeRouter.route router nr))).2
  | _ => b
  end.

Definition turn (s : server) (b : BasicIoUring.t R) : outcome (server * BasicIoUring.t R) :=
  let b1 := (BasicIoUring.flush_and_wait b 1).2 in
  let '(cqes, b2) := BasicIoUring.poll_completions b1 BATCH BATCH in
  r ← handle_all listener accept_addr accept_addr_len recv_ptr send_ptr file_ptr path_ptr file_mode base_dir s cqes;
  Ret (r.1, foldl exec b2 r.2).

(** Before the loop: the slab, and the first accept. *)
Definition start (max_conns : Z) (b : BasicIoUring.t R) : server * BasicIoUring.t R :=
  (mkServer (ConnSlab.new max_conns) stats_new,
   (BasicIoUring.flush (exec b (submit_accept listener accept_addr accept_addr_len))).2).

End Loop.

(** [main]: the connection slots of each worker. *)
Definition conns_per_worker (max_conns num_threads : Z) : Z := max_conns `div` Z.max num_threads 1.

End HttpdLoop.

(** ** Text *)
Section TextLemmas.
Import Text.

Lemma starts_with_spec p l : starts_with p l = true ↔ ∃ r, l = p ++ r.
Proof.
  revert l. induction p as [|a p IH]; intros [|b l]; simpl.
  - split; [by exists []|done].
  - split; [by exists (b :: l)|done].
  - split; [done|by intros [r ?]].
  - rewrite andb_true_iff, Z.eqb_eq, IH. split; [intros [-> [r ->]]; by exists r|intros [r ?]; naive_solver].
Qed.

(** The first occurrence of [p]. *)
Lemma position_of_Some p l i :
  p ≠ [] → position_of p l = Some i →
  ∃ pre post, l = pre ++ p ++ post ∧ i = Z.of_nat (length pre) ∧
    ∀ pre' post', l = pre' ++ p ++ post' → (length pre ≤ length pre')%nat.
Proof.
  intros Hp. revert i. induction l as [|b l IH]; intros i; [done|]. cbn [position_of].
  destruct (starts_with p (b :: l)) eqn:E; intros Hi.
  - simplify_eq. apply starts_with_spec in E as [r E]. exists [], r. split_and!; [done|done|simpl; lia].
  - destruct (position_of p l) as [j|]; simplify_eq/=. destruct (IH j eq_refl) as (pre & post & -> & -> & Hmin).
    exists (b :: pre), post. split_and!; [done|simpl; lia|]. intros [|x pre'] post' Hl.
    + assert (starts_with p (b :: pre ++ p ++ post) = true) by (apply starts_with_spec; by exists post').
      congruence.
    + simpl in Hl. injection Hl as -> Hl. specialize (Hmin _ _ Hl). simpl. lia.
Qed.

Lemma position_of_None p l : p ≠ [] → position_of p l = None → ∀ pre post, l ≠ pre ++ p ++ post.
Proof.
  intros Hp. induction l as [|b l IH]; intros Hn pre post Hl; [by destruct pre, p|]. cbn [position_of] in Hn.
  destruct (starts_with p (b :: l)) eqn:E; [done|]. destruct (position_of p l); [done|].
  destruct pre as [|x pre].
  - assert (starts_with p (b :: l) = true) by (apply starts_with_spec; by exists post). congruence.
  - simplify_eq/=. by eapply IH.
Qed.

Lemma contains_spec p l : p ≠ [] → contains p l = true ↔ ∃ pre post, l = pre ++ p ++ post.
Proof.
  intros Hp. unfold contains. rewrite bool_decide_eq_true. split.
  - intros [i Hi]. destruct (position_of_Some _ _ _ Hp Hi) as (pre & post & ? & _). eauto.
  - intros (pre & post & Hl). destruct (position_of p l) eqn:E; [done|]. by eapply position_of_None in E.
Qed.

End TextLemmas.

(** [parse_request] never panics on the bytes it was given: it answers [None]
    exactly while the empty line that ends the header has not arrived, and
    otherwise the end of the first one; the path is ["/"] unless the request
    starts with [GET], and then what follows it up to the next space. *)
Theorem parse_request_spec buf len :
  0 ≤ len ≤ Z.of_nat (length buf) →
  let data := take (Z.to_nat len) buf in
  let mark := Text.CRLF ++ Text.CRLF in
  (Http.parse_request buf len = Ret None ↔ ∀ pre post, data ≠ pre ++ mark ++ post) ∧
  (∀ h path, Http.parse_request buf len = Ret (Some (h, path)) →
     ∃ pre post, data = pre ++ mark ++ post ∧ h = Z.of_nat (length (pre ++ mark)) ∧
       (∀ pre' post', data = pre' ++ mark ++ post' → (length pre ≤ length pre')%nat) ∧
       (path = bytes "/" ∨ ∃ rest, data = bytes "GET " ++ path ++ rest)) ∧
  Http.parse_request buf len ≠ Panic.
Proof.
  intros Hlen data mark. unfold Http.parse_request.
  destruct (Z.ltb_spec (Z.of_nat (length buf)) len); [lia|]. fold data. fold mark.
  destruct (Text.position_of mark data) as [e|] eqn:E.
  - destruct (position_of_Some mark data e) as (pre & post & Hd & -> & Hmin); [done|done|].
    split_and!.
    + split; [by repeat case_match|]. intros Hn. by destruct (Hn pre post).
    + intros h path Hr. exists pre, post.
      assert (h = Z.of_nat (length pre) + 4) as -> by (repeat case_match; simplify_eq; done).
      split_and!; [done|rewrite length_app; simpl; lia|done|].
      destruct (_ || _) eqn:Ec; [left; by simplify_eq|]. right. apply orb_false_iff in Ec as [H14 Hg].
      apply Z.ltb_ge in H14. apply negb_false_iff, bool_decide_eq_true in Hg.
      set (pe := match Text.position_of (bytes " ") (drop 4 data) with Some p => 4 + p | None => 4 + 1 end) in Hr.
      assert (4 ≤ pe) as Hpe.
      { unfold pe. destruct (Text.position_of (bytes " ") (drop 4 data)) eqn:Ep; [|lia].
        eapply position_of_Some in Ep as (? & ? & _ & -> & _); [lia|done]. }
      clearbody pe. injection Hr as <-. exists (drop (Z.to_nat pe) data). rewrite <- Hg.
      rewrite <- (take_drop (Z.to_nat pe) data) at 1. rewrite (assoc (++)). f_equal.
      rewrite <- (take_drop 4 (take (Z.to_nat pe) data)) at 1. f_equal.
      rewrite take_take. f_equal. lia.
    + by repeat case_match.
  - split_and!; [|done|done]. split; [|done]. intros _. by apply position_of_None.
Qed.

Lemma parse_request_spec_witness :
  let buf := bytes "GET /a HTTP/1.1" ++ Text.CRLF ++ Text.CRLF ++ [0; 0] in
  (Http.parse_request buf 19 = Ret None ↔ ∀ pre post, take 19 buf ≠ pre ++ (Text.CRLF ++ Text.CRLF) ++ post) ∧
  (∀ h path, Http.parse_request buf 19 = Ret (Some (h, path)) →
     ∃ pre post, take 19 buf = pre ++ (Text.CRLF ++ Text.CRLF) ++ post ∧
       h = Z.of_nat (length (pre ++ (Text.CRLF ++ Text.CRLF))) ∧
       (∀ pre' post', take 19 buf = pre' ++ (Text.CRLF ++ Text.CRLF) ++ post' → (length pre ≤ length pre')%nat) ∧
       (path = bytes "/" ∨ ∃ rest, take 19 buf = bytes "GET " ++ path ++ rest)) ∧
  Http.parse_request buf 19 ≠ Panic.
Proof.
  apply (parse_request_spec (bytes "GET /a HTTP/1.1" ++ Text.CRLF ++ Text.CRLF ++ [0; 0]) 19).
  vm_compute; split; discriminate.
Defined.

(** ** The handlers *)
Section Handlers.
Import Text Http Httpd.
Context (listener accept_addr accept_addr_len : Z) (recv_ptr send_ptr file_ptr path_ptr : Z → Z).
Context (file_mode : bool) (base_dir : list Z).

Abbreviation on_recv := (on_recv recv_ptr send_ptr path_ptr file_mode base_dir).
Abbreviation handle :=
  (handle listener accept_addr accept_addr_len recv_ptr send_ptr file_ptr path_ptr file_mode base_dir).
Abbreviation handle_all :=
  (handle_all listener accept_addr accept_addr_len recv_ptr send_ptr file_ptr path_ptr file_mode base_dir).

Lemma continue_with_Ret s idx c a s' acts :
  continue_with s idx c a = Ret (s', acts) →
  ∃ x, a = Ret x ∧ s' = with_conns s (ConnSlab.put (conns s) idx c) ∧ acts = [x].
Proof. unfold continue_with. destruct a; intros; simplify_eq/=. eauto. Qed.

(** A branch that ends with one request submits at most one. *)
Lemma continue_with_few s idx c a s' acts :
  continue_with s idx c a = Ret (s', acts) → (length acts ≤ 1)%nat.
Proof. intros (x & _ & _ & ->)%continue_with_Ret. simpl. lia. Qed.

Lemma submitted_le acts : (length (submitted acts) ≤ length acts)%nat.
Proof.
  induction acts as [|a acts IH]; [done|]. unfold submitted in *. rewrite bind_cons, length_app.
  destruct a; simpl; lia.
Qed.

Lemma open_file_few s idx c path s' acts :
  open_file send_ptr path_ptr base_dir s idx c path = Ret (s', acts) → (length acts ≤ 1)%nat.
Proof. unfold open_file, send_response. repeat case_match; apply continue_with_few. Qed.

Lemma on_recv_few s idx result s' acts : on_recv s idx result = Ret (s', acts) → (length acts ≤ 1)%nat.
Proof.
  unfold Httpd.on_recv, close_conn, send_response. intros H.
  destruct (result <=? 0); [case_match; [by eapply continue_with_few|simplify_eq/=; lia]|].
  case_match; [|simplify_eq/=; lia]. destruct (parse_request _ _) as [[[h p]|]|]; cbn [mbind outcome_bind] in H; [| |done].
  - case_match; [by eapply continue_with_few|by eapply open_file_few].
  - case_match; by eapply continue_with_few.
Qed.

Lemma on_send_few s idx result s' acts :
  on_send recv_ptr send_ptr s idx result = Ret (s', acts) → (length acts ≤ 1)%nat.
Proof.
  unfold on_send, close_conn. intros H.
  repeat case_match; simplify_eq/=; try lia; by eapply continue_with_few.
Qed.

Lemma handle_few s cqe s' acts : handle s cqe = Ret (s', acts) → (length (submitted acts) ≤ 2)%nat.
Proof.
  unfold Httpd.handle. intros H.
  assert ((length acts ≤ 1)%nat → (length (submitted acts) ≤ 2)%nat) as Hle
    by (intros; pose proof (submitted_le acts); lia).
  case_match; [|case_match; [|case_match; [|case_match; [|case_match; [|case_match; [|case_match]]]]]].
  - unfold on_accept, submit_recv in H. destruct (0 <=? _); [|simplify_eq/=; lia].
    destruct (ConnSlab.alloc _ _) as [[[i|] cs]|]; simplify_eq/=; [|lia].
    repeat case_match; simplify_eq/=; lia.
  - by apply Hle; eapply on_recv_few.
  - by apply Hle; eapply on_send_few.
  - apply Hle. unfold on_file_open, send_response in H. repeat case_match; simplify_eq/=; try lia; by eapply continue_with_few.
  - apply Hle. unfold on_file_read, send_response in H. repeat case_match; simplify_eq/=; try lia; by eapply continue_with_few.
  - apply Hle. unfold on_file_close in H. repeat case_match; simplify_eq/=; try lia; by eapply continue_with_few.
  - unfold on_close in H. destruct (ConnSlab.free _ _); simplify_eq/=; lia.
  - simplify_eq/=; lia.
Qed.

Lemma handle_all_few cqes s acts0 s' acts :
  fold_outcome (λ x cqe, r ← handle x.1 cqe; Ret (r.1, x.2 ++ r.2)) (s, acts0) cqes = Ret (s', acts) →
  (length (submitted acts) ≤ length (submitted acts0) + 2 * length cqes)%nat.
Proof.
  revert s acts0. induction cqes as [|c cqes IH]; intros s acts0; cbn [fold_outcome]; [intros; simplify_eq; lia|].
  cbn [fst snd]. destruct (handle s c) as [[s1 a1]|] eqn:E; [|done]. intros H.
  apply IH in H. apply handle_few in E. unfold submitted in *. cbn [fst snd] in H.
  rewrite bind_app, length_app in H. cbn [length]. lia.
Qed.

End Handlers.

(** The ring is never overrun: a turn handles at most 128 completions, each of
    which submits at most two requests, and the submission queue has 512
    entries. *)
Theorem turn_fits_ring listener aa al rp sp fp pp file_mode base_dir s cqes s' acts :
  Httpd.handle_all listener aa al rp sp fp pp file_mode base_dir s cqes = Ret (s', acts) →
  (length cqes ≤ HttpdLoop.BATCH)%nat →
  Z.of_nat (length (submitted acts)) ≤ HttpdLoop.SQ_ENTRIES.
Proof.
  intros H%handle_all_few Hb. unfold HttpdLoop.BATCH in Hb. simpl in H.
  unfold HttpdLoop.SQ_ENTRIES. lia.
Qed.

(** A server of four slots, with its buffers at fixed addresses. *)
Section Demo.
Import Httpd.

Definition demo_handle_all (file_mode : bool) (base_dir : string) :=
  handle_all 3 0x1000 0x1010 (λ i, 0x10000 + 0x1000 * i) (λ i, 0x20000 + 0x2000 * i)
    (λ i, 0x100000 + 0x10000 * i) (λ i, 0x40000 + 0x1000 * i) file_mode (bytes base_dir).
Definition demo_server : server := mkServer (ConnSlab.new 4) stats_new.

(** The kernel's write of received bytes into slot 0. *)
Definition demo_receive (s : server) (data : list Z) : server :=
  match ConnSlab.get (conns s) 0 with
  | Some c => with_conns s (ConnSlab.put (conns s) 0
      (set_recv c (take (Z.to_nat (recv_len c)) (recv_buf c) ++ data ++
                   drop (Z.to_nat (recv_len c) + length data) (recv_buf c)) (recv_len c)))
  | None => s
  end.

Definition demo_cqe (op idx result : Z) : IoCompletion.t := IoCompletion.mk (Ids.make_id op idx) result 0.

(** Whether a computation did not panic. *)
Definition is_ret {A} (o : outcome A) : bool := match o with Ret _ => true | Panic => false end.

(** A connection on descriptor 9, and a completed receive of [data]. *)
Definition demo_request (file_mode : bool) (base_dir : string) (data : list Z) : outcome (server * list action) :=
  a ← demo_handle_all file_mode base_dir demo_server [demo_cqe Ids.OP_ACCEPT 0 9];
  demo_handle_all file_mode base_dir (demo_receive a.1 data)
    [demo_cqe Ids.OP_RECV 0 (Z.of_nat (length data))].

End Demo.

Lemma turn_fits_ring_witness :
  ∃ s' acts, demo_handle_all false "" demo_server [demo_cqe Ids.OP_ACCEPT 0 9] = Ret (s', acts) ∧
    Z.of_nat (length (submitted acts)) ≤ HttpdLoop.SQ_ENTRIES.
Proof.
  assert (Hr : is_ret (demo_handle_all false "" demo_server [demo_cqe Ids.OP_ACCEPT 0 9]) = true) by by vm_compute.
  destruct (demo_handle_all false "" demo_server [demo_cqe Ids.OP_ACCEPT 0 9]) as [[s' acts]|] eqn:E; [|done].
  exists s', acts. split; [done|]. eapply turn_fits_ring; [exact E|]. apply (bool_decide_unpack _). by vm_compute.
Defined.

(** Whatever bytes a client sends, a file the server opens is [base_dir]
    followed by a text without two dots in a row, and its name has no zero byte. *)
Theorem file_paths_confined rp sp pp base_dir s idx c result s' acts c' :
  ConnSlab.get (Httpd.conns s) idx = Some c →
  Httpd.on_recv rp sp pp true base_dir s idx result = Ret (s', acts) →
  ConnSlab.get (Httpd.conns s') idx = Some c' →
  Httpd.state c ≠ Httpd.FileOpening → Httpd.state c' = Httpd.FileOpening →
  ∃ p, Httpd.file_path c' = base_dir ++ p ∧ (∀ pre post, p ≠ pre ++ bytes ".." ++ post) ∧
    0 ∉ Httpd.file_path c'.
Proof.
  intros Hg Hr Hg' Hs Hs'. unfold Httpd.on_recv, Httpd.close_conn, Httpd.send_response in Hr.
  cbn [Httpd.conns] in Hr. rewrite Hg in Hr.
  assert (Hput : ∀ s0 x a, Httpd.continue_with s0 idx x a = Ret (s', acts) → Httpd.conns s0 = Httpd.conns s → c' = x).
  { intros s0 x a (y & _ & -> & _)%continue_with_Ret Hc. cbn in Hg'. rewrite Hc in Hg'.
    rewrite (ConnSlab.get_put _ _ c) in Hg' by done. by simplify_eq. }
  destruct (result <=? 0); [apply Hput in Hr as ->; [|done]; by simpl in Hs'|].
  destruct (Http.parse_request _ _) as [[[h path]|]|]; cbn [mbind outcome_bind negb] in Hr; [| |done].
  - unfold Httpd.open_file, Httpd.send_response in Hr.
    destruct (Text.contains _ _) eqn:Ed; [apply Hput in Hr as ->; [|done]; by simpl in Hs'|].
    case_bool_decide as Hz; [apply Hput in Hr as ->; [|done]; by simpl in Hs'|].
    apply Hput in Hr as ->; [|done]. exists (Httpd.request_path path). split_and!; [done| |done].
    intros pre post E. assert (Text.contains (bytes "..") (Httpd.request_path path) = true); [|congruence].
      apply contains_spec; [done|]. by exists pre, post.
  - destruct (_ <=? _); apply Hput in Hr as ->; done.
Qed.

(** What slot 0 shows of a result: its state, and a projection of it. *)
Definition slot0 {A} (f : Httpd.Conn → A) (r : outcome (Httpd.server * list action)) : option A :=
  match r with Ret (s, _) => f <$> ConnSlab.get (Httpd.conns s) 0 | Panic => None end.

Definition get_line (path : string) : list Z :=
  bytes "GET " ++ bytes path ++ bytes " HTTP/1.1" ++ Text.CRLF ++ Text.CRLF.

(** The server of the demonstration with [data] received on its connection. *)
Definition demo_got (data : list Z) : Httpd.server :=
  match demo_handle_all true "/srv/www" demo_server [demo_cqe Ids.OP_ACCEPT 0 9] with
  | Ret (s, _) => demo_receive s data
  | Panic => demo_server
  end.
Definition demo_on_recv (data : list Z) : outcome (Httpd.server * list action) :=
  Httpd.on_recv (λ i, 0x10000 + 0x1000 * i) (λ i, 0x20000 + 0x2000 * i) (λ i, 0x40000 + 0x1000 * i)
    true (bytes "/srv/www") (demo_got data) 0 (Z.of_nat (length data)).

Lemma file_paths_confined_witness :
  ∃ c' p, slot0 id (demo_on_recv (get_line "/a.txt")) = Some c' ∧
    Httpd.file_path c' = bytes "/srv/www" ++ p ∧ (∀ pre post, p ≠ pre ++ bytes ".." ++ post) ∧
    0 ∉ Httpd.file_path c'.
Proof.
  assert (H0 : Httpd.state <$> ConnSlab.get (Httpd.conns (demo_got (get_line "/a.txt"))) 0 = Some Httpd.Receiving)
    by by vm_compute.
  assert (H1 : slot0 Httpd.state (demo_on_recv (get_line "/a.txt")) = Some Httpd.FileOpening) by by vm_compute.
  destruct (ConnSlab.get (Httpd.conns (demo_got (get_line "/a.txt"))) 0) as [c|] eqn:Ec; [|done].
  unfold slot0 in *. destruct (demo_on_recv (get_line "/a.txt")) as [[s' acts]|] eqn:Er; [|done].
  destruct (ConnSlab.get (Httpd.conns s') 0) as [c'|] eqn:Ec'; [|done]. cbn in H0, H1.
  injection H0 as H0. injection H1 as H1. exists c'.
  edestruct (file_paths_confined _ _ _ _ _ _ _ _ _ _ _ Ec Er Ec') as (p & Hp & Hd & Hz); [congruence|done|].
  by exists p.
Defined.

(** A path that does not start with a slash is not below the directory but a
    continuation of its name: with the directory [/srv/www], a request for
    [-private/key] opens [/srv/www-private/key]. *)
Theorem path_without_slash_leaves_directory :
  slot0 Httpd.state (demo_request true "/srv/www" (get_line "-private/key")) = Some Httpd.FileOpening ∧
  slot0 Httpd.file_path (demo_request true "/srv/www" (get_line "-private/key")) =
    Some (bytes "/srv/www-private/key").
Proof. by vm_compute. Qed.

(** Of two requests that arrive together only the first is answered: the bytes
    after its header are forgotten with the rest of the buffer, and the server
    waits for a new request at the start of the buffer. *)
Theorem pipelined_request_lost :
  let r := demo_request false "" (get_line "/a" ++ get_line "/b") in
  let r2 := a ← r; demo_handle_all false "" a.1
              [demo_cqe Ids.OP_SEND 0 (Z.of_nat (length Http.make_hello_response))] in
  slot0 Httpd.state r = Some Httpd.SendingReply ∧
  slot0 Httpd.state r2 = Some Httpd.Receiving ∧ slot0 Httpd.recv_len r2 = Some 0 ∧
  (Httpd.requests ∘ Httpd.stats ∘ fst <$> match r2 with Ret x => Some x | Panic => None end) = Some 1 ∧
  (Httpd.responses ∘ Httpd.stats ∘ fst <$> match r2 with Ret x => Some x | Panic => None end) = Some 1.
Proof. by vm_compute. Qed.

(** ** Sending *)

(** What the kernel takes of the send buffer over a sequence of completed sends
    of one connection, and the connection after them; the sends stop at the one
    that completes the response. *)
Fixpoint sends (c : Httpd.Conn) (results : list Z) : list Z * Httpd.Conn :=
  match results with
  | [] => ([], c)
  | n :: rest =>
      let out := take (Z.to_nat n) (drop (Z.to_nat (Httpd.send_off c)) (Httpd.send_buf c)) in
      let '(outs, c') := sends (Httpd.set_send c (Httpd.send_buf c) (Httpd.send_off c + n)) rest in
      (out ++ outs, c')
  end.

Lemma sends_prefix results c :
  Forall (λ n, 0 < n) results → 0 ≤ Httpd.send_off c →
  Httpd.send_off c + foldr Z.add 0 results ≤ Z.of_nat (length (Httpd.send_buf c)) →
  (sends c results).1 =
    take (Z.to_nat (foldr Z.add 0 results)) (drop (Z.to_nat (Httpd.send_off c)) (Httpd.send_buf c)) ∧
  (sends c results).2 = Httpd.set_send c (Httpd.send_buf c) (Httpd.send_off c + foldr Z.add 0 results).
Proof.
  revert c. induction results as [|n rest IH]; intros c Hp H0 Hl; cbn [sends foldr].
  - split; [done|]. destruct c; unfold Httpd.set_send; simpl; f_equal. lia.
  - apply Forall_cons in Hp as [Hn Hp]. cbn [foldr] in Hl.
    assert (0 ≤ foldr Z.add 0 rest) by (clear -Hp; induction Hp; simpl; lia).
    set (c1 := Httpd.set_send c (Httpd.send_buf c) (Httpd.send_off c + n)).
    destruct (IH c1) as [H1 H2]; [done|simpl; lia|simpl; lia|].
    destruct (sends c1 rest) as [outs c2]. cbn [fst snd] in *. split.
    + rewrite H1. cbn. rewrite !Z2Nat.inj_add, <- drop_drop by lia.
      set (l := drop (Z.to_nat (Httpd.send_off c)) (Httpd.send_buf c)).
      rewrite <- take_take_drop. done.
    + rewrite H2. unfold c1, Httpd.set_send. simpl. f_equal. lia.
Qed.

Section Sending.
Import Httpd.
Context (recv_ptr send_ptr : Z → Z) (idx : Z).

Abbreviation on_send := (on_send recv_ptr send_ptr).

(** The completions of the sends of slot [idx], in order. *)
Definition run_sends (s : server) (results : list Z) : outcome (server * list action) :=
  fold_outcome (λ x n, r ← on_send x.1 idx n; Ret (r.1, x.2 ++ r.2)) (s, []) results.

(** The connection after its response. *)
Definition after_response (c : Conn) : Conn :=
  match state c with
  | FileSending => set_state (set_file c (-1) (file_buf c) (file_path c)) FileClosing
  | _ => reset_for_next_request c
  end.

Lemma on_send_partial s c n :
  ConnSlab.get (conns s) idx = Some c → 0 ≤ send_off c → 0 < n →
  send_off c + n < Z.of_nat (length (send_buf c)) < 2 ^ 64 →
  ∃ a, on_send s idx n =
    Ret (mkServer (ConnSlab.put (conns s) idx (set_send c (send_buf c) (send_off c + n))) (add_out (stats s) n), [a]).
Proof.
  intros Hg H0 Hn Hl. unfold Httpd.on_send. destruct (Z.leb_spec n 0); [lia|]. cbn [conns]. rewrite Hg.
  cbn [send_off send_buf set_send]. rewrite wrap_small by (unfold in_u; lia).
  destruct (Z.ltb_spec (send_off c + n) (Z.of_nat (length (send_buf c)))); [|lia].
  unfold continue_with, submit_send. cbn [send_buf send_off set_send].
  destruct (Z.ltb_spec (Z.of_nat (length (send_buf c))) (send_off c + n)); [lia|]. eexists. done.
Qed.

Lemma on_send_last s c n :
  ConnSlab.get (conns s) idx = Some c → 0 ≤ send_off c → 0 < n →
  send_off c + n = Z.of_nat (length (send_buf c)) → Z.of_nat (length (send_buf c)) < 2 ^ 64 →
  ∃ a, on_send s idx n =
    Ret (mkServer (ConnSlab.put (conns s) idx (after_response (set_send c (send_buf c) (send_off c + n))))
                  (add_response (add_out (stats s) n)), [a]).
Proof.
  intros Hg H0 Hn Hl Hb. unfold Httpd.on_send. destruct (Z.leb_spec n 0); [lia|]. cbn [conns]. rewrite Hg.
  cbn [send_off send_buf set_send]. rewrite wrap_small by (unfold in_u; lia).
  destruct (Z.ltb_spec (send_off c + n) (Z.of_nat (length (send_buf c)))); [lia|].
  unfold after_response. cbn [state set_send]. destruct (state c); eexists; done.
Qed.

End Sending.

(** A response is delivered completely and once: however the kernel splits it,
    the bytes of the sends are together the response, no send but the last
    ends it, and after the last one the connection waits for the next request
    or closes its file. *)
Theorem response_delivered rp sp idx s c results n :
  ConnSlab.get (Httpd.conns s) idx = Some c → Httpd.send_off c = 0 →
  Z.of_nat (length (Httpd.send_buf c)) < 2 ^ 64 →
  Forall (λ n, 0 < n) (results ++ [n]) →
  foldr Z.add 0 (results ++ [n]) = Z.of_nat (length (Httpd.send_buf c)) →
  (sends c (results ++ [n])).1 = Httpd.send_buf c ∧
  ∃ s' acts, run_sends rp sp idx s (results ++ [n]) = Ret (s', acts) ∧
    ConnSlab.get (Httpd.conns s') idx =
      Some (after_response (Httpd.set_send c (Httpd.send_buf c) (Z.of_nat (length (Httpd.send_buf c))))) ∧
    Httpd.responses (Httpd.stats s') = Httpd.responses (Httpd.stats s) +[64] 1 ∧
    length acts = length (results ++ [n]).
Proof.
  intros Hg H0 Hb Hp Hs. split.
  { rewrite (proj1 (sends_prefix _ c Hp ltac:(lia) ltac:(lia))), Hs, H0. simpl. rewrite drop_0, Nat2Z.id.
    by rewrite take_ge. }
  assert (Hoff : Httpd.send_off c + foldr Z.add 0 (results ++ [n]) = Z.of_nat (length (Httpd.send_buf c))) by lia.
  assert (H1 : 0 ≤ Httpd.send_off c) by lia. clear H0 Hs. unfold run_sends.
  cut (∀ acts0, ∃ s' acts,
    fold_outcome (λ x n, r ← Httpd.on_send rp sp x.1 idx n; Ret (r.1, x.2 ++ r.2)) (s, acts0) (results ++ [n]) =
      Ret (s', acts) ∧
    ConnSlab.get (Httpd.conns s') idx =
      Some (after_response (Httpd.set_send c (Httpd.send_buf c) (Z.of_nat (length (Httpd.send_buf c))))) ∧
    Httpd.responses (Httpd.stats s') = Httpd.responses (Httpd.stats s) +[64] 1 ∧
    length acts = (length acts0 + length (results ++ [n]))%nat); [intros H; apply (H [])|].
  revert s c Hg Hb Hp Hoff H1. induction results as [|m rest IH]; intros s c Hg Hb Hp Hoff H1 acts0.
  - cbn [app fold_outcome fst snd foldr] in *. apply Forall_cons in Hp as [Hn _].
    destruct (on_send_last rp sp idx s c n Hg H1 Hn ltac:(lia) Hb) as [a ->].
    eexists _, _. split_and!; [done| |done|by rewrite length_app].
    cbn [fst Httpd.conns]. rewrite (ConnSlab.get_put _ _ c) by done. do 3 f_equal. lia.
  - cbn [app fold_outcome fst snd foldr] in *. apply Forall_cons in Hp as [Hm Hp].
    assert (0 < foldr Z.add 0 (rest ++ [n])).
    { clear -Hp. induction rest; cbn in *; apply Forall_cons in Hp as [? Hp]; [lia|]. specialize (IHrest Hp). lia. }
    destruct (on_send_partial rp sp idx s c m Hg H1 Hm ltac:(lia)) as [a ->]. cbn [mbind outcome_bind fst snd].
    set (c1 := Httpd.set_send c (Httpd.send_buf c) (Httpd.send_off c + m)).
    destruct (IH (Httpd.mkServer (ConnSlab.put (Httpd.conns s) idx c1) (Httpd.add_out (Httpd.stats s) m)) c1)
      with (acts0 := acts0 ++ [a]) as (s' & acts & Hr & Hc & Hst & Hl);
      [by apply (ConnSlab.get_put _ _ c)|done|done|simpl; lia|simpl; lia|].
    exists s', acts. split_and!; [done|done|done|]. rewrite Hl, length_app. simpl. lia.
Qed.

Lemma response_delivered_witness :
  let c := Httpd.set_state (Httpd.set_send (Httpd.fresh_conn 9) (bytes "hello") 0) Httpd.SendingReply in
  let s := Httpd.mkServer (ConnSlab.mk [Some c] []) Httpd.stats_new in
  (sends c ([2] ++ [3])).1 = bytes "hello" ∧
  ∃ s' acts, run_sends (λ _, 0) (λ _, 0) 0 s ([2] ++ [3]) = Ret (s', acts) ∧
    ConnSlab.get (Httpd.conns s') 0 =
      Some (after_response (Httpd.set_send c (bytes "hello") (Z.of_nat (length (bytes "hello"))))) ∧
    Httpd.responses (Httpd.stats s') = 0 +[64] 1 ∧ length acts = 2%nat.
Proof.
  intros c s. apply (response_delivered (λ _, 0) (λ _, 0) 0 s c [2] 3); [done|done|by vm_compute| |by vm_compute].
  repeat constructor.
Defined.
