(* ===== verification/HttpdRun.v ===== *)
(** * The HTTP server with a kernel: every run of [cmd/httpd/rust/ksvc]

    The event loop of Httpd over a kernel that may complete the requests in
    flight in any order, with any result the system calls allow.  The kernel
    knows the open descriptors and sees of the server the requests alone: it
    writes received bytes at the address a request names.  The invariant of all
    runs says that the loop never panics, that each connection has exactly one
    request in flight, the one its state calls for, that no slot is freed twice,
    and whose each open descriptor is. *)
From stdpp Require Import base list strings pretty.
From S2P Require Import Prelude KsvcTypes KsvcUring ConnSlab KernelIo Httpd.
Local Open Scope Z_scope.
Local Open Scope rust_scope.

Module HttpdRun.
Import Text Http Httpd KernelIo.

Section Run.
Context (listener accept_addr accept_addr_len : Z) (recv_ptr send_ptr file_ptr path_ptr : Z → Z).
Context (file_mode : bool) (base_dir : list Z).

Abbreviation handle :=
  (handle listener accept_addr accept_addr_len recv_ptr send_ptr file_ptr path_ptr file_mode base_dir).
Abbreviation submit_recv := (submit_recv recv_ptr).
Abbreviation submit_send := (submit_send send_ptr).
Abbreviation submit_file_open := (submit_file_open path_ptr).
Abbreviation submit_file_read := (submit_file_read file_ptr).
Abbreviation accept := (submit_accept listener accept_addr accept_addr_len).

(** What the kernel has written to the buffer a request names. *)
Definition fill_conn (op idx : Z) (e : SubmitEntry.t) (data : list Z) (c : Conn) : Conn :=
  if op =? Ids.OP_RECV then set_recv c (splice (recv_buf c) (arg e 1 - recv_ptr idx) data) (recv_len c)
  else if op =? Ids.OP_FILE_READ then
    set_file c (file_fd c) (splice (file_buf c) (arg e 1 - file_ptr idx) data) (file_path c)
  else c.
Definition fill (s : server) (e : SubmitEntry.t) (data : list Z) : server :=
  let op := Ids.decode_op (SubmitEntry.corr_id e) in
  let idx := Ids.decode_idx Ids.IDX_MASK (SubmitEntry.corr_id e) in
  match ConnSlab.get (conns s) idx with
  | Some c => with_conns s (ConnSlab.put (conns s) idx (fill_conn op idx e data c))
  | None => s
  end.

(** The server, the requests in flight and the open descriptors. *)
Record world := World { srv : server; inflight : list SubmitEntry.t; fds : list Z }.

(** The completion of one request in flight and its handling. *)
Inductive step_of (e : SubmitEntry.t) (r : Z) : world → world → Prop :=
| step_complete w l1 l2 data fds1 s' acts :
    inflight w = l1 ++ e :: l2 → kernel (fds w) e r data fds1 →
    handle (fill (srv w) e data) (IoCompletion.mk (SubmitEntry.corr_id e) r 0) = Ret (s', acts) →
    step_of e r w (World s' (l1 ++ l2 ++ entries acts) (filter (λ f, f ∉ closed_now acts) fds1)).
Definition step (w w' : world) : Prop := ∃ e r, step_of e r w w'.

Definition init (w : world) : Prop :=
  ∃ max, 0 ≤ max ≤ 2 ^ 32 ∧ w = World (mkServer (ConnSlab.new max) stats_new) (entries [accept]) [listener].

(** ** The invariant *)

(** The operation a state waits for. *)
Definition op_of (st : ConnState) : Z :=
  match st with
  | Receiving => Ids.OP_RECV
  | SendingReply | FileSending => Ids.OP_SEND
  | FileOpening => Ids.OP_FILE_OPEN
  | FileReading => Ids.OP_FILE_READ
  | FileClosing => Ids.OP_FILE_CLOSE
  | Closing => Ids.OP_CLOSE
  end.

Definition conn_ok (c : Conn) : Prop :=
  is_fd (fd c) ∧ Z.of_nat (length (recv_buf c)) = RECV_BUF ∧ Z.of_nat (length (file_buf c)) = FILE_BUF ∧
  0 ≤ recv_len c ≤ RECV_BUF ∧ 0 ≤ send_off c ≤ Z.of_nat (length (send_buf c)) ∧
  Z.of_nat (length (send_buf c)) < 2 ^ 32 ∧
  (state c = FileReading ∨ state c = FileSending → is_fd (file_fd c)).

(** The request in flight of a connection is the one its state calls for. *)
Definition entry_ok (idx : Z) (c : Conn) (e : SubmitEntry.t) : Prop :=
  match state c with
  | Receiving => submit_recv c idx = Ret (Submit NR_RECVFROM e) ∧ recv_len c < RECV_BUF
  | SendingReply | FileSending =>
      submit_send c idx = Ret (Submit NR_SENDTO e) ∧ send_off c < Z.of_nat (length (send_buf c))
  | FileOpening => submit_file_open c idx = Submit NR_OPENAT e
  | FileReading => submit_file_read c idx = Submit NR_READ e
  | FileClosing => ∃ f, is_fd f ∧ submit_file_close f idx = Submit NR_CLOSE e
  | Closing => submit_close (fd c) idx = Submit NR_CLOSE e
  end.

(** The descriptors a connection and a request own. *)
Definition own (c : Conn) : list Z :=
  fd c :: match state c with FileReading | FileSending => [file_fd c] | _ => [] end.
Definition own_entry (e : SubmitEntry.t) : list Z :=
  if Ids.decode_op (SubmitEntry.corr_id e) =? Ids.OP_FILE_CLOSE then [as_i32 (arg e 0)] else [].

Definition slot_id (i : nat) (o : option Conn) : list Z :=
  match o with Some c => [Ids.make_id (op_of (state c)) (Z.of_nat i)] | None => [] end.
Definition slot_own (i : nat) (o : option Conn) : list Z := match o with Some c => own c | None => [] end.

Definition owned (w : world) : list Z :=
  listener :: ConnSlab.held slot_own (ConnSlab.slots (conns (srv w))) ++ (inflight w ≫= own_entry).

Record inv (w : world) : Prop := {
  inv_wf : ConnSlab.wf (conns (srv w));
  inv_len : Z.of_nat (length (ConnSlab.slots (conns (srv w)))) ≤ 2 ^ 32;
  inv_ids : SubmitEntry.corr_id <$> inflight w ≡ₚ
    Ids.make_id Ids.OP_ACCEPT 0 :: ConnSlab.held slot_id (ConnSlab.slots (conns (srv w)));
  inv_accept : ∀ e, e ∈ inflight w → SubmitEntry.corr_id e = Ids.make_id Ids.OP_ACCEPT 0 →
    accept = Submit NR_ACCEPT4 e;
  inv_conns : ∀ idx c, 0 ≤ idx → ConnSlab.get (conns (srv w)) idx = Some c →
    conn_ok c ∧ ∀ e, e ∈ inflight w → SubmitEntry.corr_id e = Ids.make_id (op_of (state c)) idx → entry_ok idx c e
}.

(** The open descriptors are those owned and those lost. *)
Definition accounts (w : world) (lost : list Z) : Prop := NoDup (fds w) ∧ fds w ≡ₚ owned w ++ lost.

(** The completion of a failed send in the middle of a file. *)
Definition file_send_failed (w : world) (e : SubmitEntry.t) (r : Z) : Prop :=
  ∃ idx c, ConnSlab.get (conns (srv w)) idx = Some c ∧ state c = FileSending ∧
    SubmitEntry.corr_id e = Ids.make_id Ids.OP_SEND idx ∧ r ≤ 0.

(** ** Lemmas *)

Lemma is_op_of st : Ids.is_op (op_of st).
Proof. apply (bool_decide_unpack _). by destruct st. Qed.

Lemma own_entry_op op idx e :
  Ids.is_op op → in_u 32 idx → SubmitEntry.corr_id e = Ids.make_id op idx →
  own_entry e = if op =? Ids.OP_FILE_CLOSE then [as_i32 (arg e 0)] else [].
Proof. intros Ho Hi He. unfold own_entry. by rewrite He, Ids.decode_op_make. Qed.

(** One completion of a connection: its new state and request, and how the
    descriptors move. *)
Definition moves (idx : Z) (c : Conn) (e : SubmitEntry.t) (r : Z) (F F1 : list Z) (c' : Conn) (e' : SubmitEntry.t)
  : Prop :=
  conn_ok c' ∧ entry_ok idx c' e' ∧ SubmitEntry.corr_id e' = Ids.make_id (op_of (state c')) idx ∧
  ∃ opened closed lost kept,
    own c ++ own_entry e ≡ₚ closed ++ lost ++ kept ∧ own c' ++ own_entry e' ≡ₚ opened ++ kept ∧
    F1 ≡ₚ opened ++ filter (λ f, f ∉ closed) F ∧ NoDup opened ∧ (∀ f, f ∈ opened → f ∉ F) ∧
    (lost ≠ [] → state c = FileSending ∧ r ≤ 0).

(** A completion after which connection and request own what they owned. *)
Lemma moves_same idx c e r F c' e' :
  conn_ok c' → entry_ok idx c' e' → SubmitEntry.corr_id e' = Ids.make_id (op_of (state c')) idx →
  own c ++ own_entry e ≡ₚ own c' ++ own_entry e' → moves idx c e r F F c' e'.
Proof.
  intros. split_and!; [done..|]. exists [], [], [], (own c' ++ own_entry e'). rewrite filter_notin_nil.
  split_and!; [done..|constructor|by intros ? ?%elem_of_nil|done].
Qed.

Lemma parse_request_ret buf len : 0 ≤ len ≤ Z.of_nat (length buf) → ∃ r, parse_request buf len = Ret r.
Proof.
  intros H. unfold parse_request. destruct (Z.ltb_spec (Z.of_nat (length buf)) len); [lia|].
  repeat case_match; eauto.
Qed.

(** The decimal text of a number has as many digits as the number needs. *)
Lemma pretty_N_go_length k x acc :
  (x < 10 ^ N.of_nat k)%N → (String.length (pretty_N_go x acc) ≤ k + String.length acc)%nat.
Proof.
  revert x acc. induction k as [|k IH]; intros x acc Hx.
  - replace x with 0%N by (simpl in Hx; lia). by rewrite pretty_N_go_0.
  - destruct (decide (x = 0%N)) as [->|]; [rewrite pretty_N_go_0; lia|]. rewrite pretty_N_go_step by lia.
    etrans; [apply IH|simpl; lia]. apply N.Div0.div_lt_upper_bound.
    by rewrite Nat2N.inj_succ, N.pow_succ_r' in Hx.
Qed.

Lemma decimal_short n : 0 ≤ n ≤ FILE_BUF → (length (decimal n) ≤ 5)%nat.
Proof.
  intros Hn. unfold FILE_BUF in Hn. unfold decimal, bytes. rewrite length_fmap.
  assert (Hl : ∀ t, length (String.list_ascii_of_string t) = String.length t)
    by (intros t; induction t; simpl; congruence).
  rewrite Hl. destruct n as [|p|p]; [cbn; lia| |lia]. change (pretty (Z.pos p)) with (pretty (N.pos p)).
  unfold pretty, pretty_N. destruct (decide _); [done|].
  etrans; [apply (pretty_N_go_length 5)|simpl; lia]. simpl. lia.
Qed.

Lemma file_response_short ct body :
  (length (bytes ct) ≤ 24)%nat → Z.of_nat (length body) ≤ FILE_BUF →
  Z.of_nat (length (make_file_response ct body)) < 2 ^ 32.
Proof.
  intros Hc Hb. pose proof (decimal_short (Z.of_nat (length body)) ltac:(lia)).
  unfold make_file_response, header. rewrite !length_app. unfold FILE_BUF in Hb. cbn. lia.
Qed.

Lemma content_type_short p : (length (bytes (guess_content_type p)) ≤ 24)%nat.
Proof. unfold guess_content_type. repeat case_match; cbn; lia. Qed.

Lemma file_response_nonempty ct body : make_file_response ct body ≠ [].
Proof. done. Qed.

(** The shared shape of the next five lemmas: the result of handling. *)
Definition handled (s : server) (idx : Z) (c : Conn) (e : SubmitEntry.t) (r : Z) (data : list Z) (F F1 : list Z)
  : Prop :=
  ∃ c' e' nr st,
    handle (fill s e data) (IoCompletion.mk (SubmitEntry.corr_id e) r 0) =
      Ret (mkServer (ConnSlab.put (conns s) idx c') st, [Submit nr e']) ∧
    moves idx c e r F F1 c' e'.

Lemma fill_eq s e data op idx c :
  Ids.is_op op → in_u 32 idx → SubmitEntry.corr_id e = Ids.make_id op idx →
  ConnSlab.get (conns s) idx = Some c →
  fill s e data = mkServer (ConnSlab.put (conns s) idx (fill_conn op idx e data c)) (stats s).
Proof.
  intros Ho Hi He Hg. unfold fill. rewrite He, Ids.decode_op_make, Ids.decode_idx_make by eauto.
  by rewrite Hg.
Qed.

(** A branch that stores [c'] and submits one request. *)
Lemma continue_eq cs idx c1 st c' nr e' :
  continue_with (mkServer (ConnSlab.put cs idx c1) st) idx c' (Ret (Submit nr e')) =
  Ret (mkServer (ConnSlab.put cs idx c') st, [Submit nr e']).
Proof. unfold continue_with, with_conns. cbn. by rewrite ConnSlab.put_put. Qed.

Lemma send_request_ok idx c :
  0 ≤ send_off c < Z.of_nat (length (send_buf c)) → state c = SendingReply ∨ state c = FileSending →
  ∃ e, submit_send c idx = Ret (Submit NR_SENDTO e) ∧ entry_ok idx c e ∧
    SubmitEntry.corr_id e = Ids.make_id (op_of (state c)) idx.
Proof.
  intros Ho Hs. unfold Httpd.submit_send. destruct (Z.ltb_spec (Z.of_nat (length (send_buf c))) (send_off c)); [lia|].
  eexists. split_and!; [done| |by destruct Hs as [-> | ->]].
  unfold entry_ok, Httpd.submit_send. destruct (Z.ltb_spec (Z.of_nat (length (send_buf c))) (send_off c)); [lia|].
  destruct Hs as [-> | ->]; (split; [done|lia]).
Qed.

Lemma recv_request_ok idx c :
  0 ≤ recv_len c < RECV_BUF → state c = Receiving →
  ∃ e, submit_recv c idx = Ret (Submit NR_RECVFROM e) ∧ entry_ok idx c e ∧
    SubmitEntry.corr_id e = Ids.make_id (op_of (state c)) idx.
Proof.
  intros Hr Hs. unfold Httpd.submit_recv. destruct (Z.ltb_spec RECV_BUF (recv_len c)); [lia|].
  eexists. split_and!; [done| |by rewrite Hs].
  unfold entry_ok, Httpd.submit_recv. rewrite Hs. destruct (Z.ltb_spec RECV_BUF (recv_len c)); [lia|]. split; [done|lia].
Qed.

Abbreviation on_recv := (on_recv recv_ptr send_ptr path_ptr file_mode base_dir).
Abbreviation on_send := (on_send recv_ptr send_ptr).
Abbreviation on_file_open := (on_file_open send_ptr file_ptr).
Abbreviation on_file_read := (on_file_read send_ptr).
Abbreviation on_file_close := (on_file_close recv_ptr).

(** The handler of each operation. *)
Lemma handle_eq s st idx r :
  in_u 32 idx →
  handle s (IoCompletion.mk (Ids.make_id (op_of st) idx) r 0) =
  match st with
  | Receiving => on_recv s idx r
  | SendingReply | FileSending => on_send s idx r
  | FileOpening => on_file_open s idx r
  | FileReading => on_file_read s idx r
  | FileClosing => on_file_close s idx
  | Closing => on_close s idx
  end.
Proof.
  intros Hi. unfold Httpd.handle. cbn [IoCompletion.corr_id IoCompletion.result].
  rewrite Ids.decode_op_make, Ids.decode_idx_make by eauto using is_op_of. by destruct st.
Qed.

Lemma send_response_eq s idx c0 c1 c resp st :
  conns s = ConnSlab.put c0 idx c1 → resp ≠ [] → st = SendingReply ∨ st = FileSending →
  let c' := set_state (set_send c resp 0) st in
  ∃ e', send_response send_ptr s idx c resp st = Ret (mkServer (ConnSlab.put c0 idx c') (stats s), [Submit NR_SENDTO e']) ∧
    entry_ok idx c' e' ∧ SubmitEntry.corr_id e' = Ids.make_id (op_of (state c')) idx.
Proof.
  intros Hc Hr Hst c'. assert (0 < length resp)%nat by (destruct resp; simpl; [done|lia]).
  destruct (send_request_ok idx c') as (e' & He' & Hok & Hid); [simpl; lia|done|].
  exists e'. split_and!; [|done|done]. unfold send_response. fold c'. rewrite He'. cbn.
  unfold with_conns. by rewrite Hc, ConnSlab.put_put.
Qed.

Lemma close_conn_eq s idx c0 c1 c :
  conns s = ConnSlab.put c0 idx c1 →
  let c' := set_state c Closing in
  ∃ e', close_conn s idx c = Ret (mkServer (ConnSlab.put c0 idx c') (stats s), [Submit NR_CLOSE e']) ∧
    entry_ok idx c' e' ∧ SubmitEntry.corr_id e' = Ids.make_id (op_of (state c')) idx.
Proof.
  intros Hc c'. eexists. split_and!; [|done|done]. unfold close_conn, continue_with, with_conns. cbn.
  by rewrite Hc, ConnSlab.put_put.
Qed.

Section Slot.
Context (s : server) (idx : Z) (c : Conn) (e : SubmitEntry.t) (r : Z) (data F F1 : list Z).
Hypothesis (Hidx : in_u 32 idx) (Hget : ConnSlab.get (conns s) idx = Some c) (Hok : conn_ok c).
Hypothesis (Hid : SubmitEntry.corr_id e = Ids.make_id (op_of (state c)) idx) (He : entry_ok idx c e).
Hypothesis (Hk : kernel F e r data F1).

Lemma slot_own_entry : own_entry e = if op_of (state c) =? Ids.OP_FILE_CLOSE then [as_i32 (arg e 0)] else [].
Proof. eapply own_entry_op; [apply is_op_of|done..]. Qed.

Lemma own_entry_of c' e' :
  SubmitEntry.corr_id e' = Ids.make_id (op_of (state c')) idx →
  own_entry e' = if op_of (state c') =? Ids.OP_FILE_CLOSE then [as_i32 (arg e' 0)] else [].
Proof. intros. eapply own_entry_op; [apply is_op_of|done..]. Qed.

(** The branches that answer or close, from any state that owns the socket alone. *)
Lemma handled_response s1 c0 c1 resp nr st F' :
  conns s1 = ConnSlab.put (conns s) idx c0 → conn_ok c1 → fd c1 = fd c →
  own c ++ own_entry e ≡ₚ own (set_state c1 st) → resp ≠ [] → Z.of_nat (length resp) < 2 ^ 32 →
  st = SendingReply ∨ st = FileSending ∧ is_fd (file_fd c1) → nr = NR_SENDTO →
  ∃ c' e', send_response send_ptr s1 idx c1 resp st =
    Ret (mkServer (ConnSlab.put (conns s) idx c') (stats s1), [Submit nr e']) ∧ moves idx c e r F' F' c' e'.
Proof.
  intros Hc Hok1 Hfd Hown Hr Hl Hst ->.
  destruct (send_response_eq s1 idx (conns s) c0 c1 resp st) as (e' & Hs & He' & Hid'); [done|done|naive_solver|].
  eexists _, e'. split; [exact Hs|]. apply moves_same; [|done|done|].
  - destruct Hok1 as (?&?&?&?&?&?&?). split_and!; simpl; try done; try lia. intros [|]; naive_solver.
  - rewrite Hown. rewrite (own_entry_of _ _ Hid'). by destruct Hst as [->|[-> _]].
Qed.

Lemma handled_close s1 c0 c1 nr F' :
  conns s1 = ConnSlab.put (conns s) idx c0 → conn_ok c1 → fd c1 = fd c → nr = NR_CLOSE →
  own c ++ own_entry e = [fd c] →
  ∃ c' e', close_conn s1 idx c1 =
    Ret (mkServer (ConnSlab.put (conns s) idx c') (stats s1), [Submit nr e']) ∧ moves idx c e r F' F' c' e'.
Proof.
  intros Hc Hok1 Hfd -> Hown. destruct (close_conn_eq s1 idx (conns s) c0 c1 Hc) as (e' & Hs & He' & Hid').
  eexists _, e'. split; [exact Hs|]. apply moves_same; [|done|done|].
  - destruct Hok1 as (?&?&?&?&?&?&?). split_and!; simpl; try done; try lia. by intros [|].
  - rewrite Hown, (own_entry_of _ _ Hid'). cbn. by rewrite Hfd.
Qed.

Lemma get_fill c1 : ConnSlab.get (ConnSlab.put (conns s) idx c1) idx = Some c1.
Proof. by eapply ConnSlab.get_put. Qed.

Lemma step_opening : state c = FileOpening → handled s idx c e r data F F1.
Proof.
  intros Hs. unfold handled. rewrite Hid, (fill_eq s e data _ idx c (is_op_of _) Hidx Hid Hget), handle_eq, Hs by done.
  assert (fill_conn (op_of FileOpening) idx e data c = c) as -> by done.
  assert (Hnr : SubmitEntry.syscall_nr e = NR_OPENAT) by (unfold entry_ok in He; rewrite Hs in He; by injection He as <-).
  destruct (kernel_open NR_OPENAT F e r data F1) as [-> Hr]; [done|by right|done|].
  unfold Httpd.on_file_open. cbn [conns]. rewrite get_fill.
  assert (Hown : own c ++ own_entry e = [fd c]) by (rewrite slot_own_entry; unfold own; by rewrite Hs).
  destruct (Z.ltb_spec r 0) as [Hneg|Hpos].
  - destruct Hr as [[_ ->]|[Hfd _]]; [|unfold is_fd in Hfd; lia].
    edestruct (handled_response (mkServer (ConnSlab.put (conns s) idx c) (stats s)) c c make_404_response)
      as (c' & e' & Hr & Hm); [done|done|done| | | |left; done|done|exists c', e', NR_SENDTO; eauto].
    + by rewrite Hown.
    + done.
    + by vm_compute.
  - destruct Hr as [[? _]|(Hfd & Hnew & ->)]; [lia|].
    pose proof (as_i32_fd r Hfd) as Hr.
    eexists (set_state (set_file c r (file_buf c) (file_path c)) FileReading), _, _, _. split.
    + unfold continue_with, with_conns. cbn [mbind outcome_bind conns stats]. rewrite ConnSlab.put_put, Hr. done.
    + split; [|split; [done|split; [done|]]]; [destruct Hok as (?&?&?&?&?&?&?); split_and!; simpl; done || lia|].
      exists [r], [], [], [fd c]. rewrite Hown, filter_notin_nil. split_and!; [done| |done|apply NoDup_singleton| |done].
      * rewrite (own_entry_of (set_state (set_file c r (file_buf c) (file_path c)) FileReading)) by done. cbn.
        apply Permutation_swap.
      * by intros f ->%list_elem_of_singleton.
Qed.

Lemma step_reading : state c = FileReading → handled s idx c e r data F F1.
Proof.
  intros Hs. unfold handled. rewrite Hid, (fill_eq s e data _ idx c (is_op_of _) Hidx Hid Hget), handle_eq, Hs by done.
  assert (Hnr : SubmitEntry.syscall_nr e = NR_READ ∧ arg e 1 = file_ptr idx ∧ arg e 2 = FILE_BUF)
    by (unfold entry_ok in He; rewrite Hs in He; by injection He as <-).
  destruct Hnr as (Hnr & Ha1 & Ha2). set (c1 := fill_conn (op_of FileReading) idx e data c).
  assert (Hc1 : c1 = set_file c (file_fd c) (splice (file_buf c) 0 data) (file_path c))
    by (unfold c1, fill_conn; cbn; by rewrite Ha1, Z.sub_diag).
  destruct (kernel_read NR_READ F e r data F1) as [-> Hr]; [done|by right|done|].
  assert (Hlen : length (file_buf c1) = length (file_buf c)).
  { destruct Hok as (_&_&Hfb&_). rewrite Hc1. cbn. apply length_splice; [lia|].
    destruct Hr as [[_ ->]|(_ & _ & ?)]; [cbn; lia|]. rewrite Ha2 in *. unfold FILE_BUF in *. lia. }
  assert (Hok1 : conn_ok c1).
  { destruct Hok as (?&?&?&?&?&?&?). rewrite Hc1 in *. split_and!; simpl in *; try done; try lia. }
  assert (Hown : own c ++ own_entry e ≡ₚ own (set_state c1 FileSending)).
  { rewrite slot_own_entry. unfold own. rewrite Hs, Hc1. done. }
  assert (Hffd : is_fd (file_fd c1)) by (rewrite Hc1; apply Hok; by left).
  unfold Httpd.on_file_read. cbn [conns]. rewrite get_fill.
  destruct (Z.leb_spec r 0) as [Hneg|Hpos].
  - edestruct (handled_response (mkServer (ConnSlab.put (conns s) idx c1) (stats s)) c1 c1 (make_file_response "text/plain" []))
      as (c' & e' & Hc & Hm); [done|done|by rewrite Hc1|exact Hown|done|by vm_compute|by right|done|].
    exists c', e', NR_SENDTO. eauto.
  - destruct Hr as [[? _]|(Hr & _ & Hle)]; [lia|].
    destruct (Z.ltb_spec (Z.of_nat (length (file_buf c1))) r).
    { destruct Hok as (_&_&Hfb&_). lia. }
    edestruct (handled_response (mkServer (ConnSlab.put (conns s) idx c1) (stats s)) c1 c1)
      as (c' & e' & Hc & Hm);
      [done|done|by rewrite Hc1|exact Hown|apply file_response_nonempty| |by right|done
      |exists c', e', NR_SENDTO; eauto].
    apply file_response_short; [apply content_type_short|]. rewrite length_take. lia.
Qed.

Lemma step_fclosing : state c = FileClosing → handled s idx c e r data F F1.
Proof.
  intros Hs. unfold handled. rewrite Hid, (fill_eq s e data _ idx c (is_op_of _) Hidx Hid Hget), handle_eq, Hs by done.
  assert (fill_conn (op_of FileClosing) idx e data c = c) as -> by done.
  assert (Hf : ∃ f, is_fd f ∧ SubmitEntry.syscall_nr e = NR_CLOSE ∧ as_i32 (arg e 0) = f).
  { unfold entry_ok in He. rewrite Hs in He. destruct He as (f & Hf & He'). exists f. injection He' as <-.
    split_and!; [done|done|]. apply as_i32_wrap; unfold is_fd in Hf; lia. }
  destruct Hf as (f & Hf & Hnr & Ha). destruct (kernel_close F e r data F1 Hnr Hk) as [-> _]. rewrite Ha.
  unfold Httpd.on_file_close. cbn [conns]. rewrite get_fill.
  destruct (recv_request_ok idx (reset_for_next_request c)) as (e' & He' & Hok' & Hid'); [unfold RECV_BUF; simpl; lia|done|].
  rewrite He'. exists (reset_for_next_request c), e', NR_RECVFROM, (stats s). split.
  - unfold continue_with, with_conns. cbn [mbind outcome_bind conns stats]. by rewrite ConnSlab.put_put.
  - split; [|split; [done|split; [done|]]].
    + destruct Hok as (?&?&?&?&?&?&?). split_and!; simpl; try done; unfold RECV_BUF; try lia. by intros [|].
    + exists [], [f], [], [fd c]. split_and!; [| |done|constructor|by intros ? ?%elem_of_nil|done].
      * rewrite slot_own_entry, Hs, Ha. unfold own. rewrite Hs. cbn. apply Permutation_swap.
      * by rewrite (own_entry_of _ _ Hid').
Qed.

(** Closing a connection in the middle of a file loses the file. *)
Lemma sending_fails :
  state c = SendingReply ∨ state c = FileSending → r ≤ 0 →
  ∃ c' e', close_conn (mkServer (ConnSlab.put (conns s) idx c) (add_error (stats s))) idx c =
    Ret (mkServer (ConnSlab.put (conns s) idx c') (add_error (stats s)), [Submit NR_CLOSE e']) ∧
    moves idx c e r F F c' e'.
Proof.
  intros [Hs|Hs] Hr.
  - edestruct (handled_close (mkServer (ConnSlab.put (conns s) idx c) (add_error (stats s))) c c)
      as (c' & e' & Hc & Hm); [done|done|done|done| |eauto].
    rewrite slot_own_entry. unfold own. by rewrite Hs.
  - destruct (close_conn_eq (mkServer (ConnSlab.put (conns s) idx c) (add_error (stats s))) idx (conns s) c c)
      as (e' & Hc & He' & Hid'); [done|].
    eexists _, e'. split; [exact Hc|]. split; [|split; [done|split; [done|]]].
    + destruct Hok as (?&?&?&?&?&?&?). split_and!; simpl; try done; try lia. by intros [|].
    + exists [], [], [file_fd c], [fd c]. rewrite filter_notin_nil.
      split_and!; [| |done|constructor|by intros ? ?%elem_of_nil|done].
      * rewrite slot_own_entry. unfold own. rewrite Hs. cbn. apply Permutation_swap.
      * by rewrite (own_entry_of _ _ Hid').
Qed.

(** The connection after the last byte of its response. *)
Lemma sending_ends st :
  let c1 := set_send c (send_buf c) (send_off c + r) in
  state c = SendingReply ∨ state c = FileSending → send_off c + r = Z.of_nat (length (send_buf c)) →
  ∃ c' e' nr,
    match state c1 with
    | FileSending =>
        continue_with (mkServer (ConnSlab.put (conns s) idx c) st) idx
          (set_state (set_file c1 (-1) (file_buf c1) (file_path c1)) FileClosing) (Ret (submit_file_close (file_fd c1) idx))
    | _ => continue_with (mkServer (ConnSlab.put (conns s) idx c) st) idx (reset_for_next_request c1)
             (submit_recv (reset_for_next_request c1) idx)
    end = Ret (mkServer (ConnSlab.put (conns s) idx c') st, [Submit nr e']) ∧ moves idx c e r F F c' e'.
Proof.
  intros c1 Hst Hl. destruct Hst as [Hs|Hs]; cbn [c1 state set_send]; rewrite Hs.
  - destruct (recv_request_ok idx (reset_for_next_request c1)) as (e' & He' & Hok' & Hid');
      [unfold RECV_BUF; simpl; lia|done|].
    rewrite He'. eexists _, e', NR_RECVFROM. split; [apply continue_eq|].
    apply moves_same; [|done|done|].
    + destruct Hok as (?&?&?&?&?&?&?). split_and!; simpl; try done; unfold RECV_BUF; try lia. by intros [|].
    + rewrite slot_own_entry, (own_entry_of _ _ Hid'). unfold own. by rewrite Hs.
  - eexists _, _, _. split; [apply continue_eq|].
    assert (Hf : is_fd (file_fd c)) by (apply Hok; by right).
    apply moves_same; [|exists (file_fd c); done|done|].
    + destruct Hok as (?&?&?&?&?&?&?). split_and!; simpl; try done; try lia. by intros [|].
    + rewrite slot_own_entry, (own_entry_of (set_state (set_file c1 (-1) (file_buf c1) (file_path c1)) FileClosing))
        by done.
      unfold own. rewrite Hs. cbn. rewrite as_i32_wrap; [done|lia|unfold is_fd in Hf; lia].
Qed.

Lemma step_sending : state c = SendingReply ∨ state c = FileSending → handled s idx c e r data F F1.
Proof.
  intros Hs. unfold handled. rewrite Hid, (fill_eq s e data _ idx c (is_op_of _) Hidx Hid Hget), handle_eq by done.
  assert (fill_conn (op_of (state c)) idx e data c = c) as -> by (by destruct Hs as [-> | ->]).
  assert (Hnr : SubmitEntry.syscall_nr e = NR_SENDTO ∧ arg e 2 = Z.of_nat (length (send_buf c)) - send_off c ∧
    send_off c < Z.of_nat (length (send_buf c))).
  { unfold entry_ok, Httpd.submit_send in He.
    destruct (Z.ltb_spec (Z.of_nat (length (send_buf c))) (send_off c)), Hs as [Hs|Hs]; rewrite Hs in He;
      destruct He as [He' ?]; try lia; by injection He' as <-. }
  destruct Hnr as (Hnr & Ha & Hlt). destruct (kernel_send F e r data F1 Hnr Hk) as (-> & _ & Hr).
  assert (Hoff : 0 ≤ send_off c ∧ Z.of_nat (length (send_buf c)) < 2 ^ 32) by (by destruct Hok as (?&?&?&?&[??]&?&?)).
  cut (∃ c' e' nr st, on_send (mkServer (ConnSlab.put (conns s) idx c) (stats s)) idx r =
      Ret (mkServer (ConnSlab.put (conns s) idx c') st, [Submit nr e']) ∧ moves idx c e r F F c' e');
    [by destruct Hs as [-> | ->]|].
  unfold Httpd.on_send. cbn [conns stats]. rewrite get_fill. destruct (Z.leb_spec r 0) as [Hneg|Hpos].
  - destruct (sending_fails Hs Hneg) as (c' & e' & Hc & Hm). exists c', e', NR_CLOSE, (add_error (stats s)). done.
  - cbn [send_off send_buf set_send]. rewrite wrap_small by (unfold in_u; lia).
    destruct (Z.ltb_spec (send_off c + r) (Z.of_nat (length (send_buf c)))).
    + destruct (send_request_ok idx (set_send c (send_buf c) (send_off c + r))) as (e' & He' & Hok' & Hid');
        [simpl; lia|done|].
      rewrite He'. eexists _, e', NR_SENDTO, _. split; [apply continue_eq|]. apply moves_same; [|done|done|].
      * destruct Hok as (?&?&?&?&?&?&?). split_and!; simpl; try done; lia.
      * rewrite slot_own_entry, (own_entry_of _ _ Hid'). unfold own. cbn [state set_send fd file_fd].
        by destruct Hs as [-> | ->].
    + destruct (sending_ends (add_response (add_out (stats s) r)) Hs) as (c' & e' & nr & Hc & Hm); [lia|].
      exists c', e', nr, (add_response (add_out (stats s) r)). done.
Qed.

(** A complete request: a response at once, or the file is opened. *)
Lemma request_handled s1 c0 c1 path :
  conns s1 = ConnSlab.put (conns s) idx c0 → conn_ok c1 → fd c1 = fd c → own c ++ own_entry e = [fd c] →
  ∃ c' e' nr st,
    (if negb file_mode then send_response send_ptr s1 idx c1 make_hello_response SendingReply
     else open_file send_ptr path_ptr base_dir s1 idx c1 path) =
      Ret (mkServer (ConnSlab.put (conns s) idx c') st, [Submit nr e']) ∧ moves idx c e r F F c' e'.
Proof.
  intros Hc Hok1 Hfd Hown.
  assert (Hreply : ∀ resp, resp ≠ [] → Z.of_nat (length resp) < 2 ^ 32 →
    ∃ c' e' nr st, send_response send_ptr s1 idx c1 resp SendingReply =
      Ret (mkServer (ConnSlab.put (conns s) idx c') st, [Submit nr e']) ∧ moves idx c e r F F c' e').
  { intros resp H1 H2. edestruct (handled_response s1 c0 c1 resp NR_SENDTO SendingReply)
      as (c' & e' & Hr & Hm); [done|done|done| |done|done|by left|done|by exists c', e', NR_SENDTO, (stats s1)].
    rewrite Hown. unfold own. cbn. by rewrite Hfd. }
  destruct file_mode; cbn [negb]; [|by apply Hreply; [done|vm_compute]].
  unfold open_file. destruct (contains _ _); [by apply Hreply; [done|vm_compute]|].
  case_bool_decide; [by apply Hreply; [done|vm_compute]|].
  eexists _, _, _, _. rewrite Hc. split; [apply continue_eq|]. apply moves_same; [|done|done|].
  - destruct Hok1 as (?&?&?&?&?&?&?). split_and!; simpl; try done; try lia. by intros [|].
  - rewrite Hown. rewrite (own_entry_of (set_state (set_file c1 (file_fd c1) (file_buf c1)
      (base_dir ++ request_path path)) FileOpening)) by done. unfold own. cbn. by rewrite Hfd.
Qed.

Lemma step_receiving : state c = Receiving → handled s idx c e r data F F1.
Proof.
  intros Hs. unfold handled. rewrite Hid, (fill_eq s e data _ idx c (is_op_of _) Hidx Hid Hget), handle_eq, Hs by done.
  assert (Hnr : SubmitEntry.syscall_nr e = NR_RECVFROM ∧ arg e 1 = recv_ptr idx + recv_len c ∧
    arg e 2 = RECV_BUF - recv_len c).
  { unfold entry_ok, Httpd.submit_recv in He. rewrite Hs in He. destruct He as [He' ?].
    destruct (Z.ltb_spec RECV_BUF (recv_len c)); [lia|]. by injection He' as <-. }
  destruct Hnr as (Hnr & Ha1 & Ha2). set (c1 := fill_conn (op_of Receiving) idx e data c).
  destruct (kernel_read NR_RECVFROM F e r data F1) as [-> Hr]; [done|by left|done|].
  assert (Hc1 : c1 = set_recv c (splice (recv_buf c) (recv_len c) data) (recv_len c))
    by (unfold c1, fill_conn; cbn; rewrite Ha1; do 2 f_equal; lia).
  assert (Hlen : length (recv_buf c1) = length (recv_buf c)).
  { destruct Hok as (_&Hrb&_&Hrl&_). rewrite Hc1. cbn. apply length_splice; [lia|].
    destruct Hr as [[_ ->]|(_ & _ & ?)]; [cbn; lia|]. lia. }
  assert (Hown : own c ++ own_entry e = [fd c]) by (rewrite slot_own_entry; unfold own; by rewrite Hs).
  assert (Hok1 : conn_ok c1) by (destruct Hok as (?&?&?&?&?&?&?); rewrite Hc1 in *; split_and!; simpl in *; done || lia).
  assert (Hrl : recv_len c1 = recv_len c) by by rewrite Hc1. assert (Hfd : fd c1 = fd c) by by rewrite Hc1.
  assert (Hs1 : state c1 = Receiving) by by rewrite Hc1. clearbody c1.
  unfold Httpd.on_recv. cbn [conns stats]. rewrite get_fill. destruct (Z.leb_spec r 0) as [Hneg|Hpos].
  { edestruct (handled_close (mkServer (ConnSlab.put (conns s) idx c1) (stats s)) c1 c1)
      as (c' & e' & Hc & Hm); [done|done|done|done|done|by exists c', e', NR_CLOSE, (stats s)]. }
  destruct Hr as [[? _]|(Hr & _ & Hle)]; [lia|]. destruct Hok1 as (?&Hrb&?&?&?&?&?).
  rewrite wrap_small by (unfold in_u, RECV_BUF in *; lia). set (c2 := set_recv c1 (recv_buf c1) (recv_len c1 + r)).
  assert (Hok2 : conn_ok c2) by (split_and!; simpl; done || lia).
  set (s1 := mkServer (ConnSlab.put (conns s) idx c1) (add_in (stats s) r)).
  destruct (parse_request_ret (recv_buf c2) (recv_len c2)) as [pr Hpr]; [simpl; lia|]. rewrite Hpr.
  cbn [mbind outcome_bind]. destruct pr as [[h path]|].
  - destruct (request_handled (mkServer (conns s1) (add_request (stats s1))) c1 c2 path)
      as (c' & e' & nr & st & Hc & Hm); [done|done|done|done|by exists c', e', nr, st].
  - destruct (Z.leb_spec RECV_BUF (recv_len c2)).
    + edestruct (handled_close s1 c1 c2) as (c' & e' & Hc & Hm);
        [done|done|done|done|done|by exists c', e', NR_CLOSE, (stats s1)].
    + destruct (recv_request_ok idx c2) as (e' & He' & Hok' & Hid'); [simpl in *; lia|done|]. rewrite He'.
      exists c2, e', NR_RECVFROM, (stats s1). split; [apply continue_eq|]. apply moves_same; [done..|].
      rewrite Hown, (own_entry_of _ _ Hid'). unfold own. cbn. by rewrite Hs1, Hfd.
Qed.

End Slot.

(** ** Preservation *)

(** The slot of an index, and the requests of the others. *)
Lemma other_ids slots i o R x :
  slots !! i = Some o → (∀ o', ConnSlab.held slot_id (<[i := o']> slots) ≡ₚ slot_id i o' ++ R) → x ∈ R →
  ∃ j c, j ≠ i ∧ slots !! j = Some (Some c) ∧ x = Ids.make_id (op_of (state c)) (Z.of_nat j).
Proof.
  intros Hi HR Hx. specialize (HR None). simpl in HR. rewrite <- HR in Hx.
  apply ConnSlab.elem_of_held in Hx as (j & o' & Hj & Hx).
  destruct (decide (j = i)) as [->|].
  - rewrite list_lookup_insert_eq in Hj by (by eapply lookup_lt_Some). simplify_eq. by apply elem_of_nil in Hx.
  - rewrite list_lookup_insert_ne in Hj by done. destruct o' as [c|]; [|by apply elem_of_nil in Hx].
    apply list_elem_of_singleton in Hx as ->. eauto.
Qed.

(** The request that completes belongs to the accept or to a slot. *)
Lemma request_of w e :
  inv w → e ∈ inflight w →
  SubmitEntry.corr_id e = Ids.make_id Ids.OP_ACCEPT 0 ∨
  ∃ i c, ConnSlab.slots (conns (srv w)) !! i = Some (Some c) ∧
    SubmitEntry.corr_id e = Ids.make_id (op_of (state c)) (Z.of_nat i).
Proof.
  intros [_ _ Hids _ _] He. apply (list_elem_of_fmap_2 SubmitEntry.corr_id) in He.
  rewrite Hids in He. apply elem_of_cons in He as [?|He]; [by left|right].
  apply ConnSlab.elem_of_held in He as (i & [c|] & Hi & Hx); [|by apply elem_of_nil in Hx].
  apply list_elem_of_singleton in Hx. eauto.
Qed.

Lemma accept_id_ne st i : 0 ≤ i < 2 ^ 32 → Ids.make_id (op_of st) i ≠ Ids.make_id Ids.OP_ACCEPT 0.
Proof.
  intros Hi E. apply Ids.make_id_inj in E as [E _]; [by destruct st|apply is_op_of| |done|by vm_compute].
  apply (bool_decide_unpack _). by vm_compute.
Qed.

Lemma slot_id_inj st st' i j :
  0 ≤ i < 2 ^ 32 → 0 ≤ j < 2 ^ 32 → Ids.make_id (op_of st) i = Ids.make_id (op_of st') j → i = j.
Proof. intros Hi Hj E. by apply Ids.make_id_inj in E as [_ ?]; [|apply is_op_of..|done|done]. Qed.

Section Preserve.
Context (w : world) (l1 l2 : list SubmitEntry.t) (e : SubmitEntry.t).
Hypothesis (Hinv : inv w) (Hfl : inflight w = l1 ++ e :: l2).

Lemma inflight_rest e0 : e0 ∈ l1 ++ l2 → e0 ∈ inflight w.
Proof. rewrite Hfl. set_solver. Qed.

Lemma rest_ids R id :
  SubmitEntry.corr_id <$> inflight w ≡ₚ id :: R → SubmitEntry.corr_id e = id →
  SubmitEntry.corr_id <$> l1 ++ l2 ≡ₚ R.
Proof.
  intros Hids He. rewrite Hfl, fmap_app, fmap_cons, He in Hids. rewrite fmap_app.
  apply (Permutation_cons_inv (a := id)). rewrite <- Hids. by rewrite Permutation_middle.
Qed.

Section Conn.
Context (i : nat) (c : Conn).
Hypothesis (Hslot : ConnSlab.slots (conns (srv w)) !! i = Some (Some c)).
Hypothesis (He : SubmitEntry.corr_id e = Ids.make_id (op_of (state c)) (Z.of_nat i)).

Lemma conn_get : ConnSlab.get (conns (srv w)) (Z.of_nat i) = Some c.
Proof. unfold ConnSlab.get. by rewrite Nat2Z.id, Hslot. Qed.

Lemma conn_range : 0 ≤ Z.of_nat i < 2 ^ 32.
Proof. pose proof (lookup_lt_Some _ _ _ Hslot). destruct Hinv as [_ ? _ _ _]. lia. Qed.

(** The other requests and the slots they belong to, whatever happens to this
    slot. *)
Lemma others :
  ∃ R, SubmitEntry.corr_id <$> l1 ++ l2 ≡ₚ Ids.make_id Ids.OP_ACCEPT 0 :: R ∧
    (∀ o', ConnSlab.held slot_id (<[i := o']> (ConnSlab.slots (conns (srv w)))) ≡ₚ slot_id i o' ++ R) ∧
    ∀ e0 st, e0 ∈ l1 ++ l2 → SubmitEntry.corr_id e0 ≠ Ids.make_id (op_of st) (Z.of_nat i).
Proof.
  destruct (ConnSlab.held_insert slot_id _ _ _ Hslot) as (R & HR & HR').
  pose proof Hinv as [_ Hlen Hids _ _]. rewrite HR in Hids. simpl in Hids. rewrite Permutation_swap in Hids.
  pose proof (rest_ids _ _ Hids He) as Hrest. exists R. split_and!; [done|done|].
  intros e0 st He0 E. apply (list_elem_of_fmap_2 SubmitEntry.corr_id) in He0. rewrite Hrest, E in He0.
  pose proof conn_range. apply elem_of_cons in He0 as [E0|HeR]; [by eapply accept_id_ne|].
  destruct (other_ids _ _ _ _ _ Hslot HR' HeR) as (j & c' & Hj & Hsl & E').
  pose proof (lookup_lt_Some _ _ _ Hsl). apply slot_id_inj in E'; lia.
Qed.

(** The entries of the other connections. *)
Lemma others_ok idx c' :
  0 ≤ idx → Z.to_nat idx ≠ i → ConnSlab.get (conns (srv w)) idx = Some c' →
  conn_ok c' ∧ ∀ e0, e0 ∈ l1 ++ l2 → SubmitEntry.corr_id e0 = Ids.make_id (op_of (state c')) idx → entry_ok idx c' e0.
Proof.
  intros Hi Hne Hg. destruct Hinv as [_ _ _ _ Hc]. destruct (Hc idx c' Hi Hg) as [? H]. split; [done|].
  intros e0 He0. by apply H, inflight_rest.
Qed.

Lemma accept_ok e0 : e0 ∈ l1 ++ l2 → SubmitEntry.corr_id e0 = Ids.make_id Ids.OP_ACCEPT 0 → accept = Submit NR_ACCEPT4 e0.
Proof. intros He0%inflight_rest. by destruct Hinv as [_ _ _ ? _]; auto. Qed.

Lemma inv_move c' e' st r F F1 G :
  moves (Z.of_nat i) c e r F F1 c' e' →
  inv (World (mkServer (ConnSlab.put (conns (srv w)) (Z.of_nat i) c') st) (l1 ++ l2 ++ [e']) G).
Proof.
  intros (Hok & Hent & Hid' & _). destruct others as (R & Hrest & HR & Hno). pose proof conn_range as Hi.
  destruct Hinv as [Hwf Hlen _ _ _]. constructor; cbn [srv inflight conns].
  - by eapply ConnSlab.put_wf, conn_get.
  - simpl. by rewrite length_insert.
  - simpl. rewrite Nat2Z.id, HR, (assoc (++)), fmap_app, Hrest. simpl. rewrite Hid'.
    constructor. by rewrite (Permutation_app_comm R).
  - intros e0. rewrite (assoc (++)), elem_of_app, list_elem_of_singleton. intros [?| ->]; [by apply accept_ok|].
    rewrite Hid'. by intros ?%accept_id_ne.
  - intros idx c0 Hidx Hg. destruct (decide (Z.to_nat idx = i)) as [Ei|Hne].
    + assert (idx = Z.of_nat i) as -> by lia. rewrite (ConnSlab.get_put _ _ c _ conn_get) in Hg. simplify_eq.
      split; [done|]. intros e0. rewrite (assoc (++)), elem_of_app, list_elem_of_singleton.
      intros [He0| ->] E; [|done]. by apply Hno in E.
    + rewrite ConnSlab.get_put_ne in Hg by lia. destruct (others_ok idx c0 Hidx Hne Hg) as [? H]. split; [done|].
      intros e0. rewrite (assoc (++)), elem_of_app, list_elem_of_singleton. intros [He0| ->] E; [by apply H|].
      pose proof (ConnSlab.get_range _ _ _ Hidx Hg). rewrite Hid' in E. apply slot_id_inj in E; lia.
Qed.

Lemma inv_free cs st G :
  ConnSlab.slots cs = <[i := None]> (ConnSlab.slots (conns (srv w))) → ConnSlab.wf cs →
  inv (World (mkServer cs st) (l1 ++ l2 ++ []) G).
Proof.
  intros Hsl Hwf. destruct others as (R & Hrest & HR & Hno). rewrite app_nil_r.
  pose proof (lookup_lt_Some _ _ _ Hslot) as Hlt.
  destruct Hinv as [_ Hlen _ _ _]. constructor; cbn [srv inflight conns]; [done| | |apply accept_ok|].
  - by rewrite Hsl, length_insert.
  - rewrite Hsl, HR, Hrest. done.
  - intros idx c0 Hidx Hg. unfold ConnSlab.get in Hg. rewrite Hsl in Hg.
    destruct (decide (Z.to_nat idx = i)) as [Ei|Hne].
    + by rewrite Ei, list_lookup_insert_eq in Hg.
    + rewrite list_lookup_insert_ne in Hg by done. by apply others_ok.
Qed.

(** The descriptors of the world around this slot and its request. *)
Lemma owned_split :
  ∃ X, owned w ≡ₚ (own c ++ own_entry e) ++ X ∧
    ∀ o' cs st es G, ConnSlab.slots cs = <[i := o']> (ConnSlab.slots (conns (srv w))) →
      owned (World (mkServer cs st) (l1 ++ l2 ++ es) G) ≡ₚ (slot_own i o' ++ (es ≫= own_entry)) ++ X.
Proof.
  destruct (ConnSlab.held_insert slot_own _ _ _ Hslot) as (Q & HQ & HQ').
  exists (listener :: Q ++ ((l1 ++ l2) ≫= own_entry)). split.
  - unfold owned. rewrite HQ, Hfl, !bind_app, bind_cons. simpl. perm_solver.
  - intros o' cs st es G Hsl. unfold owned. cbn [srv inflight conns]. rewrite Hsl, HQ', !bind_app. perm_solver.
Qed.

Lemma accounts_move c' e' st r F1 lost :
  moves (Z.of_nat i) c e r (fds w) F1 c' e' → accounts w lost →
  ∃ lost', accounts (World (mkServer (ConnSlab.put (conns (srv w)) (Z.of_nat i) c') st) (l1 ++ l2 ++ [e']) F1)
             (lost' ++ lost) ∧
    (lost' ≠ [] → state c = FileSending ∧ r ≤ 0).
Proof.
  intros (_ & _ & _ & opened & closed & lost' & kept & H1 & H2 & HF & Hno & Hnew & Hleak) [Hn Hacc].
  destruct owned_split as (X & HX & HX'). exists lost'. split; [|done].
  assert (Hfil : filter (λ f, f ∉ closed) (fds w) ≡ₚ lost' ++ kept ++ X ++ lost).
  { apply filter_closed; [done|]. rewrite Hacc, HX, H1. perm_solver. }
  split; cbn [fds].
  - rewrite HF. apply NoDup_app. split_and!; [done| |by apply NoDup_filter].
    intros f Hf [_ ?]%list_elem_of_filter. by apply (Hnew f).
  - rewrite (HX' (Some c')) by (simpl; by rewrite Nat2Z.id). simpl. rewrite app_nil_r, HF, Hfil.
    change (fd c' :: ?x) with ([fd c'] ++ x) in *. unfold own in H2 |- *. perm_solver.
Qed.

Lemma accounts_free cs st lost :
  state c = Closing → ConnSlab.slots cs = <[i := None]> (ConnSlab.slots (conns (srv w))) → accounts w lost →
  accounts (World (mkServer cs st) (l1 ++ l2 ++ []) (filter (λ f, f ∉ [fd c]) (fds w))) lost.
Proof.
  intros Hs Hsl [Hn Hacc]. destruct owned_split as (X & HX & HX'). split; cbn [fds]; [by apply NoDup_filter|].
  rewrite (HX' None) by done. simpl. apply filter_closed; [done|]. rewrite Hacc, HX.
  rewrite (own_entry_op (op_of (state c)) (Z.of_nat i)) by (apply is_op_of || apply conn_range || done).
  unfold own. rewrite Hs. simpl. done.
Qed.

End Conn.

(** The completion of the accept. *)
Section Accept.
Hypothesis (He : SubmitEntry.corr_id e = Ids.make_id Ids.OP_ACCEPT 0).

Lemma accept_entry : accept = Submit NR_ACCEPT4 e.
Proof. destruct Hinv as [_ _ _ Ha _]. apply Ha; [rewrite Hfl; set_solver|done]. Qed.

Lemma accept_nr : SubmitEntry.syscall_nr e = NR_ACCEPT4.
Proof. pose proof accept_entry as E. by injection E as <-. Qed.

Lemma fill_accept data : fill (srv w) e data = srv w.
Proof.
  unfold fill. rewrite He. change (Ids.decode_op (Ids.make_id Ids.OP_ACCEPT 0)) with Ids.OP_ACCEPT.
  destruct (ConnSlab.get _ _) as [c|] eqn:Hg; [|done]. unfold fill_conn. simpl.
  unfold with_conns. rewrite ConnSlab.put_get by done. by destruct (srv w).
Qed.

Lemma accept_again st : inv (World (mkServer (conns (srv w)) st) (l1 ++ l2 ++ [e]) (fds w)).
Proof.
  destruct Hinv as [Hwf Hlen Hids Ha Hc].
  assert (Hp : l1 ++ l2 ++ [e] ≡ₚ inflight w) by (rewrite Hfl; perm_solver).
  constructor; cbn [srv inflight conns]; [done|done| | |].
  - by rewrite Hp.
  - intros e0. rewrite Hp. apply Ha.
  - intros idx c Hidx Hg. destruct (Hc idx c Hidx Hg) as [? H]. split; [done|]. intros e0. rewrite Hp. apply H.
Qed.

Lemma accounts_again st lost :
  accounts w lost → accounts (World (mkServer (conns (srv w)) st) (l1 ++ l2 ++ [e]) (fds w)) lost.
Proof.
  intros [Hn Hacc]. split; [done|]. unfold owned in *. cbn [fds srv inflight conns]. rewrite Hacc.
  assert (Hp : l1 ++ l2 ++ [e] ≡ₚ inflight w) by (rewrite Hfl; perm_solver). by rewrite Hp.
Qed.

(** A connection in an empty slot, with its first receive. *)
Context (i : nat) (f : Z) (cs : ConnSlab.t Conn) (e' : SubmitEntry.t).
Hypothesis (Hfd : is_fd f) (Hempty : ConnSlab.slots (conns (srv w)) !! i = Some None).
Hypothesis (Hsl : ConnSlab.slots cs = <[i := Some (fresh_conn f)]> (ConnSlab.slots (conns (srv w)))).
Hypothesis (Hwf : ConnSlab.wf cs) (He' : entry_ok (Z.of_nat i) (fresh_conn f) e').
Hypothesis (Hid' : SubmitEntry.corr_id e' = Ids.make_id Ids.OP_RECV (Z.of_nat i)).

Lemma fresh_ok : conn_ok (fresh_conn f).
Proof.
  unfold conn_ok, fresh_conn. cbn [fd recv_buf file_buf recv_len send_off send_buf state file_fd].
  rewrite !length_replicate. unfold RECV_BUF, FILE_BUF. cbn [length]. split_and!; [done|lia..|by intros [|]].
Qed.

Lemma accept_range : 0 ≤ Z.of_nat i < 2 ^ 32.
Proof. pose proof (lookup_lt_Some _ _ _ Hempty). destruct Hinv as [_ ? _ _ _]. lia. Qed.

(** No request in flight is for the empty slot. *)
Lemma accept_unused e0 st :
  e0 ∈ inflight w → SubmitEntry.corr_id e0 ≠ Ids.make_id (op_of st) (Z.of_nat i).
Proof.
  intros He0 E. pose proof accept_range. destruct (request_of w e0 Hinv He0) as [E0|(j & c & Hj & E0)].
  - rewrite E in E0. by eapply accept_id_ne.
  - pose proof (lookup_lt_Some _ _ _ Hj). destruct Hinv as [_ ? _ _ _]. rewrite E in E0.
    apply slot_id_inj in E0; [|lia..]. apply Nat2Z.inj in E0 as <-. congruence.
Qed.

Lemma inv_accepted st G : inv (World (mkServer cs st) (l1 ++ l2 ++ [e'; e]) G).
Proof.
  pose proof accept_range as Hi. destruct (ConnSlab.held_insert slot_id _ _ _ Hempty) as (R & HR & HR').
  assert (Hp : l1 ++ l2 ++ [e'; e] ≡ₚ e' :: inflight w) by (rewrite Hfl; perm_solver).
  pose proof Hinv as [_ Hlen Hids Ha Hc]. constructor; cbn [srv inflight conns]; [done| | | |].
  - by rewrite Hsl, length_insert.
  - rewrite Hp, Hsl, HR', fmap_cons, Hids, HR, Hid'. simpl. apply Permutation_swap.
  - intros e0. rewrite Hp, elem_of_cons. intros [->|?]; [|by apply Ha]. rewrite Hid'.
    by intros ?%(accept_id_ne Receiving).
  - intros idx c Hidx Hg. unfold ConnSlab.get in Hg. rewrite Hsl in Hg.
    destruct (decide (Z.to_nat idx = i)) as [Ei|Hne].
    + rewrite Ei, list_lookup_insert_eq in Hg by (by eapply lookup_lt_Some). injection Hg as <-.
      assert (idx = Z.of_nat i) as -> by lia. split; [apply fresh_ok|]. intros e0. rewrite Hp, elem_of_cons.
      intros [->|He0]; [done|]. by intros ?%(accept_unused _ Receiving).
    + rewrite list_lookup_insert_ne in Hg by done. destruct (Hc idx c Hidx Hg) as [? H]. split; [done|].
      intros e0. rewrite Hp, elem_of_cons. intros [->|He0]; [|by apply H]. rewrite Hid'. intros E.
      pose proof (ConnSlab.get_range _ _ _ Hidx Hg). apply (slot_id_inj Receiving) in E; lia.
Qed.

Lemma accounts_accepted st lost :
  (f ∉ fds w) → accounts w lost → accounts (World (mkServer cs st) (l1 ++ l2 ++ [e'; e]) (f :: fds w)) lost.
Proof.
  intros Hnew [Hn Hacc]. destruct (ConnSlab.held_insert slot_own _ _ _ Hempty) as (Q & HQ & HQ').
  assert (Hp : l1 ++ l2 ++ [e'; e] ≡ₚ e' :: inflight w) by (rewrite Hfl; perm_solver).
  split; [by constructor|]. unfold owned in *. cbn [fds srv inflight conns]. rewrite Hacc.
  rewrite Hp, Hsl, HQ', HQ, bind_cons.
  rewrite (own_entry_op Ids.OP_RECV (Z.of_nat i)) by (apply accept_range || apply (is_op_of Receiving) || done).
  cbn. apply Permutation_swap.
Qed.

End Accept.

(** ** One completion *)

(** Handling succeeds, keeps the invariant, and loses a descriptor in one case
    alone. *)
Definition completes (r : Z) (data F1 : list Z) : Prop :=
  ∃ s' acts, handle (fill (srv w) e data) (IoCompletion.mk (SubmitEntry.corr_id e) r 0) = Ret (s', acts) ∧
    let w' := World s' (l1 ++ l2 ++ entries acts) (filter (λ f, f ∉ closed_now acts) F1) in
    inv w' ∧ ∀ lost, accounts w lost → ∃ lost', accounts w' (lost' ++ lost) ∧ (lost' ≠ [] → file_send_failed w e r).

Lemma accept_completes r data F1 :
  SubmitEntry.corr_id e = Ids.make_id Ids.OP_ACCEPT 0 → kernel (fds w) e r data F1 → completes r data F1.
Proof.
  intros He Hk. unfold completes. rewrite fill_accept, He by done.
  change (handle (srv w) _) with (on_accept listener accept_addr accept_addr_len recv_ptr (srv w) r).
  destruct (kernel_open NR_ACCEPT4 (fds w) e r data F1) as [_ Hr]; [by apply accept_nr|by left|done|].
  unfold on_accept. rewrite (accept_entry He).
  destruct Hr as [[Hr ->]|(Hfd & Hnew & ->)].
  - destruct (Z.leb_spec 0 r); [lia|]. eexists _, _. split; [done|]. cbn. rewrite filter_notin_nil.
    split; [by apply accept_again|]. intros lost Hacc. exists []. split; [by apply accounts_again|done].
  - rewrite (as_i32_fd r Hfd). destruct (Z.leb_spec 0 r); [|unfold is_fd in Hfd; lia].
    destruct (ConnSlab.alloc_spec (conns (srv w)) (fresh_conn r)) as [[_ Ha]|(i & cs & Ha & Hi & Hempty & Hsl & Hwf)];
      [by destruct Hinv|rewrite Ha; cbn [mbind outcome_bind]..].
    + eexists _, _. split; [done|]. change (closed_now _) with [r]. rewrite filter_refused by done.
      change (entries _) with [e].
      split; [by apply accept_again|]. intros lost Hacc. exists []. split; [by apply accounts_again|done].
    + assert (Hg : ConnSlab.get cs i = Some (fresh_conn r)).
      { unfold ConnSlab.get. by rewrite Hsl, list_lookup_insert_eq by (by eapply lookup_lt_Some). }
      rewrite Hg. destruct (recv_request_ok i (fresh_conn r)) as (e' & He' & Hok' & Hid');
        [unfold RECV_BUF; simpl; lia|done|].
      rewrite He'. cbn [mbind outcome_bind]. eexists _, _. split; [done|]. cbn. rewrite filter_notin_nil.
      rewrite <- (Z2Nat.id i) in Hok', Hid' by done.
      split; [by eapply inv_accepted|]. intros lost Hacc. exists []. split; [by eapply accounts_accepted|done].
Qed.

Lemma closing_completes i c r data F1 :
  ConnSlab.slots (conns (srv w)) !! i = Some (Some c) → state c = Closing →
  SubmitEntry.corr_id e = Ids.make_id (op_of (state c)) (Z.of_nat i) → kernel (fds w) e r data F1 →
  completes r data F1.
Proof.
  intros Hslot Hs He Hk. pose proof (conn_range i c Hslot) as Hi. pose proof (conn_get i c Hslot) as Hg.
  assert (Hent : entry_ok (Z.of_nat i) c e ∧ is_fd (fd c)).
  { destruct Hinv as [_ _ _ _ Hc]. destruct (Hc _ c (proj1 Hi) Hg) as [Hok H]. split; [|apply Hok].
    apply H; [rewrite Hfl; set_solver|done]. }
  destruct Hent as [Hent Hfd]. unfold entry_ok in Hent. rewrite Hs in Hent.
  assert (Hnr : SubmitEntry.syscall_nr e = NR_CLOSE ∧ as_i32 (arg e 0) = fd c).
  { injection Hent as <-. split; [done|]. apply as_i32_wrap; unfold is_fd in Hfd; lia. }
  destruct Hnr as [Hnr Ha]. destruct (kernel_close (fds w) e r data F1 Hnr Hk) as [-> ->]. rewrite Ha.
  unfold completes. rewrite (fill_eq _ e [] _ _ c (is_op_of _) Hi He Hg), He, handle_eq, Hs by done.
  assert (fill_conn (op_of Closing) (Z.of_nat i) e [] c = c) as -> by done.
  rewrite ConnSlab.put_get by done.
  destruct (ConnSlab.free_spec (conns (srv w)) (Z.of_nat i) c) as (cs & Hf & Hsl & Hwf); [by destruct Hinv|lia|done|].
  rewrite Nat2Z.id in Hsl. unfold on_close. cbn [conns]. rewrite Hf. eexists _, _. split; [done|]. cbn [entries closed_now].
  split; [by eapply inv_free|]. intros lost Hacc. exists []. split; [|done].
  change (closed_now []) with (@nil Z). rewrite filter_notin_nil. by eapply accounts_free.
Qed.

Lemma request_completes r data F1 : kernel (fds w) e r data F1 → completes r data F1.
Proof.
  intros Hk. destruct (request_of w e Hinv) as [He|(i & c & Hslot & He)]; [rewrite Hfl; set_solver|by apply accept_completes|].
  destruct (decide (state c = Closing)); [by eapply closing_completes|].
  pose proof (conn_range i c Hslot) as Hi. pose proof (conn_get i c Hslot) as Hg.
  assert (Hh : handled (srv w) (Z.of_nat i) c e r data (fds w) F1).
  { pose proof Hinv as [_ _ _ _ Hc]. destruct (Hc _ c (proj1 Hi) Hg) as [Hok H].
    assert (entry_ok (Z.of_nat i) c e) by (apply H; [rewrite Hfl; set_solver|done]).
    destruct (state c) eqn:Hs; try done; rewrite <- Hs in He.
    - by apply step_receiving.
    - by apply step_sending; auto.
    - by apply step_opening.
    - by apply step_reading.
    - by apply step_sending; auto.
    - by apply step_fclosing. }
  destruct Hh as (c' & e' & nr & st & Hh & Hm). eexists _, _. split; [exact Hh|]. cbn. rewrite filter_notin_nil.
  split; [by eapply inv_move|]. intros lost Hacc.
  destruct (accounts_move i c Hslot c' e' st r F1 lost Hm Hacc) as (lost' & ? & Hl). exists lost'. split; [done|].
  intros [Hs ?]%Hl. exists (Z.of_nat i), c. split_and!; [done|done|by rewrite He, Hs|done].
Qed.

End Preserve.

Lemma inv_start w : init w → inv w ∧ accounts w [].
Proof.
  intros (max & Hmax & ->). split.
  - constructor; cbn [srv inflight conns]; [apply ConnSlab.new_wf| | | |].
    + simpl. rewrite length_replicate. lia.
    + simpl. by rewrite ConnSlab.held_empty.
    + intros e He _. apply list_elem_of_singleton in He as ->. done.
    + intros idx c _ Hg. apply ConnSlab.get_Some, lookup_replicate in Hg as [? _]. done.
  - split; [apply NoDup_singleton|]. unfold owned. cbn [srv conns ConnSlab.new ConnSlab.slots fds].
    by rewrite ConnSlab.held_empty.
Qed.

Lemma inv_step w w' : inv w → step w w' → inv w'.
Proof.
  intros Hinv (e & r & Hst). destruct Hst as [w l1 l2 data fds1 s' acts Hfl Hk Hh].
  destruct (request_completes w l1 l2 e Hinv Hfl r data fds1 Hk) as (s0 & acts0 & Hh' & Hi & _).
  rewrite Hh in Hh'. by injection Hh' as <- <-.
Qed.

Lemma accounts_step w e r w' lost :
  inv w → step_of e r w w' → accounts w lost →
  ∃ lost', accounts w' (lost' ++ lost) ∧ (lost' ≠ [] → file_send_failed w e r).
Proof.
  intros Hinv Hst. destruct Hst as [w l1 l2 data fds1 s' acts Hfl Hk Hh].
  destruct (request_completes w l1 l2 e Hinv Hfl r data fds1 Hk) as (s0 & acts0 & Hh' & _ & Ha).
  rewrite Hh in Hh'. injection Hh' as <- <-. apply Ha.
Qed.

(** ** Runs *)

(** A completion that is not a failed send in the middle of a file. *)
Definition quiet (w w' : world) : Prop := ∃ e r, step_of e r w w' ∧ ¬ file_send_failed w e r.

Lemma inv_run w w' : inv w → rtc step w w' → inv w'.
Proof. intros Hi Hr. induction Hr as [|w1 w2 w3 Hs _ IH]; [done|]. by eapply IH, inv_step. Qed.

Lemma accounts_run w w' lost : inv w → accounts w lost → rtc step w w' → ∃ lost', accounts w' lost'.
Proof.
  intros Hi Ha Hr. revert lost Hi Ha. induction Hr as [|w1 w2 w3 Hs _ IH]; intros lost Hi Ha; [eauto|].
  destruct Hs as (e & r & Hs). destruct (accounts_step _ _ _ _ _ Hi Hs Ha) as (lost' & Ha' & _).
  eapply IH; [|done]. eapply inv_step; [done|by exists e, r].
Qed.

Lemma accounts_quiet w w' lost : inv w → accounts w lost → rtc quiet w w' → accounts w' lost.
Proof.
  intros Hi Ha Hr. induction Hr as [|w1 w2 w3 (e & r & Hs & Hn) _ IH]; [done|].
  destruct (accounts_step _ _ _ _ _ Hi Hs Ha) as ([|f lost'] & Ha' & Hf); [|exfalso; by apply Hn, Hf].
  apply IH; [|done]. eapply inv_step; [done|by exists e, r].
Qed.

(** A run chosen by a script: which request completes, with what. *)
Definition run_one (w : world) (x : nat * Z * list Z) : option world :=
  let '(k, r, data) := x in
  match inflight w !! k with
  | None => None
  | Some e =>
      match kernel_exec (fds w) e r data, handle (fill (srv w) e data) (IoCompletion.mk (SubmitEntry.corr_id e) r 0) with
      | Some fds1, Ret (s', acts) =>
          Some (World s' (take k (inflight w) ++ drop (S k) (inflight w) ++ entries acts)
                  (filter (λ f, f ∉ closed_now acts) fds1))
      | _, _ => None
      end
  end.
Fixpoint run (w : world) (script : list (nat * Z * list Z)) : option world :=
  match script with
  | [] => Some w
  | x :: script => match run_one w x with Some w' => run w' script | None => None end
  end.

Lemma run_one_step w k r data w' :
  run_one w (k, r, data) = Some w' → ∃ e, inflight w !! k = Some e ∧ step_of e r w w'.
Proof.
  unfold run_one. destruct (inflight w !! k) as [e|] eqn:He; [|done].
  destruct (kernel_exec (fds w) e r data) as [F1|] eqn:Hk; [|done].
  destruct (handle _ _) as [[s' acts]|] eqn:Hh; [|done]. intros [= <-]. exists e. split; [done|].
  eapply step_complete; [|by apply kernel_exec_sound|done]. symmetry. by apply take_drop_middle.
Qed.

Lemma run_steps script w w' : run w script = Some w' → rtc step w w'.
Proof.
  revert w. induction script as [|[[k r] data] script IH]; intros w H; cbn [run] in H; [by simplify_eq; constructor|].
  destruct (run_one w (k, r, data)) as [w1|] eqn:E; [|done]. apply run_one_step in E as (e & _ & Hs).
  eapply rtc_l; [by exists e, r|by apply IH].
Qed.

(** Results above zero are never failures. *)
Lemma run_quiet script w w' :
  Forall (λ x, 0 < x.1.2) script → run w script = Some w' → rtc quiet w w'.
Proof.
  revert w. induction script as [|[[k r] data] script IH]; intros w Hp H; cbn [run] in H; [by simplify_eq; constructor|].
  apply Forall_cons in Hp as [Hr Hp]. simpl in Hr.
  destruct (run_one w (k, r, data)) as [w1|] eqn:E; [|done]. apply run_one_step in E as (e & _ & Hs).
  eapply rtc_l; [|by apply IH]. exists e, r. split; [done|]. intros (? & ? & _ & _ & _ & ?). lia.
Qed.

End Run.
End HttpdRun.

(** ** Theorems *)
Section Theorems.
Import HttpdRun Httpd KernelIo.
Context (listener accept_addr accept_addr_len : Z) (recv_ptr send_ptr file_ptr path_ptr : Z → Z).
Context (file_mode : bool) (base_dir : list Z).

Local Abbreviation init := (init listener accept_addr accept_addr_len).
Local Abbreviation step :=
  (step listener accept_addr accept_addr_len recv_ptr send_ptr file_ptr path_ptr file_mode base_dir).
Local Abbreviation quiet :=
  (quiet listener accept_addr accept_addr_len recv_ptr send_ptr file_ptr path_ptr file_mode base_dir).



(** A descriptor the server owns is never closed behind its back, whatever
    fails: in every run the descriptors owned are open and distinct. *)
Theorem httpd_owned_descriptors_open w0 w :
  init w0 → rtc step w0 w → NoDup (owned listener w) ∧ ∀ f, f ∈ owned listener w → f ∈ fds w.
Proof.
  intros H0 Hr. apply inv_start with (recv_ptr := recv_ptr) (send_ptr := send_ptr)
    (file_ptr := file_ptr) (path_ptr := path_ptr) in H0 as [Hi Ha].
  destruct (accounts_run _ _ _ _ _ _ _ _ _ _ _ _ Hi Ha Hr) as (lost & Hn & H). rewrite H in Hn.
  apply NoDup_app in Hn as (Hn & _ & _). split; [done|]. intros f Hf. rewrite H. set_solver.
Qed.
End Theorems.

(** A server on descriptor 3 that serves files of [/srv], run by a script. *)
Module HttpdDemo.
Import HttpdRun Httpd KernelIo.

Definition world0 : world := World (mkServer (ConnSlab.new 4) stats_new) (entries [submit_accept 3 0 0]) [3].
Definition play (script : list (nat * Z * list Z)) : option world :=
  run 3 0 0 (λ i, i * 65536) (λ i, i * 65536) (λ i, i * 65536) (λ i, i * 65536) true (bytes "/srv") world0 script.

Definition get_a : list Z := bytes "GET /a HTTP/1.1" ++ [13; 10; 13; 10].
Definition serve_file : list (nat * Z * list Z) :=
  [(0%nat, 9, []); (0%nat, 19, get_a); (1%nat, 8, []); (1%nat, 5, bytes "hello")].

Lemma world0_init : init 3 0 0 world0.
Proof. exists 4. by split. Qed.

(** The steps of the demo server. *)
Abbreviation demo_step :=
  (step 3 0 0 (λ i, i * 65536) (λ i, i * 65536) (λ i, i * 65536) (λ i, i * 65536) true (bytes "/srv")).
Abbreviation demo_quiet :=
  (quiet 3 0 0 (λ i, i * 65536) (λ i, i * 65536) (λ i, i * 65536) (λ i, i * 65536) true (bytes "/srv")).

Lemma play_steps script w : play script = Some w → rtc demo_step world0 w.
Proof. apply run_steps. Qed.

Lemma play_quiet script w : forallb (λ x, 0 <? x.1.2) script = true → play script = Some w → rtc demo_quiet world0 w.
Proof.
  intros Hp. apply run_quiet, Forall_forall. intros x Hx. rewrite forallb_forall in Hp.
  by apply Z.ltb_lt, Hp, list_elem_of_In.
Qed.

Lemma served : ∃ w, play serve_file = Some w.
Proof.
  assert (Hr : match play serve_file with Some _ => true | None => false end = true) by by vm_compute.
  destruct (play serve_file) as [w|]; [by exists w|discriminate Hr].
Qed.
End HttpdDemo.



Lemma httpd_owned_descriptors_open_witness :
  ∃ w, HttpdDemo.play HttpdDemo.serve_file = Some w ∧ NoDup (HttpdRun.owned 3 w).
Proof.
  destruct HttpdDemo.served as [w Hw]. exists w. split; [exact Hw|].
  apply (httpd_owned_descriptors_open _ _ _ _ _ _ _ _ _ _ _ HttpdDemo.world0_init (HttpdDemo.play_steps _ _ Hw)).
Defined.

(** A client that resets its connection while a file is sent to it leaves the
    file open for good: after the connection is closed and its slot free,
    descriptor 8 is open and nobody's. *)
Theorem httpd_reset_leaks_file :
  ∃ w, rtc HttpdDemo.demo_step HttpdDemo.world0 w ∧
    ConnSlab.active (Httpd.conns (HttpdRun.srv w)) = 0 ∧ HttpdRun.fds w = [8; 3] ∧ HttpdRun.owned 3 w = [3].
Proof.
  set (script := HttpdDemo.serve_file ++ [(1%nat, -104, []); (1%nat, 0, [])]).
  assert (Hr : match HttpdDemo.play script with
    | Some w => bool_decide (ConnSlab.active (Httpd.conns (HttpdRun.srv w)) = 0 ∧ HttpdRun.fds w = [8; 3] ∧
                  HttpdRun.owned 3 w = [3])
    | None => false end = true) by by vm_compute.
  destruct (HttpdDemo.play script) as [w|] eqn:E; [|done]. exists w.
  split; [by eapply HttpdDemo.play_steps|]. by apply bool_decide_eq_true_1 in Hr.
Qed.
