(* ===== verification/GvtHttpd.v ===== *)
(** * The HTTP servers with one GVThread per connection

    [cmd/httpd/rust/gvthread0] and [cmd/httpd/rust/gvthread1]: the handler of a
    connection, the accept loop and the reading of the settings.  The two
    programs differ in the path their sockets take (a shared reactor, or the
    ring of the worker) and in how they read their settings.  The socket is an
    interface: what [GvtStream::read] and one [send] under [write_all] do. *)
From stdpp Require Import base list strings gmap.
From S2P Require Import Prelude Config KsvcTypes KsvcUring KsvcReactor ConnSlab KernelIo Httpd.
Local Open Scope Z_scope.
Local Open Scope rust_scope.

Module GvtHttpd.
Import Text KernelIo.

Definition RECV_BUF_SIZE : Z := 4096.
Definition HELLO_BODY : list Z := bytes "Hello from GVThread!" ++ [10].

Definition make_hello_response : list Z :=
  Http.header "HTTP/1.1 200 OK" ++ Http.header "Content-Type: text/plain" ++
  bytes "Content-Length: " ++ decimal (Z.of_nat (length HELLO_BODY)) ++ CRLF ++
  Http.header "Connection: keep-alive" ++ Http.header "Server: gvthread-httpd" ++ CRLF ++ HELLO_BODY.

(** [&buf[..len]] panics past the end. *)
Definition has_complete_request (buf : list Z) (len : Z) : outcome bool :=
  if len <? 4 then Ret false
  else if Z.of_nat (length buf) <? len then Panic
  else Ret (contains (CRLF ++ CRLF) (take (Z.to_nat len) buf)).

(** The global counters. *)
Record counters := Counters { TOTAL_REQUESTS : Z; TOTAL_CONNECTIONS : Z; ACTIVE_CONNECTIONS : Z }.
Definition count_request (k : counters) : counters :=
  Counters (TOTAL_REQUESTS k +[64] 1) (TOTAL_CONNECTIONS k) (ACTIVE_CONNECTIONS k).
Definition count_connection (k : counters) : counters :=
  Counters (TOTAL_REQUESTS k) (TOTAL_CONNECTIONS k +[64] 1) (ACTIVE_CONNECTIONS k).
Definition enter (k : counters) : counters :=
  Counters (TOTAL_REQUESTS k) (TOTAL_CONNECTIONS k) (ACTIVE_CONNECTIONS k +[64] 1).
Definition leave (k : counters) : counters :=
  Counters (TOTAL_REQUESTS k) (TOTAL_CONNECTIONS k) (ACTIVE_CONNECTIONS k -[64] 1).

Section Connection.
(** [read s len]: the result and the bytes stored; [send]: one send of a
    buffer; [running]: RUNNING, as this thread sees it. *)
Context {S : Type} (read : S → Z → Z * list Z * S) (send : S → list Z → Z * S) (running : S → bool).

(** The keep-alive loop; [None] if the fuel or that of a [write_all] is short. *)
Fixpoint serve (fuel wfuel : nat) (s : S) (buf : list Z) (recv_len : Z) (k : counters)
    : option (outcome (S * counters)) :=
  match fuel with
  | O => None
  | Datatypes.S fuel =>
      if negb (running s) then Some (Ret (s, k))
      else if Z.of_nat (length buf) <? recv_len then Some Panic
      else
        let '(n, data, s) := read s (Z.of_nat (length buf) - recv_len) in
        let buf := splice buf recv_len data in
        if n <=? 0 then Some (Ret (s, k))
        else
          let recv_len := recv_len +[64] n in
          match has_complete_request buf recv_len with
          | Panic => Some Panic
          | Ret false =>
              if RECV_BUF_SIZE <=? recv_len then Some (Ret (s, k)) else serve fuel wfuel s buf recv_len k
          | Ret true =>
              let k := count_request k in
              match syscall.send_all send wfuel s make_hello_response 0 with
              | None => None
              | Some (Panic, _) => Some Panic
              | Some (Ret sent, s) => if sent <? 0 then Some (Ret (s, k)) else serve fuel wfuel s buf 0 k
              end
          end
  end.

(** The stream is dropped, and its descriptor closed, when the handler returns. *)
Definition handle_connection (fuel wfuel : nat) (stream : net.GvtStream) (s : S) (k : counters)
    : option (outcome (S * counters * list net.call)) :=
  match serve fuel wfuel s (replicate (Z.to_nat RECV_BUF_SIZE) 0) 0 (enter k) with
  | None => None
  | Some Panic => Some Panic
  | Some (Ret (s, k)) => Some (Ret (s, leave k, net.drop_stream stream))
  end.
End Connection.

(** ** The accept loop *)
Inductive accept_action := Spawn (stream : net.GvtStream) | Yield | Report (e : Z).

(** One value of RUNNING and one result of [accept] per turn, and the value of
    RUNNING seen after a reported error; the list ends where the loop is last
    observed. *)
Fixpoint accept_loop (turns : list (bool * Result net.GvtStream Z * bool)) (k : counters)
    : list accept_action * counters :=
  match turns with
  | [] => ([], k)
  | (run, r, run') :: turns =>
      if negb run then ([], k)
      else
        match r with
        | Ok stream => let '(a, k') := accept_loop turns (count_connection k) in (Spawn stream :: a, k')
        | Err e =>
            if (e =? - libc.EAGAIN) || (e =? - libc.EINTR) then
              let '(a, k') := accept_loop turns k in (Yield :: a, k')
            else if negb run' then ([Report e], k)
            else let '(a, k') := accept_loop turns k in (Report e :: a, k')
        end
  end.

(** ** Settings *)
Record settings := Settings { port : Z; num_workers : Z; max_gvthreads : Z; sq_entries : Z }.
Definition defaults : settings := Settings 8080 4 100000 1024.
Definition set_port (c : settings) (v : Z) : settings := Settings v (num_workers c) (max_gvthreads c) (sq_entries c).
Definition set_workers (c : settings) (v : Z) : settings := Settings (port c) v (max_gvthreads c) (sq_entries c).
Definition set_max (c : settings) (v : Z) : settings := Settings (port c) (num_workers c) v (sq_entries c).
Definition set_sq (c : settings) (v : Z) : settings := Settings (port c) (num_workers c) (max_gvthreads c) v.

(** The flags with a value: how wide it is and where it goes. *)
Definition flag (a : string) : option (Z * (settings → Z → settings)) :=
  if bool_decide (a ∈ ["--port"; "-p"]) then Some (16, set_port)
  else if bool_decide (a ∈ ["--workers"; "-w"]) then Some (64, set_workers)
  else if bool_decide (a = "--max-gvthreads") then Some (64, set_max)
  else if bool_decide (a = "--sq") then Some (32, set_sq)
  else None.
Definition fallback (a : string) : Z :=
  if bool_decide (a ∈ ["--port"; "-p"]) then 8080
  else if bool_decide (a ∈ ["--workers"; "-w"]) then 4
  else if bool_decide (a = "--max-gvthreads") then 100000 else 1024.

(** The loop over the arguments after the program's name.  A flag without a
    readable value restores the default in gvthread0 ([restore]), and leaves the
    setting as it is in gvthread1. *)
Fixpoint cli (restore : bool) (args : list string) (c : settings) : settings :=
  match args with
  | [] => c
  | a :: rest =>
      match flag a with
      | Some (w, set) =>
          let missing := if restore then set c (fallback a) else c in
          match rest with
          | [] => missing
          | v :: rest => cli restore rest (match SchedulerConfig.parse_uint w v with Some n => set c n | None => missing end)
          end
      | None =>
          cli restore rest (match SchedulerConfig.parse_uint 16 a with Some n => set_port c n | None => c end)
      end
  end.

Definition from_env (env : gmap string string) (key : string) (w : Z) (set : settings → Z → settings) (c : settings)
  : settings :=
  match env !! key with
  | Some v => match SchedulerConfig.parse_uint w v with Some n => set c n | None => c end
  | None => c
  end.

(** gvthread0 reads the port alone from the environment. *)
Definition settings0 (env : gmap string string) (args : list string) : settings :=
  cli true args (from_env env "gvt_app_port" 16 set_port defaults).
Definition settings1 (env : gmap string string) (args : list string) : settings :=
  cli false args
    (from_env env "gvt_app_sq_entries" 32 set_sq (from_env env "gvt_app_max_gvthreads" 64 set_max
      (from_env env "gvt_parallelism" 64 set_workers (from_env env "gvt_app_port" 16 set_port defaults)))).
End GvtHttpd.

(** ** Lemmas *)
Section Serving.
Import Text KernelIo GvtHttpd.
Context {S : Type} (read : S → Z → Z * list Z * S) (send : S → list Z → Z * S) (running : S → bool).
(** What the client still sends, in the pieces in which it arrives, what it was
    sent, and how often the kernel asks for a retry. *)
Context (pending : S → list (list Z)) (sent : S → list Z) (retries : S → nat).

(** A client that takes every answer and then closes its end. *)
Record client : Prop := {
  cl_read : ∀ s c cs len, pending s = c :: cs → Z.of_nat (length c) ≤ len → ∃ s',
    read s len = (Z.of_nat (length c), c, s') ∧ pending s' = cs ∧ sent s' = sent s ∧ running s' = running s ∧
    (retries s' ≤ retries s)%nat;
  cl_end : ∀ s len, pending s = [] → ∃ n s', read s len = (n, [], s') ∧ n ≤ 0 ∧ sent s' = sent s;
  cl_send : ∀ s buf, buf ≠ [] → let '(n, s') := send s buf in
    pending s' = pending s ∧ running s' = running s ∧
    ((0 < n ≤ Z.of_nat (length buf) ∧ sent s' = sent s ++ take (Z.to_nat n) buf ∧ (retries s' ≤ retries s)%nat) ∨
     ((n = - libc.EAGAIN ∨ n = - libc.EINTR) ∧ sent s' = sent s ∧ (retries s' < retries s)%nat))
}.

Definition terminator : list Z := CRLF ++ CRLF.

(** A request: its pieces fit into the buffer, and the last one completes it. *)
Record request (r : list (list Z)) : Prop := {
  rq_pieces : Forall (λ c, c ≠ []) r;
  rq_fits : Z.of_nat (length (concat r)) ≤ RECV_BUF_SIZE;
  rq_incomplete : ∀ j, (j < length r)%nat → contains terminator (concat (take j r)) = false;
  rq_complete : contains terminator (concat r) = true
}.

Lemma write_all_ok fuel s buf total :
  client → (length buf + retries s < fuel)%nat → 0 ≤ total → total + Z.of_nat (length buf) < 2 ^ 64 →
  ∃ s', syscall.send_all send fuel s buf total = Some (Ret (total + Z.of_nat (length buf)), s') ∧
    sent s' = sent s ++ buf ∧ (retries s' ≤ retries s)%nat ∧ pending s' = pending s ∧ running s' = running s.
Proof.
  intros Hc. revert s buf total. induction fuel as [|fuel IH]; intros s buf total Hf H0 Ht; [lia|]. simpl.
  case_bool_decide as Hb.
  { subst. exists s. rewrite Z.add_0_r, app_nil_r. done. }
  pose proof (cl_send Hc s buf Hb) as Hs. destruct (send s buf) as [n s1].
  destruct Hs as (Hp & Hrun & [(Hn & Hs & Hr)|(Hn & Hs & Hr)]).
  - destruct (Z.ltb_spec n 0); [lia|]. destruct (Z.ltb_spec (Z.of_nat (length buf)) n); [lia|].
    rewrite wrap_small by (split; lia).
    destruct (IH s1 (drop (Z.to_nat n) buf) (total + n)) as (s' & Hsend & Hs' & ? & ? & ?); [rewrite ?length_drop; lia..|].
    exists s'. rewrite Hsend, length_drop. split_and!; [do 3 f_equal; lia| |lia|congruence|congruence].
    by rewrite Hs', Hs, <- (assoc_L (++)), take_drop.
  - assert ((n <? 0) = true ∧ (n =? - libc.EAGAIN) || (n =? - libc.EINTR) = true) as [-> ->]
      by (destruct Hn as [-> | ->]; done).
    destruct (IH s1 buf total) as (s' & Hsend & Hs' & ? & ? & ?); [lia..|].
    exists s'. split_and!; [done|congruence|lia|congruence|congruence].
Qed.

Lemma has_complete_eq buf n :
  0 ≤ n ≤ Z.of_nat (length buf) → has_complete_request buf n = Ret (contains terminator (take (Z.to_nat n) buf)).
Proof.
  intros Hn. unfold has_complete_request. destruct (Z.ltb_spec n 4) as [Hs|].
  - f_equal. symmetry. apply not_true_iff_false. intros (pre & post & E)%contains_spec; [|done].
    apply (f_equal length) in E. rewrite length_take, !length_app in E. simpl in E. lia.
  - by destruct (Z.ltb_spec (Z.of_nat (length buf)) n); [lia|].
Qed.

(** The rest of a request, of which [got] has arrived. *)
Lemma serve_request rest fuel wfuel r : client → ∀ got s buf k,
  r ≠ [] → pending s = r ++ rest → running s = true → Forall (λ c, c ≠ []) r →
  take (length got) buf = got → Z.of_nat (length buf) = RECV_BUF_SIZE →
  Z.of_nat (length (got ++ concat r)) ≤ RECV_BUF_SIZE →
  (∀ j, (0 < j < length r)%nat → contains terminator (got ++ concat (take j r)) = false) →
  contains terminator (got ++ concat r) = true → (length make_hello_response + retries s < wfuel)%nat →
  ∃ s' buf', serve read send running (length r + fuel) wfuel s buf (Z.of_nat (length got)) k =
      serve read send running fuel wfuel s' buf' 0 (count_request k) ∧
    Z.of_nat (length buf') = RECV_BUF_SIZE ∧ pending s' = rest ∧ running s' = true ∧
    sent s' = sent s ++ make_hello_response ∧ (retries s' ≤ retries s)%nat.
Proof.
  intros Hc. induction r as [|c r IH]; intros got s buf k Hne Hp Hrun Hch Hgot Hbuf Hfit Hinc Hcomp Hw; [done|].
  apply Forall_cons in Hch as [Hc0 Hch]. assert (0 < length c)%nat by (destruct c; simpl; [done|lia]).
  cbn [concat] in Hfit. rewrite !length_app in Hfit.
  destruct (cl_read Hc s c (r ++ rest) (Z.of_nat (length buf) - Z.of_nat (length got)))
    as (s1 & Hrd & Hp1 & Hs1 & Hr1 & Hre1); [done|lia|].
  cbn [length Nat.add serve]. rewrite Hrun. cbn [negb].
  destruct (Z.ltb_spec (Z.of_nat (length buf)) (Z.of_nat (length got))); [lia|]. rewrite Hrd.
  destruct (Z.leb_spec (Z.of_nat (length c)) 0); [lia|]. set (buf1 := splice buf (Z.of_nat (length got)) c).
  assert (Hbuf1 : length buf1 = length buf) by (apply length_splice; lia).
  unfold RECV_BUF_SIZE in *. rewrite wrap_small by (unfold in_u; lia).
  assert (Htake : take (Z.to_nat (Z.of_nat (length got) + Z.of_nat (length c))) buf1 = got ++ c).
  { unfold buf1, splice. rewrite Nat2Z.id, Hgot, (assoc_L (++)). apply take_app_length'. rewrite length_app. lia. }
  rewrite has_complete_eq, Htake by lia. destruct r as [|c' r].
  - cbn [concat] in Hcomp. rewrite app_nil_r in Hcomp. rewrite Hcomp.
    destruct (write_all_ok wfuel s1 make_hello_response 0 Hc) as (s2 & -> & Hs2 & Hre2 & Hp2 & Hr2);
      [lia|lia|by vm_compute|].
    destruct (Z.ltb_spec (0 + Z.of_nat (length make_hello_response)) 0); [lia|].
    exists s2, buf1. split_and!; [done|lia|by rewrite Hp2|congruence|congruence|lia].
  - assert (Hno : contains terminator (got ++ c) = false).
    { specialize (Hinc 1%nat). cbn [take concat] in Hinc. rewrite app_nil_r in Hinc. apply Hinc. simpl. lia. }
    rewrite Hno. apply Forall_cons in Hch as Hch'. destruct Hch' as [Hc' _].
    assert (0 < length c')%nat by (destruct c'; simpl; [done|lia]). cbn [concat] in Hfit. rewrite length_app in Hfit.
    destruct (Z.leb_spec 4096 (Z.of_nat (length got) + Z.of_nat (length c))); [lia|].
    replace (Z.of_nat (length got) + Z.of_nat (length c)) with (Z.of_nat (length (got ++ c)))
      by (rewrite length_app; lia).
    destruct (IH (got ++ c) s1 buf1 k) as (s' & buf' & Hsv & Hb & Hp' & Hr' & Hs' & Hre');
      [done|done|congruence|done| |lia| | | |lia|].
    + rewrite <- Htake at 2. f_equal. rewrite length_app. lia.
    + cbn [concat]. rewrite !length_app. lia.
    + intros j Hj. specialize (Hinc (Datatypes.S j)). cbn [take concat] in Hinc. rewrite (assoc_L (++)) in Hinc.
      apply Hinc. simpl in *. lia.
    + by rewrite <- (assoc_L (++)).
    + exists s', buf'. split_and!; [done|done|done|done|congruence|lia].
Qed.

Lemma serve_all fuel wfuel reqs : client → ∀ s buf k,
  Forall request reqs → pending s = concat reqs → running s = true → Z.of_nat (length buf) = RECV_BUF_SIZE →
  (length make_hello_response + retries s < wfuel)%nat →
  ∃ s', serve read send running (length (concat reqs) + Datatypes.S fuel) wfuel s buf 0 k =
      Some (Ret (s', Nat.iter (length reqs) count_request k)) ∧
    sent s' = sent s ++ concat (replicate (length reqs) make_hello_response).
Proof.
  intros Hc. induction reqs as [|r reqs IH]; intros s buf k Hreq Hp Hrun Hbuf Hw.
  - destruct (cl_end Hc s (Z.of_nat (length buf)) Hp) as (n & s' & Hrd & Hn & Hs').
    exists s'. split; [|by rewrite Hs', app_nil_r]. cbn [concat length Nat.add serve]. rewrite Hrun. cbn [negb].
    destruct (Z.ltb_spec (Z.of_nat (length buf)) 0); [lia|]. rewrite Z.sub_0_r, Hrd.
    destruct (Z.leb_spec n 0); [done|lia].
  - apply Forall_cons in Hreq as [[Hpc Hfit Hinc Hcomp] Hreq]. cbn [concat] in *. rewrite length_app, <- Nat.add_assoc.
    destruct (serve_request (concat reqs) (length (concat reqs) + Datatypes.S fuel) wfuel r Hc [] s buf k)
      as (s1 & buf1 & Hsv & Hb & Hp1 & Hr1 & Hs1 & Hre1); try done.
    { by intros ->. }
    { intros j Hj. apply Hinc. lia. }
    destruct (IH s1 buf1 (count_request k)) as (s' & Hsv' & Hs'); [done|done|done|done|lia|].
    exists s'. split.
    + etrans; [exact Hsv|]. rewrite Hsv'. cbn [length]. by rewrite Nat.iter_succ_r.
    + rewrite Hs', Hs1. cbn [length replicate concat]. by rewrite (assoc_L (++)).
Qed.

Lemma count_requests n k :
  in_u 64 (TOTAL_REQUESTS k) →
  Nat.iter n count_request k = Counters (TOTAL_REQUESTS k +[64] Z.of_nat n) (TOTAL_CONNECTIONS k) (ACTIVE_CONNECTIONS k).
Proof.
  intros Hk. induction n as [|n IH].
  - simpl. rewrite Z.add_0_r, wrap_small by done. by destruct k.
  - rewrite Nat.iter_succ, IH. unfold count_request. cbn [TOTAL_REQUESTS TOTAL_CONNECTIONS ACTIVE_CONNECTIONS].
    f_equal. rewrite Nat2Z.inj_succ. unfold wrap. rewrite Zplus_mod_idemp_l. f_equal. lia.
Qed.

(** A client that sends [reqs], each in any number of pieces, one after the
    other, takes the answers and closes its end: the handler returns, has sent
    exactly one response per request, has counted them, has left the number of
    active connections as it was, and closes the descriptor once. *)
Theorem gvt_connection_serves fuel wfuel reqs stream s k :
  client → Forall request reqs → pending s = concat reqs → running s = true →
  (length (concat reqs) < fuel)%nat → (length make_hello_response + retries s < wfuel)%nat →
  in_u 64 (TOTAL_REQUESTS k) → in_u 64 (ACTIVE_CONNECTIONS k) →
  ∃ s', handle_connection read send running fuel wfuel stream s k =
      Some (Ret (s', Counters (TOTAL_REQUESTS k +[64] Z.of_nat (length reqs)) (TOTAL_CONNECTIONS k)
                              (ACTIVE_CONNECTIONS k), [net.CloseFd (net.sfd stream)])) ∧
    sent s' = sent s ++ concat (replicate (length reqs) make_hello_response).
Proof.
  intros Hc Hreq Hp Hrun Hf Hw Ht Ha.
  destruct (serve_all (fuel - Datatypes.S (length (concat reqs))) wfuel reqs Hc s
    (replicate (Z.to_nat RECV_BUF_SIZE) 0) (enter k)) as (s' & Hs & Hsent); try done.
  exists s'. split; [|done]. unfold handle_connection.
  replace (length (concat reqs) + Datatypes.S (fuel - Datatypes.S (length (concat reqs))))%nat with fuel in Hs by lia.
  rewrite Hs, count_requests by done. unfold leave, enter.
  cbn [TOTAL_REQUESTS TOTAL_CONNECTIONS ACTIVE_CONNECTIONS]. do 4 f_equal. f_equal. f_equal.
  unfold wrap. rewrite Zminus_mod_idemp_l, Z.add_simpl_r. by apply Z.mod_small.
Qed.
End Serving.

(** While the server runs, every accepted connection is handed to one GVThread,
    in order, and counted; errors hand over nothing. *)
Definition spawned (a : GvtHttpd.accept_action) : option net.GvtStream :=
  match a with GvtHttpd.Spawn s => Some s | _ => None end.
Definition accepted (t : bool * Result net.GvtStream Z * bool) : option net.GvtStream :=
  match t with (_, Ok s, _) => Some s | _ => None end.

Theorem accept_loop_spawns turns k acts k' :
  Forall (λ t, t.1.1 = true ∧ t.2 = true) turns → in_u 64 (GvtHttpd.TOTAL_CONNECTIONS k) →
  GvtHttpd.accept_loop turns k = (acts, k') →
  omap spawned acts = omap accepted turns ∧ length acts = length turns ∧
  GvtHttpd.TOTAL_CONNECTIONS k' = GvtHttpd.TOTAL_CONNECTIONS k +[64] Z.of_nat (length (omap accepted turns)).
Proof.
  intros Hall. revert k acts k'. induction Hall as [|[[run r] run'] turns [Hrun Hrun'] Hall IH]; intros k acts k' Hk Ha;
    simpl in *; [simplify_eq/=; split_and!; [done|done|by rewrite Z.add_0_r, wrap_small]|].
  subst. cbn [negb] in Ha. destruct r as [st|e]; simpl in *.
  - destruct (GvtHttpd.accept_loop turns (GvtHttpd.count_connection k)) as [a k1] eqn:E. simplify_eq/=.
    destruct (IH (GvtHttpd.count_connection k) a k') as (H1 & H2 & H3); [apply wrap_range; lia|done|].
    rewrite H1, H2, H3. split_and!; [done|done|].
    cbn [GvtHttpd.count_connection GvtHttpd.TOTAL_CONNECTIONS]. unfold wrap. rewrite Zplus_mod_idemp_l. f_equal. lia.
  - destruct (GvtHttpd.accept_loop turns k) as [a k1] eqn:E. destruct (IH k a k1 Hk E) as (H1 & H2 & H3).
    destruct (_ || _); simplify_eq/=; by rewrite H1, H2.
Qed.

(** The benchmark's notes say that every server reads [gvt_parallelism];
    gvthread0 reads the port alone from its environment, and runs with four
    workers whatever the variable says. *)
Theorem gvthread0_ignores_parallelism env args v :
  GvtHttpd.settings0 (<["gvt_parallelism" := v]> env) args = GvtHttpd.settings0 env args ∧
  GvtHttpd.num_workers (GvtHttpd.settings0 (<["gvt_parallelism" := "16"]> env) []) = 4 ∧
  GvtHttpd.num_workers (GvtHttpd.settings1 (<["gvt_parallelism" := "16"]> ∅) []) = 16.
Proof.
  split_and!; [|by unfold GvtHttpd.settings0, GvtHttpd.from_env; repeat case_match|by vm_compute].
  unfold GvtHttpd.settings0, GvtHttpd.from_env. by rewrite lookup_insert_ne.
Qed.

(** ** Witnesses *)
Module GvtDemo.
Import Text GvtHttpd KernelIo.

(** Pieces to come, bytes sent, retries to come; a send takes seven bytes. *)
Record sock := Sock { to_read : list (list Z); got : list Z; again : nat }.
Definition read (s : sock) (len : Z) : Z * list Z * sock :=
  match to_read s with
  | [] => (0, [], s)
  | c :: cs =>
      if Z.of_nat (length c) <=? len then (Z.of_nat (length c), c, Sock cs (got s) (again s))
      else (len, take (Z.to_nat len) c, Sock (drop (Z.to_nat len) c :: cs) (got s) (again s))
  end.
Definition send (s : sock) (buf : list Z) : Z * sock :=
  match again s with
  | Datatypes.S n => (- libc.EAGAIN, Sock (to_read s) (got s) n)
  | O => (Z.of_nat (length (take 7 buf)), Sock (to_read s) (got s ++ take 7 buf) 0)
  end.

Lemma sock_client : client read send (λ _, true) to_read got again.
Proof.
  constructor.
  - intros s c cs len Hp Hl. unfold read. rewrite Hp. destruct (Z.leb_spec (Z.of_nat (length c)) len); [|lia]. by eexists.
  - intros s len Hp. unfold read. rewrite Hp. by exists 0, s.
  - intros s buf Hb. unfold send. destruct (again s) as [|n].
    + split_and!; [done|done|left]. rewrite length_take. assert (0 < length buf)%nat by (destruct buf; simpl; [done|lia]).
      split_and!; [lia..| |done]. cbn [got]. f_equal. rewrite Nat2Z.id.
      destruct (Nat.min_spec 7 (length buf)) as [[? ->]|[? ->]]; [done|by rewrite !take_ge by lia].
    + split_and!; [done|done|right]. split_and!; [by left|done|simpl; lia].
Qed.

Definition get_request : list (list Z) := [bytes "GET / HTT"; bytes "P/1.1" ++ [13; 10; 13]; [10]].

Lemma get_request_ok : request get_request.
Proof.
  constructor; [apply (bool_decide_unpack _); by vm_compute|by vm_compute| |by vm_compute].
  intros [|[|[|j]]] Hj; [by vm_compute..|simpl in Hj; lia].
Qed.
End GvtDemo.

Lemma gvt_connection_serves_witness :
  ∃ s', GvtHttpd.handle_connection GvtDemo.read GvtDemo.send (λ _, true) 7 200 (net.mkStream 9 false)
      (GvtDemo.Sock (concat [GvtDemo.get_request; GvtDemo.get_request]) [] 2) (GvtHttpd.Counters 0 1 0) =
      Some (Ret (s', GvtHttpd.Counters 2 1 0, [net.CloseFd 9])).
Proof.
  destruct (gvt_connection_serves _ _ _ _ _ _ 7 200 [GvtDemo.get_request; GvtDemo.get_request] (net.mkStream 9 false)
    (GvtDemo.Sock (concat [GvtDemo.get_request; GvtDemo.get_request]) [] 2) (GvtHttpd.Counters 0 1 0) GvtDemo.sock_client)
    as (s' & Hs & _); [exact (Forall_cons_2 _ _ _ GvtDemo.get_request_ok (Forall_cons_2 _ _ _ GvtDemo.get_request_ok (Forall_nil_2 _)))|reflexivity|reflexivity| | |split; simpl; lia..|].
  - apply (bool_decide_unpack _). vm_compute. exact I.
  - apply (bool_decide_unpack _). vm_compute. exact I.
  - exists s'. exact Hs.
Defined.

Lemma accept_loop_spawns_witness :
  let turns := [(true, Ok (net.mkStream 9 true), true); (true, Err (-11), true)] in
  omap spawned (GvtHttpd.accept_loop turns (GvtHttpd.Counters 0 0 0)).1 = omap accepted turns.
Proof.
  intros turns.
  apply (accept_loop_spawns turns (GvtHttpd.Counters 0 0 0) _ (GvtHttpd.accept_loop turns (GvtHttpd.Counters 0 0 0)).2);
    [repeat constructor|split; simpl; lia|reflexivity].
Defined.

(** Two requests that arrive together are answered once: everything received
    is dropped with the first answer. *)
Theorem gvt_pipelined_request_lost :
  let req := concat GvtDemo.get_request in
  match GvtHttpd.handle_connection GvtDemo.read GvtDemo.send (λ _, true) 7 200 (net.mkStream 9 false)
      (GvtDemo.Sock [req ++ req] [] 0) (GvtHttpd.Counters 0 1 0) with
  | Some (Ret (s, k, _)) => GvtHttpd.TOTAL_REQUESTS k = 1 ∧ GvtDemo.got s = GvtHttpd.make_hello_response
  | _ => False
  end.
Proof. by vm_compute. Qed.
