(* ===== verification/StreamServers.v ===== *)
(** * The servers on other runtimes

    The baselines the benchmarks compare with: [cmd/httpd/rust/tokio],
    [cmd/echo/rust/tokio] and the variant [naive] of [cmd/httpd/go] and
    [cmd/echo/go].  The handler of a connection takes the two operations of its
    stream as arguments; [Wire] is a stream that answers from a script, and every
    finite history of a stream is such a script.  The theorems compare the
    handlers with each other and with that of [GvtHttpd] on the same stream. *)
From stdpp Require Import base list strings gmap.
From S2P Require Import Prelude Config KsvcTypes KsvcReactor ConnSlab KernelIo Httpd GvtHttpd.
Local Open Scope Z_scope.
Local Open Scope rust_scope.

(** ** [cmd/httpd/rust/tokio] *)
Module TokioHttpd.
Import Text KernelIo.

Record Stats := mkStats { accepts : Z; requests : Z; responses : Z; bytes_in : Z; bytes_out : Z; errors : Z }.
Definition stats_new : Stats := mkStats 0 0 0 0 0 0.
Definition add_accept (k : Stats) : Stats :=
  mkStats (accepts k +[64] 1) (requests k) (responses k) (bytes_in k) (bytes_out k) (errors k).
Definition add_in (k : Stats) (n : Z) : Stats :=
  mkStats (accepts k) (requests k) (responses k) (bytes_in k +[64] n) (bytes_out k) (errors k).
Definition add_request (k : Stats) : Stats :=
  mkStats (accepts k) (requests k +[64] 1) (responses k) (bytes_in k) (bytes_out k) (errors k).
Definition add_response (k : Stats) (n : Z) : Stats :=
  mkStats (accepts k) (requests k) (responses k +[64] 1) (bytes_in k) (bytes_out k +[64] n) (errors k).
Definition add_error (k : Stats) : Stats :=
  mkStats (accepts k) (requests k) (responses k) (bytes_in k) (bytes_out k) (errors k +[64] 1).

Definition HELLO_BODY : list Z := bytes "Hello from Tokio!" ++ [10].

Definition make_hello_response : list Z :=
  Http.header "HTTP/1.1 200 OK" ++ Http.header "Content-Type: text/plain" ++
  bytes "Content-Length: " ++ decimal (Z.of_nat (length HELLO_BODY)) ++ CRLF ++
  Http.header "Connection: keep-alive" ++ Http.header "Server: tokio-httpd" ++ CRLF ++ HELLO_BODY.

Definition make_404_response : list Z :=
  let body := bytes "404 Not Found" ++ [10] in
  Http.header "HTTP/1.1 404 Not Found" ++ Http.header "Content-Type: text/plain" ++
  bytes "Content-Length: " ++ decimal (Z.of_nat (length body)) ++ CRLF ++
  Http.header "Connection: keep-alive" ++ CRLF ++ body.

Definition make_file_response (content_type : string) (body : list Z) : list Z :=
  Http.header "HTTP/1.1 200 OK" ++ bytes "Content-Type: " ++ bytes content_type ++ CRLF ++
  bytes "Content-Length: " ++ decimal (Z.of_nat (length body)) ++ CRLF ++
  Http.header "Connection: keep-alive" ++ Http.header "Server: tokio-httpd" ++ CRLF ++ body.

Definition guess_content_type (path : list Z) : string :=
  let e := λ s, ends_with (bytes s) path in
  if e ".html" || e ".htm" then "text/html"
  else if e ".css" then "text/css"
  else if e ".js" then "application/javascript"
  else if e ".json" then "application/json"
  else if e ".txt" then "text/plain"
  else if e ".png" then "image/png"
  else if e ".jpg" || e ".jpeg" then "image/jpeg"
  else "application/octet-stream".

(** [None] where the path is not UTF-8. *)
Definition parse_path (buf : list Z) : option (list Z) :=
  if (Z.of_nat (length buf) <? 14) || negb (bool_decide (take 4 buf = bytes "GET ")) then Some (bytes "/")
  else
    let stop := match position_of (bytes " ") (drop 4 buf) with Some p => 4 + p | None => 4 + 1 end in
    let path := drop 4 (take (Z.to_nat stop) buf) in
    if utf8_valid path then Some path else None.

(** The answer to the request in [header], given what the files hold. *)
Definition respond (files : list Z → option (list Z)) (serve_dir : option (list Z)) (header : list Z) : list Z :=
  match serve_dir with
  | None => make_hello_response
  | Some base =>
      let path := default (bytes "/") (parse_path header) in
      let path := if bool_decide (path = bytes "/") then bytes "/index.html" else path in
      if contains (bytes "..") path then make_404_response
      else
        let full_path := base ++ path in
        match files full_path with
        | Some content => make_file_response (guess_content_type full_path) content
        | None => make_404_response
        end
  end.

Definition BUF : Z := 4096.

Section Connection.
(** [read s room]: the bytes stored, none at the end of the stream; the result
    of [write_all]. *)
Context {S : Type} (read : S → Z → Result (list Z) unit * S) (write_all : S → list Z → Result unit unit * S).
Context (files : list Z → option (list Z)) (serve_dir : option (list Z)).

(** The loop of [handle_client]; [None] if the fuel is short.  Slices past the
    end of the buffer panic. *)
Fixpoint serve (fuel : nat) (s : S) (buf : list Z) (pos : Z) (k : Stats) : option (outcome (S * Stats)) :=
  match fuel with
  | O => None
  | Datatypes.S fuel =>
      if Z.of_nat (length buf) <? pos then Some Panic
      else
        let '(r, s) := read s (Z.of_nat (length buf) - pos) in
        match r with
        | Err _ => Some (Ret (s, add_error k))
        | Ok [] => Some (Ret (s, k))
        | Ok data =>
            let n := Z.of_nat (length data) in
            let buf := splice buf pos data in
            let k := add_in k n in
            let pos := pos +[64] n in
            if Z.of_nat (length buf) <? pos then Some Panic
            else
              match position_of (CRLF ++ CRLF) (take (Z.to_nat pos) buf) with
              | None => if Z.of_nat (length buf) <=? pos then Some (Ret (s, k)) else serve fuel s buf pos k
              | Some p =>
                  let header_end := p + 4 in
                  let k := add_request k in
                  let response := respond files serve_dir (take (Z.to_nat header_end) buf) in
                  let '(w, s) := write_all s response in
                  match w with
                  | Ok _ => serve fuel s buf 0 (add_response k (Z.of_nat (length response)))
                  | Err _ => Some (Ret (s, add_error k))
                  end
              end
        end
  end.

Definition handle_client (fuel : nat) (s : S) (k : Stats) : option (outcome (S * Stats)) :=
  serve fuel s (replicate (Z.to_nat BUF) 0) 0 k.
End Connection.

(** The accept loop, over the results of [accept]: the streams handed to tasks. *)
Fixpoint accept_loop {S} (results : list (Result S unit)) (k : Stats) : list S * Stats :=
  match results with
  | [] => ([], k)
  | Ok s :: rs => let '(ss, k) := accept_loop rs (add_accept k) in (s :: ss, k)
  | Err _ :: rs => accept_loop rs k
  end.

(** The command line; a flag at its end panics. *)
Fixpoint cli (args : list string) (port : Z) (dir : option string) : outcome (Z * option string) :=
  match args with
  | [] => Ret (port, dir)
  | a :: rest =>
      if bool_decide (a ∈ ["--port"; "-p"]) then
        match rest with v :: rest => cli rest (default 8081 (SchedulerConfig.parse_uint 16 v)) dir | [] => Panic end
      else if bool_decide (a ∈ ["--dir"; "-d"]) then
        match rest with v :: rest => cli rest port (Some v) | [] => Panic end
      else cli rest (default port (SchedulerConfig.parse_uint 16 a)) dir
  end.
Definition settings (env : gmap string string) (args : list string) : outcome (Z * option string) :=
  cli args (default 8080 (env !! "gvt_app_port" ≫= SchedulerConfig.parse_uint 16)) None.
End TokioHttpd.

(** ** [cmd/echo/rust/tokio] *)
Module TokioEcho.
Record Stats := mkStats { accepts : Z; bytes_in : Z; bytes_out : Z; active : Z; errors : Z }.
Definition stats_new : Stats := mkStats 0 0 0 0 0.
Definition add_accept (k : Stats) : Stats := mkStats (accepts k +[64] 1) (bytes_in k) (bytes_out k) (active k) (errors k).
Definition add_in (k : Stats) (n : Z) : Stats := mkStats (accepts k) (bytes_in k +[64] n) (bytes_out k) (active k) (errors k).
Definition add_out (k : Stats) (n : Z) : Stats := mkStats (accepts k) (bytes_in k) (bytes_out k +[64] n) (active k) (errors k).
Definition add_error (k : Stats) : Stats := mkStats (accepts k) (bytes_in k) (bytes_out k) (active k) (errors k +[64] 1).
Definition enter (k : Stats) : Stats := mkStats (accepts k) (bytes_in k) (bytes_out k) (active k +[64] 1) (errors k).
Definition leave (k : Stats) : Stats := mkStats (accepts k) (bytes_in k) (bytes_out k) (active k -[64] 1) (errors k).

Section Connection.
Context {S : Type} (read : S → Z → Result (list Z) unit * S) (write_all : S → list Z → Result unit unit * S).

Fixpoint echo (fuel : nat) (s : S) (k : Stats) : option (S * Stats) :=
  match fuel with
  | O => None
  | Datatypes.S fuel =>
      let '(r, s) := read s 4096 in
      match r with
      | Err _ => Some (s, add_error k)
      | Ok [] => Some (s, k)
      | Ok data =>
          let k := add_in k (Z.of_nat (length data)) in
          let '(w, s) := write_all s data in
          match w with
          | Ok _ => echo fuel s (add_out k (Z.of_nat (length data)))
          | Err _ => Some (s, add_error k)
          end
      end
  end.

Definition handle_client (fuel : nat) (s : S) (k : Stats) : option (S * Stats) :=
  match echo fuel s (enter k) with Some (s, k) => Some (s, leave k) | None => None end.
End Connection.

(** The accept loop counts errors as well. *)
Fixpoint accept_loop {S} (results : list (Result S unit)) (k : Stats) : list S * Stats :=
  match results with
  | [] => ([], k)
  | Ok s :: rs => let '(ss, k) := accept_loop rs (add_accept k) in (s :: ss, k)
  | Err _ :: rs => accept_loop rs (add_error k)
  end.

Definition port (args : list string) : Z :=
  default 9998 (args !! 0%nat ≫= SchedulerConfig.parse_uint 16).
End TokioEcho.

(** ** The variant [naive] of [cmd/httpd/go] *)
Module GoHttpd.
Import Text.

Definition helloBody : list Z := bytes "Hello from Go!" ++ [10].
Definition naiveResponse : list Z :=
  Http.header "HTTP/1.1 200 OK" ++ Http.header "Content-Type: text/plain" ++
  bytes "Content-Length: " ++ decimal (Z.of_nat (length helloBody)) ++ CRLF ++
  Http.header "Connection: keep-alive" ++ Http.header "Server: go-httpd" ++ CRLF ++ helloBody.

(** One byte in the state [consecutive] of [readUntilHeaderEnd]: [None] at the
    end of a header. *)
Definition scan_byte (consecutive b : Z) : option Z :=
  if (consecutive =? 0) && (b =? 13) then Some 1
  else if (consecutive =? 1) && (b =? 10) then Some 2
  else if (consecutive =? 2) && (b =? 13) then Some 3
  else if (consecutive =? 3) && (b =? 10) then None
  else Some (if b =? 13 then 1 else 0).

(** Over the bytes the reader still delivers; [None] is the error at their end,
    and otherwise what follows the header. *)
Fixpoint scan (consecutive : Z) (l : list Z) : option (list Z) :=
  match l with
  | [] => None
  | b :: l => match scan_byte consecutive b with Some c => scan c l | None => Some l end
  end.
Definition readUntilHeaderEnd (l : list Z) : option (list Z) := scan 0 l.

(** The loop of [handleNaive] over the bytes of the connection: [writes] says
    which writes fail, those past its end succeed.  Requests and responses
    counted, and [None] if the fuel is short. *)
Fixpoint handleNaive (fuel : nat) (l : list Z) (writes : list bool) (requests responses : Z) : option (Z * Z) :=
  match fuel with
  | O => None
  | S fuel =>
      match readUntilHeaderEnd l with
      | None => Some (requests, responses)
      | Some l =>
          let requests := requests +[64] 1 in
          if default true (head writes) then handleNaive fuel l (tail writes) requests (responses +[64] 1)
          else Some (requests, responses)
      end
  end.
End GoHttpd.

(** ** [cmd/echo/go] *)
Module GoEcho.
Record counters := mkCounters { bytesIn : Z; bytesOut : Z; active : Z; errors : Z }.
Definition add_in (k : counters) (n : Z) : counters := mkCounters (bytesIn k +[64] n) (bytesOut k) (active k) (errors k).
Definition add_out (k : counters) (n : Z) : counters := mkCounters (bytesIn k) (bytesOut k +[64] n) (active k) (errors k).
Definition add_error (k : counters) : counters := mkCounters (bytesIn k) (bytesOut k) (active k) (errors k +[64] 1).
Definition add_active (k : counters) (d : Z) : counters := mkCounters (bytesIn k) (bytesOut k) (active k + d) (errors k).

Section Connection.
(** [read]: the bytes, [Ok []] for [io.EOF]; [write]: the number of bytes taken. *)
Context {S : Type} (read : S → Z → Result (list Z) unit * S) (write : S → list Z → Result Z unit * S).

(** The inner loop, on the bytes not yet written. *)
Fixpoint write_rest (fuel : nat) (s : S) (buf : list Z) : option (Result unit unit * S) :=
  match fuel with
  | O => None
  | Datatypes.S fuel =>
      match buf with
      | [] => Some (Ok (), s)
      | _ =>
          let '(w, s) := write s buf in
          match w with Ok w => write_rest fuel s (drop (Z.to_nat w) buf) | Err _ => Some (Err (), s) end
      end
  end.

Fixpoint echo (fuel : nat) (s : S) (k : counters) : option (S * counters) :=
  match fuel with
  | O => None
  | Datatypes.S fuel =>
      let '(r, s) := read s 4096 in
      match r with
      | Err _ => Some (s, add_error k)
      | Ok [] => Some (s, k)
      | Ok data =>
          let n := Z.of_nat (length data) in
          let k := add_in k n in
          match write_rest (Datatypes.S (length data)) s data with
          | None => None
          | Some (Err _, s) => Some (s, add_error k)
          | Some (Ok _, s) => echo fuel s (add_out k n)
          end
      end
  end.

Definition handleConn (fuel : nat) (s : S) (k : counters) : option (S * counters) :=
  match echo fuel s (add_active k 1) with Some (s, k) => Some (s, add_active k (-1)) | None => None end.
End Connection.
End GoEcho.

(** ** A stream from a script

    [incoming]: what the peer sends; [reads]: how many bytes each read may take,
    or that it fails; the stream ends with the script.  [outgoing]: what the
    peer has been sent. *)
Module Wire.
Record t := mk { incoming : list Z; reads : list (option nat); outgoing : list Z }.

Definition read (s : t) (room : Z) : Result (list Z) unit * t :=
  match reads s with
  | [] => (Ok [], s)
  | None :: rs => (Err (), mk (incoming s) rs (outgoing s))
  | Some n :: rs =>
      let k := Nat.min (S n) (Z.to_nat room) in
      (Ok (take k (incoming s)), mk (drop k (incoming s)) rs (outgoing s))
  end.

Definition write_all (s : t) (buf : list Z) : Result unit unit * t :=
  (Ok (), mk (incoming s) (reads s) (outgoing s ++ buf)).

(** The same under the interface of [GvtHttpd]: negative results are errors. *)
Definition raw_read (s : t) (len : Z) : Z * list Z * t :=
  match read s len with
  | (Ok d, s) => (Z.of_nat (length d), d, s)
  | (Err _, s) => (-104, [], s)
  end.
Definition raw_send (s : t) (buf : list Z) : Z * t := (Z.of_nat (length buf), (write_all s buf).2).
End Wire.

(** Go's [Write] that takes at most [m] bytes and at least one. *)
Definition short_write (m : nat) (s : Wire.t) (buf : list Z) : Result Z unit * Wire.t :=
  let k := Nat.min (S m) (length buf) in
  (Ok (Z.of_nat k), Wire.mk (Wire.incoming s) (Wire.reads s) (Wire.outgoing s ++ take k buf)).

(** ** The reference: requests by the terminators of the stream *)
Section Reference.
Import Text.

(** The size of the buffers, which [lia] is to see as a number in [Z] only. *)
Definition cap : nat := Z.to_nat 4096.
Lemma cap_Z : Z.of_nat cap = 4096.
Proof. done. Qed.

(** The requests a buffered server with a buffer of 4096 bytes answers: it
    forgets what followed the terminator in the same reads. *)
Fixpoint answered (got incoming : list Z) (reads : list (option nat)) : nat :=
  match reads with
  | [] | None :: _ => 0
  | Some n :: rs =>
      let k := Nat.min (S n) (cap - length got) in
      let d := take k incoming in
      if bool_decide (d = []) then 0%nat
      else if contains terminator (got ++ d) then S (answered [] (drop k incoming) rs)
      else if (cap <=? length (got ++ d))%nat then 0%nat
      else answered (got ++ d) (drop k incoming) rs
  end.

(** All the requests of a stream, one after the other. *)
Fixpoint requests_in (fuel : nat) (l : list Z) : nat :=
  match fuel with
  | O => 0
  | S fuel =>
      match position_of terminator l with
      | Some i => S (requests_in fuel (drop (Z.to_nat i + 4) l))
      | None => 0
      end
  end.
Definition requests_of (l : list Z) : nat := requests_in (S (length l)) l.
End Reference.
#[global] Opaque cap.

(** ** Buffered servers *)
Section Buffered.
Import Text KernelIo.
Lemma wrap_count_one a b c : wrap 64 a = wrap 64 (b +[64] 1 + c) → wrap 64 a = wrap 64 (b + (1 + c)).
Proof. unfold wrap. intros ->. rewrite Zplus_mod_idemp_l. f_equal. lia. Qed.

#[local] Opaque wrap TokioHttpd.make_hello_response GvtHttpd.make_hello_response.

Lemma splice_got buf got d :
  take (length got) buf = got → (length got + length d ≤ length buf)%nat →
  take (length (got ++ d)) (splice buf (Z.of_nat (length got)) d) = got ++ d ∧
  length (splice buf (Z.of_nat (length got)) d) = length buf.
Proof.
  intros Hg Hl. split; [|apply length_splice; lia].
  unfold splice. rewrite Nat2Z.id, Hg, (assoc_L (++)). by apply take_app_length'.
Qed.

Lemma contains_position p l : contains p l = bool_decide (is_Some (position_of p l)).
Proof. done. Qed.

(** What one read of the script delivers. *)
Lemma read_some s n rs (got : list Z) :
  Wire.reads s = Some n :: rs → (length got < cap)%nat →
  let k := Nat.min (S n) (cap - length got) in
  Wire.read s (4096 - Z.of_nat (length got)) =
    (Ok (take k (Wire.incoming s)), Wire.mk (drop k (Wire.incoming s)) rs (Wire.outgoing s)) ∧
  (length got + length (take k (Wire.incoming s)) ≤ cap)%nat.
Proof.
  intros Hr Hg. cbv zeta. unfold Wire.read. rewrite Hr, length_take.
  replace (Z.to_nat (4096 - Z.of_nat (length got))) with (cap - length got)%nat by (pose proof cap_Z; lia). split; [done|lia].
Qed.

Definition hellos (resp : list Z) (n : nat) : list Z := concat (replicate n resp).

Lemma hellos_S resp n : resp ++ hellos resp n = hellos resp (S n).
Proof. done. Qed.

(** One turn of the reference. *)
Lemma answered_some got incoming n rs :
  let k := Nat.min (S n) (cap - length got) in
  let d := take k incoming in
  answered got incoming (Some n :: rs) =
    if bool_decide (d = []) then 0%nat
    else if contains terminator (got ++ d) then S (answered [] (drop k incoming) rs)
    else if (cap <=? length (got ++ d))%nat then 0%nat
    else answered (got ++ d) (drop k incoming) rs.
Proof. done. Qed.

Lemma Nat2Z_leb a b : (Z.of_nat a <=? Z.of_nat b) = (a <=? b)%nat.
Proof. destruct (Z.leb_spec (Z.of_nat a) (Z.of_nat b)), (Nat.leb_spec a b); done || lia. Qed.

Lemma tokio_serve files reads : ∀ fuel got buf s k,
  Wire.reads s = reads → (length reads < fuel)%nat → take (length got) buf = got → length buf = cap →
  (length got < cap)%nat →
  ∃ s' k', TokioHttpd.serve Wire.read Wire.write_all files None fuel s buf (Z.of_nat (length got)) k = Some (Ret (s', k')) ∧
    let n := answered got (Wire.incoming s) reads in
    Wire.outgoing s' = Wire.outgoing s ++ hellos TokioHttpd.make_hello_response n ∧
    wrap 64 (TokioHttpd.requests k') = wrap 64 (TokioHttpd.requests k + Z.of_nat n) ∧
    wrap 64 (TokioHttpd.responses k') = wrap 64 (TokioHttpd.responses k + Z.of_nat n).
Proof.
  pose proof cap_Z as Hcap. induction reads as [|[n|] reads IH]; intros [|fuel] got buf s k Hr Hf Hg Hb Hlen; cbn [length] in Hf; try lia;
    cbn [TokioHttpd.serve]; rewrite Hb; rewrite cap_Z;
    (destruct (Z.ltb_spec 4096 (Z.of_nat (length got))); [lia|]).
  - unfold Wire.read. rewrite Hr. exists s, k. split; [done|]. cbn. by rewrite app_nil_r, !Z.add_0_r.
  - destruct (read_some s n reads got Hr Hlen) as [Hrd Hfit]. rewrite Hrd.
    pose proof (answered_some got (Wire.incoming s) n reads) as Ha. cbv zeta in Ha |- *. rewrite Ha. clear Ha.
    remember (take (Nat.min (S n) (cap - length got)) (Wire.incoming s)) as d eqn:Hd.
    destruct (bool_decide_reflect (d = [])) as [->|Hne].
    { eexists _, _. split; [done|]. cbn. by rewrite app_nil_r, !Z.add_0_r. }
    destruct (splice_got buf got d Hg) as [Hs Hsl]; [lia|].
    assert (Hpos : Z.of_nat (length got) +[64] Z.of_nat (length d) = Z.of_nat (length (got ++ d)))
      by (rewrite length_app, wrap_small by (unfold in_u; lia); lia).
    assert (Hl2 : (length (got ++ d) ≤ cap)%nat) by (rewrite length_app; lia).
    destruct d as [|b d]; [done|]. rewrite Hpos, Nat2Z.id, Hsl, Hs, Hb. clear Hpos.
    destruct (Z.ltb_spec (Z.of_nat cap) (Z.of_nat (length (got ++ b :: d)))); [lia|].
    rewrite contains_position. change terminator with (CRLF ++ CRLF).
    destruct (position_of (CRLF ++ CRLF) (got ++ b :: d)) as [p|] eqn:Hp.
    + rewrite bool_decide_eq_true_2 by done. cbn [Wire.write_all].
      match goal with |- context [TokioHttpd.serve _ _ _ _ fuel ?s1 ?b1 0 ?k1] =>
        destruct (IH fuel [] b1 s1 k1) as (s' & k' & Hrun & Ho & Hq & Hres); [done|lia|done|lia|cbn; lia|] end.
      exists s', k'. split; [exact Hrun|]. cbn [Wire.outgoing Wire.incoming] in Ho, Hq, Hres.
      cbn [TokioHttpd.requests TokioHttpd.responses TokioHttpd.add_response TokioHttpd.add_request TokioHttpd.add_in] in Hq, Hres.
      split_and!; [by rewrite Ho, <- (assoc_L (++))| |]; rewrite Nat2Z.inj_succ, <- Z.add_1_l; by apply wrap_count_one.
    + rewrite bool_decide_eq_false_2 by (by intros []). rewrite Nat2Z_leb. 
      destruct (Nat.leb_spec cap (length (got ++ b :: d))).
      { eexists _, _. split; [done|]. cbn. by rewrite app_nil_r, !Z.add_0_r. }
      match goal with |- context [TokioHttpd.serve _ _ _ _ fuel ?s1 ?b1 _ ?k1] =>
        destruct (IH fuel (got ++ b :: d) b1 s1 k1) as (s' & k' & Hrun & Hrest); [done|lia|done|lia|lia|] end.
      cbn [Wire.outgoing Wire.incoming TokioHttpd.requests TokioHttpd.responses TokioHttpd.add_in] in Hrest.
      exists s', k'. exact (conj Hrun Hrest).
  - unfold Wire.read. rewrite Hr. eexists _, _. split; [done|]. cbn. by rewrite app_nil_r, !Z.add_0_r.
Qed.

Lemma send_all_raw s buf wfuel :
  buf ≠ [] → (1 < wfuel)%nat → Z.of_nat (length buf) < 2 ^ 64 →
  syscall.send_all Wire.raw_send wfuel s buf 0 =
    Some (Ret (Z.of_nat (length buf)), Wire.mk (Wire.incoming s) (Wire.reads s) (Wire.outgoing s ++ buf)).
Proof.
  intros Hb Hw Hl. destruct wfuel as [|[|wfuel]]; [lia..|]. cbn [syscall.send_all Wire.raw_send].
  rewrite bool_decide_eq_false_2 by done. destruct (Z.ltb_spec (Z.of_nat (length buf)) 0); [lia|].
  destruct (Z.ltb_spec (Z.of_nat (length buf)) (Z.of_nat (length buf))); [lia|].
  rewrite drop_ge by lia. rewrite bool_decide_eq_true_2 by done. by rewrite wrap_small by (unfold in_u; lia).
Qed.

Lemma gvt_serve reads : ∀ fuel wfuel got buf s k,
  Wire.reads s = reads → (length reads < fuel)%nat → (1 < wfuel)%nat →
  take (length got) buf = got → length buf = cap → (length got < cap)%nat →
  ∃ s' k', GvtHttpd.serve Wire.raw_read Wire.raw_send (λ _, true) fuel wfuel s buf (Z.of_nat (length got)) k =
      Some (Ret (s', k')) ∧
    let n := answered got (Wire.incoming s) reads in
    Wire.outgoing s' = Wire.outgoing s ++ hellos GvtHttpd.make_hello_response n ∧
    wrap 64 (GvtHttpd.TOTAL_REQUESTS k') = wrap 64 (GvtHttpd.TOTAL_REQUESTS k + Z.of_nat n).
Proof.
  pose proof cap_Z as Hcap. induction reads as [|[n|] reads IH]; intros [|fuel] wfuel got buf s k Hr Hf Hw Hg Hb Hlen; cbn [length] in Hf; try lia;
    cbn [GvtHttpd.serve negb]; rewrite Hb; rewrite cap_Z;
    (destruct (Z.ltb_spec 4096 (Z.of_nat (length got))); [lia|]).
  - unfold Wire.raw_read, Wire.read. rewrite Hr. exists s, k. split; [done|]. cbn. by rewrite app_nil_r, Z.add_0_r.
  - unfold Wire.raw_read. destruct (read_some s n reads got Hr Hlen) as [Hrd Hfit]. rewrite Hrd.
    pose proof (answered_some got (Wire.incoming s) n reads) as Ha. cbv zeta in Ha |- *. rewrite Ha. clear Ha.
    remember (take (Nat.min (S n) (cap - length got)) (Wire.incoming s)) as d eqn:Hd.
    destruct (bool_decide_reflect (d = [])) as [->|Hne].
    { eexists _, _. split; [done|]. cbn. by rewrite app_nil_r, Z.add_0_r. }
    destruct (splice_got buf got d Hg) as [Hs Hsl]; [lia|].
    assert (Hpos : Z.of_nat (length got) +[64] Z.of_nat (length d) = Z.of_nat (length (got ++ d)))
      by (rewrite length_app, wrap_small by (unfold in_u; lia); lia).
    assert (Hl2 : (length (got ++ d) ≤ cap)%nat) by (rewrite length_app; lia).
    assert (Hd0 : (0 < length d)%nat) by (destruct d; [done|cbn; lia]).
    destruct (Z.leb_spec (Z.of_nat (length d)) 0); [lia|].
    rewrite Hpos, has_complete_eq, Nat2Z.id, Hs by lia. clear Hpos.
    destruct (contains terminator (got ++ d)).
    + rewrite send_all_raw by (done || by vm_compute).
      destruct (Z.ltb_spec (Z.of_nat (length GvtHttpd.make_hello_response)) 0); [lia|].
      match goal with |- context [GvtHttpd.serve _ _ _ fuel wfuel ?s1 ?b1 0 ?k1] =>
        destruct (IH fuel wfuel [] b1 s1 k1) as (s' & k' & Hrun & Ho & Hq); [done|lia|lia|done|lia|cbn; lia|] end.
      exists s', k'. split; [exact Hrun|]. cbn [Wire.outgoing Wire.incoming GvtHttpd.TOTAL_REQUESTS GvtHttpd.count_request] in Ho, Hq.
      split; [by rewrite Ho, <- (assoc_L (++))|]. rewrite Nat2Z.inj_succ, <- Z.add_1_l. by apply wrap_count_one.
    + change GvtHttpd.RECV_BUF_SIZE with 4096. rewrite <- cap_Z. rewrite Nat2Z_leb.
      destruct (Nat.leb_spec cap (length (got ++ d))).
      { eexists _, _. split; [done|]. cbn. by rewrite app_nil_r, Z.add_0_r. }
      match goal with |- context [GvtHttpd.serve _ _ _ fuel wfuel ?s1 ?b1 _ ?k1] =>
        destruct (IH fuel wfuel (got ++ d) b1 s1 k1) as (s' & k' & Hrun & Hrest); [done|lia|lia|done|lia|lia|] end.
      cbn [Wire.outgoing Wire.incoming] in Hrest. exists s', k'. exact (conj Hrun Hrest).
  - unfold Wire.raw_read, Wire.read. rewrite Hr. eexists _, _. split; [done|]. cbn. by rewrite app_nil_r, Z.add_0_r.
Qed.
End Buffered.

(** ** The scanner of the Go server *)
Section Scanner.
Import Text GoHttpd.

(** What follows the first terminator. *)
Definition after_header (l : list Z) : option (list Z) :=
  (λ i, drop (Z.to_nat i + 4) l) <$> position_of terminator l.

Lemma after_skip b l : starts_with terminator (b :: l) = false → after_header (b :: l) = after_header l.
Proof.
  intros Hs. unfold after_header. cbn [position_of]. rewrite Hs.
  destruct (position_of terminator l) as [i|] eqn:Hp; [|done]. cbn.
  destruct (position_of_Some terminator l i) as (pre & post & _ & -> & _); [discriminate|done|].
  by replace (Z.to_nat (Z.of_nat (length pre) + 1)) with (S (Z.to_nat (Z.of_nat (length pre)))) by lia.
Qed.

Lemma starts_terminator a b c d l :
  starts_with terminator (a :: b :: c :: d :: l) = (13 =? a) && ((10 =? b) && ((13 =? c) && ((10 =? d) && true))).
Proof. done. Qed.

Lemma starts_not_cr b l : b ≠ 13 → starts_with terminator (b :: l) = false.
Proof.
  intros Hb. change terminator with [13; 10; 13; 10]. cbn [starts_with]. by rewrite (proj2 (Z.eqb_neq 13 b)).
Qed.

(** What has been read of a terminator in the state [c]. *)
Definition progress (c : Z) : list Z :=
  if c =? 0 then [] else if c =? 1 then [13] else if c =? 2 then [13; 10] else [13; 10; 13].

Lemma skip_cr b l : b ≠ 10 → starts_with terminator (13 :: b :: l) = false.
Proof.
  intros Hb. change terminator with [13; 10; 13; 10]. cbn [starts_with]. by rewrite (proj2 (Z.eqb_neq 10 b)).
Qed.
Lemma skip_crlf b l : b ≠ 13 → starts_with terminator (13 :: 10 :: b :: l) = false.
Proof.
  intros Hb. change terminator with [13; 10; 13; 10]. cbn [starts_with]. by rewrite (proj2 (Z.eqb_neq 13 b)).
Qed.
Lemma skip_crlfcr b l : b ≠ 10 → starts_with terminator (13 :: 10 :: 13 :: b :: l) = false.
Proof.
  intros Hb. change terminator with [13; 10; 13; 10]. cbn [starts_with]. by rewrite (proj2 (Z.eqb_neq 10 b)).
Qed.

Ltac skip_bytes :=
  repeat match goal with |- _ = after_header (?b :: ?l) =>
    rewrite (after_skip b l) by first [by apply starts_not_cr|by apply skip_cr|by apply skip_crlf|by apply skip_crlfcr] end.

Lemma scan_after l c : 0 ≤ c < 4 → scan c l = after_header (progress c ++ l).
Proof.
  revert c. induction l as [|b l IH]; intros c Hc.
  { assert (c = 0 ∨ c = 1 ∨ c = 2 ∨ c = 3) as [->|[->|[->| ->]]] by lia; done. }
  assert (Hcase : b = 13 ∨ b = 10 ∨ (b ≠ 13 ∧ b ≠ 10)) by lia.
  cbn [scan]. unfold scan_byte.
  assert (c = 0 ∨ c = 1 ∨ c = 2 ∨ c = 3) as [->|[->|[->| ->]]] by lia;
    destruct Hcase as [->|[->|[H1 H2]]]; cbn [Z.eqb Pos.eqb andb];
    rewrite ?(proj2 (Z.eqb_neq b 13)), ?(proj2 (Z.eqb_neq b 10)) by done; cbn [andb];
    rewrite ?IH by lia; cbn [progress Z.eqb Pos.eqb app]; try done; skip_bytes; done.
Qed.

(** The scanner stops exactly after the first end of a header. *)
Lemma header_scan_spec l : readUntilHeaderEnd l = after_header l.
Proof. apply (scan_after l 0). lia. Qed.
End Scanner.

(** ** Counting requests *)
Section Counting.
Import Text GoHttpd.

Lemma after_shorter l r : after_header l = Some r → (length r + 4 ≤ length l)%nat.
Proof.
  unfold after_header. destruct (position_of terminator l) as [i|] eqn:Hp; [|done]. intros [= <-].
  destruct (position_of_Some terminator l i) as (pre & post & -> & -> & _); [discriminate|done|].
  rewrite length_drop, !length_app, Nat2Z.id. change (length terminator) with 4%nat. lia.
Qed.

Lemma requests_in_enough fuel l : (length l < fuel)%nat → requests_in fuel l = requests_of l.
Proof.
  revert l. assert (H : ∀ n fuel fuel' l, (length l ≤ n)%nat → (length l < fuel)%nat → (length l < fuel')%nat →
    requests_in fuel l = requests_in fuel' l).
  { induction n as [|n IH]; intros [|f] [|f'] l Hn Hf Hf'; try lia; cbn [requests_in].
    - by destruct l; [|cbn in Hn; lia].
    - destruct (position_of terminator l) as [i|] eqn:Hp; [|done]. f_equal.
      assert (Hs := after_shorter l (drop (Z.to_nat i + 4) l)). unfold after_header in Hs. rewrite Hp in Hs.
      specialize (Hs eq_refl). apply IH; lia. }
  intros l Hl. apply (H (length l)); lia.
Qed.

Lemma requests_of_unfold l :
  requests_of l = match after_header l with Some r => S (requests_of r) | None => 0%nat end.
Proof.
  unfold requests_of at 1. cbn [requests_in]. unfold after_header.
  destruct (position_of terminator l) as [i|] eqn:Hp; [|done]. cbn. f_equal. apply requests_in_enough.
  assert (Hs := after_shorter l (drop (Z.to_nat i + 4) l)). unfold after_header in Hs. rewrite Hp in Hs.
  specialize (Hs eq_refl). lia.
Qed.

(** Dropping bytes from the front cannot add a request. *)
Lemma requests_of_cons n : ∀ b l, (length l ≤ n)%nat → (requests_of l ≤ requests_of (b :: l))%nat.
Proof.
  induction n as [n IH] using lt_wf_ind. intros b l Hn.
  destruct (starts_with terminator (b :: l)) eqn:Hs; [|by rewrite (requests_of_unfold (b :: l)), after_skip, <- requests_of_unfold].
  apply starts_with_spec in Hs as [r Hr]. injection Hr as -> ->.
  assert (Hb : requests_of (13 :: 10 :: 13 :: 10 :: r) = S (requests_of r)) by (rewrite requests_of_unfold; done).
  change (terminator ++ r) with (13 :: 10 :: 13 :: 10 :: r) in *. rewrite Hb.
  assert (Hsuf : ∀ k l', (length l' < n)%nat → (requests_of (drop k l') ≤ requests_of l')%nat).
  { induction k as [|k IHk]; intros [|x l'] Hl'; [done..|]. cbn [drop length] in *.
    etrans; [apply IHk; lia|]. by apply (IH (length l')); [lia|]. }
  rewrite requests_of_unfold. destruct (after_header _) as [r'|] eqn:Ha; [|lia].
  assert (∃ k, r' = drop k r) as [k ->].
  { unfold after_header in Ha. destruct (position_of terminator (10 :: 13 :: 10 :: r)) as [i|] eqn:Hp; [|done].
    injection Ha as <-. exists (Z.to_nat i + 1)%nat. by replace (Z.to_nat i + 4)%nat with (S (S (S (Z.to_nat i + 1)))) by lia. }
  apply le_n_S, Hsuf. cbn in Hn. lia.
Qed.

Lemma requests_of_suffix k l : (requests_of (drop k l) ≤ requests_of l)%nat.
Proof.
  revert l. induction k as [|k IH]; intros [|b l]; [done..|]. cbn [drop]. etrans; [apply IH|].
  by apply (requests_of_cons (length l)).
Qed.

(** A piece that contains a terminator counts for one request at least. *)
Lemma requests_of_app a b : contains terminator a = true → (S (requests_of b) ≤ requests_of (a ++ b))%nat.
Proof.
  intros (pre & post & ->)%contains_spec; [|discriminate]. rewrite (requests_of_unfold ((_ ++ _) ++ _)).
  unfold after_header. destruct (position_of terminator ((pre ++ terminator ++ post) ++ b)) as [i|] eqn:Hp.
  - cbn [fmap option_fmap option_map]. apply le_n_S.
    destruct (position_of_Some terminator ((pre ++ terminator ++ post) ++ b) i) as (pre' & post' & _ & -> & Hmin); [discriminate|done|].
    rewrite Nat2Z.id. assert (length pre' ≤ length pre)%nat by (apply (Hmin pre (post ++ b)); by rewrite <- !(assoc_L (++))).
    rewrite drop_app_le by (rewrite !length_app; change (length terminator) with 4%nat; lia).
    rewrite <- (drop_app_length (drop (length pre' + 4) (pre ++ terminator ++ post)) b) at 1. apply requests_of_suffix.
  - exfalso. apply (position_of_None terminator _ ltac:(discriminate) Hp pre (post ++ b)). by rewrite <- !(assoc_L (++)).
Qed.

Lemma answered_le reads got incoming : (answered got incoming reads ≤ requests_of (got ++ incoming))%nat.
Proof.
  revert got incoming. induction reads as [|[n|] reads IH]; intros got incoming; cbn [answered]; [lia| |lia].
  set (k := Nat.min (S n) (cap - length got)). case_bool_decide; [lia|].
  assert (Hsplit : got ++ incoming = (got ++ take k incoming) ++ drop k incoming) by (by rewrite <- (assoc_L (++)), take_drop).
  rewrite Hsplit. destruct (contains terminator (got ++ take k incoming)) eqn:Hc.
  - etrans; [apply le_n_S, (IH [])|]. by apply requests_of_app.
  - destruct (_ <=? _)%nat; [lia|]. apply IH.
Qed.

Lemma wrap_succ x : wrap 64 x +[64] 1 = wrap 64 (x + 1).
Proof. unfold wrap. by rewrite Zplus_mod_idemp_l. Qed.

Lemma naive_counts fuel l req resp :
  (length l < fuel)%nat →
  handleNaive fuel l [] (wrap 64 req) (wrap 64 resp) =
    Some (wrap 64 (req + Z.of_nat (requests_of l)), wrap 64 (resp + Z.of_nat (requests_of l))).
Proof.
  revert l req resp. induction fuel as [|fuel IH]; intros l req resp Hf; [lia|]. cbn [handleNaive].
  rewrite header_scan_spec, (requests_of_unfold l). destruct (after_header l) as [r|] eqn:Ha; [|by rewrite !Z.add_0_r].
  apply after_shorter in Ha. cbn [head default tail]. rewrite !wrap_succ, IH by lia. do 3 f_equal; lia.
Qed.
End Counting.

(** ** Echo servers *)
Section EchoServers.

(** The bytes that are read before the stream ends or fails. *)
Fixpoint consumed (incoming : list Z) (reads : list (option nat)) : list Z :=
  match reads with
  | [] | None :: _ => []
  | Some n :: rs =>
      let k := Nat.min (S n) cap in
      if bool_decide (take k incoming = []) then [] else take k incoming ++ consumed (drop k incoming) rs
  end.

Lemma consumed_prefix reads incoming : consumed incoming reads `prefix_of` incoming.
Proof.
  revert incoming. induction reads as [|[n|] reads IH]; intros incoming; cbn [consumed]; try apply prefix_nil.
  case_bool_decide; [apply prefix_nil|]. rewrite <- (take_drop (Nat.min (S n) cap) incoming) at 3.
  apply prefix_app, IH.
Qed.

(** As many successful reads as there are bytes are enough for all of them. *)
Lemma consumed_all reads incoming :
  Forall is_Some reads → (length incoming ≤ length reads)%nat → consumed incoming reads = incoming.
Proof.
  pose proof cap_Z as Hcap. intros Hall. revert incoming.
  induction Hall as [|o reads [n ->] Hall IH]; intros incoming Hl; cbn [consumed length] in *; [by destruct incoming; [|cbn in Hl; lia]|].
  destruct incoming as [|b incoming]; [by rewrite take_nil|].
  destruct (Nat.min (S n) cap) as [|k] eqn:Hk; [lia|]. cbn [take drop]. rewrite bool_decide_eq_false_2 by done.
  cbn. f_equal. rewrite IH by (rewrite length_drop; cbn in Hl; lia). apply take_drop.
Qed.

Lemma read_echo s n rs :
  Wire.reads s = Some n :: rs →
  let k := Nat.min (S n) cap in
  Wire.read s 4096 = (Ok (take k (Wire.incoming s)), Wire.mk (drop k (Wire.incoming s)) rs (Wire.outgoing s)).
Proof. intros Hr. unfold Wire.read. by rewrite Hr, <- cap_Z, Nat2Z.id. Qed.

Lemma tokio_echo reads : ∀ fuel s k,
  Wire.reads s = reads → (length reads < fuel)%nat →
  ∃ s' k', TokioEcho.echo Wire.read Wire.write_all fuel s k = Some (s', k') ∧
    let c := consumed (Wire.incoming s) reads in
    Wire.outgoing s' = Wire.outgoing s ++ c ∧ TokioEcho.active k' = TokioEcho.active k ∧
    wrap 64 (TokioEcho.bytes_in k') = wrap 64 (TokioEcho.bytes_in k + Z.of_nat (length c)) ∧
    wrap 64 (TokioEcho.bytes_out k') = wrap 64 (TokioEcho.bytes_out k + Z.of_nat (length c)).
Proof.
  induction reads as [|[n|] reads IH]; intros [|fuel] s k Hr Hf; cbn [length] in Hf; try lia; cbn [TokioEcho.echo].
  - unfold Wire.read. rewrite Hr. exists s, k. cbn. by rewrite app_nil_r, !Z.add_0_r.
  - rewrite (read_echo s n reads Hr). cbn [consumed]. set (k0 := Nat.min (S n) cap). cbv zeta.
    destruct (take k0 (Wire.incoming s)) as [|b d] eqn:Hd.
    { eexists _, _. split; [done|]. cbn. by rewrite app_nil_r, !Z.add_0_r. }
    rewrite bool_decide_eq_false_2 by done. cbn [Wire.write_all].
    match goal with |- context [TokioEcho.echo _ _ fuel ?s1 ?k1] =>
      destruct (IH fuel s1 k1) as (s' & k' & Hrun & Ho & Ha & Hi & Hout); [done|lia|] end.
    exists s', k'. split; [exact Hrun|].
    cbn [Wire.outgoing Wire.incoming TokioEcho.active TokioEcho.bytes_in TokioEcho.bytes_out TokioEcho.add_in TokioEcho.add_out]
      in Ho, Ha, Hi, Hout.
    split_and!; [by rewrite Ho, <- (assoc_L (++))|done| |]; rewrite length_app, Nat2Z.inj_add;
      [rewrite Hi|rewrite Hout]; unfold wrap; rewrite Zplus_mod_idemp_l; f_equal; lia.
  - unfold Wire.read. rewrite Hr. eexists _, _. split; [done|]. cbn. by rewrite app_nil_r, !Z.add_0_r.
Qed.

Lemma go_write_rest m buf : ∀ fuel s,
  (length buf < fuel)%nat →
  GoEcho.write_rest (short_write m) fuel s buf =
    Some (Ok (), Wire.mk (Wire.incoming s) (Wire.reads s) (Wire.outgoing s ++ buf)).
Proof.
  intros fuel. revert buf. induction fuel as [|fuel IH]; intros buf s Hf; [lia|]. cbn [GoEcho.write_rest].
  destruct buf as [|b buf]; [rewrite app_nil_r; by destruct s|]. unfold short_write at 1.
  rewrite Nat2Z.id, IH by (rewrite length_drop; cbn [length] in *; lia). cbn [Wire.incoming Wire.reads Wire.outgoing].
  by rewrite <- (assoc_L (++)), take_drop.
Qed.

Lemma go_echo m reads : ∀ fuel s k,
  Wire.reads s = reads → (length reads < fuel)%nat →
  ∃ s' k', GoEcho.echo Wire.read (short_write m) fuel s k = Some (s', k') ∧
    let c := consumed (Wire.incoming s) reads in
    Wire.outgoing s' = Wire.outgoing s ++ c ∧ GoEcho.active k' = GoEcho.active k ∧
    wrap 64 (GoEcho.bytesIn k') = wrap 64 (GoEcho.bytesIn k + Z.of_nat (length c)) ∧
    wrap 64 (GoEcho.bytesOut k') = wrap 64 (GoEcho.bytesOut k + Z.of_nat (length c)).
Proof.
  induction reads as [|[n|] reads IH]; intros [|fuel] s k Hr Hf; cbn [length] in Hf; try lia; cbn [GoEcho.echo].
  - unfold Wire.read. rewrite Hr. exists s, k. cbn. by rewrite app_nil_r, !Z.add_0_r.
  - rewrite (read_echo s n reads Hr). cbn [consumed]. set (k0 := Nat.min (S n) cap). cbv zeta.
    destruct (take k0 (Wire.incoming s)) as [|b d] eqn:Hd.
    { eexists _, _. split; [done|]. cbn. by rewrite app_nil_r, !Z.add_0_r. }
    rewrite bool_decide_eq_false_2, go_write_rest by (done || lia).
    match goal with |- context [GoEcho.echo _ _ fuel ?s1 ?k1] =>
      destruct (IH fuel s1 k1) as (s' & k' & Hrun & Ho & Ha & Hi & Hout); [done|lia|] end.
    exists s', k'. split; [exact Hrun|].
    cbn [Wire.outgoing Wire.incoming GoEcho.active GoEcho.bytesIn GoEcho.bytesOut GoEcho.add_in GoEcho.add_out] in Ho, Ha, Hi, Hout.
    split_and!; [by rewrite Ho, <- (assoc_L (++))|done| |]; rewrite length_app, Nat2Z.inj_add;
      [rewrite Hi|rewrite Hout]; unfold wrap; rewrite Zplus_mod_idemp_l; f_equal; lia.
  - unfold Wire.read. rewrite Hr. eexists _, _. split; [done|]. cbn. by rewrite app_nil_r, !Z.add_0_r.
Qed.
End EchoServers.

(** ** Theorems *)


(** The byte-by-byte scanner of the Go server stops exactly after the first
    terminator of the stream, and its handler answers every request the stream
    has, however it is cut into pieces. *)
Theorem go_answers_every_request l fuel :
  (length l < fuel)%nat →
  GoHttpd.readUntilHeaderEnd l = after_header l ∧
  GoHttpd.handleNaive fuel l [] 0 0 = Some (wrap 64 (Z.of_nat (requests_of l)), wrap 64 (Z.of_nat (requests_of l))).
Proof. intros Hf. split; [apply header_scan_spec|]. exact (naive_counts fuel l 0 0 Hf). Qed.

(** Two requests that arrive together: the Go server answers both, the other
    two one. *)
Theorem pipelining_tells_servers_apart :
  let req := bytes "GET / HTTP/1.1" ++ Text.CRLF ++ Text.CRLF in
  answered [] (req ++ req) [Some 4096%nat] = 1%nat ∧ requests_of (req ++ req) = 2%nat ∧
  answered [] (req ++ req) [Some 17%nat; Some 17%nat] = 2%nat.
Proof. by vm_compute. Qed.

(** The echo servers of tokio and Go return, have sent back exactly the bytes
    they read, in order, whatever the sizes of reads and (in Go) of writes, and
    that is everything the peer sent if no read fails. *)
Theorem echo_servers_agree m incoming reads fuel k kg :
  (length reads < fuel)%nat →
  ∃ out st kt sg kg',
    TokioEcho.handle_client Wire.read Wire.write_all fuel (Wire.mk incoming reads []) k = Some (st, kt) ∧
    GoEcho.handleConn Wire.read (short_write m) fuel (Wire.mk incoming reads []) kg = Some (sg, kg') ∧
    Wire.outgoing st = out ∧ Wire.outgoing sg = out ∧ out `prefix_of` incoming ∧
    (Forall is_Some reads → (length incoming ≤ length reads)%nat → out = incoming) ∧
    wrap 64 (TokioEcho.bytes_out kt) = wrap 64 (TokioEcho.bytes_out k + Z.of_nat (length out)) ∧
    wrap 64 (GoEcho.bytesOut kg') = wrap 64 (GoEcho.bytesOut kg + Z.of_nat (length out)) ∧
    wrap 64 (TokioEcho.active kt) = wrap 64 (TokioEcho.active k) ∧ GoEcho.active kg' = GoEcho.active kg.
Proof.
  intros Hf. set (w := Wire.mk incoming reads []).
  destruct (tokio_echo reads fuel w (TokioEcho.enter k)) as (st & kt & Ht & Hto & Hta & _ & Htb); [done|done|].
  destruct (go_echo m reads fuel w (GoEcho.add_active kg 1)) as (sg & kg' & Hg & Hgo & Hga & _ & Hgb); [done|done|].
  exists (consumed incoming reads), st, (TokioEcho.leave kt), sg, (GoEcho.add_active kg' (-1)).
  unfold TokioEcho.handle_client, GoEcho.handleConn. rewrite Ht, Hg.
  split_and!; [done|done|done|done|apply consumed_prefix|apply consumed_all|exact Htb|exact Hgb| |].
  - cbn [TokioEcho.active TokioEcho.leave]. rewrite Hta. cbn [TokioEcho.active TokioEcho.enter]. unfold wrap.
    rewrite Zmod_mod, Zminus_mod_idemp_l. f_equal. lia.
  - cbn [GoEcho.active GoEcho.add_active]. rewrite Hga. cbn [GoEcho.active GoEcho.add_active]. lia.
Qed.


Lemma go_answers_every_request_witness :
  GoHttpd.handleNaive 40 (concat (replicate 2 (bytes "GET / HTTP/1.1" ++ Text.CRLF ++ Text.CRLF))) [] 0 0 = Some (2, 2).
Proof.
  destruct (go_answers_every_request (concat (replicate 2 (bytes "GET / HTTP/1.1" ++ Text.CRLF ++ Text.CRLF))) 40) as [_ H];
    [apply (bool_decide_unpack _); vm_compute; exact I|]. rewrite H. vm_compute. reflexivity.
Defined.

Lemma echo_servers_agree_witness :
  ∃ st kt, TokioEcho.handle_client Wire.read Wire.write_all 4 (Wire.mk (bytes "abc") [Some 0%nat; Some 5%nat; Some 1%nat] [])
      TokioEcho.stats_new = Some (st, kt) ∧ Wire.outgoing st = bytes "abc".
Proof.
  destruct (echo_servers_agree 0 (bytes "abc") [Some 0%nat; Some 5%nat; Some 1%nat] 4 TokioEcho.stats_new
    (GoEcho.mkCounters 0 0 0 0)) as (out & st & kt & sg & kg & Ht & _ & Ho & _ & _ & Hall & _); [cbn; lia|].
  exists st, kt. split; [exact Ht|]. rewrite Ho. apply Hall; [|cbn; lia]. repeat constructor; by eexists.
Defined.
