(* ===== verification/Programs.v ===== *)
(** * The programs that use the runtime

    [cmd/gvt]: the playground, the stress test and the basic example spawn many
    GVThreads that count in shared atomics while the main closure waits for
    them; [Workload] is that pattern, with every interleaving of the GVThreads
    and the main closure as a run of a step relation.  The channel example and
    the channel benchmark are clients of [Channel]. *)
From stdpp Require Import base list strings gmap.
From S2P Require Import Prelude CoreTypes Config Channel.
Local Open Scope Z_scope.
Local Open Scope rust_scope.

(** ** GVThreads that count *)
Module Workload.

(** The atomics the GVThreads of a program increment. *)
Inductive counter := Started | Yields | Completed.
#[export] Instance counter_eq_dec : EqDecision counter.
Proof. solve_decision. Defined.

(** A [fetch_add], or a point where the GVThread gives its worker away. *)
Inductive op := Inc (c : counter) | Switch.

Record counters := Counters { started : Z; yields : Z; completed : Z }.
Definition get (k : counters) (c : counter) : Z :=
  match c with Started => started k | Yields => yields k | Completed => completed k end.
Definition bump (k : counters) (c : counter) : counters :=
  match c with
  | Started => Counters (started k +[64] 1) (yields k) (completed k)
  | Yields => Counters (started k) (yields k +[64] 1) (completed k)
  | Completed => Counters (started k) (yields k) (completed k +[64] 1)
  end.
Definition exec (k : counters) (o : op) : counters := match o with Inc c => bump k c | Switch => k end.

(** A program: the bodies it spawns, whether it counts the calls of [spawn],
    whether its wait gives up after some time, and the atomics it reads at the
    end ([None] is the count of the calls of [spawn]). *)
Record program := Program {
  bodies : list (list op);
  counted : bool;
  timed : bool;
  reads : list (option counter)
}.

(** Where the main closure is: in the loop that spawns, between [spawn] and the
    count of it, in the loop that waits, or reading the atomics; [got] are the
    values read. *)
Inductive main_pc :=
| Spawn (i : nat)
| Count (i : nat)
| Wait
| Reading (timeout : bool) (todo : list (option counter)) (got : list Z).

(** [handed]: the GVThreads given to the runtime; [tasks]: what is left of each
    body. *)
Record state := State { cnt : counters; spawned : Z; handed : nat; main : main_pc; tasks : list (list op) }.
Definition set_main (s : state) (m : main_pc) : state := State (cnt s) (spawned s) (handed s) m (tasks s).
Definition load (s : state) (x : option counter) : Z :=
  match x with Some c => get (cnt s) c | None => spawned s end.

Section Workload.
Context (p : program).
Abbreviation n := (length (bodies p)).
Abbreviation total := (Z.of_nat n).

Inductive step : state → state → Prop :=
| do_spawn s i :
    main s = Spawn i → (i < n)%nat →
    step s (State (cnt s) (spawned s) (S (handed s)) (if counted p then Count i else Spawn (S i)) (tasks s))
| do_count s i :
    main s = Count i → step s (State (cnt s) (spawned s +[64] 1) (handed s) (Spawn (S i)) (tasks s))
| end_spawn s : main s = Spawn n → step s (set_main s Wait)
| poll s : main s = Wait → completed (cnt s) < total → step s s
| leave s : main s = Wait → total ≤ completed (cnt s) → step s (set_main s (Reading false (reads p) []))
| time_out s :
    main s = Wait → completed (cnt s) < total → timed p = true → step s (set_main s (Reading true (reads p) []))
| read s t x todo got :
    main s = Reading t (x :: todo) got → step s (set_main s (Reading t todo (got ++ [load s x])))
| run s l1 o r l2 :
    tasks s = l1 ++ (o :: r) :: l2 → (length l1 < handed s)%nat →
    step s (State (exec (cnt s) o) (spawned s) (handed s) (main s) (l1 ++ r :: l2)).

Definition init : state := State (Counters 0 0 0) 0 0 (Spawn 0) (bodies p).
End Workload.

(** How often a body counts in [c]. *)
Definition incs (c : counter) (b : list op) : Z := sum_over (λ o, match o with Inc c' => if decide (c = c') then 1 else 0 | Switch => 0 end) b.
Definition total_incs (c : counter) (bs : list (list op)) : Z := sum_over (incs c) bs.
End Workload.

(** ** The programs *)
Module Programs.
Import Workload.

(** [playground]: the body of each GVThread, and the verdict. *)
Definition playground_body (yields_per_gvthread : nat) : list op :=
  Inc Started :: concat (replicate yields_per_gvthread [Inc Yields; Switch]) ++ [Inc Completed].
Definition playground (total_gvthreads yields_per_gvthread : nat) : program :=
  Program (replicate total_gvthreads (playground_body yields_per_gvthread)) true false
    [None; Some Started; Some Completed; Some Yields].

Inductive verdict := SUCCESS | FAILURE (never_started not_completed : option Z).
Definition playground_verdict (total_gvthreads yields_per_gvthread sp st c y : Z) : verdict :=
  let expected_yields := total_gvthreads *[64] yields_per_gvthread in
  if (c =? total_gvthreads) && (y =? expected_yields) then SUCCESS
  else FAILURE (if st <? sp then Some (sp - st) else None) (if c <? st then Some (st - c) else None).

(** [stress]: ten yields each, and thirty seconds. *)
Definition stress (num_gvthreads : nat) : program :=
  Program (replicate num_gvthreads (replicate 10 Switch ++ [Inc Completed])) false true [Some Completed].

(** [basic]: [num_gvthreads] of normal priority and one of high priority. *)
Definition basic (num_gvthreads num_yields : nat) : program :=
  Program (replicate num_gvthreads (replicate num_yields Switch ++ [Inc Completed]) ++ [[Switch; Inc Completed]])
    false true [Some Completed].
End Programs.

(** ** The clients of a channel *)
Module ChannelPrograms.
Import ChannelInner.

(** [bench_channel]: the results of [iterations] rounds from [i] on. *)
Fixpoint bench_loop (iterations : nat) (i : Z) (c : t Z) :
    list (Result () (SchedError.TrySendError Z) * Result Z SchedError.TryRecvError) * t Z :=
  match iterations with
  | O => ([], c)
  | S k =>
      let '(s, c) := try_send c i in
      let '(r, c) := try_recv c in
      let '(rest, c) := bench_loop k (i + 1) c in
      ((s, r) :: rest, c)
  end.
Definition bench_channel (iterations : nat) := bench_loop iterations 0 (channel 1024).

(** The channel example from the point where both GVThreads are spawned: the
    channel, what the producer has left to send ([None] after the drop of its
    handle), whether the consumer holds the receiver and the main closure its
    sender, and what was sent, refused and received. *)
Record example := Example_ {
  chan : t Z;
  to_send : option (list Z);
  consuming : bool;
  main_tx : bool;
  sent : list Z;
  refused : list Z;
  received : list Z
}.

Inductive example_step : example → example → Prop :=
| produce e i r c :
    to_send e = Some (i :: r) → try_send (chan e) i = (Ok (), c) →
    example_step e (Example_ c (Some r) (consuming e) (main_tx e) (sent e ++ [i]) (refused e) (received e))
| refuse e i r err c :
    to_send e = Some (i :: r) → try_send (chan e) i = (Err err, c) →
    example_step e (Example_ c (Some r) (consuming e) (main_tx e) (sent e) (refused e ++ [i]) (received e))
| producer_end e :
    to_send e = Some [] →
    example_step e (Example_ (drop_sender (chan e)) None (consuming e) (main_tx e) (sent e) (refused e) (received e))
| consume e val c :
    consuming e = true → try_recv (chan e) = (Ok val, c) →
    example_step e (Example_ c (to_send e) true (main_tx e) (sent e) (refused e) (received e ++ [val]))
| consumer_end e err c :
    consuming e = true → try_recv (chan e) = (Err err, c) →
    example_step e (Example_ (drop_receiver c) (to_send e) false (main_tx e) (sent e) (refused e) (received e))
| main_end e :
    main_tx e = true →
    example_step e (Example_ (drop_sender (chan e)) (to_send e) (consuming e) false (sent e) (refused e) (received e)).

Definition example_init : example :=
  Example_ (clone_sender (channel 10)) (Some [1; 2; 3; 4; 5]) true true [] [] [].
End ChannelPrograms.

(** ** What a program reports *)
Module WorkloadFacts.
Import Workload.

(** Each body counts its completion once, at its end. *)
Definition completes (b : list op) : Prop := ∃ pre, b = pre ++ [Inc Completed] ∧ incs Completed pre = 0.
Definition well_formed (p : program) : Prop := Forall completes (bodies p) ∧ in_u 64 (Z.of_nat (length (bodies p))).

(** The value of an atomic when all bodies have run. *)
Definition final (p : program) (x : option counter) : Z :=
  match x with
  | Some c => wrap 64 (total_incs c (bodies p))
  | None => if counted p then Z.of_nat (length (bodies p)) else 0
  end.

(** What the steps of the GVThreads can still do. *)
Definition remaining (s : state) : nat := sum_list_with length (tasks s).
Definition main_rank (p : program) (m : main_pc) : nat :=
  match m with
  | Spawn i => 2 * (length (bodies p) - i) + 2 + length (reads p)
  | Count i => 2 * (length (bodies p) - i) + 1 + length (reads p)
  | Wait => 1 + length (reads p)
  | Reading _ todo _ => length todo
  end.
Definition measure (p : program) (s : state) : nat := remaining s + main_rank p (main s).

Lemma incs_app c b1 b2 : incs c (b1 ++ b2) = incs c b1 + incs c b2.
Proof. apply sum_over_app. Qed.
Lemma total_incs_cons c b bs : total_incs c (b :: bs) = incs c b + total_incs c bs.
Proof. done. Qed.
Lemma incs_nonneg c b : 0 ≤ incs c b.
Proof. apply sum_over_nonneg. intros [c'|] _; [case_decide|]; lia. Qed.

Lemma get_exec k o c : get (exec k o) c = wrap 64 (get k c + incs c [o]) ∨ get (exec k o) c = get k c ∧ incs c [o] = 0.
Proof. destruct o as [[]|], c; cbn; rewrite ?Z.add_0_r; auto. Qed.

(** What is left of a body that completes is empty or completes. *)
Lemma suffix_incs b r : completes b → r `suffix_of` b → incs Completed r = match r with [] => 0 | _ => 1 end.
Proof.
  intros (pre & -> & Hpre) [k Hk]. destruct r as [|o r _] using rev_ind; [done|].
  rewrite app_assoc in Hk. apply app_inj_tail in Hk as [-> <-].
  rewrite incs_app in Hpre. pose proof (incs_nonneg Completed k). pose proof (incs_nonneg Completed r).
  assert (incs Completed (r ++ [Inc Completed]) = 1) as -> by (rewrite incs_app; cbn [incs]; change (incs Completed [Inc Completed]) with 1; lia).
  by destruct r.
Qed.

Lemma suffixes_incs bs ts :
  Forall completes bs → Forall2 (λ b r, r `suffix_of` b) bs ts →
  0 ≤ total_incs Completed ts ≤ Z.of_nat (length bs) ∧
  (total_incs Completed ts = 0 → Forall (λ r, r = []) ts).
Proof.
  intros Hw H. induction H as [|b r bs ts Hbr H IH]; [by cbn|].
  inversion Hw as [|?? Hb Hbs]; subst. destruct (IH Hbs) as [Hle Hz].
  pose proof (suffix_incs b r Hb Hbr) as Hr. rewrite total_incs_cons, Hr. cbn [length].
  destruct r; split; [lia| |lia|lia]. intros. constructor; [done|]. apply Hz. lia.
Qed.

Lemma completed_bodies bs : Forall completes bs → total_incs Completed bs = Z.of_nat (length bs).
Proof.
  induction 1 as [|b bs Hb _ IH]; [done|]. rewrite total_incs_cons, IH. cbn [length].
  rewrite (suffix_incs b b Hb) by done. destruct Hb as (pre & -> & _). destruct pre; cbn [app]; lia.
Qed.

Lemma finished_incs c ts : Forall (λ r : list op, r = []) ts → total_incs c ts = 0.
Proof. intros H. apply sum_over_zero. intros r Hr. by rewrite Forall_forall in H; rewrite (H r Hr). Qed.

Section Invariant.
Context (p : program) (Hwf : well_formed p).
Abbreviation n := (length (bodies p)).

(** The values read so far: final ones if the wait ended with all bodies
    complete, and at most all completions otherwise. *)
Definition reading_ok (t : bool) (todo : list (option counter)) (got : list Z) : Prop :=
  ∃ before, reads p = before ++ todo ∧
    Forall2 (λ x v, if t then x = Some Completed → 0 ≤ v ≤ Z.of_nat n else v = final p x) before got.

Definition main_ok (s : state) : Prop :=
  match main s with
  | Spawn i => handed s = i ∧ (i ≤ n)%nat ∧ spawned s = (if counted p then Z.of_nat i else 0)
  | Count i => handed s = S i ∧ (i < n)%nat ∧ counted p = true ∧ spawned s = Z.of_nat i
  | Wait => handed s = n ∧ spawned s = final p None
  | Reading t todo got =>
      handed s = n ∧ spawned s = final p None ∧ reading_ok t todo got ∧
      (t = false → Forall (λ r, r = []) (tasks s))
  end.

Record inv (s : state) : Prop := Inv {
  inv_cnt c : get (cnt s) c = wrap 64 (total_incs c (bodies p) - total_incs c (tasks s));
  inv_tasks : Forall2 (λ b r, r `suffix_of` b) (bodies p) (tasks s);
  inv_main : main_ok s
}.

Lemma inv_completed s : inv s → 0 ≤ completed (cnt s) ≤ Z.of_nat n ∧
  (Z.of_nat n ≤ completed (cnt s) → Forall (λ r, r = []) (tasks s)).
Proof.
  intros [Hc Ht _]. destruct Hwf as [Hb Hn]. specialize (Hc Completed). cbn [get] in Hc.
  destruct (suffixes_incs _ _ Hb Ht) as [Hle Hz]. rewrite completed_bodies in Hc by done.
  rewrite wrap_small in Hc by (unfold in_u in *; lia). split; [lia|]. intros. apply Hz. lia.
Qed.

Lemma inv_load s x : inv s → spawned s = final p None → Forall (λ r, r = []) (tasks s) → load s x = final p x.
Proof.
  intros Hi Hs Hf. destruct x as [c|]; [|done]. cbn [load final].
  rewrite (inv_cnt s Hi), (finished_incs c (tasks s)) by done. f_equal. lia.
Qed.

Lemma inv_init : inv (init p).
Proof.
  split.
  - intros c. rewrite Z.sub_diag. by destruct c.
  - by apply Forall_Forall2_diag, Forall_true.
  - cbn. destruct (counted p); repeat split; lia.
Qed.

Lemma inv_set_main s m : inv s → main_ok (set_main s m) → inv (set_main s m).
Proof. intros [Hc Ht _] Hm. by split. Qed.

Lemma inv_task_run s l1 o r l2 :
  inv s → tasks s = l1 ++ (o :: r) :: l2 → inv (State (exec (cnt s) o) (spawned s) (handed s) (main s) (l1 ++ r :: l2)).
Proof.
  intros [Hc Ht Hm] E. rewrite E in Ht. split; cbn [cnt tasks].
  - intros c. specialize (Hc c). rewrite E in Hc. unfold total_incs in *. rewrite sum_over_middle in Hc |- *.
    change (incs c (o :: r)) with (incs c ([o] ++ r)) in Hc. rewrite incs_app in Hc.
    destruct (get_exec (cnt s) o c) as [->|[-> H0]]; rewrite Hc; rewrite ?wrap_add_l; f_equal; lia.
  - apply Forall2_app_inv_r in Ht as (b1 & b2 & H1 & H2 & ->). apply Forall2_app; [done|].
    inversion H2 as [|b ? b2' ? Hb Hrest]; subst. constructor; [|done].
    etrans; [apply suffix_cons_r|exact Hb]. done.
  - revert Hm. unfold main_ok. cbn [main handed spawned tasks]. destruct (main s); try done.
    intros (? & ? & ? & Hf). split_and!; try done. intros ->. specialize (Hf eq_refl). rewrite E in Hf.
    by apply Forall_app in Hf as [_ Hf]; inversion Hf.
Qed.

Lemma inv_wstep s s' : inv s → step p s s' → inv s'.
Proof.
  intros Hi Hs. pose proof (inv_main s Hi) as Hm. unfold main_ok in Hm.
  destruct Hs as [s i E Hn|s i E|s E|s E|s E Hd|s E Hd Ht|s t x todo got E|s l1 o r l2 E _];
    try rewrite E in Hm; try done; try (apply inv_set_main; [done|]); unfold main_ok; cbn [main set_main handed spawned tasks].
  - destruct Hi as [Hc Ht _]. split; [done|done|]. unfold main_ok. cbn. destruct (counted p); cbn; intuition lia.
  - destruct Hi as [Hc Ht _], Hm as (? & ? & Hco & ->). split; [done|done|]. unfold main_ok. cbn. rewrite Hco.
    rewrite wrap_small by (destruct Hwf; unfold in_u in *; lia). intuition lia.
  - destruct Hm as (? & _ & ->). done.
  - destruct Hm as [? ?]. split_and!; [done..|by exists []|]. intros _. by apply inv_completed.
  - destruct Hm as [? ?]. split_and!; [done..|by exists []|done].
  - destruct Hm as (? & ? & (before & Hr & Hg) & Hf). split_and!; [done..| |done].
    exists (before ++ [x]). rewrite <- app_assoc. split; [done|]. apply Forall2_app; [done|]. constructor; [|done].
    destruct t; [intros ->; by apply inv_completed|]. apply inv_load; auto.
  - by apply inv_task_run.
Qed.

Lemma inv_reachable s : rtc (step p) (init p) s → inv s.
Proof.
  intros H. pattern s. eapply rtc_ind_r; [apply inv_init|intros; eapply inv_wstep; eauto|exact H].
Qed.

(** Every step but a poll brings the program nearer to its end. *)
Lemma step_measure s s' : inv s → step p s s' → s' = s ∨ (measure p s' < measure p s)%nat.
Proof.
  intros Hi Hs. pose proof (inv_main s Hi) as Hm. unfold main_ok in Hm.
  destruct Hs as [s i E Hn|s i E|s E|s E|s E Hd|s E Hd Ht|s t x todo got E|s l1 o r l2 E _]; auto; right;
    unfold measure, remaining; cbn [tasks main set_main]; rewrite E;
    [| | | | | |rewrite !sum_list_with_app; cbn [sum_list_with length]; lia]; apply Nat.add_lt_mono_l.
  1: destruct (counted p). all: cbn [main_rank length]; try lia.
  rewrite E in Hm. lia.
Qed.

(** A task that is not finished can run once everything is spawned. *)
Lemma stuck_tasks s :
  inv s → handed s = n → (∀ s', step p s s' → s' = s) → Forall (λ r, r = []) (tasks s).
Proof.
  intros Hi Hh Hstuck. apply Forall_forall. intros [|o r] Hr; [done|exfalso].
  apply list_elem_of_split in Hr as (l1 & l2 & E).
  assert (step p s (State (exec (cnt s) o) (spawned s) (handed s) (main s) (l1 ++ r :: l2))) as Hs.
  { apply run; [done|]. rewrite Hh, (Forall2_length _ _ _ (inv_tasks s Hi)), E, length_app. cbn. lia. }
  apply Hstuck, (f_equal tasks) in Hs. cbn in Hs. rewrite E in Hs. apply app_inv_head in Hs.
  injection Hs as Hs. apply (f_equal length) in Hs. cbn in Hs. lia.
Qed.

Lemma stuck_done s :
  inv s → (∀ s', step p s s' → s' = s) →
  ∃ t got, main s = Reading t [] got ∧ Forall (λ r, r = []) (tasks s).
Proof.
  intros Hi Hstuck. pose proof (inv_main s Hi) as Hm. unfold main_ok in Hm.
  assert (∀ m, step p s (set_main s m) → m = main s) as Hno by (intros m Hs; by apply Hstuck, (f_equal main) in Hs).
  destruct (main s) as [i|i| |t [|x todo] got] eqn:E.
  - destruct Hm as (_ & Hle & _). destruct (decide (i = n)) as [->|Hne].
    + by specialize (Hno _ (end_spawn p s E)).
    + assert (i < n)%nat as Hlt by lia. apply (do_spawn p s i E), Hstuck, (f_equal handed) in Hlt. cbn in Hlt. lia.
  - pose proof (Hstuck _ (do_count p s i E)) as H. apply (f_equal main) in H. cbn in H. congruence.
  - pose proof (stuck_tasks s Hi (proj1 Hm) Hstuck) as Hf.
    enough (Z.of_nat n ≤ completed (cnt s)) as Hc by by specialize (Hno _ (leave p s E Hc)).
    change (completed (cnt s)) with (load s (Some Completed)). rewrite inv_load by (done || apply Hm).
    cbn [final]. rewrite completed_bodies by apply Hwf. rewrite wrap_small by apply Hwf. lia.
  - exists t, got. split; [done|]. apply stuck_tasks; [done|apply Hm|done].
  - specialize (Hno _ (read p s _ _ _ _ E)). injection Hno as H _. apply (f_equal length) in H. cbn in H. lia.
Qed.
End Invariant.

Lemma report_spec p s t got :
  well_formed p → rtc (step p) (init p) s → main s = Reading t [] got →
  Forall2 (λ x v, if t then x = Some Completed → 0 ≤ v ≤ Z.of_nat (length (bodies p)) else v = final p x) (reads p) got.
Proof.
  intros Hwf Hs Hm. pose proof (inv_main _ _ (inv_reachable p Hwf s Hs)) as Hok. unfold main_ok in Hok.
  rewrite Hm in Hok. destruct Hok as (_ & _ & (before & -> & H) & _). by rewrite app_nil_r.
Qed.

(** Without a limit on its wait a program reads the final values only. *)
Lemma patient_report p s t got :
  timed p = false → rtc (step p) (init p) s → main s = Reading t [] got → t = false.
Proof.
  intros Hp Hs. enough (∀ u v w, main s = Reading u v w → u = false) by eauto.
  refine (rtc_ind_r (λ s, ∀ u v w, main s = Reading u v w → u = false) (init p) _ _ s Hs); [done|].
  intros s1 s2 _ Hs' IH u v w. destruct Hs'; cbn [main set_main]; try (destruct (counted p)); try congruence; eauto.
  all: intros [= <- <- <-]; eauto.
Qed.

Lemma completes_after_switches k : completes (replicate k Switch ++ [Inc Completed]).
Proof. eexists. split; [done|]. induction k; done. Qed.

Lemma completion_report p s t got :
  well_formed p → reads p = [Some Completed] → rtc (step p) (init p) s → main s = Reading t [] got →
  ∃ v, got = [v] ∧ 0 ≤ v ≤ Z.of_nat (length (bodies p)) ∧ (t = false → v = Z.of_nat (length (bodies p))).
Proof.
  intros Hwf Hr Hs Hm. pose proof (report_spec p s t got Hwf Hs Hm) as H. rewrite Hr in H.
  inversion H as [|? v ? ? Hv Hnil]; subst. inversion Hnil; subst. exists v. split; [done|].
  destruct t; [split; [auto|done]|]. subst v. cbn [final]. destruct Hwf as [Hb Hn].
  rewrite completed_bodies, wrap_small by done. unfold in_u in *. lia.
Qed.

Lemma total_incs_replicate c k b : total_incs c (replicate k b) = Z.of_nat k * incs c b.
Proof. induction k as [|k IH]; [done|]. cbn [replicate]. rewrite total_incs_cons, IH. lia. Qed.
Lemma incs_concat c k b : incs c (concat (replicate k b)) = Z.of_nat k * incs c b.
Proof. induction k as [|k IH]; [done|]. cbn [replicate concat]. rewrite incs_app, IH. lia. Qed.

Import Programs.

Lemma playground_wf n y : in_u 64 (Z.of_nat n) → well_formed (playground n y).
Proof.
  intros Hn. split; cbn [bodies playground]; [|by rewrite length_replicate].
  apply Forall_replicate. exists (Inc Started :: concat (replicate y [Inc Yields; Switch])). split; [done|].
  change (incs Completed (concat (replicate y [Inc Yields; Switch])) = 0).
  rewrite incs_concat. change (incs Completed [Inc Yields; Switch]) with 0. lia.
Qed.

Lemma playground_incs n y :
  total_incs Started (bodies (playground n y)) = Z.of_nat n ∧
  total_incs Completed (bodies (playground n y)) = Z.of_nat n ∧
  total_incs Yields (bodies (playground n y)) = Z.of_nat n * Z.of_nat y.
Proof.
  assert (∀ c, incs c (playground_body y) = incs c [Inc Started; Inc Completed] + Z.of_nat y * incs c [Inc Yields; Switch]) as H.
  { intros c. unfold playground_body. change (Inc Started :: ?l) with ([Inc Started] ++ l).
    rewrite !incs_app, incs_concat. lia. }
  cbn [bodies playground]. rewrite !total_incs_replicate, !H.
  change (incs Started [Inc Started; Inc Completed]) with 1. change (incs Completed [Inc Started; Inc Completed]) with 1.
  change (incs Yields [Inc Started; Inc Completed]) with 0. change (incs Started [Inc Yields; Switch]) with 0.
  change (incs Completed [Inc Yields; Switch]) with 0. change (incs Yields [Inc Yields; Switch]) with 1. lia.
Qed.

Lemma stress_wf n : in_u 64 (Z.of_nat n) → well_formed (stress n).
Proof.
  intros Hn. split; cbn [bodies stress]; [|by rewrite length_replicate].
  apply Forall_replicate, completes_after_switches.
Qed.

Lemma basic_wf n y : in_u 64 (Z.of_nat n + 1) → well_formed (basic n y).
Proof.
  intros Hn. split; cbn [bodies basic].
  - apply Forall_app. split; [apply Forall_replicate, completes_after_switches|].
    constructor; [apply (completes_after_switches 1)|done].
  - rewrite length_app, length_replicate. cbn [length]. unfold in_u in *. lia.
Qed.
End WorkloadFacts.

(** ** Properties *)
Module ChannelFacts.
Import ChannelInner ChannelPrograms.

Lemma bench_loop_spec k : ∀ i c,
  0 < capacity c → buffer c = [] → closed c = false → send_waiters c = [] → recv_waiters c = [] →
  bench_loop k i c = (map (λ j, (Ok (), Ok (i + Z.of_nat j))) (seq 0 k), c).
Proof.
  induction k as [|k IH]; intros i [b cap sw rw cl sc rc]; cbn [buffer capacity closed send_waiters recv_waiters];
    intros Hc -> -> -> ->; [done|].
  cbn [bench_loop].
  assert (try_send (mk [] cap [] [] false sc rc) i = (Ok (), mk [i] cap [] [] false sc rc)) as ->.
  { unfold try_send, try_send_inner, len. cbn [closed capacity buffer length].
    by rewrite (proj2 (Z.leb_gt cap (Z.of_nat 0))) by lia. }
  cbv beta iota.
  change (try_recv (mk [i] cap [] [] false sc rc)) with
    (Ok i : Result Z SchedError.TryRecvError, mk ([] : list Z) cap [] [] false sc rc).
  cbv beta iota. rewrite IH by done. cbn [seq map]. do 2 f_equal; [do 3 f_equal; lia|]. rewrite <- seq_shift, map_map.
  apply map_ext. intros j. do 2 f_equal. lia.
Qed.

(** The handles that exist are the ones the channel counts. *)
Definition einv (e : example) : Prop :=
  sender_count (chan e) = Z.b2z (bool_decide (is_Some (to_send e))) + Z.b2z (main_tx e) ∧
  receiver_count (chan e) = Z.b2z (consuming e) ∧ capacity (chan e) = 10 ∧
  (is_Some (to_send e) → consuming e = true → closed (chan e) = false) ∧
  received e ++ buffer (chan e) = sent e ∧
  sent e ++ refused e ++ default [] (to_send e) = [1; 2; 3; 4; 5] ∧
  (consuming e = true → refused e = []) ∧ (refused e ≠ [] → closed (chan e) = true).

Lemma einv_init : einv example_init.
Proof. by repeat split. Qed.

Lemma drop_sender_fields (c : t Z) :
  sender_count (drop_sender c) = sender_count c - 1 ∧ receiver_count (drop_sender c) = receiver_count c ∧
  capacity (drop_sender c) = capacity c ∧ buffer (drop_sender c) = buffer c ∧
  closed (drop_sender c) = closed c || (sender_count c - 1 =? 0).
Proof. unfold drop_sender. cbn. destruct (_ =? 0); cbn; by rewrite ?orb_true_r, ?orb_false_r. Qed.

Lemma drop_receiver_fields (c : t Z) :
  sender_count (drop_receiver c) = sender_count c ∧ receiver_count (drop_receiver c) = receiver_count c - 1 ∧
  capacity (drop_receiver c) = capacity c ∧ buffer (drop_receiver c) = buffer c ∧
  closed (drop_receiver c) = closed c || (receiver_count c - 1 =? 0).
Proof. unfold drop_receiver. cbn. destruct (_ =? 0); cbn; by rewrite ?orb_true_r, ?orb_false_r. Qed.

Lemma try_send_fields (c c' : t Z) v r :
  try_send c v = (r, c') →
  sender_count c' = sender_count c ∧ receiver_count c' = receiver_count c ∧ capacity c' = capacity c ∧
  closed c' = closed c ∧
  match r with
  | Ok _ => closed c = false ∧ buffer c' = buffer c ++ [v]
  | Err _ => (closed c = true ∨ capacity c ≤ len c) ∧ buffer c' = buffer c
  end.
Proof.
  unfold try_send, try_send_inner, wake_receiver. intros H.
  destruct (closed c) eqn:Hc; [injection H as <- <-; rewrite ?Hc; auto 10|].
  destruct (Z.leb_spec (capacity c) (len c)) as [Hl|Hl]; [injection H as <- <-; rewrite ?Hc; auto 10|].
  cbn in H. destruct (pop_front _) as [[? ?]|]; injection H as <- <-; cbn; rewrite ?Hc; auto 10.
Qed.

Lemma try_recv_fields (c c' : t Z) r :
  try_recv c = (r, c') →
  sender_count c' = sender_count c ∧ receiver_count c' = receiver_count c ∧ capacity c' = capacity c ∧
  closed c' = closed c ∧
  match r with Ok v => buffer c = v :: buffer c' | Err _ => buffer c = [] ∧ buffer c' = [] end.
Proof.
  unfold try_recv, try_recv_inner, wake_sender. intros H.
  destruct (buffer c) as [|v b] eqn:Hb; cbn in H; [injection H as <- <-; rewrite Hb; auto 10|].
  destruct (pop_front _) as [[? ?]|]; injection H as <- <-; cbn; auto.
Qed.

Lemma einv_step e e' : einv e → example_step e e' → einv e'.
Proof.
  intros (Hsc & Hrc & Hcap & Hcl & Hbuf & Hall & Hno & Href) Hs. unfold einv.
  destruct Hs as [e i r c Ht H|e i r err c Ht H|e Ht|e v c Hc H|e err c Hc H|e Hm];
    cbn [chan to_send consuming main_tx sent refused received]; try rewrite Ht in *; cbn [default from_option] in Hall.
  - apply try_send_fields in H as (-> & -> & -> & -> & Hopen & ->). split_and!; try done.
    + by rewrite app_assoc, Hbuf.
    + destruct (refused e); [by rewrite <- app_assoc|]. rewrite Href in Hopen; done.
  - apply try_send_fields in H as (-> & -> & -> & -> & Hwhy & ->).
    assert (closed (chan e) = true) as Hclosed.
    { destruct Hwhy as [|Hfull]; [done|]. unfold len in Hfull. rewrite Hcap in Hfull.
      apply (f_equal length) in Hall. rewrite <- Hbuf, !length_app in Hall. cbn in Hall. lia. }
    split_and!; try done.
    + intros _ Hc. rewrite Hcl in Hclosed; done.
    + cbn. by rewrite <- app_assoc.
    + intros Hc. rewrite Hcl in Hclosed; done.
  - destruct (drop_sender_fields (chan e)) as (-> & -> & -> & -> & ->). rewrite Hsc.
    split_and!; try done; [by destruct (main_tx e)|]. intros H. by rewrite (Href H).
  - apply try_recv_fields in H as (-> & -> & -> & -> & Hb). rewrite Hb in Hbuf. split_and!; try done; auto.
    + by rewrite <- Hc.
    + by rewrite <- app_assoc.
  - apply try_recv_fields in H as (Es & Er & Ec & Ecl & Hb & Hb'). rewrite Hb in Hbuf.
    destruct (drop_receiver_fields c) as (-> & -> & -> & -> & ->). rewrite Es, Er, Ec, Ecl, Hb', Hrc, Hc.
    split_and!; try done. intros H. by rewrite (Href H).
  - destruct (drop_sender_fields (chan e)) as (-> & -> & -> & -> & ->). rewrite Hsc, Hm.
    split_and!; try done; [cbn; lia| |intros H; by rewrite (Href H)].
    intros Hso Hc. by rewrite Hcl, bool_decide_true.
Qed.
End ChannelFacts.

Import Workload Programs WorkloadFacts ChannelPrograms.

(** C36: The playground, [basic] and the stress test under every interleaving of
    their GVThreads with the main closure.  When the playground has read its
    atomics it reports success: all GVThreads are spawned, started and
    complete, with the expected number of yields.  [basic] and the stress test
    report all of them complete unless their time is over, and then no more
    than there are. *)
Theorem programs_report total_gvthreads num_yields s t got :
  in_u 64 (Z.of_nat total_gvthreads + 1) →
  (rtc (step (playground total_gvthreads num_yields)) (init (playground total_gvthreads num_yields)) s →
   main s = Reading t [] got →
   let n := Z.of_nat total_gvthreads in
   ∃ y, got = [n; n; n; y] ∧ playground_verdict n (Z.of_nat num_yields) n n n y = SUCCESS) ∧
  (rtc (step (basic total_gvthreads num_yields)) (init (basic total_gvthreads num_yields)) s →
   main s = Reading t [] got →
   ∃ count, got = [count] ∧ 0 ≤ count ≤ Z.of_nat total_gvthreads + 1 ∧
     (t = false → count = Z.of_nat total_gvthreads + 1)) ∧
  (rtc (step (stress total_gvthreads)) (init (stress total_gvthreads)) s →
   main s = Reading t [] got →
   ∃ done, got = [done] ∧ 0 ≤ done ≤ Z.of_nat total_gvthreads ∧ (t = false → done = Z.of_nat total_gvthreads)).
Proof.
  intros Hn. assert (in_u 64 (Z.of_nat total_gvthreads)) as Hn' by (unfold in_u in *; lia). split_and!.
  - intros Hs Hm. destruct (playground_incs total_gvthreads num_yields) as (H1 & H2 & H3).
    assert (t = false) as -> by exact (patient_report (playground _ _) _ _ _ eq_refl Hs Hm).
    pose proof (report_spec _ _ _ _ (playground_wf _ num_yields Hn') Hs Hm) as H. cbn in H.
    repeat match goal with H : Forall2 _ (_ :: _) _ |- _ => inversion H; clear H; subst | H : Forall2 _ [] _ |- _ => inversion H; clear H; subst end.
    unfold final. rewrite H1, H2, H3. cbn [counted playground bodies]. rewrite length_replicate, wrap_small by done.
    eexists. split; [done|]. unfold playground_verdict. by rewrite !Z.eqb_refl.
  - intros Hs Hm. destruct (completion_report _ _ _ _ (basic_wf _ num_yields Hn) eq_refl Hs Hm) as (v & -> & H).
    exists v. split; [done|]. cbn [bodies basic] in H. rewrite length_app, length_replicate in H. cbn [length] in H.
    by rewrite Nat2Z.inj_add in H.
  - intros Hs Hm. destruct (completion_report _ _ _ _ (stress_wf _ Hn') eq_refl Hs Hm) as (v & -> & H).
    exists v. split; [done|]. cbn [bodies stress] in H. by rewrite length_replicate in H.
Qed.

(** A run of the playground with one GVThread that never yields. *)
Lemma playground_run :
  rtc (step (playground 1 0)) (init (playground 1 0))
    (State (Counters 1 0 1) 1 1 (Reading false [] [1; 1; 1; 0]) [[]]).
Proof.
  eapply rtc_l; [apply (do_spawn _ _ 0); [done|cbn; lia]|].
  eapply rtc_l; [by apply (do_count _ _ 0)|].
  eapply rtc_l; [by apply end_spawn|].
  eapply rtc_l; [apply (run _ _ [] (Inc Started) [Inc Completed] []); [done|cbn; lia]|].
  eapply rtc_l; [apply (run _ _ [] (Inc Completed) [] []); [done|cbn; lia]|].
  eapply rtc_l; [by apply leave|].
  do 4 (eapply rtc_l; [by eapply read|]). apply rtc_refl.
Qed.

Lemma programs_report_witness :
  ∃ y, [1; 1; 1; 0] = [1; 1; 1; y] ∧ playground_verdict 1 0 1 1 1 y = SUCCESS.
Proof.
  exact (proj1 (programs_report 1 0 _ false [1; 1; 1; 0] (conj (Zle_bool_imp_le 0 2 eq_refl) eq_refl))
    playground_run eq_refl).
Defined.

(** The three programs end: a run from the start has a bounded number of steps
    other than polls, and when nothing but a poll is possible the main closure
    has read its atomics and every GVThread has finished. *)
Theorem programs_terminate p total_gvthreads num_yields :
  in_u 64 (Z.of_nat total_gvthreads + 1) →
  p ∈ [playground total_gvthreads num_yields; basic total_gvthreads num_yields; stress total_gvthreads] →
  (∀ k s, nsteps (λ a b, step p a b ∧ b ≠ a) k (init p) s →
     (k ≤ sum_list_with length (bodies p) + 2 * length (bodies p) + 2 + length (reads p))%nat) ∧
  (∀ s, rtc (step p) (init p) s → (∀ s', step p s s' → s' = s) →
     ∃ t got, main s = Reading t [] got ∧ Forall (λ r, r = []) (tasks s)).
Proof.
  intros Hn Hp. assert (in_u 64 (Z.of_nat total_gvthreads)) as Hn' by (unfold in_u in *; lia).
  assert (well_formed p) as Hwf.
  { rewrite !elem_of_cons, elem_of_nil in Hp. destruct Hp as [->|[->|[->|[]]]];
      auto using playground_wf, basic_wf, stress_wf. }
  split; [|intros s Hs; by apply stuck_done, inv_reachable].
  intros k s Hk. enough (k + measure p s ≤ measure p (init p))%nat.
  { unfold measure, remaining in *. cbn [init main tasks main_rank] in *. lia. }
  revert Hk. generalize (inv_init p). generalize (init p) as s0. intros s0 Hi Hk. revert Hi.
  induction Hk as [|k s0 s1 s Hs _ IH]; [lia|]. intros Hi. destruct Hs as [Hs Hne].
  specialize (IH (inv_wstep p Hwf _ _ Hi Hs)). destruct (step_measure p _ _ Hi Hs); [done|lia].
Qed.

Lemma programs_terminate_witness :
  ∀ k s, nsteps (λ a b, step (playground 2 3) a b ∧ b ≠ a) k (init (playground 2 3)) s → (k ≤ 26)%nat.
Proof.
  refine (proj1 (programs_terminate (playground 2 3) 2 3 (conj (Zle_bool_imp_le 0 3 eq_refl) eq_refl) _)).
  apply list_elem_of_here.
Defined.

(** The channel benchmark measures what it means to: every round sends and
    receives its own number, and the channel is empty at the end. *)
Theorem bench_channel_spec iterations :
  bench_channel iterations =
    (map (λ i, (Ok (), Ok (Z.of_nat i))) (seq 0 iterations), ChannelInner.channel 1024).
Proof. apply ChannelFacts.bench_loop_spec; done. Qed.

(** The channel example under every interleaving: the consumer receives what
    was sent, in order; nothing is refused while it listens; and what is sent,
    refused and left to send are the five numbers in order.  The consumer takes
    an empty channel for its end: it may leave before the first message, and
    then all five are refused. *)
Theorem channel_example_spec :
  (∀ e, rtc example_step example_init e →
     received e ++ ChannelInner.buffer (chan e) = sent e ∧
     sent e ++ refused e ++ default [] (to_send e) = [1; 2; 3; 4; 5] ∧
     (consuming e = true → refused e = [])) ∧
  ∃ e, rtc example_step example_init e ∧ received e = [] ∧ refused e = [1; 2; 3; 4; 5] ∧ to_send e = None.
Proof.
  split.
  - intros e He. enough (ChannelFacts.einv e) as (_ & _ & _ & _ & ? & ? & ? & _) by done.
    refine (rtc_ind_r _ _ ChannelFacts.einv_init _ e He). eauto using ChannelFacts.einv_step.
  - eexists. split; [|split_and!; shelve]. eapply rtc_l; [by eapply consumer_end|].
    do 5 (eapply rtc_l; [by eapply refuse|]). eapply rtc_l; [by eapply producer_end|]. apply rtc_refl.
    Unshelve. all: done.
Qed.
