(* ===== verification/Launch.v ===== *)
(** * How the io_uring servers start

    The parts of [cmd/httpd/rust/ksvc] and [cmd/echo/rust/ksvc] around their
    event loops: the command line, the threads of the HTTP server and their
    shares of the connections, the listening socket, and the first steps of a
    worker.  [meant] gives the kernel operation each request of a server stands
    for; the theorems follow the requests through the routing table of
    [KsvcRouter] and the translation of [KsvcUring]. *)
From stdpp Require Import base list strings gmap.
From S2P Require Import Prelude CoreTypes Config KsvcTypes KsvcRouter KsvcUring ConnSlab KernelIo Echo Httpd.
Local Open Scope Z_scope.
Local Open Scope rust_scope.

Module ServerMain.

(** ** The listening socket *)
Inductive call :=
| SocketCall (domain type protocol : Z)
| SetSockOpt (fd level opt value : Z)
| BindCall (fd family addr port : Z)
| ListenCall (fd backlog : Z).

Definition AF_INET : Z := 2.
Definition SOCK_STREAM : Z := 1.
Definition SOL_SOCKET : Z := 1.
Definition SO_REUSEADDR : Z := 2.
Definition SO_REUSEPORT : Z := 15.
Definition IPPROTO_TCP : Z := 6.
Definition TCP_NODELAY : Z := 1.

(** [u16::to_be] on a little-endian machine. *)
Definition to_be (p : Z) : Z := Z.lor (wrap 16 (Z.shiftl p 8)) (Z.shiftr p 8).

(** [socket] and [bind] are what these system calls return; the results of the
    others are ignored. *)
Section Listener.
Context (socket bind : Z).
Definition listen_with (opts : list (Z * Z)) (port : Z) : outcome (Z * list call) :=
  let fd := socket in
  if negb (0 <=? fd) then Panic
  else if negb (bind =? 0) then Panic
  else Ret (fd, [SocketCall AF_INET (Z.lor SOCK_STREAM SOCK_CLOEXEC) 0] ++
                ((λ o, SetSockOpt fd o.1 o.2 1) <$> opts) ++
                [BindCall fd AF_INET 0 (to_be port); ListenCall fd 4096]).
Definition httpd_setup_listener : Z → outcome (Z * list call) :=
  listen_with [(SOL_SOCKET, SO_REUSEADDR); (SOL_SOCKET, SO_REUSEPORT); (IPPROTO_TCP, TCP_NODELAY)].
Definition echo_setup_listener : Z → outcome (Z * list call) :=
  listen_with [(SOL_SOCKET, SO_REUSEADDR); (SOL_SOCKET, SO_REUSEPORT)].
End Listener.

(** ** Settings *)
Abbreviation parse := SchedulerConfig.parse_uint.

Record settings := Settings { port : Z; serve_dir : option string; max_conns : Z; num_threads : Z }.

(** The loop over the arguments; a flag at their end panics. *)
Fixpoint cli (args : list string) (c : settings) : outcome settings :=
  match args with
  | [] => Ret c
  | a :: rest =>
      let with_value set := match rest with v :: rest => cli rest (set v) | [] => Panic end in
      if bool_decide (a ∈ ["--port"; "-p"]) then
        with_value (λ v, Settings (default 8080 (parse 16 v)) (serve_dir c) (max_conns c) (num_threads c))
      else if bool_decide (a ∈ ["--dir"; "-d"]) then
        with_value (λ v, Settings (port c) (Some v) (max_conns c) (num_threads c))
      else if bool_decide (a = "--max-conns") then
        with_value (λ v, Settings (port c) (serve_dir c) (default 4096 (parse 64 v)) (num_threads c))
      else if bool_decide (a ∈ ["--threads"; "-t"]) then
        with_value (λ v, Settings (port c) (serve_dir c) (max_conns c) (default 1 (parse 64 v)))
      else cli rest (Settings (default (port c) (parse 16 a)) (serve_dir c) (max_conns c) (num_threads c))
  end.

(** [args] without the name of the program. *)
Definition httpd_settings (env : gmap string string) (args : list string) : outcome settings :=
  c ← cli args (Settings (default 8080 (env !! "gvt_app_port" ≫= parse 16)) None 4096 1);
  let n := match env !! "KSVC_THREADS" ≫= parse 64 with
           | Some n => if 1 <=? n then n else num_threads c
           | None => num_threads c
           end in
  Ret (Settings (port c) (serve_dir c) (max_conns c) (Z.max n 1)).

Definition echo_settings (args : list string) : Z * Z :=
  (default 9999 (args !! 0%nat ≫= parse 16), default 1024 (args !! 1%nat ≫= parse 64)).

(** ** The workers: the calls of [worker_loop], the one of the main thread last *)
Record worker := Worker {
  wid : Z; num_workers : Z; w_port : Z; w_max_conns : Z; file_mode : bool; base_dir : string
}.
Definition launch (c : settings) : list worker :=
  let n := num_threads c in
  let start i := Worker i n (port c) (HttpdLoop.conns_per_worker (max_conns c) n)
    (bool_decide (is_Some (serve_dir c))) (default "" (serve_dir c)) in
  if n =? 1 then [start 0] else (start <$> seqZ 1 (n - 1)) ++ [start 0].

(** The start of [worker_loop]: the ring, the table and the first accept. *)
Section Worker.
Context {R : Type} `{!IoUring R} (socket bind accept_addr accept_addr_len : Z).
Definition worker_start (w : worker) : outcome (Httpd.server * BasicIoUring.t R * ProbeRouter.t) :=
  l ← httpd_setup_listener socket bind (w_port w);
  match BasicIoUring.new (R := R) (BasicIoUring.mkConfig HttpdLoop.SQ_ENTRIES None) with
  | Err _ => Panic
  | Ok io =>
      r ← ProbeRouter.new (BasicIoUring.probe_opcodes_static io);
      let '(s, io) := HttpdLoop.start l.1 accept_addr accept_addr_len r (w_max_conns w) io in
      Ret (s, io, r)
  end.
End Worker.
End ServerMain.

(** ** The operations behind the requests *)
Import KernelIo.

Section Meant.
Context (recv_ptr send_ptr file_ptr path_ptr buf_ptr : Z → Z).

(** The kernel operation a request of a server stands for, with the opcode the
    kernel needs for it. *)
Inductive meant : action → Z → sqe_op → Prop :=
| m_accept l a n : is_fd l → meant (submit_accept l a n) op.ACCEPT (Accept l a n SOCK_CLOEXEC)
| m_close f i : is_fd f → meant (submit_close f i) op.CLOSE (Close f)
| m_recv c i x :
    is_fd (Httpd.fd c) → 0 ≤ Httpd.recv_len c ≤ Http.RECV_BUF → Httpd.submit_recv recv_ptr c i = Ret x →
    meant x op.RECV (Recv (Httpd.fd c) (recv_ptr i + Httpd.recv_len c) (Http.RECV_BUF - Httpd.recv_len c) 0)
| m_send c i x :
    is_fd (Httpd.fd c) → 0 ≤ Httpd.send_off c → Z.of_nat (length (Httpd.send_buf c)) < 2 ^ 32 →
    Httpd.submit_send send_ptr c i = Ret x →
    meant x op.SEND (Send (Httpd.fd c) (send_ptr i + Httpd.send_off c)
      (Z.of_nat (length (Httpd.send_buf c)) - Httpd.send_off c) 0)
| m_file_open c i :
    meant (Httpd.submit_file_open path_ptr c i) op.OPENAT (OpenAt Httpd.AT_FDCWD (path_ptr i) Httpd.O_RDONLY 0)
| m_file_read c i :
    is_fd (Httpd.file_fd c) →
    meant (Httpd.submit_file_read file_ptr c i) op.READ (Read (Httpd.file_fd c) (file_ptr i) Http.FILE_BUF U64_MAX)
| m_file_close f i : is_fd f → meant (Httpd.submit_file_close f i) op.CLOSE (Close f)
| m_echo_recv c i :
    is_fd (Echo.fd c) → meant (Echo.submit_recv buf_ptr c i) op.RECV (Recv (Echo.fd c) (buf_ptr i) Echo.BUF_SIZE 0)
| m_echo_send c i :
    is_fd (Echo.fd c) → in_u 32 (Echo.pending c) →
    meant (Echo.submit_send buf_ptr c i) op.SEND (Send (Echo.fd c) (buf_ptr i) (Echo.pending c) 0).

(** The calls of the requests, and the opcodes they have in the table. *)
Definition request_nrs : list (Z * Z) :=
  [(NR_READ, op.READ); (NR_CLOSE, op.CLOSE); (NR_SENDTO, op.SEND); (NR_RECVFROM, op.RECV); (NR_OPENAT, op.OPENAT);
   (NR_ACCEPT4, op.ACCEPT)].

Lemma request_routes f n o :
  (n, o) ∈ request_nrs → 0 ≤ n < 512 ∧ classify f n = if f o then RouteInfo.iouring o else RouteInfo.LEGACY.
Proof.
  intros H. unfold request_nrs in H. repeat (apply elem_of_cons in H as [[= -> ->]|H]; [by split; [|vm_compute]|]).
  by apply elem_of_nil in H.
Qed.

(** What [build_op] makes of the entries the servers write. *)
Lemma built id nr f p n x :
  is_fd f → in_u 32 n → in_u 31 x →
  let e := SubmitEntry.mk id nr 0 [wrap 64 f; p; n; x; 0; 0] in
  BasicIoUring.build_op e op.RECV = Ok (Recv f p n x) ∧ BasicIoUring.build_op e op.SEND = Ok (Send f p n x) ∧
  BasicIoUring.build_op e op.READ = Ok (Read f p n U64_MAX) ∧ BasicIoUring.build_op e op.CLOSE = Ok (Close f) ∧
  BasicIoUring.build_op e op.WRITE = Ok (Write f p n U64_MAX).
Proof.
  intros Hf Hn Hx e. assert (as_i32 (wrap 64 f) = f) as Ef by (apply as_i32_wrap; unfold is_fd in Hf; lia).
  assert (as_u32 n = n) as En by by apply wrap_small.
  assert (as_i32 x = x) as Ex by (rewrite <- (wrap_small 32 x) at 1; [apply as_i32_wrap|]; unfold in_u in *; lia).
  split_and!.
  - change (BasicIoUring.build_op e op.RECV) with (Ok (Recv (as_i32 (wrap 64 f)) p (as_u32 n) (as_i32 x)) : KResult sqe_op).
    by rewrite Ef, En, Ex.
  - change (BasicIoUring.build_op e op.SEND) with (Ok (Send (as_i32 (wrap 64 f)) p (as_u32 n) (as_i32 x)) : KResult sqe_op).
    by rewrite Ef, En, Ex.
  - change (BasicIoUring.build_op e op.READ) with (Ok (Read (as_i32 (wrap 64 f)) p (as_u32 n) U64_MAX) : KResult sqe_op).
    by rewrite Ef, En.
  - change (BasicIoUring.build_op e op.CLOSE) with (Ok (Close (as_i32 (wrap 64 f))) : KResult sqe_op). by rewrite Ef.
  - change (BasicIoUring.build_op e op.WRITE) with (Ok (Write (as_i32 (wrap 64 f)) p (as_u32 n) U64_MAX) : KResult sqe_op).
    by rewrite Ef, En.
Qed.

Lemma built_accept id nr l a n :
  is_fd l →
  BasicIoUring.build_op (SubmitEntry.mk id nr 0 [wrap 64 l; a; n; SOCK_CLOEXEC; 0; 0]) op.ACCEPT =
    Ok (Accept l a n SOCK_CLOEXEC).
Proof.
  intros Hl. assert (as_i32 (wrap 64 l) = l) as E by (apply as_i32_wrap; unfold is_fd in Hl; lia).
  change (Ok (Accept (as_i32 (wrap 64 l)) a n SOCK_CLOEXEC) = (Ok (Accept l a n SOCK_CLOEXEC) : KResult sqe_op)).
  by rewrite E.
Qed.

Lemma meant_entry a o s :
  meant a o s → ∃ nr e, a = Submit nr e ∧ (nr, o) ∈ request_nrs ∧ BasicIoUring.build_op e o = Ok s.
Proof.
  assert (in_u 32 0 ∧ in_u 31 0 ∧ in_u 32 Http.FILE_BUF ∧ in_u 32 Echo.BUF_SIZE) as (H0 & H0' & HF & HB) by by vm_compute.
  assert (∀ n o, (n, o) ∈ request_nrs ↔ bool_decide ((n, o) ∈ request_nrs) = true) as Hin
    by (intros; by rewrite bool_decide_eq_true).
  intros H. destruct H as [l a n Hl|f i Hf|c i x Hc Hr Hx|c i x Hc Hs Hn Hx|c i|c i Hc|f i Hf|c i Hc|c i Hc Hp].
  - eexists _, _. split; [reflexivity|]. split; [by apply Hin|]. by apply built_accept.
  - eexists _, _. split; [reflexivity|]. split; [by apply Hin|]. by apply built.
  - unfold Httpd.submit_recv in Hx. destruct (Z.ltb_spec Http.RECV_BUF (Httpd.recv_len c)); [done|]. injection Hx as <-.
    eexists _, _. split; [reflexivity|]. split; [by apply Hin|].
    apply built; [done| |done]. unfold Http.RECV_BUF in *. split; lia.
  - unfold Httpd.submit_send in Hx. destruct (Z.ltb_spec (Z.of_nat (length (Httpd.send_buf c))) (Httpd.send_off c)); [done|].
    injection Hx as <-. eexists _, _. split; [reflexivity|]. split; [by apply Hin|]. apply built; [done| |done]. split; lia.
  - eexists _, _. split; [reflexivity|]. split; [by apply Hin|]. reflexivity.
  - eexists _, _. split; [reflexivity|]. split; [by apply Hin|]. by apply built.
  - eexists _, _. split; [reflexivity|]. split; [by apply Hin|]. by apply built.
  - eexists _, _. split; [reflexivity|]. split; [by apply Hin|]. by apply built.
  - eexists _, _. split; [reflexivity|]. split; [by apply Hin|]. by apply built.
Qed.
End Meant.

Import ServerMain.

(** ** Lemmas *)
Lemma launch_each c w :
  1 ≤ num_threads c → w ∈ launch c → w_max_conns w = max_conns c `div` num_threads c.
Proof.
  intros Hn. unfold launch, HttpdLoop.conns_per_worker. rewrite Z.max_l by lia.
  destruct (_ =? 1); rewrite ?elem_of_app, ?list_elem_of_fmap, ?list_elem_of_singleton; [by intros ->|].
  by intros [(i & -> & _)| ->].
Qed.

Lemma launch_ids c : 1 ≤ num_threads c → (wid <$> launch c) ≡ₚ seqZ 0 (num_threads c).
Proof.
  intros Hn. unfold launch. rewrite (seqZ_cons 0) by lia. change (Z.succ 0) with 1.
  destruct (Z.eqb_spec (num_threads c) 1) as [->|_]; [done|].
  rewrite fmap_app. cbn [fmap list_fmap wid]. rewrite <- list_fmap_compose.
  rewrite (list_fmap_ext _ id) by done. rewrite list_fmap_id, Permutation_app_comm.
  by replace (Z.pred (num_threads c)) with (num_threads c - 1) by lia.
Qed.

Lemma sum_over_const {A} (f : A → Z) k l : (∀ x, x ∈ l → f x = k) → sum_over f l = Z.of_nat (length l) * k.
Proof.
  induction l as [|x l IH]; intros H; [done|]. cbn [sum_over foldr length]. rewrite H by left.
  change (foldr _ 0 l) with (sum_over f l). rewrite IH by (intros; apply H; by right). lia.
Qed.

(** ** Theorems *)

(** C11: The requests of both servers arrive in the kernel as what they mean.  With
    the table built from the opcodes the kernel reports, a request whose opcode
    is among them is pushed as its operation, stamped with its correlation id;
    one whose opcode is missing is dropped without a trace, since the error of
    [submit_with_opcode] is ignored. *)
Theorem requests_reach_ring {R : Type} `{!IoUring R} recv_ptr send_ptr file_ptr path_ptr buf_ptr
    supported r (b : BasicIoUring.t R) a o s :
  Forall (in_u 8) supported → ProbeRouter.new supported = Ret r →
  meant recv_ptr send_ptr file_ptr path_ptr buf_ptr a o s →
  ∃ nr e, a = Submit nr e ∧
    (o ∈ supported → sq_is_full (BasicIoUring.ring b) = false → ∀ ring',
       sq_push (BasicIoUring.ring b) (mkSqe s (SubmitEntry.corr_id e)) = Some ring' →
       HttpdLoop.exec r b a = BasicIoUring.mk ring' (BasicIoUring.inflight b) (BasicIoUring.pending_submit b +[32] 1)) ∧
    (o ∉ supported → HttpdLoop.exec r b a = b).
Proof.
  intros Hs Hnew Hm. destruct (new_routes supported Hs) as (r' & Hr' & Hroute). rewrite Hnew in Hr'. injection Hr' as <-.
  destruct (meant_entry _ _ _ _ _ _ _ _ Hm) as (nr & e & -> & Hin & Hb). exists nr, e. split; [done|].
  destruct (request_routes (λ o, bool_decide (o ∈ supported)) nr o Hin) as [Hnr Hcl].
  assert (ProbeRouter.route r nr = if bool_decide (o ∈ supported) then RouteInfo.iouring o else RouteInfo.LEGACY) as Hro.
  { change (ProbeRouter.route r nr) with (route r nr). rewrite Hroute by lia. change (Z.of_nat size) with 512.
    destruct (Z.ltb_spec nr 512); [exact Hcl|lia]. }
  cbn [HttpdLoop.exec]. unfold BasicIoUring.submit_with_opcode, BasicIoUring.translate_and_push, BasicIoUring.build_sqe.
  rewrite Hro. split.
  - intros Ho -> ring' Hp. rewrite bool_decide_true by done. cbn [RouteInfo.iouring RouteInfo.iouring_opcode].
    by rewrite Hb, Hp.
  - intros Ho. rewrite bool_decide_false by done. by destruct (sq_is_full (BasicIoUring.ring b)).
Qed.

(** The HTTP server starts one worker per thread, numbered from 0, and divides
    the connections among them: together they have no more than asked for and
    less than one per worker fewer.  With more threads than connections every
    worker has none, and closes each connection it accepts. *)
Theorem launch_shares env args c :
  httpd_settings env args = Ret c → 0 ≤ max_conns c →
  (wid <$> launch c ≡ₚ seqZ 0 (num_threads c)) ∧ 1 ≤ num_threads c ∧
  max_conns c - num_threads c < sum_over w_max_conns (launch c) ≤ max_conns c ∧
  (max_conns c < num_threads c → ∀ w, w ∈ launch c →
     w_max_conns w = 0 ∧
     ∀ listener addr addr_len recv_ptr st result, 0 ≤ result →
       Httpd.on_accept listener addr addr_len recv_ptr (Httpd.mkServer (ConnSlab.new (w_max_conns w)) st) result =
       Ret (Httpd.mkServer (ConnSlab.new (w_max_conns w)) (Httpd.add_error (Httpd.add_accept st)),
            [NoDelay (as_i32 result); CloseFd (as_i32 result); submit_accept listener addr addr_len])).
Proof.
  intros Hset Hm. assert (1 ≤ num_threads c) as Hn.
  { unfold httpd_settings in Hset. destruct (cli _ _); [|done]. injection Hset as <-. cbn. lia. }
  pose proof (launch_ids c Hn) as Hids. pose proof (launch_each c) as Heach.
  split; [done|]. split; [done|]. split.
  - rewrite (sum_over_const _ (max_conns c `div` num_threads c)) by auto.
    apply Permutation_length in Hids. rewrite length_fmap, length_seqZ in Hids. rewrite Hids, Z2Nat.id by lia.
    pose proof (Z.div_mod (max_conns c) (num_threads c) ltac:(lia)).
    pose proof (Z.mod_pos_bound (max_conns c) (num_threads c) ltac:(lia)). lia.
  - intros Hlt w Hw. rewrite (Heach w Hn Hw), Z.div_small by lia. split; [done|].
    intros. unfold Httpd.on_accept. by rewrite (proj2 (Z.leb_le 0 result)).
Qed.

Lemma requests_reach_ring_witness :
  ∃ r, ProbeRouter.kernel_6_8 = Ret r ∧
    HttpdLoop.exec r (BasicIoUring.mk (Loopback.mk 8 [] []) 0 0) (submit_close 7 3) =
      BasicIoUring.mk (Loopback.mk 8 [mkSqe (Close 7) (Ids.make_id Ids.OP_CLOSE 3)] []) 0 1.
Proof.
  assert (Forall (in_u 8) (seqZ 0 (op.FTRUNCATE + 1))) as Hs by (apply (bool_decide_unpack _); vm_compute; exact I).
  destruct (new_routes _ Hs) as (r & Hr & _). exists r. split; [exact Hr|].
  destruct (requests_reach_ring id id id id id (seqZ 0 (op.FTRUNCATE + 1)) r (BasicIoUring.mk (Loopback.mk 8 [] []) 0 0)
    (submit_close 7 3) op.CLOSE (Close 7) Hs Hr) as (nr & e & He & Hok & _).
  - constructor. split; [discriminate|reflexivity].
  - injection He as <- <-. apply Hok; [apply elem_of_seqZ; vm_compute; split; [discriminate|reflexivity]|reflexivity|reflexivity].
Defined.

Lemma launch_shares_witness :
  (wid <$> launch (Settings 8080 None 100 3)) ≡ₚ seqZ 0 3 ∧
  97 < sum_over w_max_conns (launch (Settings 8080 None 100 3)) ≤ 100.
Proof.
  destruct (launch_shares ∅ ["--max-conns"; "100"; "-t"; "3"] (Settings 8080 None 100 3)) as (H1 & _ & H2 & _).
  - vm_compute. reflexivity.
  - vm_compute. discriminate.
  - split; [exact H1|exact H2].
Defined.
