(* ===== verification/Smoke.v ===== *)
(** * The smoke test

    [cmd/smoke/ksvc]: the client that exercises the kernel module and the
    user-space service.  Part A runs on the model of the module
    ([KsvcKmod]), Part B on the routing table ([KsvcRouter]), the helper of
    Part C on [BasicIoUring] and Part D on the worker pool ([KsvcPool]).  The
    lines the test prints are left out; a check is what it adds to the counts. *)
From stdpp Require Import base list strings gmap.
From S2P Require Import Prelude CoreTypes KsvcTypes KsvcRouter KsvcRing KsvcUring KsvcPool KsvcKmod ConnSlab KernelIo Launch.
Local Open Scope Z_scope.
Local Open Scope rust_scope.

Module TestRunner.
Record t := mk { total : Z; passed : Z; failed : Z }.
Definition new : t := mk 0 0 0.
Definition pass (r : t) : t := mk (total r + 1) (passed r + 1) (failed r).
Definition fail (r : t) : t := mk (total r + 1) (passed r) (failed r + 1).
Definition check (r : t) (ok : bool) : t := if ok then pass r else fail r.
(** The argument of [process::exit]. *)
Definition exit_code (r : t) : Z := if 0 <? failed r then 1 else 0.
End TestRunner.

(** ** The loops that wait for a completion *)
Module Waiting.
(** [poll] returns what it wrote to the buffer; [sleep i] is what happens to the
    polled object during the sleep after poll number [i]. *)
Section Loop.
Context {S C : Type} (poll : S → list C * S) (sleep : nat → S → S).
Fixpoint poll_until (i polls : nat) (s : S) : option C * S :=
  match polls with
  | O => (None, s)
  | Datatypes.S k =>
      match poll s with
      | (c :: _, s) => (Some c, s)
      | ([], s) => poll_until (Datatypes.S i) k (sleep i s)
      end
  end.
End Loop.

Definition is_err {A E} (r : Result A E) : bool := match r with Err _ => true | Ok _ => false end.

Section Uring.
Context {R : Type} `{!IoUring R} (sleep : nat → R → R).
Definition during (i : nat) (b : BasicIoUring.t R) : BasicIoUring.t R :=
  BasicIoUring.mk (sleep i (BasicIoUring.ring b)) (BasicIoUring.inflight b) (BasicIoUring.pending_submit b).
Definition submit_and_wait (io : BasicIoUring.t R) (entry : SubmitEntry.t) (opcode : Z) :
    option IoCompletion.t * BasicIoUring.t R :=
  let '(r, io) := BasicIoUring.submit_with_opcode io entry opcode in
  if is_err r then (None, io)
  else
    let '(r, io) := BasicIoUring.flush io in
    if is_err r then (None, io)
    else poll_until (λ io, BasicIoUring.poll_completions io 4 4) during 0 200 io.
End Uring.

Section Pool.
Context {Q : Type → Type} `{!ArrayQueue Q} (sleep : nat → FixedPool.inner Q → FixedPool.inner Q).
(** [enqueue] and the loop after it; [i64::MIN] if nothing came. *)
Definition enqueue_and_wait (p : FixedPool.inner Q) (entry : SubmitEntry.t) : Z * FixedPool.inner Q :=
  let '(_, p) := FixedPool.enqueue p entry in
  let '(c, p) := poll_until (λ p, FixedPool.poll_completions p 4 4) sleep 0 200 p in
  (default (- 2 ^ 63) (WorkerCompletion.result <$> c), p).
End Pool.
End Waiting.

Module SmokeTest.
Import TestRunner.

(** *** Part B *)
Definition routed (r : ProbeRouter.t) (n : Z) (ti : Tier.t) : bool := bool_decide (RouteInfo.tier (route r n) = ti).
Definition test_routing (t : TestRunner.t) (r : ProbeRouter.t) : TestRunner.t :=
  let t0 := routed r nr.GETPID Tier.SharedPage && routed r nr.GETUID Tier.SharedPage
    && routed r nr.GETGID Tier.SharedPage && routed r nr.GETPPID Tier.SharedPage in
  let t := check t t0 in
  let t1 := routed r nr.READ Tier.IoUring && routed r nr.WRITE Tier.IoUring && routed r nr.OPENAT Tier.IoUring
    && routed r nr.CLOSE Tier.IoUring && routed r nr.STATX Tier.IoUring && routed r nr.ACCEPT4 Tier.IoUring
    && routed r nr.SENDTO Tier.IoUring && routed r nr.RECVFROM Tier.IoUring in
  let t := check t t1 in
  let t2 := routed r nr.SETSOCKOPT Tier.WorkerPool && routed r nr.DUP Tier.WorkerPool
    && routed r nr.LSEEK Tier.WorkerPool in
  let t := check t t2 in
  let c := tier_counts r in
  check t ((5 <=? TierCounts.tier0 c) && (15 <=? TierCounts.tier1 c)).

(** *** Part D: [orig_fd] and [fd2] are the descriptors of the files the test
    makes, [wrote fd] what [write] of the ten bytes to [fd] returns. *)
Section Tier2.
Context {Q : Type → Type} `{!ArrayQueue Q} (sleep : nat → FixedPool.inner Q → FixedPool.inner Q).
Context (orig_fd fd2 : Z) (wrote : Z → Z).
Definition test_tier2 (t : TestRunner.t) (r : ProbeRouter.t) (p : FixedPool.inner Q) : TestRunner.t * FixedPool.inner Q :=
  let t := check t (routed r nr.DUP Tier.WorkerPool) in
  let '(dup_fd, p) := Waiting.enqueue_and_wait sleep p (SubmitEntry.mk 20 nr.DUP 0 [wrap 64 orig_fd; 0; 0; 0; 0; 0]) in
  let t := check t (0 <=? dup_fd) in
  let t := if 0 <=? dup_fd then check t (wrote (as_i32 dup_fd) =? 10) else t in
  let t := check t (routed r nr.LSEEK Tier.WorkerPool) in
  let '(lseek_ret, p) := Waiting.enqueue_and_wait sleep p (SubmitEntry.mk 21 nr.LSEEK 0 [wrap 64 fd2; 5; 0; 0; 0; 0]) in
  (check t (lseek_ret =? 5), p).
End Tier2.

(** *** Part C *)
Section Tier1.
Context {R : Type} `{!IoUring R} (sleep : nat → R → R) (r : ProbeRouter.t).

(** One call through [submit_and_wait], with [result] or the value for none. *)
Definition ask (io : BasicIoUring.t R) (corr n : Z) (args : list Z) (none : Z) : Z * BasicIoUring.t R :=
  let '(c, io) := Waiting.submit_and_wait sleep io (SubmitEntry.mk corr n 0 args) (RouteInfo.iouring_opcode (route r n)) in
  (default none (IoCompletion.result <$> c), io).

Definition AT_FDCWD : Z := wrap 64 (-100).
(** [O_WRONLY | O_CREAT | O_TRUNC], and the mode 0644. *)
Definition O_CREATE : Z := Z.lor 1 (Z.lor 64 512).
Definition MODE : Z := 420.
Definition STATX_SIZE : Z := 0x200.
Definition test_data : list Z := bytes "hello from ksvc smoke test!" ++ [10].
Definition wdata : list Z := bytes "written by ksvc io_uring!" ++ [10].
Definition ping : list Z := bytes "ping from ksvc!".
Definition pong : list Z := bytes "pong from ksvc!".
Definition same (l m : list Z) : bool := bool_decide (l = m).

(** What the test sees beside the results: the addresses of its buffers and
    what they hold after the calls, and the results of the socket calls made in
    place. *)
Record files := Files {
  c_path : Z; rbuf_ptr : Z; rbuf : list Z; sx_ptr : Z; stx_size : Z; c_wpath : Z; wdata_ptr : Z; readback : list Z
}.
Record network := Network {
  listener : Z; bound : Z; peer_ptr : Z; plen_ptr : Z; nbuf_ptr : Z; nbuf : list Z; pong_ptr : Z;
  client_n : Z; client_buf : list Z
}.

Definition test_tier1_network (w : network) (t : TestRunner.t) (io : BasicIoUring.t R) : TestRunner.t * BasicIoUring.t R :=
  if listener w <? 0 then (fail t, io)
  else if bound w <? 0 then (fail t, io)
  else
    let '(acc_fd, io) := ask io 10 nr.ACCEPT4 [wrap 64 (listener w); peer_ptr w; plen_ptr w; SOCK_CLOEXEC; 0; 0] (-1) in
    let t := check t (0 <=? acc_fd) in
    if acc_fd <? 0 then (t, io)
    else
      let '(recv_n, io) := ask io 11 nr.RECVFROM [wrap 64 acc_fd; nbuf_ptr w; 64; 0; 0; 0] (-1) in
      let t := check t (recv_n =? Z.of_nat (length ping)) in
      let t := if 0 <? recv_n then check t (same (take (length ping) (nbuf w)) ping) else t in
      let '(send_n, io) := ask io 12 nr.SENDTO [wrap 64 acc_fd; pong_ptr w; Z.of_nat (length pong); 0; 0; 0] (-1) in
      let t := check t (send_n =? Z.of_nat (length pong)) in
      (if 0 <? send_n then
         check t ((client_n w =? Z.of_nat (length pong)) && same (take (length pong) (client_buf w)) pong)
       else t, io).

(** C6 and C7: the file that is written and read back. *)
Definition test_write (f : files) (t : TestRunner.t) (io : BasicIoUring.t R) : TestRunner.t * BasicIoUring.t R :=
  let '(wfd, io) := ask io 5 nr.OPENAT [AT_FDCWD; c_wpath f; O_CREATE; MODE; 0; 0] (-1) in
  let t := check t (0 <=? wfd) in
  if 0 <=? wfd then
    let '(wn, io) := ask io 6 nr.WRITE [wrap 64 wfd; wdata_ptr f; Z.of_nat (length wdata); 0; 0; 0] (-1) in
    let t := check t (wn =? Z.of_nat (length wdata)) in
    let '(_, io) := ask io 7 nr.CLOSE [wrap 64 wfd; 0; 0; 0; 0; 0] (-1) in
    (check t (same (readback f) wdata), io)
  else (t, io).

Definition test_tier1 (f : files) (w : network) (t : TestRunner.t) (io : BasicIoUring.t R) : TestRunner.t * BasicIoUring.t R :=
  let '(open_fd, io) := ask io 1 nr.OPENAT [AT_FDCWD; c_path f; 0; 0; 0; 0] (-999) in
  let t := check t (0 <=? open_fd) in
  if open_fd <? 0 then (t, io)
  else
    let '(read_n, io) := ask io 2 nr.READ [wrap 64 open_fd; rbuf_ptr f; 128; 0; 0; 0] (-1) in
    let t := check t (read_n =? Z.of_nat (length test_data)) in
    let t := if 0 <? read_n then check t (same (take (length test_data) (rbuf f)) test_data) else t in
    let '(sx_ret, io) := ask io 3 nr.STATX [AT_FDCWD; c_path f; 0; STATX_SIZE; sx_ptr f; 0] (-1) in
    let t := check t (sx_ret =? 0) in
    let t := if sx_ret =? 0 then check t (stx_size f =? Z.of_nat (length test_data)) else t in
    let '(cl_ret, io) := ask io 4 nr.CLOSE [wrap 64 open_fd; 0; 0; 0; 0; 0] (-1) in
    let t := check t (cl_ret =? 0) in
    let '(t, io) := test_write f t io in
    test_tier1_network w t io.
End Tier1.

(** *** Part A *)

(** What the system answers: whether the device can be opened, the event
    descriptor, the identity of the process, the addresses [mmap] chooses and
    whether the kernel can copy the parameters back. *)
Record process := Process {
  device : bool; efd : Z; getpid : Z; getuid : Z; getppid : Z; shared_at : Z; submit_at : Z; copy_back : bool
}.

(** The pages of the address space. *)
Definition munmap (space : list (Z * Z)) (addr len : Z) : list (Z * Z) :=
  filter (λ x, ¬ (addr ≤ x.1 < addr + len)) space.

Section Kmod.
Context {K : Type} `{!Kernel K}.
Import Kmod.
Context (insert : Z → Z → Z) (task : task_info) (pr : process).

(** The physical address behind the first page of a mapping. *)
Definition behind (l : list (Z * Z)) : Z := default 0 (x ← l !! 0%nat; page_address x.2).
Definition submit_ring_size : Z := 4096 + 4096 * ((64 * 64 + 4095) / 4096).
Definition create_params : ksvc_sys.KsvcCreateParams :=
  ksvc_sys.mkParams 64 64 (ksvc_sys.flags ksvc_sys.default_params) (efd pr) (ksvc_sys.reserved ksvc_sys.default_params).
Definition sp_offset (n : string) : Z := uapi.offsetof SharedPageLayout.fields n.

(** The checks of the mapped page, [a] being its address. *)
Definition check_page (t : TestRunner.t) (m : Mem.t) (a : Z) : TestRunner.t :=
  let u32 n := MmapSharedPage.read_u32 m a (sp_offset n) in
  let i32 n := MmapSharedPage.read_i32 m a (sp_offset n) in
  let t := check t ((u32 "magic" =? ksvc_sys.KSVC_SHARED_MAGIC) && (u32 "version" =? ksvc_sys.KSVC_VERSION)) in
  let t := check t (i32 "pid" =? getpid pr) in
  let t := check t (u32 "uid" =? getuid pr) in
  let t := check t (i32 "ppid" =? getppid pr) in
  let msp := mkMapped m a in
  check t ((sp_pid msp =? getpid pr) && (sp_uid msp =? getuid pr) && (sp_ppid msp =? getppid pr)).

(** A10, with the address space: the ring is unmapped again, with a length of
    four pages. *)
Definition check_ring (t : TestRunner.t) (s : sys K) (f : option (Z * ksvc_instance)) (space : list (Z * Z)) :
    TestRunner.t * list (Z * Z) :=
  let '(ret, _, l) := ksvc_mmap insert f
    (mkVma (submit_at pr) (submit_at pr + submit_ring_size) (ksvc_sys.KSVC_OFF_SUBMIT_RING / PAGE_SIZE) true true false false) in
  if ret =? 0 then
    let hdr := header_at (mem s) (behind l) in
    (check t ((ksvc_sys.magic hdr =? ksvc_sys.KSVC_RING_MAGIC) && (ksvc_sys.ring_size hdr =? 64)),
     munmap (space ++ l) (submit_at pr) (4096 * 4))
  else (fail t, space).

Definition test_kmod (t : TestRunner.t) (s : sys K) (space : list (Z * Z)) :
    TestRunner.t * option (Z * option (Z * ksvc_instance)) * sys K * list (Z * Z) :=
  let '(ret, f, s) := if device pr then ksvc_open s else (-2, None, s) in
  if negb (ret =? 0) then (fail t, None, s, space)
  else
    let t := pass t in
    let t := check t (0 <=? efd pr) in
    let '(ret, f, s) := ksvc_ioctl true task (Some create_params) (copy_back pr) s f in
    let t := check t (ret =? 0) in
    let '(ret, _, l) := ksvc_mmap insert f
      (mkVma (shared_at pr) (shared_at pr + 4096) (ksvc_sys.KSVC_OFF_SHARED_PAGE / PAGE_SIZE) false true false false) in
    let t := check t (ret =? 0) in
    if negb (ret =? 0) then (t, None, ksvc_release s f, space)
    else
      let t := check_page t (mem s) (behind l) in
      let '(t, space) := check_ring t s f (space ++ l) in
      (t, Some (shared_at pr, f), s, space).
End Kmod.

(** *** [main] after Part A: the other parts on one instance, and the exit code *)
Definition run_parts {R} `{!IoUring R} {Q : Type → Type} `{!ArrayQueue Q} (sleep : nat → R → R)
    (pool_sleep : nat → FixedPool.inner Q → FixedPool.inner Q) (f : files) (w : network) (orig_fd fd2 : Z) (wrote : Z → Z)
    (t : TestRunner.t) (r : ProbeRouter.t) (io : BasicIoUring.t R) (p : FixedPool.inner Q) : TestRunner.t * Z :=
  let t := test_routing t r in
  let '(t, io) := test_tier1 sleep r f w t io in
  let '(t, p) := test_tier2 pool_sleep orig_fd fd2 wrote t r p in
  (t, exit_code t).
End SmokeTest.

(** ** Lemmas *)

(** A tier holds at least the calls known to be in it. *)
Definition tier_of (c : TierCounts.t) (ti : Tier.t) : Z :=
  match ti with
  | Tier.SharedPage => TierCounts.tier0 c
  | Tier.IoUring => TierCounts.tier1 c
  | Tier.WorkerPool => TierCounts.tier2 c
  | Tier.Legacy => TierCounts.tier3 c
  end.

Lemma tier_counts_at_least (r : ProbeRouter.t) ti (ns : list nat) :
  NoDup ns → (∀ n, n ∈ ns → (n < 512)%nat ∧ RouteInfo.tier (route r (Z.of_nat n)) = ti) →
  Z.of_nat (length ns) ≤ tier_of (tier_counts r) ti.
Proof.
  intros Hnd Hns. set (P n := RouteInfo.tier (route r (Z.of_nat n)) = ti).
  assert (∀ l c, tier_of (fold_left (λ c nr, TierCounts.count c (RouteInfo.tier (route r (Z.of_nat nr)))) l c) ti =
    tier_of c ti + Z.of_nat (length (filter P l))) as Hl.
  { induction l as [|n l IH]; intros c; cbn [fold_left]; [cbn; lia|]. rewrite IH.
    destruct (decide (P n)) as [Hp|Hne].
    - rewrite filter_cons_True by done. cbn [length]. unfold P in Hp. rewrite Hp. destruct ti; cbn [tier_of TierCounts.count TierCounts.tier0 TierCounts.tier1 TierCounts.tier2 TierCounts.tier3]; lia.
    - rewrite filter_cons_False by done. clear - Hne. unfold P in Hne. destruct (RouteInfo.tier _), ti; cbn [tier_of TierCounts.count TierCounts.tier0 TierCounts.tier1 TierCounts.tier2 TierCounts.tier3]; done || lia. }
  unfold tier_counts. rewrite Hl. assert (ns ⊆+ filter P (seq 0 (table_size r))) as Hsub%submseteq_length.
  { apply NoDup_submseteq; [done|]. intros n Hn. destruct (Hns n Hn). apply list_elem_of_filter. split; [done|].
    apply elem_of_seq. change (table_size r) with ProbeRouter.TABLE_SIZE. unfold ProbeRouter.TABLE_SIZE. lia. }
  assert (tier_of TierCounts.default ti = 0) as -> by by destruct ti. lia.
Qed.

Lemma check_total t ok : TestRunner.total (TestRunner.check t ok) = TestRunner.total t + 1.
Proof. by destruct ok. Qed.
Lemma check_failed t ok : TestRunner.failed (TestRunner.check t ok) = TestRunner.failed t + (if ok then 0 else 1).
Proof. destruct ok; cbn; lia. Qed.
Lemma check_sum t ok :
  TestRunner.total t = TestRunner.passed t + TestRunner.failed t →
  TestRunner.total (TestRunner.check t ok) = TestRunner.passed (TestRunner.check t ok) + TestRunner.failed (TestRunner.check t ok).
Proof. destruct ok; cbn; lia. Qed.
Create HintDb smoke.
#[export] Hint Resolve check_sum : smoke.

(** The opcodes of the eight calls of the second check. *)
Definition needed : list Z := [op.READ; op.WRITE; op.OPENAT; op.CLOSE; op.STATX; op.ACCEPT; op.SEND; op.RECV].

(** Calls that these opcodes and [READV] send to io_uring. *)
Definition io_calls : list (nat * Z) :=
  [(0, op.READ); (1, op.WRITE); (2, op.OPENAT); (3, op.CLOSE); (4, op.STATX); (5, op.STATX); (6, op.STATX);
   (17, op.READ); (18, op.WRITE); (19, op.READV); (44, op.SEND); (45, op.RECV); (257, op.OPENAT); (288, op.ACCEPT);
   (332, op.STATX)]%nat.

Lemma io_calls_ok :
  Forall (λ x, (x.1 < 512)%nat ∧ x.2 ∈ op.READV :: needed ∧
    ∀ f, f x.2 = true → RouteInfo.tier (classify f (Z.of_nat x.1)) = Tier.IoUring) io_calls.
Proof.
  repeat apply Forall_cons_2; try apply Forall_nil_2.
  all: split; [cbn; lia|].
  all: split; [by apply (bool_decide_unpack _)|].
  all: intros f Hf; vm_compute in Hf; vm_compute; by rewrite Hf.
Qed.

Section Routing.
Context (supported : list Z) (r : ProbeRouter.t).
Abbreviation sup := (λ o, bool_decide (o ∈ supported)).
Hypothesis Hr : ∀ n, 0 ≤ n → route r n = if n <? 512 then classify sup n else RouteInfo.LEGACY.

Lemma routed_always n ti :
  in_u 9 n → (∀ f, RouteInfo.tier (classify f n) = ti) → SmokeTest.routed r n ti = true.
Proof.
  intros [H0 H1] Hf. unfold SmokeTest.routed. rewrite Hr by done. apply bool_decide_eq_true.
  destruct (Z.ltb_spec n 512); [apply Hf|cbn in H1; lia].
Qed.

Lemma routed_if n o :
  in_u 9 n → (∀ f, classify f n = if f o then RouteInfo.iouring o else RouteInfo.LEGACY) →
  SmokeTest.routed r n Tier.IoUring = sup o.
Proof.
  intros [H0 H1] Hf. unfold SmokeTest.routed. rewrite Hr by done.
  destruct (Z.ltb_spec n 512); [|cbn in H1; lia]. rewrite Hf.
  by destruct (bool_decide (o ∈ supported)).
Qed.

Lemma test_routing_checks t :
  ∃ counts, SmokeTest.test_routing t r =
    TestRunner.check (TestRunner.check (TestRunner.check (TestRunner.check t true)
      (forallb sup needed)) true) counts ∧
    (Forall (λ o, o ∈ supported) (op.READV :: needed) → counts = true).
Proof.
  assert (∀ n, 0 ≤ n < 512 → in_u 9 n) as H9 by (intros n Hn; exact Hn).
  unfold SmokeTest.test_routing.
  rewrite !(routed_always _ Tier.SharedPage), !(routed_always _ Tier.WorkerPool) by (done || (intros; reflexivity)).
  rewrite (routed_if nr.READ op.READ), (routed_if nr.WRITE op.WRITE), (routed_if nr.OPENAT op.OPENAT),
    (routed_if nr.CLOSE op.CLOSE), (routed_if nr.STATX op.STATX), (routed_if nr.ACCEPT4 op.ACCEPT),
    (routed_if nr.SENDTO op.SEND), (routed_if nr.RECVFROM op.RECV) by (done || (intros; reflexivity)).
  eexists. split.
  { cbn [forallb needed andb]. rewrite !andb_assoc, ?andb_true_r. reflexivity. }
  intros Hall. apply andb_true_iff. split; apply Z.leb_le.
  - apply (tier_counts_at_least r Tier.SharedPage [39; 102; 104; 110; 63]%nat).
    { apply (bool_decide_unpack _). vm_compute. exact I. }
    intros n Hn. assert (in_u 9 (Z.of_nat n) ∧ ∀ f, RouteInfo.tier (classify f (Z.of_nat n)) = Tier.SharedPage) as [H1 H2].
    { revert n Hn. apply Forall_forall. repeat constructor; vm_compute; done. }
    pose proof (routed_always _ _ H1 H2) as H%bool_decide_eq_true. split; [destruct H1; cbn in *; lia|done].
  - change 15 with (Z.of_nat (length (fst <$> io_calls))). apply (tier_counts_at_least r Tier.IoUring).
    { apply (bool_decide_unpack _). vm_compute. exact I. }
    intros n [[n' o] [-> Hn]]%list_elem_of_fmap. cbn [fst].
    destruct (proj1 (Forall_forall _ _) io_calls_ok _ Hn) as (H1 & Ho & H2). cbn [fst snd] in *. split; [lia|].
    rewrite Hr by lia. destruct (Z.ltb_spec (Z.of_nat n') 512); [|lia]. apply H2.
    apply bool_decide_eq_true. by apply (proj1 (Forall_forall _ _) Hall).
Qed.
End Routing.

(** ** Lemmas: waiting *)
Section WaitFacts.
Context {R : Type} `{!IoUring R} (sleep : nat → R → R).

(** The ring at poll number [i + k], if the polls before it find nothing. *)
Fixpoint ring_at (i k : nat) (r : R) : R :=
  match k with O => r | S k => ring_at (S i) k (sleep i (advance r 0)) end.
Definition quiet (i k : nat) (r : R) : Prop := ∀ j, (j < k)%nat → completion (ring_at i j r) = [].

Lemma quiet_S i k r : quiet i (S k) r → completion r = [] ∧ quiet (S i) k (sleep i (advance r 0)).
Proof. intros H. split; [apply (H 0%nat); lia|]. intros j Hj. apply (H (S j)). lia. Qed.

Lemma poll_until_uring polls : ∀ i (io : BasicIoUring.t R),
  let res := Waiting.poll_until (λ io, BasicIoUring.poll_completions io 4 4) (Waiting.during sleep) i polls io in
  (∀ k c rest, (k < polls)%nat → quiet i k (BasicIoUring.ring io) →
     completion (ring_at i k (BasicIoUring.ring io)) = c :: rest → res.1 = Some (to_completion c)) ∧
  (quiet i polls (BasicIoUring.ring io) → res.1 = None).
Proof.
  induction polls as [|polls IH]; intros i io res; (split; [intros k c rest Hk Hq Hc|intros Hq]); subst res; [lia|done|..];
    cbn [Waiting.poll_until]; unfold BasicIoUring.poll_completions; rewrite cqe_loop_spec.
  - destruct k as [|k]; [cbn [ring_at] in Hc; by rewrite Hc|]. apply quiet_S in Hq as [-> Hq]. cbn [take fmap list_fmap length Nat.min].
    by apply (proj1 (IH _ _) k c rest); [lia|..].
  - apply quiet_S in Hq as [-> Hq]. cbn [take fmap list_fmap length Nat.min]. by apply (IH _ _).
Qed.
End WaitFacts.

(** ** A kernel that answers at once: [answer] says with what *)
Module Answering.
Record t := mk { answer : sqe_op → Z; cap : Z; sq : list sqe; cq : list cqe }.
Definition done_by (r : t) (s : sqe) : cqe := mkCqe (sqe_user_data s) (answer r (sqe_body s)) 0.
Definition run (r : t) : Result Z (option Z) * t :=
  (Ok (Z.of_nat (length (sq r))), mk (answer r) (cap r) [] (cq r ++ (done_by r <$> sq r))).
#[global] Instance answering : IoUring t := {
  build n := Ok (mk (λ _, 0) n [] []);
  sq_is_full r := cap r <=? Z.of_nat (length (sq r));
  sq_push r s := if cap r <=? Z.of_nat (length (sq r)) then None else Some (mk (answer r) (cap r) (sq r ++ [s]) (cq r));
  submit := run;
  submit_and_wait r _ := run r;
  completion := cq;
  advance r n := mk (answer r) (cap r) (sq r) (drop n (cq r));
  sq_entries := cap;
  register_probe _ := None;
  completion_advance _ _ := eq_refl
}.

(** The back end with nothing in flight. *)
Definition idle (f : sqe_op → Z) (n : Z) : BasicIoUring.t t := BasicIoUring.mk (mk f n [] []) 0 0.

Lemma idle_wait sleep f n e o s :
  0 < n → BasicIoUring.build_op e o = Ok s →
  Waiting.submit_and_wait sleep (idle f n) e o =
    (Some (IoCompletion.mk (SubmitEntry.corr_id e) (f s) 0), idle f n).
Proof.
  intros Hc Hb. unfold Waiting.submit_and_wait, BasicIoUring.submit_with_opcode, BasicIoUring.translate_and_push,
    BasicIoUring.build_sqe. rewrite Hb. unfold idle.
  assert ((n <=? Z.of_nat 0) = false) as Hl by by apply Z.leb_gt.
  cbn [BasicIoUring.ring sq_is_full sq_push answering sq cap length]. rewrite Hl. reflexivity.
Qed.
End Answering.

(** ** Lemmas: Part C *)

(** The calls of Part C and their opcodes. *)
Definition tier1_calls : list (Z * Z) :=
  [(nr.READ, op.READ); (nr.WRITE, op.WRITE); (nr.OPENAT, op.OPENAT); (nr.CLOSE, op.CLOSE); (nr.STATX, op.STATX);
   (nr.ACCEPT4, op.ACCEPT); (nr.SENDTO, op.SEND); (nr.RECVFROM, op.RECV)].

(** A kernel on which the calls of Part C do what they say: the files have
    descriptors [fd1] and [fd2] and the connection [fd3]. *)
Record works (f : SmokeTest.files) (w : SmokeTest.network) (fd1 fd2 fd3 : Z) (answer : sqe_op → Z) : Prop := Works {
  w_fds : Forall KernelIo.is_fd [fd1; fd2; fd3; SmokeTest.listener w];
  w_open : answer (OpenAt (-100) (SmokeTest.c_path f) 0 0) = fd1;
  w_read : answer (Read fd1 (SmokeTest.rbuf_ptr f) 128 U64_MAX) = 28 ∧ take 28 (SmokeTest.rbuf f) = SmokeTest.test_data;
  w_statx : answer (Statx (-100) (SmokeTest.c_path f) (SmokeTest.sx_ptr f) 0 SmokeTest.STATX_SIZE) = 0 ∧
    SmokeTest.stx_size f = 28;
  w_close : answer (Close fd1) = 0;
  w_create : answer (OpenAt (-100) (SmokeTest.c_wpath f) SmokeTest.O_CREATE SmokeTest.MODE) = fd2;
  w_write : answer (Write fd2 (SmokeTest.wdata_ptr f) 26 U64_MAX) = 26 ∧ SmokeTest.readback f = SmokeTest.wdata;
  w_bound : 0 ≤ SmokeTest.bound w;
  w_accept : answer (Accept (SmokeTest.listener w) (SmokeTest.peer_ptr w) (SmokeTest.plen_ptr w) SOCK_CLOEXEC) = fd3;
  w_recv : answer (Recv fd3 (SmokeTest.nbuf_ptr w) 64 0) = 15 ∧ take 15 (SmokeTest.nbuf w) = SmokeTest.ping;
  w_send : answer (Send fd3 (SmokeTest.pong_ptr w) 15 0) = 15 ∧ SmokeTest.client_n w = 15 ∧
    take 15 (SmokeTest.client_buf w) = SmokeTest.pong
}.

Section Tier1Facts.
Context (supported : list Z) (r : ProbeRouter.t).
Hypothesis Hr : ∀ n, 0 ≤ n → route r n = if n <? 512 then classify (λ o, bool_decide (o ∈ supported)) n else RouteInfo.LEGACY.
Hypothesis Hsup : Forall (λ o, o ∈ supported) needed.
Context (sleep : nat → Answering.t → Answering.t) (g : sqe_op → Z) (n : Z) (Hn : 0 < n).

Lemma tier1_opcode m o : (m, o) ∈ tier1_calls → RouteInfo.iouring_opcode (route r m) = o.
Proof.
  intros H. assert (0 ≤ m < 512 ∧ o ∈ needed ∧ ∀ f, classify f m = if f o then RouteInfo.iouring o else RouteInfo.LEGACY)
    as (Hm & Ho & Hcl).
  { unfold tier1_calls in H. repeat (apply elem_of_cons in H as [[= -> ->]|H];
      [split; [done|split; [by apply (bool_decide_unpack _)|reflexivity]]|]). by apply elem_of_nil in H. }
  rewrite Hr, Hcl by lia. destruct (Z.ltb_spec m 512); [|lia].
  rewrite bool_decide_true; [done|]. by apply (proj1 (Forall_forall _ _) Hsup).
Qed.

Lemma ask_answers corr m o args d s :
  (m, o) ∈ tier1_calls → BasicIoUring.build_op (SubmitEntry.mk corr m 0 args) o = Ok s →
  SmokeTest.ask sleep r (Answering.idle g n) corr m args d = (g s, Answering.idle g n).
Proof.
  intros Hm Hb. unfold SmokeTest.ask. rewrite (tier1_opcode m o Hm).
  by rewrite (Answering.idle_wait sleep g n _ _ s Hn Hb).
Qed.

Context (f : SmokeTest.files) (w : SmokeTest.network) (fd1 fd2 fd3 : Z) (W : works f w fd1 fd2 fd3 g).
Abbreviation io := (Answering.idle g n).
Abbreviation passes t k := (TestRunner.mk (TestRunner.total t + k) (TestRunner.passed t + k) (TestRunner.failed t)).

Lemma call_in m o : bool_decide ((m, o) ∈ tier1_calls) = true → (m, o) ∈ tier1_calls.
Proof. apply bool_decide_eq_true. Qed.
Lemma small_u : in_u 32 0 ∧ in_u 31 0 ∧ in_u 32 128 ∧ in_u 32 26 ∧ in_u 32 64 ∧ in_u 32 15.
Proof. by vm_compute. Qed.
Lemma fd_tests a : KernelIo.is_fd a → (0 <=? a) = true ∧ (a <? 0) = false.
Proof. intros [? ?]. by rewrite Z.leb_le, Z.ltb_ge. Qed.

Ltac asked k m o s :=
  rewrite (ask_answers k m o _ _ s (call_in m o eq_refl))
    by (exact eq_refl || (apply built_accept; assumption) || (apply built; assumption)).

Lemma network_passes t : SmokeTest.test_tier1_network sleep r w t io = (passes t 5, io).
Proof.
  destruct W as [Hfds _ _ _ _ _ _ Hb Ha [Hr1 Hr2] (Hs1 & Hs2 & Hs3)]. rewrite !Forall_cons in Hfds.
  destruct Hfds as (_ & _ & H3 & Hl & _), small_u as (_ & S0 & _ & _ & S64 & S15).
  destruct (fd_tests _ Hl) as [_ El], (fd_tests _ H3) as [E1 E2]. unfold SmokeTest.test_tier1_network. rewrite El.
  rewrite (proj2 (Z.ltb_ge (SmokeTest.bound w) 0) Hb).
  asked 10 nr.ACCEPT4 op.ACCEPT (Accept (SmokeTest.listener w) (SmokeTest.peer_ptr w) (SmokeTest.plen_ptr w) SOCK_CLOEXEC). rewrite Ha, E1, E2.
  asked 11 nr.RECVFROM op.RECV (Recv fd3 (SmokeTest.nbuf_ptr w) 64 0). rewrite Hr1.
  change (length SmokeTest.ping) with 15%nat. change (length SmokeTest.pong) with 15%nat. change (Z.of_nat 15) with 15.
  asked 12 nr.SENDTO op.SEND (Send fd3 (SmokeTest.pong_ptr w) 15 0). rewrite Hs1.
  unfold SmokeTest.same. rewrite Hr2, Hs2, Hs3, !bool_decide_true by done.
  unfold TestRunner.check, TestRunner.pass. cbn. do 2 f_equal; lia.
Qed.

Lemma write_passes t : SmokeTest.test_write sleep r f t io = (passes t 3, io).
Proof.
  destruct W as [Hfds _ _ _ _ Hc [Hw1 Hw2] _ _ _ _]. rewrite !Forall_cons in Hfds.
  destruct Hfds as (_ & H2 & _), small_u as (U0 & S0 & _ & S26 & _), (fd_tests _ H2) as [E1 E2].
  unfold SmokeTest.test_write.
  asked 5 nr.OPENAT op.OPENAT (OpenAt (-100) (SmokeTest.c_wpath f) SmokeTest.O_CREATE SmokeTest.MODE). rewrite Hc, E1.
  change (length SmokeTest.wdata) with 26%nat. change (Z.of_nat 26) with 26.
  asked 6 nr.WRITE op.WRITE (Write fd2 (SmokeTest.wdata_ptr f) 26 U64_MAX). rewrite Hw1.
  asked 7 nr.CLOSE op.CLOSE (Close fd2).
  unfold SmokeTest.same. rewrite Hw2, bool_decide_true by done. unfold TestRunner.check, TestRunner.pass. cbn. do 2 f_equal; lia.
Qed.

Lemma tier1_passes t : SmokeTest.test_tier1 sleep r f w t io = (passes t 14, io).
Proof.
  pose proof W as [Hfds Ho [Hr1 Hr2] [Hs1 Hs2] Hc _ _ _ _ _ _]. rewrite !Forall_cons in Hfds.
  destruct Hfds as (H1 & _), small_u as (U0 & S0 & S128 & _), (fd_tests _ H1) as [E1 E2].
  unfold SmokeTest.test_tier1.
  asked 1 nr.OPENAT op.OPENAT (OpenAt (-100) (SmokeTest.c_path f) 0 0). rewrite Ho, E1, E2.
  change (length SmokeTest.test_data) with 28%nat. change (Z.of_nat 28) with 28.
  asked 2 nr.READ op.READ (Read fd1 (SmokeTest.rbuf_ptr f) 128 U64_MAX). rewrite Hr1.
  asked 3 nr.STATX op.STATX (Statx (-100) (SmokeTest.c_path f) (SmokeTest.sx_ptr f) 0 SmokeTest.STATX_SIZE). rewrite Hs1.
  asked 4 nr.CLOSE op.CLOSE (Close fd1). rewrite Hc.
  rewrite write_passes, network_passes. unfold SmokeTest.same. rewrite Hr2, Hs2, bool_decide_true by done.
  unfold TestRunner.check, TestRunner.pass. cbn. do 2 f_equal; lia.
Qed.
End Tier1Facts.

(** ** Lemmas: Part A *)
Section KmodFacts.
Context {K : Type} `{!Kernel K}.
Import Kmod SmokeTest.
Context (insert : Z → Z → Z) (task : task_info) (pr : process).
Hypothesis (Hins : ∀ a p, insert a p = 0).

(** The process the kernel sees is the one that runs the test. *)
Definition same_process : Prop := pid task = getpid pr ∧ uid task = getuid pr ∧ ppid task = getppid pr.

Lemma check_page_passes t (s : sys K) i a :
  task_ok task → same_process → shared_kaddr i = Some a →
  check_page pr t (mem (ksvc_shared_populate task s i)) a =
    TestRunner.mk (TestRunner.total t + 5) (TestRunner.passed t + 5) (TestRunner.failed t).
Proof.
  intros Ht (Hp & Hu & Hpp) Ha. destruct (populated_page task s i a Ht Ha) as ([Hm Hv] & H1 & _ & H3 & _ & _ & H6 & _).
  unfold check_page. cbv zeta. cbn [in_mem] in Hm, Hv. rewrite H1, H3, H6.
  change (sp_offset "magic") with (uapi.offsetof uapi.shared_page_fields "magic").
  change (sp_offset "version") with (uapi.offsetof uapi.shared_page_fields "version").
  rewrite Hm, Hv. set (m := mem _) in *.
  change (MmapSharedPage.read_i32 m a (sp_offset "pid")) with (sp_pid (mkMapped m a)).
  change (MmapSharedPage.read_i32 m a (sp_offset "ppid")) with (sp_ppid (mkMapped m a)).
  change (MmapSharedPage.read_u32 m a (sp_offset "uid")) with (sp_uid (mkMapped m a)).
  rewrite H1, H3, H6, Hp, Hu, Hpp, !Z.eqb_refl. unfold TestRunner.check, TestRunner.pass. cbn. f_equal; lia.
Qed.

Lemma shared_mapping fd i p :
  created i = true → shared_page i = Some p →
  ∃ v, ksvc_mmap insert (Some (fd, i))
    (mkVma (shared_at pr) (shared_at pr + 4096) (ksvc_sys.KSVC_OFF_SHARED_PAGE / PAGE_SIZE) false true false false) =
    (0, v, [(shared_at pr, p)]).
Proof.
  intros Hc Hp. unfold ksvc_mmap. rewrite Hc. cbn [negb vm_pgoff].
  change (wrap 64 (Z.shiftl (ksvc_sys.KSVC_OFF_SHARED_PAGE / PAGE_SIZE) PAGE_SHIFT)) with ksvc_sys.KSVC_OFF_SHARED_PAGE.
  cbn [ksvc_sys.KSVC_OFF_SHARED_PAGE ksvc_sys.KSVC_OFF_SUBMIT_RING ksvc_sys.KSVC_OFF_COMPLETE_RING Z.eqb Pos.eqb].
  unfold ksvc_shared_mmap. cbn [vm_start vm_end]. rewrite Hp.
  replace (shared_at pr + 4096 - shared_at pr) with PAGE_SIZE by (unfold PAGE_SIZE; lia).
  change (PAGE_SIZE -[64] 0) with PAGE_SIZE. change (wrap 64 PAGE_SIZE =? PAGE_SIZE) with true. cbn [negb].
  change (option_list (Some p)) with [p]. cbn [insert_pages]. rewrite Hins. eexists. reflexivity.
Qed.

Lemma check_ring_passes t (s : sys K) fd i space :
  created i = true → ring_made s (submit i) 64 64 → 0 ≤ submit_at pr → submit_at pr + submit_ring_size < 2 ^ 64 →
  ∃ l, check_ring insert pr t s (Some (fd, i)) space =
      (TestRunner.pass t, munmap (space ++ l) (submit_at pr) (4096 * 4)) ∧
    l.*1 = [submit_at pr; submit_at pr + 4096].
Proof.
  intros Hc (arr & ps & p & a & Hp & Hp0 & Ha & _ & Hnr & Hlen & _ & Hh & _) H0 H1.
  change (ring_pages_needed 64 64) with 2 in Hnr. assert (nr_pages (submit i) = 2%nat) as Hn by lia.
  rewrite Hn in Hlen. destruct ps as [|p0 [|p1 [|]]]; try done. injection Hp0 as ->.
  destruct (insert_pages_ok insert (submit_at pr) [p; p1] Hins H0) as (l & Hl & Hll & Hat); [change submit_ring_size with 8192 in H1; cbn [length]; lia|].
  pose proof (Hat 0%nat p eq_refl) as Hl0. pose proof (Hat 1%nat p1 eq_refl) as Hl1.
  destruct l as [|x0 [|x1 [|]]]; try done. injection Hl0 as ->. injection Hl1 as ->.
  exists [(submit_at pr + 4096 * Z.of_nat 0, p); (submit_at pr + 4096 * Z.of_nat 1, p1)]. split; [|cbn; f_equal; lia].
  unfold check_ring, ksvc_mmap. rewrite Hc. cbn [negb vm_pgoff].
  change (wrap 64 (Z.shiftl (ksvc_sys.KSVC_OFF_SUBMIT_RING / PAGE_SIZE) PAGE_SHIFT) =? ksvc_sys.KSVC_OFF_SUBMIT_RING) with true.
  unfold ksvc_ring_mmap, ring_pages. rewrite Hp, Hn. cbn [vm_start vm_end take]. rewrite Hl.
  replace (submit_at pr + submit_ring_size - submit_at pr) with submit_ring_size by lia.
  change (wrap 64 submit_ring_size =? wrap 64 (Z.shiftl (Z.of_nat 2) PAGE_SHIFT)) with true. cbn [negb Z.eqb].
  unfold behind. cbn [lookup list_lookup mbind option_bind snd]. rewrite Ha. cbn [default from_option]. unfold id. rewrite Hh.
  reflexivity.
Qed.
End KmodFacts.

(** ** Theorems *)



(** Part B on every kernel: the table is built whatever opcodes it reports, the
    checks of the shared page and of the worker pool always pass, and all four
    pass exactly when the kernel has the opcodes of the eight calls (and
    [READV], which brings the count of io_uring calls to fifteen). *)
Theorem smoke_routing_spec supported :
  Forall (in_u 8) supported →
  ∃ r, ProbeRouter.new supported = Ret r ∧ ∀ t,
    let t' := SmokeTest.test_routing t r in
    TestRunner.total t' = TestRunner.total t + 4 ∧
    TestRunner.failed t' ≤ TestRunner.failed t + 2 ∧
    (TestRunner.failed t' = TestRunner.failed t → Forall (λ o, o ∈ supported) needed) ∧
    (Forall (λ o, o ∈ supported) (op.READV :: needed) → TestRunner.failed t' = TestRunner.failed t).
Proof.
  intros Hs. destruct (new_routes supported Hs) as (r & -> & Hr). exists r. split; [done|]. intros t t'.
  destruct (test_routing_checks supported r Hr t) as (counts & E & Hcounts). subst t'.
  rewrite E, !check_total, !check_failed.
  assert (forallb (λ o, bool_decide (o ∈ supported)) needed = true ↔ Forall (λ o, o ∈ supported) needed) as Hall.
  { rewrite forallb_forall, Forall_forall. apply forall_proper. intros o. by rewrite bool_decide_eq_true, <- list_elem_of_In. }
  destruct (forallb _ needed), counts; split_and!; try lia; try (intros; by apply Hall);
    intros H; specialize (Hcounts H); try done; apply Forall_cons in H as [_ H]; apply Hall in H; done.
Qed.

Lemma smoke_routing_spec_witness :
  ∃ r, ProbeRouter.kernel_6_8 = Ret r ∧ TestRunner.failed (SmokeTest.test_routing TestRunner.new r) = 0.
Proof.
  destruct (smoke_routing_spec (seqZ 0 (op.FTRUNCATE + 1))) as (r & Hr & Ht).
  { apply (bool_decide_unpack _). vm_compute. exact I. }
  exists r. split; [exact Hr|]. destruct (Ht TestRunner.new) as (_ & _ & _ & Hok). apply Hok.
  apply (bool_decide_unpack _). vm_compute. exact I.
Defined.


(** What [submit_and_wait] returns: the first completion that is visible at one
    of its 200 polls, and nothing if there is none.  The correlation id is not
    compared, so a completion that is left from an operation given up before
    answers for this one. *)
Theorem smoke_wait_spec {R : Type} `{!IoUring R} (sleep : nat → R → R) io entry opcode u n io1 io2 :
  BasicIoUring.submit_with_opcode io entry opcode = (Ok u, io1) → BasicIoUring.flush io1 = (Ok n, io2) →
  let res := (Waiting.submit_and_wait sleep io entry opcode).1 in
  let ring k := ring_at sleep 0 k (BasicIoUring.ring io2) in
  (∀ k c rest, (k < 200)%nat → (∀ j, (j < k)%nat → completion (ring j) = []) → completion (ring k) = c :: rest →
     res = Some (to_completion c)) ∧
  ((∀ j, (j < 200)%nat → completion (ring j) = []) → res = None).
Proof.
  intros H1 H2 res ring. subst res ring. unfold Waiting.submit_and_wait. rewrite H1. cbn [Waiting.is_err]. rewrite H2.
  cbn [Waiting.is_err]. apply (poll_until_uring sleep 200 0 io2).
Qed.

(** A completion of operation 1 is taken for the one of operation 2. *)
Lemma smoke_wait_spec_witness :
  (Waiting.submit_and_wait (λ _ r, r) (BasicIoUring.mk (Loopback.mk 8 [] [mkCqe 1 5 0]) 1 0)
    (SubmitEntry.mk 2 nr.CLOSE 0 [7; 0; 0; 0; 0; 0]) op.CLOSE).1 = Some (IoCompletion.mk 1 5 0).
Proof.
  refine (proj1 (smoke_wait_spec (λ _ r, r) (BasicIoUring.mk (Loopback.mk 8 [] [mkCqe 1 5 0]) 1 0)
    (SubmitEntry.mk 2 nr.CLOSE 0 [7; 0; 0; 0; 0; 0]) op.CLOSE () 1 _ _ eq_refl eq_refl)
    0%nat (mkCqe 1 5 0) [mkCqe 2 0 0] _ _ eq_refl); [lia|intros j Hj; lia].
Defined.

Definition small_pool (w : list SubmitEntry.t) (r : list WorkerCompletion.t) : FixedPool.inner list_queue :=
  FixedPool.mkInner (mkListQueue 4 w) (mkListQueue 4 r) 0 false 1.

(** A worker that runs the oldest request once a second one waits, and answers
    each correctly: [dup] with descriptor 7, [lseek] with position 5. *)
Definition late_worker (i : nat) (p : FixedPool.inner list_queue) : FixedPool.inner list_queue :=
  match aq_items (FixedPool.work_queue p) with
  | e :: e2 :: rest =>
      small_pool (e2 :: rest)
        (aq_items (FixedPool.result_queue p) ++
           [WorkerCompletion.mk (SubmitEntry.corr_id e) (if SubmitEntry.syscall_nr e =? nr.DUP then 7 else 5)])
  | _ => p
  end.

(** Part D takes an answer that comes late for the next one: with a slow worker
    the wait for [dup] ends without an answer, and the descriptor it returns
    later is read as the position [lseek] returns.  Both operations work, and
    two of the four checks fail. *)
Theorem smoke_mixes_up_answers r :
  SmokeTest.routed r nr.DUP Tier.WorkerPool = true → SmokeTest.routed r nr.LSEEK Tier.WorkerPool = true →
  let dup := Waiting.enqueue_and_wait late_worker (small_pool [] []) (SubmitEntry.mk 20 nr.DUP 0 [3; 0; 0; 0; 0; 0]) in
  let lseek := Waiting.enqueue_and_wait late_worker dup.2 (SubmitEntry.mk 21 nr.LSEEK 0 [4; 5; 0; 0; 0; 0]) in
  dup.1 = - 2 ^ 63 ∧ lseek.1 = 7 ∧
  (SmokeTest.test_tier2 late_worker 3 4 (λ _, 10) TestRunner.new r (small_pool [] [])).1 = TestRunner.mk 4 2 2.
Proof.
  intros H1 H2 dup lseek. subst dup lseek. split; [vm_compute; reflexivity|]. split; [vm_compute; reflexivity|].
  unfold SmokeTest.test_tier2. rewrite H1, H2. vm_compute. reflexivity.
Qed.

Lemma smoke_mixes_up_answers_witness :
  ∃ r, (SmokeTest.test_tier2 late_worker 3 4 (λ _, 10) TestRunner.new r (small_pool [] [])).1 = TestRunner.mk 4 2 2.
Proof.
  exists (ProbeRouter.mk (replicate 512 RouteInfo.worker)).
  refine (proj2 (proj2 (smoke_mixes_up_answers (ProbeRouter.mk (replicate 512 RouteInfo.worker)) _ _))); vm_compute; reflexivity.
Defined.

(** A kernel and a pool on which everything works: the files are 5 and 6, the
    connection is 8, and the worker answers during the first sleep. *)
Definition good_answers (s : sqe_op) : Z :=
  match s with
  | OpenAt _ p _ _ => if p =? 1000 then 5 else 6
  | Read _ _ _ _ => 28
  | Write _ _ n _ => n
  | Accept _ _ _ _ => 8
  | Send _ _ n _ => n
  | Recv _ _ _ _ => 15
  | _ => 0
  end.
Definition good_files : SmokeTest.files :=
  SmokeTest.Files 1000 2000 (SmokeTest.test_data ++ replicate 100 0) 3000 28 4000 5000 SmokeTest.wdata.
Definition good_network : SmokeTest.network :=
  SmokeTest.Network 7 0 6000 6100 6200 (SmokeTest.ping ++ replicate 49 0) 6300 15 (SmokeTest.pong ++ replicate 49 0).
Definition prompt_worker (i : nat) (p : FixedPool.inner list_queue) : FixedPool.inner list_queue :=
  match aq_items (FixedPool.work_queue p) with
  | e :: rest =>
      small_pool rest
        (aq_items (FixedPool.result_queue p) ++
           [WorkerCompletion.mk (SubmitEntry.corr_id e) (if SubmitEntry.syscall_nr e =? nr.DUP then 9 else 5)])
  | _ => p
  end.

Lemma good_works : works good_files good_network 5 6 8 good_answers.
Proof.
  assert (∀ x, 0 ≤ x < 100 → KernelIo.is_fd x) as H by (unfold KernelIo.is_fd; intros; lia).
  split; try done. repeat apply Forall_cons_2; try apply Forall_nil_2; apply H; vm_compute; split; discriminate || reflexivity.
Qed.

