(* ===== verification/Wrkr.v ===== *)
(** * The load generator

    [cmd/wrkr/rust/wrkr/src/main.rs]: the command line and its overrides, the
    address of an echo server, one round trip of the echo strategy, the loops
    of the connections, the merge of their results, and the statistics, with
    [f64] as the binary64 numbers of the standard library's SpecFloat. *)
From Stdlib Require Import Ascii Floats.SpecFloat.
From stdpp Require Import base list strings gmap sorting.
From S2P Require Import Prelude Config.
Local Open Scope Z_scope.
Local Open Scope rust_scope.

(** ** binary64 *)
Module F64.
Definition t : Type := spec_float.
(** [as f64] of an unsigned integer, rounded to nearest, ties to even. *)
Definition of_u64 (n : Z) : t := binary_normalize 53 1024 n 0 false.
Definition div : t → t → t := SFdiv 53 1024.
Definition mul : t → t → t := SFmul 53 1024.
Definition sub : t → t → t := SFsub 53 1024.

(** [x.ceil() as usize]: saturates, and a NaN gives zero. *)
Definition ceil_as_usize (x : t) : Z :=
  match x with
  | S754_finite false m e =>
      Z.min (2 ^ 64 - 1) (if 0 <=? e then Z.pos m * 2 ^ e else - ((- Z.pos m) `div` 2 ^ (- e)))
  | S754_infinity false => 2 ^ 64 - 1
  | _ => 0
  end.
End F64.

Module Wrkr.

(** ** The command line *)
Inductive HttpImpl := Hyper | Reqwest.
#[global] Instance HttpImpl_eq_dec : EqDecision HttpImpl.
Proof. solve_decision. Defined.

Record Cfg := mkCfg {
  url : string; connections : Z; duration_sec : Z; warmup_sec : Z;
  keepalive : bool; payload_size : Z; http_impl : HttpImpl
}.
Definition default_cfg : Cfg := mkCfg "" 50 10 0 true 64 Hyper.
Definition set_url (c : Cfg) (v : string) : Cfg :=
  mkCfg v (connections c) (duration_sec c) (warmup_sec c) (keepalive c) (payload_size c) (http_impl c).
Definition set_connections (c : Cfg) (v : Z) : Cfg :=
  mkCfg (url c) v (duration_sec c) (warmup_sec c) (keepalive c) (payload_size c) (http_impl c).
Definition set_duration (c : Cfg) (v : Z) : Cfg :=
  mkCfg (url c) (connections c) v (warmup_sec c) (keepalive c) (payload_size c) (http_impl c).
Definition set_warmup (c : Cfg) (v : Z) : Cfg :=
  mkCfg (url c) (connections c) (duration_sec c) v (keepalive c) (payload_size c) (http_impl c).
Definition set_keepalive (c : Cfg) (v : bool) : Cfg :=
  mkCfg (url c) (connections c) (duration_sec c) (warmup_sec c) v (payload_size c) (http_impl c).
Definition set_payload (c : Cfg) (v : Z) : Cfg :=
  mkCfg (url c) (connections c) (duration_sec c) (warmup_sec c) (keepalive c) v (http_impl c).
Definition set_http (c : Cfg) (v : HttpImpl) : Cfg :=
  mkCfg (url c) (connections c) (duration_sec c) (warmup_sec c) (keepalive c) (payload_size c) v.

Definition parse_u64 (s : string) : option Z := SchedulerConfig.parse_uint 64 s.

(** [trim_end_matches(c)], [starts_with] and lower case on the bytes of a
    string; the Unicode lower case differs, but not on a prefix of ASCII
    letters without k. *)
Fixpoint trim_end (a : Ascii.ascii) (s : string) : string :=
  match s with
  | EmptyString => EmptyString
  | String b s' =>
      let t := trim_end a s' in
      if bool_decide (t = EmptyString) && bool_decide (b = a) then EmptyString else String b t
  end.
Definition starts_with (p s : string) : bool := String.prefix p s.
Definition lower (a : Ascii.ascii) : Ascii.ascii :=
  let n := Ascii.N_of_ascii a in
  if (65 <=? n)%N && (n <=? 90)%N then Ascii.ascii_of_N (n + 32) else a.
Definition to_lowercase (s : string) : string :=
  String.string_of_list_ascii (lower <$> String.list_ascii_of_string s).

(** The process may exit with a code instead of returning a configuration. *)
Inductive parsed := Parsed (c : Cfg) | Exit (code : Z).

(** [args.get(i).and_then(..).unwrap_or(default)] with [i] already advanced. *)
Definition value (parse : string → option Z) (arg : option string) (default : Z) : Z :=
  match arg with Some s => match parse s with Some n => n | None => default end | None => default end.

Definition parse_secs (s : string) : option Z := parse_u64 (trim_end "s"%char s).

Definition header_closes (arg : option string) : bool :=
  match arg with Some h => starts_with "connection: close" (to_lowercase h) | None => false end.

(** The flags that take a value. *)
Definition valued (a : string) : option (Cfg → option string → Cfg) :=
  if bool_decide (a ∈ ["-c"; "--connections"]) then Some (λ c v, set_connections c (value parse_u64 v 50))
  else if bool_decide (a ∈ ["-d"; "--duration"]) then Some (λ c v, set_duration c (value parse_secs v 10))
  else if bool_decide (a = "--warmup") then Some (λ c v, set_warmup c (value parse_secs v 0))
  else if bool_decide (a ∈ ["-H"; "--header"]) then
    Some (λ c v, if header_closes v then set_keepalive c false else c)
  else if bool_decide (a = "--payload") then Some (λ c v, set_payload c (value parse_u64 v 64))
  else None.

Fixpoint arg_loop (args : list string) (c : Cfg) : parsed :=
  match args with
  | [] => Parsed c
  | a :: rest =>
      match valued a with
      | Some f => match rest with [] => Parsed (f c None) | v :: rest => arg_loop rest (f c (Some v)) end
      | None =>
          if bool_decide (a = "--no-keepalive") then arg_loop rest (set_keepalive c false)
          else if bool_decide (a ∈ ["-h"; "--help"]) then Exit 0
          else if negb (starts_with "-" a) && bool_decide (url c = "") then arg_loop rest (set_url c a)
          else Exit 1
      end
  end.

Definition override (env : gmap string string) (key : string) (set : Cfg → Z → Cfg) (c : Cfg) : Cfg :=
  match env !! key with
  | Some v => match parse_u64 v with Some n => set c n | None => c end
  | None => c
  end.

Definition parse_args (env : gmap string string) (args : list string) : parsed :=
  match arg_loop args default_cfg with
  | Exit n => Exit n
  | Parsed c =>
      let c := override env "WRKR_CONNECTIONS" set_connections c in
      let c := override env "WRKR_DURATION" set_duration c in
      let c := override env "WRKR_WARMUP" set_warmup c in
      let r := match env !! "gvt_app_http" with
               | None => Some c
               | Some v => if bool_decide (v = "reqwest") then Some (set_http c Reqwest)
                           else if bool_decide (v = "hyper") then Some (set_http c Hyper) else None
               end in
      match r with
      | None => Exit 1
      | Some c =>
          let c := if starts_with "https://" (url c) && bool_decide (http_impl c = Hyper) then set_http c Reqwest else c in
          if bool_decide (url c = "") then Exit 1 else Parsed c
      end
  end.

(** [rfind(':')]: the text before and after the last colon. *)
Fixpoint split_last (a : Ascii.ascii) (s : string) : option (string * string) :=
  match s with
  | EmptyString => None
  | String b s' =>
      match split_last a s' with
      | Some (x, y) => Some (String b x, y)
      | None => if bool_decide (b = a) then Some (EmptyString, s') else None
      end
  end.
Fixpoint strip_prefix (p s : string) : option string :=
  match p, s with
  | EmptyString, _ => Some s
  | String a p, String b s => if bool_decide (a = b) then strip_prefix p s else None
  | _, _ => None
  end.
Definition parse_echo_addr (u : string) : string * Z :=
  let rest := trim_end "/"%char (default u (strip_prefix "echo://" u)) in
  match split_last ":"%char rest with
  | Some (host, port) => (host, default 9000 (SchedulerConfig.parse_uint 16 port))
  | None => (rest, 9000)
  end.

Definition strategy_name (c : Cfg) : string :=
  if starts_with "echo://" (url c) then "echo"
  else ((if starts_with "https" (url c) then "https" else "http") +:+ "+" +:+
        match http_impl c with Hyper => "hyper" | Reqwest => "reqwest" end)%string.

(** ** Measuring *)

(** A stream of the echo strategy: [write_all] succeeds or fails, [read] gives
    the bytes that arrived for a buffer of the given length. *)
Section Roundtrip.
Context {S E : Type} (write_all : S → list Z → Result () E * S) (read : S → Z → Result (list Z) E * S).
Context (eof : E).

(** The loop of [roundtrip]: [None] if the fuel is short. *)
Fixpoint read_all (fuel : nat) (s : S) (want total : Z) : option (outcome (Result () E) * S) :=
  if negb (total <? want) then Some (Ret (Ok ()), s)
  else
    match fuel with
    | O => None
    | Datatypes.S fuel =>
        if want <? total then Some (Panic, s)
        else
          match read s (want - total) with
          | (Err e, s) => Some (Ret (Err e), s)
          | (Ok data, s) =>
              let n := Z.of_nat (length data) in
              if n =? 0 then Some (Ret (Err eof), s) else read_all fuel s want (total +[64] n)
          end
    end.

Definition roundtrip (fuel : nat) (s : S) (payload_size : Z) : option (outcome (Result () E) * S) :=
  let send_buf := replicate (Z.to_nat payload_size) 0x42 in
  match write_all s send_buf with
  | (Err e, s) => Some (Ret (Err e), s)
  | (Ok _, s) => read_all fuel s (Z.of_nat (length send_buf)) 0
  end.
End Roundtrip.

Record ConnResult := mkConn { requests : Z; errors : Z; latencies_ns : list Z }.
Definition conn_start : ConnResult := mkConn 0 0 [].

(** One request that took [lat] nanoseconds; one that failed. *)
Definition succeed (collect : bool) (r : ConnResult) (lat : Z) : ConnResult :=
  mkConn (requests r +[64] 1) (errors r) (if collect then push_back (latencies_ns r) lat else latencies_ns r).
Definition fail (r : ConnResult) : ConnResult := mkConn (requests r) (errors r +[64] 1) (latencies_ns r).

(** The task of an HTTP connection: its requests until [stop], each with its
    latency or failed; with what it adds to the shared counter. *)
Fixpoint http_task (collect : bool) (reqs : list (option Z)) (r : ConnResult) (counter : Z) : ConnResult * Z :=
  match reqs with
  | [] => (r, counter)
  | Some lat :: reqs => http_task collect reqs (succeed collect r lat) (counter +[64] 1)
  | None :: reqs => http_task collect reqs (fail r) counter
  end.

(** The task of an echo connection: it reconnects after an error, and ends if
    that fails.  [None] at the start is a failed first connection. *)
Inductive echo_event := Answered (lat : Z) | Failed (reconnected : bool).
Fixpoint echo_loop (collect : bool) (evs : list echo_event) (r : ConnResult) (counter : Z) : ConnResult * Z :=
  match evs with
  | [] => (r, counter)
  | Answered lat :: evs => echo_loop collect evs (succeed collect r lat) (counter +[64] 1)
  | Failed true :: evs => echo_loop collect evs (fail r) counter
  | Failed false :: _ => (fail r, counter)
  end.
Definition echo_task (collect connected : bool) (evs : list echo_event) (counter : Z) : ConnResult * Z :=
  if connected then echo_loop collect evs conn_start counter else (mkConn 0 1 [], counter).

(** [merge_results]: the tasks in order, [None] for one that panicked. *)
Record PhaseResult := mkPhase { total_requests : Z; total_errors : Z; all_latencies : list Z }.
Definition merge_one (collect : bool) (p : PhaseResult) (h : option ConnResult) : PhaseResult :=
  match h with
  | Some r => mkPhase (total_requests p +[64] requests r) (total_errors p +[64] errors r)
                      (if collect then all_latencies p ++ latencies_ns r else all_latencies p)
  | None => p
  end.
Definition merge_results (collect : bool) (handles : list (option ConnResult)) : PhaseResult :=
  foldl (merge_one collect) (mkPhase 0 0 []) handles.

(** The tasks of an HTTP phase; their additions to the counter commute, so they
    are taken one after the other. *)
Fixpoint http_phase (collect : bool) (tasks : list (list (option Z))) (counter : Z) : list ConnResult * Z :=
  match tasks with
  | [] => ([], counter)
  | reqs :: tasks =>
      let '(r, counter) := http_task collect reqs conn_start counter in
      let '(rs, counter) := http_phase collect tasks counter in
      (r :: rs, counter)
  end.

(** ** Statistics *)
Record Stats := mkStats {
  min_us : F64.t; max_us : F64.t; avg_us : F64.t;
  p50_us : F64.t; p75_us : F64.t; p90_us : F64.t; p99_us : F64.t; p99_9_us : F64.t
}.

Definition hundred : F64.t := F64.of_u64 100.
Definition micros (ns : Z) : F64.t := F64.div (F64.of_u64 ns) (F64.of_u64 1000).

(** [99.9] is the double nearest to 999/10. *)
Definition P99_9 : F64.t := F64.div (F64.of_u64 999) (F64.of_u64 10).

(** The index of a percentile among [n] sorted latencies. *)
Definition pct_index (p : F64.t) (n : Z) : Z :=
  Z.min (F64.ceil_as_usize (F64.mul (F64.div p hundred) (F64.sub (F64.of_u64 n) (F64.of_u64 1)))) (n - 1).

(** [lat.iter().sum()] wraps; [sort_unstable] on integers is the sort. *)
Definition compute_stats (lat : list Z) : outcome Stats :=
  match lat with
  | [] => let z := S754_zero false in Ret (mkStats z z z z z z z z)
  | _ =>
      let lat := merge_sort (≤) lat in
      let n := Z.of_nat (length lat) in
      let sum := foldl (λ a x, a +[64] x) 0 lat in
      let pct p := x ← index lat (pct_index p n); Ret (micros x) in
      lo ← index lat 0; hi ← index lat (n - 1);
      a ← pct (F64.of_u64 50); b ← pct (F64.of_u64 75); c ← pct (F64.of_u64 90);
      d ← pct (F64.of_u64 99); e ← pct P99_9;
      Ret (mkStats (micros lo) (micros hi)
             (F64.div (F64.div (F64.of_u64 sum) (F64.of_u64 n)) (F64.of_u64 1000)) a b c d e)
  end.

(** The escape of [emit_json]: backslashes first, then quotes. *)
Definition backslash : Ascii.ascii := Ascii.ascii_of_nat 92.
Definition quote : Ascii.ascii := Ascii.ascii_of_nat 34.
Definition escape_char (a b : Ascii.ascii) : list Ascii.ascii := if bool_decide (a = b) then [backslash; b] else [b].
Definition escape (s : list Ascii.ascii) : list Ascii.ascii := (s ≫= escape_char backslash) ≫= escape_char quote.
End Wrkr.

(** ** The statistics *)

Lemma ceil_nonneg x : 0 ≤ F64.ceil_as_usize x.
Proof.
  unfold F64.ceil_as_usize. destruct x as [| [|] | |[|] m e]; try lia. apply Z.min_glb; [lia|].
  destruct (Z.leb_spec 0 e); [pose proof (Z.pow_nonneg 2 e); nia|].
  assert (Hd : (- Z.pos m) `div` 2 ^ (- e) ≤ 0) by (apply Z.div_le_upper_bound; [apply Z.pow_pos_nonneg; lia|lia]). lia.
Qed.

Lemma pct_index_range p n : 0 < n → 0 ≤ Wrkr.pct_index p n < n.
Proof. intros Hn. unfold Wrkr.pct_index. pose proof (ceil_nonneg (F64.mul (F64.div p Wrkr.hundred) (F64.sub (F64.of_u64 n) (F64.of_u64 1)))). lia. Qed.

(** An entry of a sorted list lies between the first and the last. *)
Lemma sorted_between (l : list Z) i x :
  Sorted (≤) l → l !! i = Some x → ∃ lo hi, l !! 0%nat = Some lo ∧ l !! (length l - 1)%nat = Some hi ∧ lo ≤ x ≤ hi.
Proof.
  intros Hs Hx. apply Sorted_StronglySorted in Hs; [|intros a b c; lia].
  pose proof (lookup_lt_Some _ _ _ Hx) as Hlt.
  destruct (lookup_lt_is_Some_2 l 0) as [lo Hlo]; [lia|].
  destruct (lookup_lt_is_Some_2 l (length l - 1)) as [hi Hhi]; [lia|]. exists lo, hi.
  assert (Hmono : ∀ j k a b, l !! j = Some a → l !! k = Some b → (j ≤ k)%nat → a ≤ b).
  { intros j k a b Ha Hb Hjk. destruct (decide (j = k)) as [->|]; [simplify_eq; lia|].
    rewrite <- (take_drop (S j) l) in Hs. eapply (StronglySorted_app_1_elem_of (≤) _ _ _ _ Hs).
    - apply list_elem_of_lookup. exists j. rewrite lookup_take_lt by lia. done.
    - apply list_elem_of_lookup. exists (k - S j)%nat. rewrite lookup_drop. rewrite <- Hb. f_equal. lia. }
  split_and!; [done|done|eapply Hmono; [done|done|lia]|eapply Hmono; [done|done|lia]].
Qed.

(** The statistics never panic.  Minimum and maximum are those of the measured
    latencies, and every percentile is a measured latency. *)
Theorem compute_stats_spec lat :
  lat ≠ [] →
  ∃ st lo hi, Wrkr.compute_stats lat = Ret st ∧ lo ∈ lat ∧ hi ∈ lat ∧ (∀ x, x ∈ lat → lo ≤ x ≤ hi) ∧
    Wrkr.min_us st = Wrkr.micros lo ∧ Wrkr.max_us st = Wrkr.micros hi ∧
    ∀ f, f ∈ [Wrkr.p50_us; Wrkr.p75_us; Wrkr.p90_us; Wrkr.p99_us; Wrkr.p99_9_us] →
      ∃ x, x ∈ lat ∧ f st = Wrkr.micros x.
Proof.
  intros Hne. destruct lat as [|y ys]; [done|]. unfold Wrkr.compute_stats. set (l := y :: ys) in *.
  pose proof (merge_sort_Permutation (≤) l) as Hp. pose proof (Sorted_merge_sort (≤) l) as Hs.
  set (sl := merge_sort (≤) l) in *. assert (Hlen : (0 < length sl)%nat) by (rewrite Hp; simpl; lia).
  assert (Hix : ∀ p, ∃ x, index sl (Wrkr.pct_index p (Z.of_nat (length sl))) = Ret x ∧ x ∈ l).
  { intros p. destruct (index_is_Ret sl (Wrkr.pct_index p (Z.of_nat (length sl)))) as (x & Hx & Hl);
      [apply pct_index_range; lia|]. exists x. split; [done|]. rewrite <- Hp. by eapply list_elem_of_lookup_2. }
  destruct (index_is_Ret sl 0) as (lo & -> & Hlo); [lia|].
  destruct (index_is_Ret sl (Z.of_nat (length sl) - 1)) as (hi & -> & Hhi); [lia|]. cbn [mbind outcome_bind].
  destruct (Hix (F64.of_u64 50)) as (a & -> & Ha), (Hix (F64.of_u64 75)) as (b & -> & Hb),
    (Hix (F64.of_u64 90)) as (c & -> & Hc), (Hix (F64.of_u64 99)) as (d & -> & Hd), (Hix Wrkr.P99_9) as (e & -> & He).
  cbn [mbind outcome_bind]. eexists _, lo, hi. split_and!; [done| | | |done|done|].
  - rewrite <- Hp. by eapply list_elem_of_lookup_2.
  - rewrite <- Hp. by eapply list_elem_of_lookup_2.
  - intros x Hx. rewrite <- Hp in Hx. apply list_elem_of_lookup in Hx as [i Hi].
    destruct (sorted_between sl i x Hs Hi) as (lo' & hi' & Hlo' & Hhi' & ?).
    replace (Z.to_nat (Z.of_nat (length sl) - 1)) with (length sl - 1)%nat in Hhi by lia.
    change (Z.to_nat 0) with 0%nat in Hlo. by simplify_eq.
  - intros f Hf. repeat (apply elem_of_cons in Hf as [->|Hf]; [eauto|]). by apply elem_of_nil in Hf.
Qed.

Lemma compute_stats_spec_witness :
  ∃ st, Wrkr.compute_stats [3000; 1000; 2000] = Ret st ∧
    ∃ x, x ∈ [3000; 1000; 2000] ∧ Wrkr.p50_us st = Wrkr.micros x.
Proof.
  destruct (compute_stats_spec [3000; 1000; 2000]) as (st & lo & hi & H1 & _ & _ & _ & _ & _ & H2); [discriminate|].
  exists st. split; [exact H1|]. apply H2. apply elem_of_cons. left. reflexivity.
Defined.

(** The index the percentile asks for, rounded up exactly. *)
Definition exact_index (num den n : Z) : Z := - ((- (num * (n - 1))) `div` den).

(** The 50th, 75th, 90th and 99th percentile are at the exact index for every
    number of latencies up to 200; for 1001 latencies the 99.9th is one too
    high, and the reported value is the maximum: 99.9/100 is rounded up. *)
Theorem percentile_indices :
  (∀ n, 1 ≤ n ≤ 200 →
     Wrkr.pct_index (F64.of_u64 50) n = exact_index 50 100 n ∧ Wrkr.pct_index (F64.of_u64 75) n = exact_index 75 100 n ∧
     Wrkr.pct_index (F64.of_u64 90) n = exact_index 90 100 n ∧ Wrkr.pct_index (F64.of_u64 99) n = exact_index 99 100 n) ∧
  Wrkr.pct_index Wrkr.P99_9 1001 = 1000 ∧ exact_index 999 1000 1001 = 999.
Proof.
  split; [|by vm_compute]. intros n Hn.
  assert (Hall : forallb (λ n, (Wrkr.pct_index (F64.of_u64 50) n =? exact_index 50 100 n) &&
      (Wrkr.pct_index (F64.of_u64 75) n =? exact_index 75 100 n) &&
      (Wrkr.pct_index (F64.of_u64 90) n =? exact_index 90 100 n) &&
      (Wrkr.pct_index (F64.of_u64 99) n =? exact_index 99 100 n)) (seqZ 1 200) = true) by by vm_compute.
  rewrite forallb_forall in Hall. specialize (Hall n). rewrite !andb_true_iff, !Z.eqb_eq in Hall.
  destruct Hall as [[[H1 H2] H3] H4]; [apply list_elem_of_In, elem_of_seqZ; lia|].
  exact (conj H1 (conj H2 (conj H3 H4))).
Qed.

(** ** The accounts of a phase *)

Definition answered (reqs : list (option Z)) : list Z := omap id reqs.

Lemma http_task_spec collect reqs r k :
  in_u 64 (Wrkr.requests r) → in_u 64 (Wrkr.errors r) → in_u 64 k →
  let n := Z.of_nat (length (answered reqs)) in
  Wrkr.http_task collect reqs r k =
    (Wrkr.mkConn (Wrkr.requests r +[64] n) (Wrkr.errors r +[64] (Z.of_nat (length reqs) - n))
       (if collect then Wrkr.latencies_ns r ++ answered reqs else Wrkr.latencies_ns r), k +[64] n).
Proof.
  revert r k. induction reqs as [|[lat|] reqs IH]; intros r k H1 H2 H3; cbn [Wrkr.http_task].
  - simpl. rewrite !Z.add_0_r, !wrap_small, app_nil_r by done. destruct r; by destruct collect.
  - rewrite IH by (done || (apply wrap_range; lia)). cbn [Wrkr.succeed Wrkr.requests Wrkr.errors Wrkr.latencies_ns].
    change (answered (Some lat :: reqs)) with (lat :: answered reqs). cbn [length].
    unfold wrap. rewrite !Zplus_mod_idemp_l.
    f_equal; [f_equal; [f_equal; lia|f_equal; lia|]|f_equal; lia].
    destruct collect; [|done]. unfold push_back. by rewrite <- (assoc_L (++)).
  - rewrite IH by (done || (apply wrap_range; lia)). cbn [Wrkr.fail Wrkr.requests Wrkr.errors Wrkr.latencies_ns].
    change (answered (None :: reqs)) with (answered reqs). cbn [length].
    unfold wrap. rewrite !Zplus_mod_idemp_l. do 3 f_equal. lia.
Qed.

Lemma merge_spec collect rs p :
  in_u 64 (Wrkr.total_requests p) → in_u 64 (Wrkr.total_errors p) →
  foldl (Wrkr.merge_one collect) p (Some <$> rs) =
    Wrkr.mkPhase (Wrkr.total_requests p +[64] sum_over Wrkr.requests rs) (Wrkr.total_errors p +[64] sum_over Wrkr.errors rs)
      (if collect then Wrkr.all_latencies p ++ (rs ≫= Wrkr.latencies_ns) else Wrkr.all_latencies p).
Proof.
  revert p. induction rs as [|r rs IH]; intros p H1 H2.
  - simpl. rewrite !Z.add_0_r, !wrap_small, app_nil_r by done. destruct p; by destruct collect.
  - cbn [fmap list_fmap foldl]. rewrite IH by (apply wrap_range; lia). cbn [Wrkr.merge_one Wrkr.total_requests
      Wrkr.total_errors Wrkr.all_latencies sum_over foldr]. unfold wrap. rewrite !Zplus_mod_idemp_l, !Z.add_assoc.
    f_equal. destruct collect; [|done]. by rewrite <- (assoc_L (++)).
Qed.

(** All requests of a phase. *)
Definition total (tasks : list (list (option Z))) : Z := Z.of_nat (length (answered (concat tasks))).

Lemma wrap_add_wrap a b : a +[64] wrap 64 b = a +[64] b.
Proof. unfold wrap. by rewrite Zplus_mod_idemp_r. Qed.

Lemma http_phase_spec collect tasks k rs k' :
  in_u 64 k → Wrkr.http_phase collect tasks k = (rs, k') →
  k' = k +[64] total tasks ∧
  wrap 64 (sum_over Wrkr.requests rs) = wrap 64 (total tasks) ∧
  wrap 64 (sum_over Wrkr.errors rs) = wrap 64 (Z.of_nat (length (concat tasks)) - total tasks) ∧
  rs ≫= Wrkr.latencies_ns = if collect then answered (concat tasks) else [].
Proof.
  revert k rs k'. induction tasks as [|reqs tasks IH]; intros k rs k' Hk; cbn [Wrkr.http_phase].
  - intros [= <- <-]. unfold total. simpl. rewrite Z.add_0_r, wrap_small by done. by destruct collect.
  - rewrite http_task_spec by (done || split; simpl; lia).
    destruct (Wrkr.http_phase collect tasks _) as [rs1 k1] eqn:E. intros [= <- <-].
    apply IH in E as (-> & Hr & He & Hl); [|apply wrap_range; lia]. unfold total, answered in *. cbn [concat].
    rewrite omap_app, !length_app, !Nat2Z.inj_add. cbn [sum_over foldr Wrkr.requests Wrkr.errors Wrkr.conn_start].
    fold (sum_over Wrkr.requests rs1) (sum_over Wrkr.errors rs1). split_and!.
    + unfold wrap. rewrite Zplus_mod_idemp_l. f_equal. lia.
    + unfold wrap in *. rewrite Zplus_mod_idemp_l, Zplus_mod, Hr, <- Zplus_mod. done.
    + unfold wrap in *. rewrite Zplus_mod_idemp_l, Zplus_mod, He, <- Zplus_mod. f_equal. lia.
    + cbn [mbind list_bind Wrkr.latencies_ns]. rewrite Hl. by destruct collect.
Qed.

(** The accounts of an HTTP phase: the merged totals are the requests answered
    and the requests failed over all connections, the progress counter has grown
    by the former, and the latencies kept are exactly those measured, none lost
    and none twice. *)
Theorem phase_accounts collect tasks k rs k' :
  in_u 64 k → Wrkr.http_phase collect tasks k = (rs, k') →
  let p := Wrkr.merge_results collect (Some <$> rs) in
  Wrkr.total_requests p = wrap 64 (total tasks) ∧
  Wrkr.total_errors p = wrap 64 (Z.of_nat (length (concat tasks)) - total tasks) ∧
  k' = k +[64] total tasks ∧
  Wrkr.all_latencies p = if collect then answered (concat tasks) else [].
Proof.
  intros Hk Hp p. unfold p, Wrkr.merge_results. rewrite merge_spec by (split; simpl; lia).
  destruct (http_phase_spec _ _ _ _ _ Hk Hp) as (-> & Hr & He & Hl).
  cbn [Wrkr.total_requests Wrkr.total_errors Wrkr.all_latencies]. rewrite !Z.add_0_l, Hr, He, Hl. by destruct collect.
Qed.

Lemma phase_accounts_witness :
  Wrkr.total_requests (Wrkr.merge_results true (Some <$> (Wrkr.http_phase true [[Some 5; None]; [Some 7]] 0).1)) = 2.
Proof.
  exact (proj1 (phase_accounts true [[Some 5; None]; [Some 7]] 0 _ (Wrkr.http_phase true [[Some 5; None]; [Some 7]] 0).2
    (conj (Z.le_refl 0) eq_refl) eq_refl)).
Defined.

(** ** The echo strategy *)
Section Echo.
Context {S E : Type} (write_all : S → list Z → Result () E * S) (read : S → Z → Result (list Z) E * S) (eof : E).

(** A stream that gives at most what is asked for. *)
Definition bounded_reads : Prop :=
  ∀ s n, 0 < n → match (read s n).1 with Ok data => Z.of_nat (length data) ≤ n | Err _ => True end.

Lemma read_all_ends fuel s want total :
  bounded_reads → 0 ≤ total ≤ want → want < 2 ^ 64 → want - total ≤ Z.of_nat fuel →
  ∃ r s', Wrkr.read_all read eof fuel s want total = Some (Ret r, s').
Proof.
  intros Hb. revert s total. induction fuel as [|fuel IH]; intros s total Ht Hw Hf; cbn [Wrkr.read_all];
    (destruct (Z.ltb_spec total want); cbn [negb]; [|by eauto]); [lia|].
  destruct (Z.ltb_spec want total); [lia|]. pose proof (Hb s (want - total) ltac:(lia)) as Hr.
  destruct (read s (want - total)) as [[data|e] s1]; [|by eauto]. simpl in Hr.
  destruct (Z.eqb_spec (Z.of_nat (length data)) 0); [by eauto|].
  rewrite wrap_small by (unfold in_u; lia). apply IH; lia.
Qed.

(** A round trip always ends: at the latest after one read per byte of the
    payload, with success or with an error. *)
Theorem roundtrip_ends s payload_size :
  bounded_reads → 0 ≤ payload_size < 2 ^ 64 →
  ∃ r s', Wrkr.roundtrip write_all read eof (Z.to_nat payload_size) s payload_size = Some (Ret r, s').
Proof.
  intros Hb Hp. unfold Wrkr.roundtrip. destruct (write_all _ _) as [[u|e] s1]; [|by eauto].
  rewrite length_replicate. apply read_all_ends; [done|lia..].
Qed.

(** The answer is not looked at: a server that sends any bytes at all, as many
    as it was sent, passes for an echo server. *)
Theorem roundtrip_accepts_anything s s1 s2 payload data :
  0 < payload < 2 ^ 64 → (write_all s (replicate (Z.to_nat payload) 0x42)) = (Ok (), s1) →
  Z.of_nat (length data) = payload → read s1 payload = (Ok data, s2) →
  Wrkr.roundtrip write_all read eof 1 s payload = Some (Ret (Ok ()), s2).
Proof.
  intros Hp Hw Hd Hr. unfold Wrkr.roundtrip. rewrite Hw, length_replicate, Z2Nat.id by lia. cbn [Wrkr.read_all].
  destruct (Z.ltb_spec 0 payload); [|lia]. cbn [negb]. destruct (Z.ltb_spec payload 0); [lia|].
  rewrite Z.sub_0_r, Hr, Hd. destruct (Z.eqb_spec payload 0); [lia|]. rewrite Z.add_0_l, wrap_small by (unfold in_u; lia).
  by rewrite Z.ltb_irrefl.
Qed.
End Echo.

(** A server that answers with zeros. *)
Definition zeros_read (s : unit) (n : Z) : Result (list Z) unit * unit := (Ok (replicate (Z.to_nat n) 0), tt).
Definition any_write (s : unit) (b : list Z) : Result () unit * unit := (Ok (), tt).

Lemma roundtrip_ends_witness :
  ∃ r s', Wrkr.roundtrip any_write zeros_read tt 64 tt 64 = Some (Ret r, s').
Proof.
  apply (roundtrip_ends any_write zeros_read tt tt 64); [|lia]. intros s n Hn. simpl. rewrite length_replicate. lia.
Defined.

Lemma roundtrip_accepts_anything_witness :
  Wrkr.roundtrip any_write zeros_read tt 1 tt 8 = Some (Ret (Ok ()), tt).
Proof. apply (roundtrip_accepts_anything any_write zeros_read tt tt tt tt 8 (replicate 8 0)); (lia || reflexivity). Defined.

(** ** Text *)

(** What a JSON reader makes of the two escapes. *)
Fixpoint unescape (s : list Ascii.ascii) : list Ascii.ascii :=
  match s with
  | a :: s' => if bool_decide (a = Wrkr.backslash) then match s' with b :: s'' => b :: unescape s'' | [] => [a] end
               else a :: unescape s'
  | [] => []
  end.

Lemma escape_cons a s :
  Wrkr.escape (a :: s) =
  (if bool_decide (a = Wrkr.backslash ∨ a = Wrkr.quote) then [Wrkr.backslash; a] else [a]) ++ Wrkr.escape s.
Proof.
  unfold Wrkr.escape. rewrite bind_cons, bind_app. f_equal. unfold Wrkr.escape_char at 2.
  destruct (decide (Wrkr.backslash = a)) as [<-|Hb]; [done|]. rewrite (bool_decide_eq_false_2 _ Hb). simpl.
  unfold Wrkr.escape_char. destruct (decide (Wrkr.quote = a)) as [<-|Hq]; [done|].
  rewrite (bool_decide_eq_false_2 _ Hq), bool_decide_eq_false_2; [done|]. naive_solver.
Qed.

(** Reading back an escaped text gives the text. *)
Theorem escape_roundtrip s : unescape (Wrkr.escape s) = s.
Proof.
  induction s as [|a s IH]; [done|]. rewrite escape_cons. case_bool_decide as Ha; simpl.
  - by rewrite IH.
  - rewrite bool_decide_eq_false_2 by naive_solver. by rewrite IH.
Qed.

Lemma split_last_app a x y :
  Wrkr.split_last a y = None → Wrkr.split_last a (x +:+ String a y)%string = Some (x, y).
Proof.
  intros Hy. induction x as [|b x IH].
  - change ("" +:+ String a y)%string with (String a y). simpl. rewrite Hy. by rewrite bool_decide_eq_true_2.
  - change (String b x +:+ String a y)%string with (String b (x +:+ String a y)%string). simpl. by rewrite IH.
Qed.

Lemma strip_scheme_app p s : Wrkr.strip_prefix p (p +:+ s)%string = Some s.
Proof.
  induction p as [|a p IH]; [done|]. change (String a p +:+ s)%string with (String a (p +:+ s)%string). simpl.
  by rewrite bool_decide_eq_true_2.
Qed.

Lemma trim_end_last a x b : b ≠ a → Wrkr.trim_end a (x +:+ String b "")%string = (x +:+ String b "")%string.
Proof.
  intros Hb. induction x as [|c x IH].
  - change ("" +:+ String b "")%string with (String b ""). simpl. by rewrite (bool_decide_eq_false_2 (b = a)).
  - change (String c x +:+ String b "")%string with (String c (x +:+ String b "")%string). simpl. rewrite IH.
    rewrite bool_decide_eq_false_2; [done|]. by destruct x.
Qed.

(** The host and the port of an address are read back from it, whatever the
    host is: an IPv6 address keeps its colons and brackets.  A port that is not
    a number of 16 bits becomes 9000. *)
Theorem echo_addr_roundtrip host port d :
  Wrkr.split_last ":"%char (port +:+ String d "")%string = None → d ≠ "/"%char →
  Wrkr.parse_echo_addr ("echo://" +:+ host +:+ String ":"%char (port +:+ String d ""))%string =
    (host, default 9000 (SchedulerConfig.parse_uint 16 (port +:+ String d "")%string)).
Proof.
  intros Hp Hd. unfold Wrkr.parse_echo_addr. rewrite strip_scheme_app. change (default ?u (Some ?x)) with x.
  assert (Ht : Wrkr.trim_end "/"%char (host +:+ String ":"%char (port +:+ String d ""))%string =
    (host +:+ String ":"%char (port +:+ String d ""))%string).
  { replace (host +:+ String ":"%char (port +:+ String d ""))%string
      with ((host +:+ String ":"%char port) +:+ String d "")%string; [by apply trim_end_last|].
    induction host as [|c host IH]; [done|].
    change (String c (((host +:+ String ":"%char port) +:+ String d ""))%string =
            String c (host +:+ String ":"%char (port +:+ String d ""))%string). by rewrite IH. }
  rewrite Ht, split_last_app by done. done.
Qed.

Lemma echo_addr_roundtrip_witness : Wrkr.parse_echo_addr "echo://[::1]:8123" = ("[::1]"%string, 8123).
Proof. exact (echo_addr_roundtrip "[::1]" "812" "3"%char eq_refl ltac:(discriminate)). Defined.

(** The environment has the last word: WRKR_CONNECTIONS overrides [-c]; an
    HTTPS address is never left to hyper. *)
Theorem parse_args_result env args c :
  Wrkr.parse_args env args = Wrkr.Parsed c →
  Wrkr.url c ≠ "" ∧
  (Wrkr.starts_with "https://" (Wrkr.url c) = true → Wrkr.http_impl c = Wrkr.Reqwest) ∧
  (∀ v n, env !! "WRKR_CONNECTIONS" = Some v → Wrkr.parse_u64 v = Some n → Wrkr.connections c = n).
Proof.
  unfold Wrkr.parse_args. destruct (Wrkr.arg_loop args Wrkr.default_cfg) as [c0|]; [|done].
  set (c1 := Wrkr.override env "WRKR_WARMUP" _ _).
  assert (Hc : ∀ v n, env !! "WRKR_CONNECTIONS" = Some v → Wrkr.parse_u64 v = Some n → Wrkr.connections c1 = n).
  { intros v n Hv Hn. unfold c1, Wrkr.override. rewrite Hv, Hn. by repeat case_match. }
  clearbody c1. intros H. set (r := match env !! "gvt_app_http" with Some _ => _ | None => _ end) in H.
  assert (Hr : ∀ c2, r = Some c2 → Wrkr.connections c2 = Wrkr.connections c1).
  { unfold r. intros c2. repeat case_match; intros; by simplify_eq. }
  destruct r as [c2|]; [|done]. specialize (Hr c2 eq_refl).
  destruct (Wrkr.starts_with "https://" (Wrkr.url c2)) eqn:Hs; cbn [andb] in H.
  - case_bool_decide as Hh; case_bool_decide as Hu; simplify_eq/=; split_and!; try done;
      try (intros v n Hv Hn; rewrite Hr; by eauto). intros _. by destruct (Wrkr.http_impl c).
  - case_bool_decide as Hu; simplify_eq/=. split_and!; [done|by rewrite Hs|]. intros v n Hv Hn. rewrite Hr. eauto.
Qed.

Lemma parse_args_result_witness :
  ∃ c, Wrkr.parse_args {[ "WRKR_CONNECTIONS" := "7" ]} ["https://example.com/"; "-c"; "20"] = Wrkr.Parsed c ∧
    Wrkr.http_impl c = Wrkr.Reqwest ∧ Wrkr.connections c = 7.
Proof.
  eexists. split; [vm_compute; reflexivity|]. split.
  - apply (parse_args_result {[ "WRKR_CONNECTIONS" := "7" ]} ["https://example.com/"; "-c"; "20"]); vm_compute; reflexivity.
  - apply (parse_args_result {[ "WRKR_CONNECTIONS" := "7" ]} ["https://example.com/"; "-c"; "20"]) with "7"; vm_compute; reflexivity.
Defined.
